(** * STCalc: the 1D compressible Euler solver with HLLC flux

    A shallow embedding of [js/euler-solver.js] (class [EulerSolver]) and of
    the time integrators of [js/xt-mixture.js] ([TimeIntegrator],
    [RK2Integrator], [SSPIntegrator], [IntegratorFactory]).

    Every function of the solver is translated once, over an interface
    [Number] of the operations the code applies to JavaScript numbers.  Two
    instances are given:
    - [F64.number]: IEEE-754 binary64 with the semantics of JavaScript
      ([PrimFloat]); every definition evaluates under it, bit for bit;
    - [Exact.number]: the real numbers, for statements about the scheme in
      exact arithmetic.

    A [Float64Array] is a [list] read by index ([get]); a loop that fills an
    array of [n] slots is [tabulate n].  A JavaScript exception is the
    [Throw] of the [outcome] monad. *)

From Stdlib Require Import String List ZArith Bool Arith Lia.
From Stdlib Require Import Reals Lra Floats Uint63.
From Stdlib Require Import Sorting.Sorted Sorting.Permutation.
Import ListNotations.

Set Implicit Arguments.

(** ** JavaScript numbers *)

Declare Scope js_scope.
Delimit Scope js_scope with js.

Class Number (F : Type) : Type := {
  (** the number an integer denotes (loop counters, integer literals) *)
  of_Z : Z -> F;
  (** what arithmetic on [undefined] gives *)
  NaN : F;
  add : F -> F -> F;
  sub : F -> F -> F;
  mul : F -> F -> F;
  div : F -> F -> F;
  neg : F -> F;
  (** [Math.sqrt], [Math.abs], [Math.floor], [Math.ceil] *)
  sqrt : F -> F;
  abs : F -> F;
  floor : F -> F;
  ceil : F -> F;
  (** [a < b] and [a <= b] *)
  ltb : F -> F -> bool;
  leb : F -> F -> bool;
  (** [Math.min], [Math.max] *)
  min : F -> F -> F;
  max : F -> F -> F;
  (** the slot of an array a number used as a key names, if any *)
  to_index : F -> option nat
}.

Infix "+" := add : js_scope.
Infix "-" := sub : js_scope.
Infix "*" := mul : js_scope.
Infix "/" := div : js_scope.
Notation "- x" := (neg x) : js_scope.
Infix "<?" := ltb : js_scope.
Infix "<=?" := leb : js_scope.
Notation "a >? b" := (ltb b a) : js_scope.
Notation "a >=? b" := (leb b a) : js_scope.

Section NumberOps.
Context {F : Type} `{Number F}.
Local Open Scope js_scope.

(** A decimal literal [n/d] of the source ([0.5] is [lit 1 2]). *)
Definition lit (n d : Z) : F := of_Z n / of_Z d.

Definition of_nat (n : nat) : F := of_Z (Z.of_nat n).

(** [x || d] for a number [x]: [0] and [NaN] are falsy. *)
Definition falsy (x : F) : bool := negb (x <? of_Z 0) && negb (of_Z 0 <? x).

Definition or_default (x : option F) (d : F) : F :=
  match x with
  | None => d
  | Some v => if falsy v then d else v
  end.

(** Reading slot [i] of a typed array: a slot outside it is [undefined],
    which every use below turns into [NaN]. *)
Definition get (a : list F) (i : nat) : F := nth i a NaN.

Definition sum (a : list F) : F := fold_left add a (of_Z 0).
End NumberOps.

(** A loop [for (i = 0; i < n; i++) a[i] = f(i)] over an array of [n] slots. *)
Definition tabulate {A : Type} (n : nat) (f : nat -> A) : list A :=
  map f (seq 0 n).

(** A loop [for (i = 0; i < n; i++) for (k = 0; k < w; k++) a[i*w + k] = f(i, k)]
    over an array of [n * w] slots. *)
Definition tabulate2 {A : Type} (n w : nat) (f : nat -> nat -> A) : list A :=
  flat_map (fun i => tabulate w (f i)) (seq 0 n).

(** ** binary64, as JavaScript computes *)

Module F64.
Local Open Scope float_scope.

Definition of_Z (z : Z) : float :=
  if (z <? 0)%Z then - PrimFloat.of_uint63 (Uint63.of_Z (- z))
  else PrimFloat.of_uint63 (Uint63.of_Z z).

Definition is_neg_zero (x : float) : bool :=
  match Prim2SF x with S754_zero true => true | _ => false end.

(** [Math.min] and [Math.max]: [NaN] when an argument is, and [-0 < +0]. *)
Definition min (a b : float) : float :=
  if is_nan a || is_nan b then nan
  else if a <? b then a
  else if b <? a then b
  else if is_neg_zero a then a else b.

Definition max (a b : float) : float :=
  if is_nan a || is_nan b then nan
  else if a <? b then b
  else if b <? a then a
  else if is_neg_zero a then b else a.

(** [Math.floor], on the mantissa and exponent of the number. *)
Definition floor (x : float) : float :=
  match Prim2SF x with
  | S754_finite s m e =>
      if (0 <=? e)%Z then x
      else
        let q := Z.shiftr (Zpos m) (- e) in
        let exact := (Z.shiftl q (- e) =? Zpos m)%Z in
        if s then (if exact then of_Z (- q) else of_Z (- (q + 1)))
        else of_Z q
  | _ => x
  end.

Definition ceil (x : float) : float := - floor (- x).

Definition to_index (x : float) : option nat :=
  match Prim2SF x with
  | S754_zero _ => Some 0%nat
  | S754_finite false m e =>
      if (0 <=? e)%Z then Some (Z.to_nat (Z.shiftl (Zpos m) e))
      else
        let q := Z.shiftr (Zpos m) (- e) in
        if (Z.shiftl q (- e) =? Zpos m)%Z then Some (Z.to_nat q) else None
  | _ => None
  end.

#[global] Instance number : Number float := {
  of_Z := of_Z;
  NaN := nan;
  add := PrimFloat.add;
  sub := PrimFloat.sub;
  mul := PrimFloat.mul;
  div := PrimFloat.div;
  neg := PrimFloat.opp;
  sqrt := PrimFloat.sqrt;
  abs := PrimFloat.abs;
  floor := floor;
  ceil := ceil;
  ltb := PrimFloat.ltb;
  leb := PrimFloat.leb;
  min := min;
  max := max;
  to_index := to_index
}.
End F64.

(** ** Exact arithmetic *)

Module Exact.
Local Open Scope R_scope.

Definition ltb (a b : R) : bool := if Rlt_dec a b then true else false.
Definition leb (a b : R) : bool := if Rle_dec a b then true else false.

Definition to_index (x : R) : option nat :=
  if Req_dec_T x (IZR (Zfloor x)) then
    if (0 <=? Zfloor x)%Z then Some (Z.to_nat (Zfloor x)) else None
  else None.

(** There is no [NaN] among the reals; the statements below never read
    outside an array, so the value chosen here is never looked at. *)
#[global] Instance number : Number R := {
  of_Z := IZR;
  NaN := 0;
  add := Rplus;
  sub := Rminus;
  mul := Rmult;
  div := Rdiv;
  neg := Ropp;
  sqrt := R_sqrt.sqrt;
  abs := Rabs;
  floor := fun x => IZR (Zfloor x);
  ceil := fun x => IZR (Zceil x);
  ltb := ltb;
  leb := leb;
  min := Rmin;
  max := Rmax;
  to_index := to_index
}.
End Exact.

(** ** Exceptions *)

Inductive JsError : Type :=
| TypeError (msg : string)
| RangeError (msg : string).

Inductive outcome (A : Type) : Type :=
| Ok (a : A)
| Throw (e : JsError).
Arguments Ok {A} a.
Arguments Throw {A} e.

Definition bind {A B : Type} (m : outcome A) (k : A -> outcome B) : outcome B :=
  match m with
  | Ok a => k a
  | Throw e => Throw e
  end.

Notation "x <- m ;; k" := (bind m (fun x => k))
  (at level 61, m at next level, right associativity).

(** A loop whose body may throw, run for each element in order. *)
Fixpoint mapM {A B : Type} (f : A -> outcome B) (l : list A) : outcome (list B) :=
  match l with
  | [] => Ok []
  | a :: l' => b <- f a ;; bs <- mapM f l' ;; Ok (b :: bs)
  end.

(** [a[i].field] for an array of objects: reading a property of
    [undefined] throws. *)
Definition item {A : Type} (a : list A) (i : nat) (what : string) : outcome A :=
  match nth_error a i with
  | Some v => Ok v
  | None => Throw (TypeError what)
  end.


(** ** Time integrators ([js/xt-mixture.js]) *)

(** The two subclasses of [TimeIntegrator]. *)
Inductive Integrator : Type :=
| RK2Integrator
| SSPIntegrator.

Definition integrator_name (i : Integrator) : string :=
  match i with
  | RK2Integrator => "RK2"
  | SSPIntegrator => "SSP"
  end.

(** What the console receives. *)
Inductive ConsoleLine : Type :=
| console_warn (msg : string).

(** [IntegratorFactory.create(name)]: the integrator returned and what was
    written to the console. *)
Definition IntegratorFactory_create (name : string) : Integrator * list ConsoleLine :=
  if String.eqb name "RK2" then (RK2Integrator, [])
  else if String.eqb name "SSP" then (SSPIntegrator, [])
  else (RK2Integrator,
        [console_warn ("Unknown integrator: " ++ name ++ ", defaulting to RK2")%string]).

(** [s || d] for a string property: absent and empty are falsy. *)
Definition string_or_default (s : option string) (d : string) : string :=
  match s with
  | None => d
  | Some EmptyString => d
  | Some v => v
  end.

(** ** The solver ([js/euler-solver.js]) *)

(** A gas identifier; [None] is [undefined]. *)
Definition GasId : Type := option string.

Section EulerSolver.
Context {F : Type} `{Number F}.
Local Open Scope js_scope.

(** One entry of the [slabs] argument of [initialize]. *)
Record Slab : Type := mkSlab {
  slab_gasId : GasId;
  slab_gamma : F;
  slab_mw : F;
  slab_pressure : F;
  slab_temperature : F;
  slab_length : F
}.

(** [{gamma, mw, gasId}], an entry of [regions] and of [materialProperties]. *)
Record Region : Type := mkRegion {
  region_gamma : F;
  region_mw : F;
  region_gasId : GasId
}.

(** A trajectory sample [{t, x}]. *)
Record Sample : Type := mkSample {
  sample_t : F;
  sample_x : F
}.

(** A Lagrangian tracer [{x, trajectory}]. *)
Record Tracer : Type := mkTracer {
  tracer_x : F;
  trajectory : list Sample
}.

(** An entry of [xtData]. *)
Record Snapshot : Type := mkSnapshot {
  snap_t : F;
  snap_rho : list F;
  snap_u : list F;
  snap_p : list F;
  snap_T : list F;
  snap_gamma : list F;
  snap_mw : list F;
  snap_gasId : list GasId
}.

(** The [config] argument of the constructor; [None] is an absent property. *)
Record Config : Type := mkConfig {
  config_nx : option nat;
  config_cfl : option F;
  config_finalTime : option F;
  config_interfaceMethod : option string;
  config_integrator : option string;
  config_xtInterval : option F
}.

Record Solver : Type := mkSolver {
  nx : nat;  (* number of grid cells *)
  cfl : F;  (* CFL number *)
  finalTime : F;  (* final simulation time *)
  interfaceMethod : string;  (* 'sharp', 'ghost' or 'mixed' *)
  integrator : Integrator;  (* time integrator instance *)
  x : list F;  (* cell centers *)
  dx : F;  (* grid spacing *)
  U : list F;  (* current state, 3 slots per cell *)
  Un : list F;  (* storage buffer *)
  Uk : list F;  (* work buffer *)
  rho : list F;
  u : list F;
  p : list F;
  T : list F;
  gamma : list F;  (* gas properties per cell *)
  mw : list F;
  gasId : list GasId;
  flux : list F;  (* 3 slots per interface *)
  t : F;
  dt : F;
  timeSteps : nat;
  xtData : list Snapshot;  (* snapshots, oldest first *)
  xtInterval : F;
  nextXTStore : F;
  tracers : list Tracer;
  regions : list Region;
  numMaterials : nat;
  materialFractions : option (list F);  (* null until initialize allocates it *)
  materialProperties : list Region;
  materialFlux : option (list F);
  interfaceCells : list nat;  (* the Set of marked cells, in insertion order *)
  Ru : F  (* universal gas constant *)
}.

(** Assignments [this.f = v]. *)
Definition set_x (v : list F) (s : Solver) : Solver :=
  mkSolver (nx s) (cfl s) (finalTime s) (interfaceMethod s) (integrator s) v (dx s)
    (U s) (Un s) (Uk s) (rho s) (u s) (p s) (T s) (gamma s) (mw s) (gasId s) (flux s)
    (t s) (dt s) (timeSteps s) (xtData s) (xtInterval s) (nextXTStore s) (tracers s)
    (regions s) (numMaterials s) (materialFractions s) (materialProperties s)
    (materialFlux s) (interfaceCells s) (Ru s).
Definition set_dx (v : F) (s : Solver) : Solver :=
  mkSolver (nx s) (cfl s) (finalTime s) (interfaceMethod s) (integrator s) (x s) v
    (U s) (Un s) (Uk s) (rho s) (u s) (p s) (T s) (gamma s) (mw s) (gasId s) (flux s)
    (t s) (dt s) (timeSteps s) (xtData s) (xtInterval s) (nextXTStore s) (tracers s)
    (regions s) (numMaterials s) (materialFractions s) (materialProperties s)
    (materialFlux s) (interfaceCells s) (Ru s).
Definition set_U (v : list F) (s : Solver) : Solver :=
  mkSolver (nx s) (cfl s) (finalTime s) (interfaceMethod s) (integrator s) (x s)
    (dx s) v (Un s) (Uk s) (rho s) (u s) (p s) (T s) (gamma s) (mw s) (gasId s)
    (flux s) (t s) (dt s) (timeSteps s) (xtData s) (xtInterval s) (nextXTStore s)
    (tracers s) (regions s) (numMaterials s) (materialFractions s)
    (materialProperties s) (materialFlux s) (interfaceCells s) (Ru s).
Definition set_Un (v : list F) (s : Solver) : Solver :=
  mkSolver (nx s) (cfl s) (finalTime s) (interfaceMethod s) (integrator s) (x s)
    (dx s) (U s) v (Uk s) (rho s) (u s) (p s) (T s) (gamma s) (mw s) (gasId s)
    (flux s) (t s) (dt s) (timeSteps s) (xtData s) (xtInterval s) (nextXTStore s)
    (tracers s) (regions s) (numMaterials s) (materialFractions s)
    (materialProperties s) (materialFlux s) (interfaceCells s) (Ru s).
Definition set_Uk (v : list F) (s : Solver) : Solver :=
  mkSolver (nx s) (cfl s) (finalTime s) (interfaceMethod s) (integrator s) (x s)
    (dx s) (U s) (Un s) v (rho s) (u s) (p s) (T s) (gamma s) (mw s) (gasId s)
    (flux s) (t s) (dt s) (timeSteps s) (xtData s) (xtInterval s) (nextXTStore s)
    (tracers s) (regions s) (numMaterials s) (materialFractions s)
    (materialProperties s) (materialFlux s) (interfaceCells s) (Ru s).
Definition set_rho (v : list F) (s : Solver) : Solver :=
  mkSolver (nx s) (cfl s) (finalTime s) (interfaceMethod s) (integrator s) (x s)
    (dx s) (U s) (Un s) (Uk s) v (u s) (p s) (T s) (gamma s) (mw s) (gasId s) (flux s)
    (t s) (dt s) (timeSteps s) (xtData s) (xtInterval s) (nextXTStore s) (tracers s)
    (regions s) (numMaterials s) (materialFractions s) (materialProperties s)
    (materialFlux s) (interfaceCells s) (Ru s).
Definition set_u (v : list F) (s : Solver) : Solver :=
  mkSolver (nx s) (cfl s) (finalTime s) (interfaceMethod s) (integrator s) (x s)
    (dx s) (U s) (Un s) (Uk s) (rho s) v (p s) (T s) (gamma s) (mw s) (gasId s)
    (flux s) (t s) (dt s) (timeSteps s) (xtData s) (xtInterval s) (nextXTStore s)
    (tracers s) (regions s) (numMaterials s) (materialFractions s)
    (materialProperties s) (materialFlux s) (interfaceCells s) (Ru s).
Definition set_p (v : list F) (s : Solver) : Solver :=
  mkSolver (nx s) (cfl s) (finalTime s) (interfaceMethod s) (integrator s) (x s)
    (dx s) (U s) (Un s) (Uk s) (rho s) (u s) v (T s) (gamma s) (mw s) (gasId s)
    (flux s) (t s) (dt s) (timeSteps s) (xtData s) (xtInterval s) (nextXTStore s)
    (tracers s) (regions s) (numMaterials s) (materialFractions s)
    (materialProperties s) (materialFlux s) (interfaceCells s) (Ru s).
Definition set_T (v : list F) (s : Solver) : Solver :=
  mkSolver (nx s) (cfl s) (finalTime s) (interfaceMethod s) (integrator s) (x s)
    (dx s) (U s) (Un s) (Uk s) (rho s) (u s) (p s) v (gamma s) (mw s) (gasId s)
    (flux s) (t s) (dt s) (timeSteps s) (xtData s) (xtInterval s) (nextXTStore s)
    (tracers s) (regions s) (numMaterials s) (materialFractions s)
    (materialProperties s) (materialFlux s) (interfaceCells s) (Ru s).
Definition set_gamma (v : list F) (s : Solver) : Solver :=
  mkSolver (nx s) (cfl s) (finalTime s) (interfaceMethod s) (integrator s) (x s)
    (dx s) (U s) (Un s) (Uk s) (rho s) (u s) (p s) (T s) v (mw s) (gasId s) (flux s)
    (t s) (dt s) (timeSteps s) (xtData s) (xtInterval s) (nextXTStore s) (tracers s)
    (regions s) (numMaterials s) (materialFractions s) (materialProperties s)
    (materialFlux s) (interfaceCells s) (Ru s).
Definition set_mw (v : list F) (s : Solver) : Solver :=
  mkSolver (nx s) (cfl s) (finalTime s) (interfaceMethod s) (integrator s) (x s)
    (dx s) (U s) (Un s) (Uk s) (rho s) (u s) (p s) (T s) (gamma s) v (gasId s)
    (flux s) (t s) (dt s) (timeSteps s) (xtData s) (xtInterval s) (nextXTStore s)
    (tracers s) (regions s) (numMaterials s) (materialFractions s)
    (materialProperties s) (materialFlux s) (interfaceCells s) (Ru s).
Definition set_gasId (v : list GasId) (s : Solver) : Solver :=
  mkSolver (nx s) (cfl s) (finalTime s) (interfaceMethod s) (integrator s) (x s)
    (dx s) (U s) (Un s) (Uk s) (rho s) (u s) (p s) (T s) (gamma s) (mw s) v (flux s)
    (t s) (dt s) (timeSteps s) (xtData s) (xtInterval s) (nextXTStore s) (tracers s)
    (regions s) (numMaterials s) (materialFractions s) (materialProperties s)
    (materialFlux s) (interfaceCells s) (Ru s).
Definition set_flux (v : list F) (s : Solver) : Solver :=
  mkSolver (nx s) (cfl s) (finalTime s) (interfaceMethod s) (integrator s) (x s)
    (dx s) (U s) (Un s) (Uk s) (rho s) (u s) (p s) (T s) (gamma s) (mw s) (gasId s) v
    (t s) (dt s) (timeSteps s) (xtData s) (xtInterval s) (nextXTStore s) (tracers s)
    (regions s) (numMaterials s) (materialFractions s) (materialProperties s)
    (materialFlux s) (interfaceCells s) (Ru s).
Definition set_t (v : F) (s : Solver) : Solver :=
  mkSolver (nx s) (cfl s) (finalTime s) (interfaceMethod s) (integrator s) (x s)
    (dx s) (U s) (Un s) (Uk s) (rho s) (u s) (p s) (T s) (gamma s) (mw s) (gasId s)
    (flux s) v (dt s) (timeSteps s) (xtData s) (xtInterval s) (nextXTStore s)
    (tracers s) (regions s) (numMaterials s) (materialFractions s)
    (materialProperties s) (materialFlux s) (interfaceCells s) (Ru s).
Definition set_dt (v : F) (s : Solver) : Solver :=
  mkSolver (nx s) (cfl s) (finalTime s) (interfaceMethod s) (integrator s) (x s)
    (dx s) (U s) (Un s) (Uk s) (rho s) (u s) (p s) (T s) (gamma s) (mw s) (gasId s)
    (flux s) (t s) v (timeSteps s) (xtData s) (xtInterval s) (nextXTStore s)
    (tracers s) (regions s) (numMaterials s) (materialFractions s)
    (materialProperties s) (materialFlux s) (interfaceCells s) (Ru s).
Definition set_timeSteps (v : nat) (s : Solver) : Solver :=
  mkSolver (nx s) (cfl s) (finalTime s) (interfaceMethod s) (integrator s) (x s)
    (dx s) (U s) (Un s) (Uk s) (rho s) (u s) (p s) (T s) (gamma s) (mw s) (gasId s)
    (flux s) (t s) (dt s) v (xtData s) (xtInterval s) (nextXTStore s) (tracers s)
    (regions s) (numMaterials s) (materialFractions s) (materialProperties s)
    (materialFlux s) (interfaceCells s) (Ru s).
Definition set_xtData (v : list Snapshot) (s : Solver) : Solver :=
  mkSolver (nx s) (cfl s) (finalTime s) (interfaceMethod s) (integrator s) (x s)
    (dx s) (U s) (Un s) (Uk s) (rho s) (u s) (p s) (T s) (gamma s) (mw s) (gasId s)
    (flux s) (t s) (dt s) (timeSteps s) v (xtInterval s) (nextXTStore s) (tracers s)
    (regions s) (numMaterials s) (materialFractions s) (materialProperties s)
    (materialFlux s) (interfaceCells s) (Ru s).
Definition set_nextXTStore (v : F) (s : Solver) : Solver :=
  mkSolver (nx s) (cfl s) (finalTime s) (interfaceMethod s) (integrator s) (x s)
    (dx s) (U s) (Un s) (Uk s) (rho s) (u s) (p s) (T s) (gamma s) (mw s) (gasId s)
    (flux s) (t s) (dt s) (timeSteps s) (xtData s) (xtInterval s) v (tracers s)
    (regions s) (numMaterials s) (materialFractions s) (materialProperties s)
    (materialFlux s) (interfaceCells s) (Ru s).
Definition set_tracers (v : list Tracer) (s : Solver) : Solver :=
  mkSolver (nx s) (cfl s) (finalTime s) (interfaceMethod s) (integrator s) (x s)
    (dx s) (U s) (Un s) (Uk s) (rho s) (u s) (p s) (T s) (gamma s) (mw s) (gasId s)
    (flux s) (t s) (dt s) (timeSteps s) (xtData s) (xtInterval s) (nextXTStore s) v
    (regions s) (numMaterials s) (materialFractions s) (materialProperties s)
    (materialFlux s) (interfaceCells s) (Ru s).
Definition set_regions (v : list Region) (s : Solver) : Solver :=
  mkSolver (nx s) (cfl s) (finalTime s) (interfaceMethod s) (integrator s) (x s)
    (dx s) (U s) (Un s) (Uk s) (rho s) (u s) (p s) (T s) (gamma s) (mw s) (gasId s)
    (flux s) (t s) (dt s) (timeSteps s) (xtData s) (xtInterval s) (nextXTStore s)
    (tracers s) v (numMaterials s) (materialFractions s) (materialProperties s)
    (materialFlux s) (interfaceCells s) (Ru s).
Definition set_numMaterials (v : nat) (s : Solver) : Solver :=
  mkSolver (nx s) (cfl s) (finalTime s) (interfaceMethod s) (integrator s) (x s)
    (dx s) (U s) (Un s) (Uk s) (rho s) (u s) (p s) (T s) (gamma s) (mw s) (gasId s)
    (flux s) (t s) (dt s) (timeSteps s) (xtData s) (xtInterval s) (nextXTStore s)
    (tracers s) (regions s) v (materialFractions s) (materialProperties s)
    (materialFlux s) (interfaceCells s) (Ru s).
Definition set_materialFractions (v : option (list F)) (s : Solver) : Solver :=
  mkSolver (nx s) (cfl s) (finalTime s) (interfaceMethod s) (integrator s) (x s)
    (dx s) (U s) (Un s) (Uk s) (rho s) (u s) (p s) (T s) (gamma s) (mw s) (gasId s)
    (flux s) (t s) (dt s) (timeSteps s) (xtData s) (xtInterval s) (nextXTStore s)
    (tracers s) (regions s) (numMaterials s) v (materialProperties s) (materialFlux s)
    (interfaceCells s) (Ru s).
Definition set_materialProperties (v : list Region) (s : Solver) : Solver :=
  mkSolver (nx s) (cfl s) (finalTime s) (interfaceMethod s) (integrator s) (x s)
    (dx s) (U s) (Un s) (Uk s) (rho s) (u s) (p s) (T s) (gamma s) (mw s) (gasId s)
    (flux s) (t s) (dt s) (timeSteps s) (xtData s) (xtInterval s) (nextXTStore s)
    (tracers s) (regions s) (numMaterials s) (materialFractions s) v (materialFlux s)
    (interfaceCells s) (Ru s).
Definition set_materialFlux (v : option (list F)) (s : Solver) : Solver :=
  mkSolver (nx s) (cfl s) (finalTime s) (interfaceMethod s) (integrator s) (x s)
    (dx s) (U s) (Un s) (Uk s) (rho s) (u s) (p s) (T s) (gamma s) (mw s) (gasId s)
    (flux s) (t s) (dt s) (timeSteps s) (xtData s) (xtInterval s) (nextXTStore s)
    (tracers s) (regions s) (numMaterials s) (materialFractions s)
    (materialProperties s) v (interfaceCells s) (Ru s).
Definition set_interfaceCells (v : list nat) (s : Solver) : Solver :=
  mkSolver (nx s) (cfl s) (finalTime s) (interfaceMethod s) (integrator s) (x s)
    (dx s) (U s) (Un s) (Uk s) (rho s) (u s) (p s) (T s) (gamma s) (mw s) (gasId s)
    (flux s) (t s) (dt s) (timeSteps s) (xtData s) (xtInterval s) (nextXTStore s)
    (tracers s) (regions s) (numMaterials s) (materialFractions s)
    (materialProperties s) (materialFlux s) v (Ru s).

(** [new Float64Array(n)]. *)
Definition zeros (n : nat) : list F := repeat (of_Z 0) n.

(** [constructor(config)]: the new solver and what the factory wrote to the
    console. *)
Definition EulerSolver (config : Config) : Solver * list ConsoleLine :=
  let nx := match config_nx config with
            | Some (S n) => S n
            | _ => 500%nat
            end in
  let made := IntegratorFactory_create
                (string_or_default (config_integrator config) "RK2") in
  (mkSolver nx
     (or_default (config_cfl config) (lit 4 10))
     (or_default (config_finalTime config) (lit 2 100))
     (string_or_default (config_interfaceMethod config) "sharp")
     (fst made)
     (zeros nx) (of_Z 0)
     (zeros (nx * 3)) (zeros (nx * 3)) (zeros (nx * 3))
     (zeros nx) (zeros nx) (zeros nx) (zeros nx)
     (zeros nx) (zeros nx) (repeat None nx)
     (zeros ((nx + 1) * 3))
     (of_Z 0) (of_Z 0) 0%nat
     [] (or_default (config_xtInterval config) (lit 1 10000)) (of_Z 0)
     [] []
     0%nat None [] None
     []
     (lit 831451 100),
   snd made).

(** *** updatePrimitives *)

(** The body of the loop of [updatePrimitives] for cell [i]:
    [(rho[i], u[i], p[i], T[i])]. *)
Definition primitives_of_cell (s : Solver) (i : nat) : F * F * F * F :=
  let idx := (i * 3)%nat in
  let rho_i := get (U s) idx in
  let rhou := get (U s) (idx + 1) in
  let E := get (U s) (idx + 2) in
  let gamma_i := get (gamma s) i in
  let u_i := rhou / rho_i in
  let p_i := (gamma_i - of_Z 1) * (E - lit 1 2 * rho_i * u_i * u_i) in
  let R := Ru s / get (mw s) i in
  let T_i := p_i / (rho_i * R) in
  (rho_i, u_i, p_i, T_i).

Definition updatePrimitives (s : Solver) : Solver :=
  let cells := tabulate (nx s) (primitives_of_cell s) in
  set_rho (map (fun c => fst (fst (fst c))) cells)
    (set_u (map (fun c => snd (fst (fst c))) cells)
      (set_p (map (fun c => snd (fst c)) cells)
        (set_T (map (fun c => snd c) cells) s))).

(** *** storeXTData *)

Definition storeXTData (s : Solver) : Solver :=
  let snapshot :=
    mkSnapshot (t s) (rho s) (u s) (p s) (T s) (gamma s) (mw s) (gasId s) in
  set_xtData (xtData s ++ [snapshot]) s.

(** *** initialize *)

(** The [while] loop of [initialize] that finds the slab of a cell: it
    advances [(currentPos, slabIndex)] while the cell center lies at or
    beyond the end of the current slab and a next slab exists.  [n] bounds
    the iterations; [length slabs] of them always suffice, since each one
    increments [slabIndex]. *)
Fixpoint advance_slab (n : nat) (slabs : list Slab) (cellCenter : F)
    (currentPos : F) (slabIndex : nat) : F * nat :=
  match n with
  | O => (currentPos, slabIndex)
  | S n' =>
      match nth_error slabs slabIndex with
      | Some slab =>
          if (Z.of_nat slabIndex <? Z.of_nat (length slabs) - 1)%Z
             && (cellCenter >=? currentPos + slab_length slab)
          then advance_slab n' slabs cellCenter
                 (currentPos + slab_length slab) (S slabIndex)
          else (currentPos, slabIndex)
      | None => (currentPos, slabIndex)
      end
  end.

(** The cell loop of [initialize]: the slab each cell takes its gas and its
    initial state from, in cell order.  [slabs[slabIndex]] is [undefined]
    only when [slabs] is empty, and reading its [gamma] throws. *)
Fixpoint assign_slabs (slabs : list Slab) (centers : list F)
    (currentPos : F) (slabIndex : nat) : outcome (list Slab) :=
  match centers with
  | [] => Ok []
  | cellCenter :: rest =>
      let '(currentPos', slabIndex') :=
        advance_slab (length slabs) slabs cellCenter currentPos slabIndex in
      slab <- item slabs slabIndex'
                "Cannot read properties of undefined (reading 'gamma')" ;;
      more <- assign_slabs slabs rest currentPos' slabIndex' ;;
      Ok (slab :: more)
  end.

(** The three conservative slots of a cell filled from [slab]. *)
Definition initial_state (Ru_ : F) (slab : Slab) : list F :=
  let R := Ru_ / slab_mw slab in
  let rho_i := slab_pressure slab / (R * slab_temperature slab) in
  let u_i := of_Z 0 in
  let p_i := slab_pressure slab in
  let E := p_i / (slab_gamma slab - of_Z 1) + lit 1 2 * rho_i * u_i * u_i in
  [rho_i; rho_i * u_i; E].

Definition region_of_slab (slab : Slab) : Region :=
  mkRegion (slab_gamma slab) (slab_mw slab) (slab_gasId slab).

(** The position after the first [k] slabs ([currentPos], [tempPos]). *)
Definition position_after (slabs : list Slab) (k : nat) : F :=
  fold_left (fun pos slab => pos + slab_length slab) (firstn k slabs) (of_Z 0).

(** The tracers [initialize] pushes: one at the end of every slab but the
    last. *)
Definition initial_tracers (slabs : list Slab) : list Tracer :=
  map (fun i =>
         let currentPos := position_after slabs (S i) in
         mkTracer currentPos [mkSample (of_Z 0) currentPos])
      (seq 0 (length slabs - 1)).

(** The share of cell [i] that slab [k] overlaps. *)
Definition initial_fraction (s : Solver) (slabs : list Slab) (i k : nat) : F :=
  let cellLeft := of_nat i * dx s in
  let cellRight := of_nat (i + 1) * dx s in
  let slabLeft := position_after slabs k in
  let slabRight :=
    slabLeft + match nth_error slabs k with
               | Some slab => slab_length slab
               | None => NaN
               end in
  let overlapLeft := max cellLeft slabLeft in
  let overlapRight := min cellRight slabRight in
  let overlap := max (of_Z 0) (overlapRight - overlapLeft) in
  overlap / dx s.

Definition initialize_mixed (slabs : list Slab) (s : Solver) : Solver :=
  if String.eqb (interfaceMethod s) "mixed" then
    let n := length slabs in
    set_numMaterials n
      (set_materialFractions
         (Some (tabulate2 (nx s) n (initial_fraction s slabs)))
         (set_materialFlux (Some (zeros ((nx s + 1) * n)))
            (set_materialProperties (map region_of_slab slabs) s)))
  else s.

Definition initialize (s : Solver) (slabs : list Slab) : outcome Solver :=
  let totalLength :=
    fold_left (fun sum slab => sum + slab_length slab) slabs (of_Z 0) in
  let s := set_dx (totalLength / of_nat (nx s)) s in
  let s := set_x (tabulate (nx s) (fun i => (of_nat i + lit 1 2) * dx s)) s in
  chosen <- assign_slabs slabs (x s) (of_Z 0) 0 ;;
  let s := set_gamma (map slab_gamma chosen) s in
  let s := set_mw (map slab_mw chosen) s in
  let s := set_gasId (map slab_gasId chosen) s in
  let s := set_U (flat_map (initial_state (Ru s)) chosen) s in
  let s := set_regions (map region_of_slab slabs) s in
  let s := set_tracers (tracers s ++ initial_tracers slabs) s in
  let s := initialize_mixed slabs s in
  Ok (storeXTData (updatePrimitives s)).
(** *** hllcFlux *)

(** [hllcFlux(UL, UR, gammaL, gammaR, fluxOut, idx)]: the three values
    written to [fluxOut[idx .. idx+2]] and the wave speed returned.  [UL] and
    [UR] are the local three-slot arrays of [computeFluxes]. *)
Definition hllcFlux (UL UR : F * F * F) (gammaL gammaR : F) : (F * F * F) * F :=
  let '(UL0, UL1, UL2) := UL in
  let '(UR0, UR1, UR2) := UR in
  (* Left state *)
  let rhoL := UL0 in
  let uL := UL1 / rhoL in
  let EL := UL2 in
  let pL := (gammaL - of_Z 1) * (EL - lit 1 2 * rhoL * uL * uL) in
  let aL := sqrt (gammaL * pL / rhoL) in
  (* Right state *)
  let rhoR := UR0 in
  let uR := UR1 / rhoR in
  let ER := UR2 in
  let pR := (gammaR - of_Z 1) * (ER - lit 1 2 * rhoR * uR * uR) in
  let aR := sqrt (gammaR * pR / rhoR) in
  (* Wave speed estimates (Davis) *)
  let SL := min (uL - aL) (uR - aR) in
  let SR := max (uL + aL) (uR + aR) in
  (* Middle wave speed *)
  let SStar := (pR - pL + rhoL * uL * (SL - uL) - rhoR * uR * (SR - uR)) /
               (rhoL * (SL - uL) - rhoR * (SR - uR)) in
  let fluxOut :=
    if SL >=? of_Z 0 then
      (rhoL * uL, rhoL * uL * uL + pL, uL * (EL + pL))
    else if SStar >=? of_Z 0 then
      let pStar := pL + rhoL * (SL - uL) * (SStar - uL) in
      let rhoStarL := rhoL * (SL - uL) / (SL - SStar) in
      let EStarL := rhoStarL * (EL / rhoL + (SStar - uL) *
                                (SStar + pL / (rhoL * (SL - uL)))) in
      (rhoStarL * SStar, rhoStarL * SStar * SStar + pStar,
       SStar * (EStarL + pStar))
    else if SR >=? of_Z 0 then
      let pStar := pR + rhoR * (SR - uR) * (SStar - uR) in
      let rhoStarR := rhoR * (SR - uR) / (SR - SStar) in
      let EStarR := rhoStarR * (ER / rhoR + (SStar - uR) *
                                (SStar + pR / (rhoR * (SR - uR)))) in
      (rhoStarR * SStar, rhoStarR * SStar * SStar + pStar,
       SStar * (EStarR + pStar))
    else
      (rhoR * uR, rhoR * uR * uR + pR, uR * (ER + pR)) in
  (fluxOut, max (abs SL) (abs SR)).

(** *** computeFluxes *)

(** The states and the gammas on the two sides of interface [i]: a wall
    mirrors the cell next to it, with its momentum negated. *)
Definition interface_states (s : Solver) (i : nat)
    : (F * F * F) * (F * F * F) * F * F :=
  if (i =? 0)%nat then
    let idx := 0%nat in
    ((get (U s) idx, - get (U s) (idx + 1), get (U s) (idx + 2)),
     (get (U s) idx, get (U s) (idx + 1), get (U s) (idx + 2)),
     get (gamma s) 0, get (gamma s) 0)
  else if (i =? nx s)%nat then
    let idx := ((nx s - 1) * 3)%nat in
    ((get (U s) idx, get (U s) (idx + 1), get (U s) (idx + 2)),
     (get (U s) idx, - get (U s) (idx + 1), get (U s) (idx + 2)),
     get (gamma s) (nx s - 1), get (gamma s) (nx s - 1))
  else
    let idxL := ((i - 1) * 3)%nat in
    let idxR := (i * 3)%nat in
    ((get (U s) idxL, get (U s) (idxL + 1), get (U s) (idxL + 2)),
     (get (U s) idxR, get (U s) (idxR + 1), get (U s) (idxR + 2)),
     get (gamma s) (i - 1), get (gamma s) i).

(** What [hllcFlux] computes at interface [i]. *)
Definition interface_flux (s : Solver) (i : nat) : (F * F * F) * F :=
  let '(UL, UR, gammaL, gammaR) := interface_states s i in
  hllcFlux UL UR gammaL gammaR.

(** [computeFluxes()]: the solver with [flux] filled, and [maxWaveSpeed]. *)
Definition computeFluxes (s : Solver) : Solver * F :=
  let faces := tabulate (nx s + 1) (interface_flux s) in
  let maxWaveSpeed :=
    fold_left (fun m face => max m (snd face)) faces (of_Z 0) in
  (set_flux (flat_map (fun face => let '(f0, f1, f2) := fst face in [f0; f1; f2])
               faces) s,
   maxWaveSpeed).

(** *** updateConservative *)

(** [updateConservative(U, Uout, dt)]: the new contents of [Uout].  Slot
    [idx + k] of [Uout] is computed from slot [idx + k] of [U] alone, so the
    call with [Uout] aliasing [U] computes the same values. *)
Definition updateConservative (s : Solver) (Uin : list F) (dt_ : F) : list F :=
  tabulate2 (nx s) 3 (fun i k =>
    let idx := (i * 3)%nat in
    let fluxL := (i * 3)%nat in
    let fluxR := ((i + 1) * 3)%nat in
    get Uin (idx + k) -
    dt_ / dx s * (get (flux s) (fluxR + k) - get (flux s) (fluxL + k))).
(** *** computeMixtureProperties *)

(** The accumulators of the loop of [computeMixtureProperties]. *)
Record MixAcc : Type := mkMixAcc {
  gamma_mix_inv : F;
  mw_mix : F;
  totalFraction : F;
  dominantMaterial : nat;
  maxFraction : F
}.

(** [this.materialFractions[k]], which throws while the array is [null]. *)
Definition fraction_at (s : Solver) (k : nat) : outcome F :=
  match materialFractions s with
  | Some fractions => Ok (get fractions k)
  | None => Throw (TypeError "Cannot read properties of null")
  end.

Definition mixture_step (s : Solver) (cellIdx : nat) (acc : MixAcc) (m : nat)
    : outcome MixAcc :=
  alpha <- fraction_at s (cellIdx * numMaterials s + m) ;;
  props <- item (materialProperties s) m
             "Cannot read properties of undefined (reading 'gamma')" ;;
  let gamma_m := region_gamma props in
  let mw_m := region_mw props in
  let dominant :=
    if alpha >? maxFraction acc then (alpha, m)
    else (maxFraction acc, dominantMaterial acc) in
  Ok (mkMixAcc (gamma_mix_inv acc + alpha / (gamma_m - of_Z 1))
               (mw_mix acc + alpha * mw_m)
               (totalFraction acc + alpha)
               (snd dominant) (fst dominant)).

Fixpoint foldM {A B : Type} (f : A -> B -> outcome A) (l : list B) (a : A)
    : outcome A :=
  match l with
  | [] => Ok a
  | b :: l' => a' <- f a b ;; foldM f l' a'
  end.

Definition computeMixtureProperties (s : Solver) (cellIdx : nat) : outcome Region :=
  acc <- foldM (mixture_step s cellIdx) (seq 0 (numMaterials s))
           (mkMixAcc (of_Z 0) (of_Z 0) (of_Z 0) 0%nat (of_Z 0)) ;;
  acc <- (if totalFraction acc >? lit 1 10000000000 then
            Ok (mkMixAcc (gamma_mix_inv acc / totalFraction acc)
                         (mw_mix acc / totalFraction acc)
                         (totalFraction acc) (dominantMaterial acc)
                         (maxFraction acc))
          else
            first <- item (materialProperties s) 0
                       "Cannot read properties of undefined (reading 'gamma')" ;;
            Ok (mkMixAcc (of_Z 1 / (region_gamma first - of_Z 1))
                         (region_mw first)
                         (totalFraction acc) 0%nat (maxFraction acc))) ;;
  dominant <- item (materialProperties s) (dominantMaterial acc)
                "Cannot read properties of undefined (reading 'gasId')" ;;
  Ok (mkRegion (of_Z 1 + of_Z 1 / gamma_mix_inv acc) (mw_mix acc)
               (region_gasId dominant)).

(** *** identifyInterfaceCells *)

(** [positions.sort((a, b) => a - b)]: a stable sort by the comparator, a
    [NaN] result of which counts as 0; the element inserted goes before the
    first one it does not compare greater than.  This is the order of the
    language on every list the comparator orders consistently: the lists
    without [NaN] and the lists of at most two positions.  On the other
    lists the language leaves the order to the engine. *)
Fixpoint insert_position (a : F) (sorted : list F) : list F :=
  match sorted with
  | [] => [a]
  | b :: rest =>
      if a - b >? of_Z 0 then b :: insert_position a rest
      else a :: b :: rest
  end.

Definition sort_positions (positions : list F) : list F :=
  fold_right insert_position [] positions.

Definition near_tracer (s : Solver) (i : nat) (tracerX : F) : bool :=
  let cellLeft := of_nat i * dx s in
  let cellRight := of_nat (i + 1) * dx s in
  let dist := min (min (abs (tracerX - cellLeft)) (abs (tracerX - cellRight)))
                  (abs (tracerX - get (x s) i)) in
  dist <? lit 15 10 * dx s.

Definition identifyInterfaceCells (s : Solver) : Solver :=
  let tracerPositions := sort_positions (map tracer_x (tracers s)) in
  set_interfaceCells
    (filter (fun i => existsb (near_tracer s i) tracerPositions) (seq 0 (nx s)))
    s.

(** *** updateGasProperties *)

(** The loop over [tracerPositions] that determines the region of a cell:
    it stops at the first position the cell center does not exceed. *)
Fixpoint scan_region (cellCenter : F) (tracerPositions : list F)
    (j regionIndex : nat) : nat :=
  match tracerPositions with
  | [] => regionIndex
  | position :: rest =>
      if cellCenter >? position then scan_region cellCenter rest (S j) (j + 1)
      else regionIndex
  end.

(** [Math.max(0, Math.min(this.regions.length - 1, regionIndex))]. *)
Definition clamp_region (s : Solver) (regionIndex : nat) : nat :=
  Z.to_nat (Z.max 0 (Z.min (Z.of_nat (length (regions s)) - 1)
                           (Z.of_nat regionIndex))).

(** The three per-cell arrays written from the regions found. *)
Definition assign_regions (found : list Region) (s : Solver) : Solver :=
  set_gamma (map region_gamma found)
    (set_mw (map region_mw found)
      (set_gasId (map region_gasId found) s)).

Definition updateGasProperties (s : Solver) : outcome Solver :=
  if String.eqb (interfaceMethod s) "mixed" then
    (* Mixed-cell method *)
    found <- mapM (computeMixtureProperties s) (seq 0 (nx s)) ;;
    Ok (assign_regions found s)
  else if String.eqb (interfaceMethod s) "ghost" then
    (* Ghost fluid method *)
    let s := identifyInterfaceCells s in
    let tracerPositions := sort_positions (map tracer_x (tracers s)) in
    found <- mapM (fun i =>
               let cellCenter := get (x s) i in
               let regionIndex := scan_region cellCenter tracerPositions 0 0 in
               let regionIndex := clamp_region s regionIndex in
               item (regions s) regionIndex
                 "Cannot read properties of undefined (reading 'gamma')")
             (seq 0 (nx s)) ;;
    Ok (assign_regions found s)
  else
    (* Sharp method *)
    let tracerPositions := sort_positions (map tracer_x (tracers s)) in
    found <- mapM (fun i =>
               let cellCenter := get (x s) i in
               let regionIndex := scan_region cellCenter tracerPositions 0 0 in
               let regionIndex := clamp_region s regionIndex in
               item (regions s) regionIndex
                 "Cannot read properties of undefined (reading 'gamma')")
             (seq 0 (nx s)) ;;
    Ok (assign_regions found s).
(** *** advectMaterialFractions *)

(** The first loop: the upwind flux of material [m] at interface [i]. *)
Definition material_flux (s : Solver) (fractions : list F) (i m : nat) : F :=
  if (i =? 0)%nat || (i =? nx s)%nat then of_Z 0
  else
    let uInterface := lit 1 2 * (get (u s) (i - 1) + get (u s) i) in
    if uInterface >? of_Z 0 then
      let alphaL := get fractions ((i - 1) * numMaterials s + m) in
      uInterface * alphaL
    else
      let alphaR := get fractions (i * numMaterials s + m) in
      uInterface * alphaR.

(** The second loop, for cell [i], in its three parts.  First the
    conservative update of the row of the cell. *)
Definition updated_row (s : Solver) (fractions mflux : list F) (dt_ : F)
    (i : nat) : list F :=
  tabulate (numMaterials s) (fun m =>
    let idx := (i * numMaterials s + m)%nat in
    let fluxL := (i * numMaterials s + m)%nat in
    let fluxR := ((i + 1) * numMaterials s + m)%nat in
    get fractions idx - dt_ / dx s * (get mflux fluxR - get mflux fluxL)).

(** Then every entry clamped to [[0, 1]]; [totalAlpha] is the [sum] of the
    clamped entries. *)
Definition clamp_row (row : list F) : list F :=
  map (fun a => max (of_Z 0) (min (of_Z 1) a)) row.

(** Last the row divided by [totalAlpha], or reset to equal shares when
    [totalAlpha] does not exceed [1e-10]. *)
Definition renormalize_row (s : Solver) (clamped : list F) : list F :=
  let totalAlpha := sum clamped in
  if totalAlpha >? lit 1 10000000000 then
    map (fun a => a / totalAlpha) clamped
  else
    map (fun _ => of_Z 1 / of_nat (numMaterials s)) clamped.

Definition advected_row (s : Solver) (fractions mflux : list F) (dt_ : F)
    (i : nat) : list F :=
  renormalize_row s (clamp_row (updated_row s fractions mflux dt_ i)).

(** [target.set(source)] on typed arrays. *)
Definition typed_array_set (target source : list F) : outcome (list F) :=
  if (length source <=? length target)%nat then
    Ok (source ++ skipn (length source) target)
  else Throw (RangeError "offset is out of bounds").

Definition advectMaterialFractions (s : Solver) (dt_ : F) : outcome Solver :=
  match materialFractions s with
  | None => Ok s
  | Some fractions =>
      if negb (String.eqb (interfaceMethod s) "mixed") then Ok s
      else
        mflux <- match materialFlux s with
                 | Some _ =>
                     Ok (tabulate2 (nx s + 1) (numMaterials s)
                           (material_flux s fractions))
                 | None =>
                     if (numMaterials s =? 0)%nat then Ok []
                     else Throw (TypeError "Cannot set properties of null")
                 end ;;
        let alphaNew :=
          flat_map (advected_row s fractions mflux dt_) (seq 0 (nx s)) in
        updated <- typed_array_set fractions alphaNew ;;
        Ok (set_materialFractions (Some updated)
              (set_materialFlux
                 (match materialFlux s with
                  | Some _ => Some mflux
                  | None => None
                  end) s))
  end.

(** *** updateTracers *)

Definition move_tracer (s : Solver) (tracer : Tracer) : Tracer :=
  let cellIdx := floor (tracer_x tracer / dx s) in
  let clampedIdx :=
    max (of_Z 0) (min (of_Z (Z.of_nat (nx s) - 1)) cellIdx) in
  let velocity := match to_index clampedIdx with
                  | Some k => get (u s) k
                  | None => NaN
                  end in
  let moved := tracer_x tracer + velocity * dt s in
  let moved := max (of_Z 0)
                   (min (get (x s) (nx s - 1) + lit 1 2 * dx s) moved) in
  mkTracer moved (trajectory tracer ++ [mkSample (t s) moved]).

Definition updateTracers (s : Solver) : Solver :=
  set_tracers (map (move_tracer s) (tracers s)) s.

(** *** TimeIntegrator.calculateTimeStep *)

Definition calculateTimeStep (s : Solver) (maxWaveSpeed : F) : F :=
  (* Normal CFL-based time step *)
  let dt0 := cfl s * dx s / maxWaveSpeed in
  (* Don't overshoot final time *)
  let dt0 := if t s + dt0 >? finalTime s then finalTime s - t s else dt0 in
  (* Check if we're approaching a visualization time *)
  let timeToNextViz := nextXTStore s - t s in
  if (timeToNextViz >? of_Z 0) && (timeToNextViz <? lit 25 10 * dt0) then
    let numSubsteps := max (of_Z 1) (ceil (timeToNextViz / dt0)) in
    timeToNextViz / numSubsteps
  else dt0.

(** *** TimeIntegrator.postStep *)

Definition postStep (s : Solver) : outcome Solver :=
  let s := set_t (t s + dt s) s in
  let s := set_timeSteps (S (timeSteps s)) s in
  let s := updatePrimitives s in
  let s := updateTracers s in
  s <- updateGasProperties s ;;
  if (abs (t s - nextXTStore s) <? lit 1 10000000000)
     || (t s >? nextXTStore s) then
    let s := storeXTData s in
    Ok (set_nextXTStore (nextXTStore s + xtInterval s) s)
  else Ok s.

(** *** RK2Integrator.step and SSPIntegrator.step

    The two [step] functions are written as the sequence of the blocks of
    statements they consist of in the source, one definition per block. *)

(** [const maxWaveSpeed = solver.computeFluxes();
     solver.dt = this.calculateTimeStep(solver, maxWaveSpeed);] *)
Definition begin_step (s : Solver) : Solver :=
  set_dt (calculateTimeStep (fst (computeFluxes s)) (snd (computeFluxes s)))
         (fst (computeFluxes s)).

(** [solver.updateConservative(solver.U, solver.Uk, solver.dt);] *)
Definition forward_euler (s : Solver) : Solver :=
  set_Uk (updateConservative s (U s) (dt s)) s.

(** [for (i < n) { solver.Un[i] = solver.U[i]; }] *)
Definition save_state (s : Solver) : Solver :=
  set_Un (tabulate (nx s * 3) (get (U s))) s.

(** [for (i < n) { solver.U[i] = solver.Uk[i]; }] *)
Definition take_predictor (s : Solver) : Solver :=
  set_U (tabulate (nx s * 3) (get (Uk s))) s.

(** [solver.computeFluxes();] *)
Definition refresh_fluxes (s : Solver) : Solver := fst (computeFluxes s).

(** [solver.updateConservative(solver.Uk, solver.Uk, solver.dt);] *)
Definition correct_predictor (s : Solver) : Solver :=
  set_Uk (updateConservative s (Uk s) (dt s)) s.

(** [solver.U[i] = 0.5 * solver.Un[i] + 0.5 * solver.Uk[i];] *)
Definition average_with_saved (s : Solver) : Solver :=
  set_U (tabulate (nx s * 3) (fun i =>
           lit 1 2 * get (Un s) i + lit 1 2 * get (Uk s) i)) s.

(** [solver.U[i] = solver.U[i] + 0.5 * (solver.Uk[i] - solver.U[i]);] *)
Definition half_way (s : Solver) : Solver :=
  set_U (tabulate (nx s * 3) (fun i =>
           get (U s) i + lit 1 2 * (get (Uk s) i - get (U s) i))) s.

(** [solver.U[i] = (2.0/3.0) * solver.Un[i] + (1.0/6.0) * solver.U[i]
                   + (1.0/6.0) * solver.Uk[i];] *)
Definition blend_with_saved (s : Solver) : Solver :=
  set_U (tabulate (nx s * 3) (fun i =>
           (of_Z 2 / of_Z 3) * get (Un s) i + (of_Z 1 / of_Z 6) * get (U s) i
           + (of_Z 1 / of_Z 6) * get (Uk s) i)) s.

(** [solver.U[i] = 0.5 * solver.U[i] + 0.5 * solver.Uk[i];] *)
Definition average_with_work (s : Solver) : Solver :=
  set_U (tabulate (nx s * 3) (fun i =>
           lit 1 2 * get (U s) i + lit 1 2 * get (Uk s) i)) s.

(** [RK2Integrator.step], up to the call of [postStep]:
    stage 1 ("compute flux and update"), the copy of [Uk] into [U] with [U]
    saved in [Un], and stage 2 ("compute flux from U*"). *)
Definition RK2_stages (s : Solver) : Solver :=
  average_with_saved
    (correct_predictor
      (refresh_fluxes
        (take_predictor (save_state (forward_euler (begin_step s)))))).

Definition RK2Integrator_step (s : Solver) : outcome (Solver * F) :=
  s <- postStep (RK2_stages s) ;;
  Ok (s, dt s).

(** [SSPIntegrator.step], up to the call of [postStep]: the initial fluxes
    and time step, the copy of [U] into [Un], and stages 1 to 4. *)
Definition SSP_stage1 (s : Solver) : Solver :=
  half_way (forward_euler (save_state (begin_step s))).

Definition SSP_stage2 (s : Solver) : Solver :=
  half_way (forward_euler (refresh_fluxes s)).

Definition SSP_stage3 (s : Solver) : Solver :=
  blend_with_saved (forward_euler (refresh_fluxes s)).

Definition SSP_stage4 (s : Solver) : Solver :=
  average_with_work (forward_euler (refresh_fluxes s)).

Definition SSP_stages (s : Solver) : Solver :=
  SSP_stage4 (SSP_stage3 (SSP_stage2 (SSP_stage1 s))).

Definition SSPIntegrator_step (s : Solver) : outcome (Solver * F) :=
  s <- postStep (SSP_stages s) ;;
  Ok (s, dt s).

(** [this.integrator.step(this)]. *)
Definition step (s : Solver) : outcome (Solver * F) :=
  match integrator s with
  | RK2Integrator => RK2Integrator_step s
  | SSPIntegrator => SSPIntegrator_step s
  end.
(** What the step of the integrator of [s] hands to [postStep]. *)
Definition stages (s : Solver) : Solver :=
  match integrator s with
  | RK2Integrator => RK2_stages s
  | SSPIntegrator => SSP_stages s
  end.

(** [n] calls of [step] from [s], stopping at the first exception. *)
Fixpoint steps (n : nat) (s : Solver) : outcome Solver :=
  match n with
  | O => Ok s
  | S n' => r <- step s ;; steps n' (fst r)
  end.

(** *** run *)

(** What a run leaves behind: the solver, the fractions passed to the
    progress callback, and the elapsed wall-clock milliseconds the final
    console lines report. *)
Record RunResult : Type := mkRunResult {
  final : Solver;
  progress : list F;
  elapsed : Z
}.

(** The [while] loop of [run].  [clock k] is what the [k]-th call of
    [Date.now()] returns; [progressCallback] tells whether a callback was
    passed (it only receives a number).  The loop has no bound of its own:
    [fuel] bounds the steps taken, and [None] means it was used up with
    [t < finalTime] still true. *)
Fixpoint run_loop (fuel : nat) (clock : nat -> Z) (progressCallback : bool)
    (k : nat) (lastProgressUpdate : Z) (reported : list F) (s : Solver)
    : option (outcome (Solver * list F * nat)) :=
  if t s <? finalTime s then
    match fuel with
    | O => None
    | S fuel' =>
        match step s with
        | Throw e => Some (Throw e)
        | Ok (s', _) =>
            let now := clock k in
            if progressCallback && (100 <? now - lastProgressUpdate)%Z then
              run_loop fuel' clock progressCallback (S k) now
                (reported ++ [t s' / finalTime s']) s'
            else
              run_loop fuel' clock progressCallback (S k) lastProgressUpdate
                reported s'
        end
    end
  else Some (Ok (s, reported, k)).

Definition run (fuel : nat) (clock : nat -> Z) (progressCallback : bool)
    (s : Solver) : option (outcome RunResult) :=
  let startTime := clock 0%nat in
  match run_loop fuel clock progressCallback 1 startTime [] s with
  | None => None
  | Some (Throw e) => Some (Throw e)
  | Some (Ok (s', reported, k)) =>
      let reported :=
        if progressCallback then reported ++ [of_Z 1] else reported in
      let endTime := clock k in
      Some (Ok (mkRunResult s' reported (endTime - startTime)))
  end.

(** A whole simulation: [new EulerSolver(config)], [initialize(slabs)],
    [run(progressCallback)]. *)
Definition simulate (fuel : nat) (clock : nat -> Z) (progressCallback : bool)
    (config : Config) (slabs : list Slab) : option (outcome RunResult) :=
  match initialize (fst (EulerSolver config)) slabs with
  | Throw e => Some (Throw e)
  | Ok s => run fuel clock progressCallback s
  end.

End EulerSolver.

Arguments Slab : clear implicits.
Arguments Region : clear implicits.
Arguments Sample : clear implicits.
Arguments Tracer : clear implicits.
Arguments Snapshot : clear implicits.
Arguments Config : clear implicits.
Arguments Solver : clear implicits.
Arguments MixAcc : clear implicits.
Arguments RunResult : clear implicits.


(** ** Concrete inputs *)

Module Examples.
Import F64.
Local Open Scope js_scope.

(** A configuration with three cells, for runs in binary64. *)
Definition config3 (cfl_ : option float) (integrator_ : string) : Config float :=
  mkConfig (Some 3%nat) cfl_ None None (Some integrator_) None.

(** The gases of the scenario of the README: air at 101325 Pa and helium at
    400000 Pa, both at 300 K. *)
Definition air : Slab float :=
  mkSlab (Some "Air"%string) (lit 14 10) (lit 2897 100) (of_Z 101325) (of_Z 300)
         (of_Z 6).

Definition helium : Slab float :=
  mkSlab (Some "Helium"%string) (lit 1667 1000) (lit 4003 1000) (of_Z 400000)
         (of_Z 300) (of_Z 3).

(** A slab no field of which is admissible: [gamma = 1], [mw = 0],
    [pressure = -5], [temperature = 0], [length = -2]. *)
Definition invalid_slab : Slab float :=
  mkSlab (Some "Air"%string) (of_Z 1) (of_Z 0) (of_Z (-5)) (of_Z 0) (of_Z (-2)).

(** The scenario run with a CFL number of 3: the solver after [n] steps. *)
Definition overshoot (n : nat) : outcome (Solver float) :=
  s0 <- initialize (fst (EulerSolver (config3 (Some (of_Z 3)) "RK2")))
          [air; helium] ;;
  steps n s0.

(** Air with the ratio of specific heats set to 1. *)
Definition gamma_one : Slab float :=
  mkSlab (Some "Air"%string) (of_Z 1) (lit 2897 100) (of_Z 101325) (of_Z 300)
         (of_Z 6).

(** Three cells filled by [slab] alone: the solver [initialize] returns
    and the solver after [n] steps of the integrator called [name]. *)
Definition single_slab (name : string) (slab : Slab float) (n : nat)
    : outcome (Solver float * Solver float) :=
  s0 <- initialize (fst (EulerSolver (config3 None name))) [slab] ;;
  s <- steps n s0 ;;
  Ok (s0, s).

(** The scenario run to the default final time, with at most 1000 steps:
    [Date.now()] advances 60 ms per call under [ticking] and stands still
    otherwise. *)
Definition scenario (name : string) (progressCallback ticking : bool)
    : option (outcome (RunResult float)) :=
  simulate 1000 (fun k => if ticking then Z.of_nat (k * 60) else 0%Z)
           progressCallback (config3 None name) [air; helium].

End Examples.

Module ExactExamples.
Local Open Scope R_scope.

(** A solver as the constructor leaves it for an empty [config], over the
    reals. *)
Definition fresh : Solver R :=
  fst (EulerSolver (mkConfig None None None None None None)).

(** A solver 0.1 ms short of its next snapshot, with unit cells. *)
Definition near_snapshot : Solver R :=
  set_nextXTStore (1 / 10000) (set_dx 1 fresh).

(** A solver under the mixed method with two cells and two materials, each
    cell filled by one of them. *)
Definition two_materials : Solver R :=
  set_numMaterials 2
    (set_materialFractions (Some [1; 0; 0; 1])
       (set_materialFlux (Some [0; 0; 0; 0; 0; 0])
          (fst (EulerSolver
                  (mkConfig (Some 2%nat) None None (Some "mixed"%string)
                            None None))))).

(** A solver of one cell of air at rest, with density 1 and pressure 1,
    under the integrator [name]. *)
Definition one_cell (name : string) : Solver R :=
  set_U [1; 0; 5 / 2]
    (set_gamma [14 / 10]
       (set_mw [29]
          (set_regions [mkRegion (14 / 10) 29 None]
             (set_dx 1
                (set_x [1 / 2]
                   (fst (EulerSolver
                           (mkConfig (Some 1%nat) None None None (Some name)
                                     None)))))))).

(** Air at 101325 Pa and 300 K, over the reals. *)
Definition air : Slab R :=
  mkSlab (Some "Air"%string) (14 / 10) (2897 / 100) 101325 300 6.

(** A configuration that names the integrator and leaves the rest to the
    defaults of the constructor. *)
Definition config_of (name : string) : Config R :=
  mkConfig None None None None (Some name) None.

End ExactExamples.

(** ** Observations on a run *)

Definition outcome_map {A B : Type} (f : A -> B) (m : outcome A) : outcome B :=
  match m with
  | Ok a => Ok (f a)
  | Throw e => Throw e
  end.

(** The solver a run ends with: its snapshots [xtData], tracers, fields,
    time and step count. *)
Definition final_solver {F : Type} (r : option (outcome (RunResult F)))
    : option (outcome (Solver F)) :=
  option_map (outcome_map (@final F)) r.

(** The snapshot sequence a run produces. *)
Definition snapshots {F : Type} (r : option (outcome (RunResult F)))
    : option (outcome (list (Snapshot F))) :=
  option_map (outcome_map (fun res => xtData (final res))) r.

(** ** What a step relies on *)

(** The tables [updateGasProperties] reads are there: a region to take the
    properties of a cell from and, under the mixed method, the fractions and
    the properties of every material.  [initialize] leaves the solver so, and
    no step changes these tables. *)
Definition ready {F : Type} (s : Solver F) : Prop :=
  regions s <> []
  /\ (interfaceMethod s = "mixed"%string ->
      materialFractions s <> None
      /\ materialProperties s <> []
      /\ (numMaterials s <= length (materialProperties s))%nat).

(** The fields [ready] speaks of. *)
Definition tables {F : Type} (s : Solver F) :=
  (interfaceMethod s, regions s, numMaterials s, materialFractions s,
   materialProperties s).

(** ** The material fraction table *)

(** Row [i] of a table of rows of [n] entries. *)
Definition row_of {F : Type} `{Number F} (n : nat) (table : list F) (i : nat)
    : list F :=
  tabulate n (fun m => get table (i * n + m)).

(** The row of cell [i] after the conservative update and the clamp of
    [advectMaterialFractions], before it is renormalized. *)
Definition clamped_row {F : Type} `{Number F} (s : Solver F) (fractions : list F)
    (dt_ : F) (i : nat) : list F :=
  clamp_row
    (updated_row s fractions
       (tabulate2 (nx s + 1) (numMaterials s) (material_flux s fractions)) dt_ i).

(** ** The interface methods *)

(** The solver [s] as it would be had it been constructed with
    [interfaceMethod = method]. *)
Definition with_method {F : Type} (method : string) (s : Solver F) : Solver F :=
  mkSolver (nx s) (cfl s) (finalTime s) method (integrator s) (x s) (dx s) (U s)
    (Un s) (Uk s) (rho s) (u s) (p s) (T s) (gamma s) (mw s) (gasId s) (flux s) (t s)
    (dt s) (timeSteps s) (xtData s) (xtInterval s) (nextXTStore s) (tracers s)
    (regions s) (numMaterials s) (materialFractions s) (materialProperties s)
    (materialFlux s) (interfaceCells s) (Ru s).

(** The number of tracer positions strictly below the center of cell [i]. *)
Definition count_below {F : Type} `{Number F} (s : Solver F) (i : nat) : nat :=
  length (filter (fun position => ltb position (get (x s) i))
                 (map (@tracer_x F) (tracers s))).

(** The loop over the cells of the sharp branch of [updateGasProperties]:
    the region found for each cell. *)
Definition region_loop {F : Type} `{Number F} (s : Solver F)
    : outcome (list (Region F)) :=
  mapM (fun i =>
          item (regions s)
            (clamp_region s
               (scan_region (get (x s) i)
                  (sort_positions (map (@tracer_x F) (tracers s))) 0 0))
            "Cannot read properties of undefined (reading 'gamma')")
       (seq 0 (nx s)).

(** ** The schemes, as the comments of the integrators state them *)

Section Schemes.
Context {F : Type} `{Number F}.
Local Open Scope js_scope.

(** The spatial operator [L(V) = -(1/dx) (F_right(V) - F_left(V))], with
    the fluxes computed from the state [V]: slot [j] of cell [i] has its left
    flux in slot [j] of [flux] (interface [i]) and its right flux in slot
    [j + 3] (interface [i + 1]). *)
Definition L (s : Solver F) (V : list F) : list F :=
  let fluxes := flux (refresh_fluxes (set_U V s)) in
  tabulate (nx s * 3) (fun j =>
    - (of_Z 1 / dx s) * (get fluxes (j + 3) - get fluxes j)).

(** The four-stage scheme SSPRK(4,3) in Shu-Osher form, from the state
    [Vn] with step [h], each formula computed as it is written. *)
Definition SSPRK43 (s : Solver F) (h : F) (Vn : list F) : list F :=
  let n := (nx s * 3)%nat in
  let U1 := tabulate n (fun j => get Vn j + h / of_Z 2 * get (L s Vn) j) in
  let U2 := tabulate n (fun j => get U1 j + h / of_Z 2 * get (L s U1) j) in
  let U3 := tabulate n (fun j =>
              of_Z 2 / of_Z 3 * get Vn j + of_Z 1 / of_Z 3 * get U2 j
              + h / of_Z 6 * get (L s U2) j) in
  tabulate n (fun j => get U3 j + h / of_Z 2 * get (L s U3) j).

End Schemes.

(** ** Interface cells *)

Section InterfaceCells.
Local Open Scope R_scope.

(** The distance from [position] to cell [i], the interval from [i dx] to
    [(i + 1) dx]: zero inside the cell. *)
Definition distance_to_cell (s : Solver R) (i : nat) (position : R) : R :=
  Rmax 0 (Rmax (INR i * dx s - position) (position - (INR i + 1) * dx s)).

(** The center of every cell is its midpoint, as the constructor and
    [initialize] leave it. *)
Definition centered (s : Solver R) : Prop :=
  forall i, (i < nx s)%nat -> get (x s) i = (INR i + 1 / 2) * dx s.

End InterfaceCells.

(** ** Frames *)

(** The fields the integrator stages never write: all but [U], [Un], [Uk],
    [flux] and [dt]. *)
Definition beside_buffers {F : Type} (s : Solver F) :=
  (nx s, cfl s, finalTime s, interfaceMethod s, integrator s, x s, dx s,
   (rho s, u s, p s, T s), (gamma s, mw s, gasId s),
   (t s, timeSteps s, xtData s, xtInterval s, nextXTStore s),
   (tracers s, regions s, interfaceCells s),
   (numMaterials s, materialFractions s, materialProperties s, materialFlux s),
   Ru s).

(** The fields [postStep] never writes. *)
Definition buffers {F : Type} (s : Solver F) :=
  (U s, Un s, Uk s, flux s, dt s, (nx s, dx s, x s), (cfl s, finalTime s, xtInterval s),
   (interfaceMethod s, integrator s, regions s, Ru s),
   (numMaterials s, materialFractions s, materialProperties s, materialFlux s)).


(** ** Conservation *)

Section Conservation.
Local Open Scope R_scope.

(** The pressure [updatePrimitives] computes for cell [i]. *)
Definition pressure_of (s : Solver R) (i : nat) : R :=
  snd (fst (primitives_of_cell s i)).

(** Positive density and pressure in every cell, with the gamma of every
    cell above 1. *)
Definition positive (s : Solver R) : Prop :=
  forall i, (i < nx s)%nat ->
    0 < get (U s) (i * 3) /\ 0 < pressure_of s i /\ 1 < get (gamma s) i.

(** The total over the cells of component [k] of a conservative buffer:
    the mass for [k = 0], the energy for [k = 2]. *)
Definition total (k : nat) (n : nat) (V : list R) : R :=
  sum (tabulate n (fun i => get V (i * 3 + k))).

Definition mass (s : Solver R) : R := total 0 (nx s) (U s).
Definition energy (s : Solver R) : R := total 2 (nx s) (U s).

(** The states a step of [s] computes fluxes from: [s] itself and the
    result of every stage but the last. *)
Definition flux_states (s : Solver R) : list (Solver R) :=
  match integrator s with
  | RK2Integrator =>
      [s; take_predictor (save_state (forward_euler (begin_step s)))]
  | SSPIntegrator =>
      [s; SSP_stage1 s; SSP_stage2 (SSP_stage1 s);
       SSP_stage3 (SSP_stage2 (SSP_stage1 s))]
  end.

(** Every state the first [n] steps from [s] compute fluxes from is
    [positive]. *)
Fixpoint positive_steps (n : nat) (s : Solver R) : Prop :=
  match n with
  | O => True
  | S n' =>
      (forall a, In a (flux_states s) -> positive a)
      /\ match step s with
         | Ok (s', _) => positive_steps n' s'
         | Throw _ => True
         end
  end.

End Conservation.

(** ** A single slab *)

Section SingleSlab.
Local Open Scope R_scope.

(** A slab as the configuration is documented to give it. *)
Definition valid_slab (slab : Slab R) : Prop :=
  1 < slab_gamma slab /\ 0 < slab_mw slab /\ 0 < slab_pressure slab
  /\ 0 < slab_temperature slab /\ 0 < slab_length slab.

(** A solver filled with the gas of [slab] at rest: every cell holds the
    initial state of the slab and its gas properties, there is no tracer, and
    the only region (and, under the mixed method, the only material) is that
    of the slab. *)
Definition filled (slab : Slab R) (s : Solver R) : Prop :=
  (0 < nx s)%nat
  /\ U s = flat_map (fun _ => initial_state (Ru s) slab) (seq 0 (nx s))
  /\ gamma s = repeat (slab_gamma slab) (nx s)
  /\ mw s = repeat (slab_mw slab) (nx s)
  /\ gasId s = repeat (slab_gasId slab) (nx s)
  /\ tracers s = []
  /\ regions s = [region_of_slab slab]
  /\ (interfaceMethod s = "mixed"%string ->
      numMaterials s = 1%nat
      /\ materialProperties s = [region_of_slab slab]
      /\ materialFractions s = Some (repeat 1 (nx s))).

(** The fields [filled] speaks of. *)
Definition filling (s : Solver R) :=
  (nx s, Ru s, U s, (gamma s, mw s, gasId s), tracers s, regions s,
   (interfaceMethod s, numMaterials s, materialProperties s, materialFractions s)).

(** Filled, with the primitive fields those of the conservative state. *)
Definition at_rest (slab : Slab R) (s : Solver R) : Prop :=
  filled slab s
  /\ rho s = rho (updatePrimitives s) /\ u s = u (updatePrimitives s)
  /\ p s = p (updatePrimitives s) /\ T s = T (updatePrimitives s).

(** The fields a snapshot records, but for the time. *)
Definition fields (s : Solver R) :=
  (U s, (rho s, u s, p s, T s), (gamma s, mw s, gasId s)).

End SingleSlab.

(** ** Wave speeds *)

Section WaveSpeeds.
Local Open Scope R_scope.

(** The speed of the fastest acoustic wave in cell [i], [|u| + a], with the
    velocity [u], the pressure and the sound speed [a] computed from the
    conservative state as [hllcFlux] computes them. *)
Definition cell_speed (s : Solver R) (i : nat) : R :=
  let density := get (U s) (i * 3) in
  let v := get (U s) (i * 3 + 1) / density in
  Rabs v + R_sqrt.sqrt (get (gamma s) i * pressure_of s i / density).

End WaveSpeeds.

(** ** The RK2 scheme, as the comment of [RK2Integrator] states it *)

Section Heun.
Local Open Scope R_scope.

(** [Ustar = Un + dt L(Un)], [Unext = 0.5 Un + 0.5 (Ustar + dt L(Ustar))],
    from the state [Vn] with step [h]. *)
Definition Heun (s : Solver R) (h : R) (Vn : list R) : list R :=
  let n := (nx s * 3)%nat in
  let Ustar := tabulate n (fun j => get Vn j + h * get (L s Vn) j) in
  tabulate n (fun j =>
    1 / 2 * get Vn j + 1 / 2 * (get Ustar j + h * get (L s Ustar) j)).

End Heun.

(** ** Tracers along a run *)

(** [tr'] is [tr] after [n] steps that ended at time [now]: its trajectory
    is that of [tr] with [n] samples added, the last of them its position at
    [now]. *)
Definition follows {F : Type} `{Number F} (n : nat) (now : F)
    (tr tr' : Tracer F) : Prop :=
  length (trajectory tr') = (length (trajectory tr) + n)%nat
  /\ firstn (length (trajectory tr)) (trajectory tr') = trajectory tr
  /\ (1 <= n -> last (trajectory tr') (mkSample NaN NaN)
                = mkSample now (tracer_x tr'))%nat
  /\ (n = 0%nat -> tr' = tr).

Section Domain.
Local Open Scope R_scope.

(** The length of the tube: [totalLength] of [initialize]. *)
Definition total_length (slabs : list (Slab R)) : R :=
  fold_left (fun sum slab => sum + slab_length slab) slabs 0.


End Domain.

(** ** More concrete inputs *)

Module MoreExamples.
Import F64.

(** Three cells under the mixed method, the rest as the constructor
    defaults. *)
Definition mixed3 : Config float :=
  mkConfig (Some 3%nat) None None (Some "mixed"%string) None None.

End MoreExamples.
(** ** The x-t diagram ([XTVisualization], [js/xt-mixture.js]) *)

(** The lookup table of [infernoColormap], one [[r, g, b]] per entry. *)
Definition inferno : list (Z * Z * Z) := [
  (0,0,4); (1,0,5); (1,1,6); (1,1,8); (2,1,10); (2,2,12); (2,2,14); (3,2,16);
  (4,3,18); (4,3,20); (5,4,23); (6,4,25); (7,5,27); (8,5,29); (9,6,31); (10,7,34);
  (11,7,36); (12,8,38); (13,8,41); (14,9,43); (16,9,45); (17,10,48); (18,10,50); (20,11,52);
  (21,11,55); (22,11,57); (24,12,60); (25,12,62); (27,12,65); (28,12,67); (30,12,69); (31,12,72);
  (33,12,74); (35,12,76); (36,12,79); (38,12,81); (40,11,83); (41,11,85); (43,11,87); (45,11,89);
  (47,10,91); (49,10,92); (50,10,94); (52,10,95); (54,9,97); (56,9,98); (57,9,99); (59,9,100);
  (61,9,101); (62,9,102); (64,10,103); (66,10,104); (68,10,104); (69,10,105); (71,11,106); (73,11,106);
  (74,12,107); (76,12,107); (77,13,108); (79,13,108); (81,14,108); (82,14,109); (84,15,109); (85,15,109);
  (87,16,110); (89,16,110); (90,17,110); (92,18,110); (93,18,110); (95,19,110); (96,19,110); (98,20,110);
  (100,21,110); (101,21,110); (103,22,110); (104,22,110); (106,23,110); (108,24,110); (109,24,110); (111,25,110);
  (112,25,110); (114,26,110); (115,26,110); (117,27,110); (119,28,109); (120,28,109); (122,29,109); (123,29,109);
  (125,30,109); (126,30,109); (128,31,108); (129,31,108); (131,32,108); (133,32,107); (134,33,107); (136,33,107);
  (137,34,106); (139,34,106); (140,35,105); (142,35,105); (144,36,105); (145,36,104); (147,37,104); (148,37,103);
  (150,38,103); (151,38,102); (153,39,102); (154,39,101); (156,40,100); (157,40,100); (159,41,99); (160,41,99);
  (162,42,98); (163,42,97); (165,43,97); (166,43,96); (168,44,95); (169,44,95); (171,45,94); (172,46,93);
  (174,46,92); (175,47,92); (177,47,91); (178,48,90); (180,48,89); (181,49,88); (183,49,88); (184,50,87);
  (186,50,86); (187,51,85); (188,51,84); (190,52,83); (191,52,82); (193,53,81); (194,53,80); (196,54,80);
  (197,54,79); (199,55,78); (200,55,77); (201,56,76); (203,56,75); (204,57,74); (206,57,73); (207,58,72);
  (208,58,71); (210,59,70); (211,59,69); (213,60,68); (214,60,67); (215,61,66); (217,61,65); (218,62,64);
  (219,62,62); (221,63,61); (222,63,60); (223,64,59); (225,64,58); (226,65,57); (227,65,56); (228,66,55);
  (230,66,54); (231,67,53); (232,67,52); (234,68,51); (235,68,50); (236,69,49); (237,69,48); (239,70,47);
  (240,70,45); (241,71,44); (243,71,43); (244,72,42); (245,72,41); (246,73,40); (248,73,39); (249,74,38);
  (250,74,37); (251,75,36); (253,75,35); (254,76,34); (255,76,33); (255,77,33); (255,78,33); (255,79,33);
  (255,80,33); (255,81,34); (255,82,35); (255,83,35); (255,84,36); (255,85,37); (255,86,38); (255,87,39);
  (255,88,40); (255,89,41); (255,90,42); (255,91,43); (255,93,45); (255,94,46); (255,95,47); (255,96,48);
  (255,97,50); (255,98,51); (255,99,53); (255,100,54); (255,101,56); (255,102,57); (255,103,59); (255,104,61);
  (255,105,62); (255,106,64); (255,107,66); (255,108,68); (255,109,70); (255,110,71); (255,112,73); (255,113,75);
  (255,114,77); (255,115,79); (255,116,81); (255,117,83); (255,118,85); (255,119,87); (255,120,89); (255,122,91);
  (255,123,94); (255,124,96); (255,125,98); (255,126,100); (255,127,103); (255,128,105); (255,129,107); (255,130,109);
  (255,131,112); (255,132,114); (255,133,116); (255,134,119); (255,135,121); (255,136,123); (255,137,126); (255,138,128);
  (255,140,131); (255,141,133); (255,142,136); (255,143,138); (255,144,141); (255,145,143); (255,146,146); (255,147,148);
  (255,148,151); (255,149,153); (255,150,156); (255,151,159); (255,152,161); (255,153,164); (255,154,167); (255,155,169);
  (255,156,172); (255,157,175); (255,158,178); (255,159,180); (255,160,183); (255,161,186); (255,162,189); (255,163,192);
  (255,164,194); (255,165,197); (255,166,200); (255,167,203); (255,168,206); (255,169,209); (255,170,212); (255,171,215);
  (255,172,218); (255,173,220); (255,174,223); (255,175,226); (255,176,229); (255,177,232); (255,178,235); (255,179,238);
  (255,180,241); (255,181,244); (255,182,247); (255,182,250); (255,183,253); (255,184,255)
]%Z.

Section XTVisualization.
Context {F : Type} `{Number F}.
Local Open Scope js_scope.

(** What the diagram reads of an entry of [xtData]: [{t, p}]. *)
Record Frame : Type := mkFrame {
  frame_t : F;
  frame_p : list F
}.

(** The values [k] takes in [for (k = start; k < bound; k++)].  Every bound
    of [downsampleData] is a [Math.min] with the length of an array, so the
    loop has left by the time [k] reaches that length: at most [fuel]
    values, with [start + fuel] the length. *)
Fixpoint count_up (start : nat) (bound : F) (fuel : nat) : list nat :=
  match fuel with
  | O => []
  | S fuel' =>
      if of_nat start <? bound then start :: count_up (S start) bound fuel'
      else []
  end.

(** The same loop started at a number that is a [Math.floor] of a
    non-negative product: a whole number, or [NaN] or [Infinity], from which
    the loop does not run. *)
Definition range (start bound : F) (len : nat) : list nat :=
  match to_index start with
  | Some k => count_up k bound (len - k)
  | None => []
  end.

(** The length of [new Float64Array(n)] for a number [n], which is
    truncated: [NaN] and the numbers above [-1] below [0] give an empty
    array, a number at most [-1] is refused. *)
Definition Float64Array_length (n : F) : outcome nat :=
  if n <=? of_Z (-1) then Throw (RangeError "Invalid typed array length")
  else Ok (match to_index (floor n) with Some k => k | None => 0%nat end).

(** The sum of the times of the frames [rows], as the loop over [j] adds
    them up. *)
Definition sum_times (fullData : list Frame) (rows : list nat) : outcome F :=
  foldM (fun acc j =>
           frame <- item fullData j "Cannot read properties of undefined (reading 't')" ;;
           Ok (acc + frame_t frame))
        rows (of_Z 0).

(** The sum of the pressures of the block [rows] x [cols], as the two nested
    loops add them up. *)
Definition sum_block (fullData : list Frame) (rows cols : list nat) : outcome F :=
  foldM (fun acc j =>
           frame <- item fullData j "Cannot read properties of undefined (reading 'p')" ;;
           Ok (fold_left (fun a i => a + get (frame_p frame) i) cols acc))
        rows (of_Z 0).

(** [downsampleData(fullData)] of a diagram whose plot area is [plotWidth]
    by [plotHeight].  The loop over [iTarget] writes into an array of
    [Float64Array_length targetNx] slots and a write past its end is
    dropped, so the slots are what it leaves.  The last [console.log] reads
    [downsampled[0].p]. *)
Definition downsampleData (plotWidth plotHeight : F) (fullData : list Frame)
    : outcome (list Frame) :=
  first <- item fullData 0 "Cannot read properties of undefined (reading 'p')" ;;
  let fullNx := length (frame_p first) in
  let fullNt := length fullData in
  let targetNx := min plotWidth (of_nat fullNx) in
  let targetNt := min plotHeight (of_nat fullNt) in
  if (of_nat fullNx <=? targetNx) && (of_nat fullNt <=? targetNt) then Ok fullData
  else
    let spatialFactor := of_nat fullNx / targetNx in
    let temporalFactor := of_nat fullNt / targetNt in
    downsampled <-
      mapM (fun jTarget =>
              let jStart := floor (of_nat jTarget * temporalFactor) in
              let jEnd := min (floor (of_nat (jTarget + 1) * temporalFactor))
                              (of_nat fullNt) in
              let numTimeSteps := jEnd - jStart in
              slots <- Float64Array_length targetNx ;;
              let rows := range jStart jEnd fullNt in
              total <- sum_times fullData rows ;;
              let t := total / numTimeSteps in
              p <- mapM (fun iTarget =>
                           let iStart := floor (of_nat iTarget * spatialFactor) in
                           let iEnd := min (floor (of_nat (iTarget + 1) * spatialFactor))
                                           (of_nat fullNx) in
                           let cols := range iStart iEnd fullNx in
                           pSum <- sum_block fullData rows cols ;;
                           Ok (pSum / of_nat (length rows * length cols)))
                        (seq 0 slots) ;;
              Ok (mkFrame t p))
           (count_up 0 targetNt fullNt) ;;
    _ <- item downsampled 0 "Cannot read properties of undefined (reading 'p')" ;;
    Ok downsampled.

(** [infernoColormap(t)]: the entry of the table at [floor(t * (length - 1))]
    for [t] clamped to [[0, 1]]; reading a channel of an entry that is not
    there throws. *)
Definition infernoColormap (t : F) : outcome (Z * Z * Z) :=
  let t := max (of_Z 0) (min (of_Z 1) t) in
  let idx := floor (t * of_nat (length inferno - 1)) in
  match to_index idx with
  | Some k => item inferno k "Cannot read properties of undefined (reading '0')"
  | None => Throw (TypeError "Cannot read properties of undefined (reading '0')")
  end.

(** The colour [drawHeatmap] gives a pressure [p] of the diagram: [p] is
    normalised between [pMin] and [pMax], linearly or by [log10], and
    clamped to [[0, 1]] before the table is read. *)
Definition heatmap_color (log10 : F -> F) (useLogScale : bool) (pMin pMax p : F)
    : outcome (Z * Z * Z) :=
  let pNorm :=
    if useLogScale then (log10 p - log10 pMin) / (log10 pMax - log10 pMin)
    else (p - pMin) / (pMax - pMin) in
  let pNorm := max (of_Z 0) (min (of_Z 1) pNorm) in
  infernoColormap pNorm.

End XTVisualization.

Arguments Frame : clear implicits.

(** ** The gases and the mixtures of the calculator ([js/xt-mixture.js]) *)

(** An object whose keys are gas ids: reading a key, and writing one, which
    replaces the value of a key that is there. *)
Fixpoint table_get {A : Type} (t : list (string * A)) (key : string) : option A :=
  match t with
  | [] => None
  | (k, v) :: t' => if String.eqb k key then Some v else table_get t' key
  end.

Fixpoint table_set {A : Type} (t : list (string * A)) (key : string) (v : A)
    : list (string * A) :=
  match t with
  | [] => [(key, v)]
  | (k, v0) :: t' =>
      if String.eqb k key then (k, v) :: t' else (k, v0) :: table_set t' key v
  end.

Section Gases.
Context {F : Type} `{Number F}.
Local Open Scope js_scope.

(** An entry [{name, gamma, mw}] of the gas database. *)
Record Gas : Type := mkGas {
  gas_name : string;
  gas_gamma : F;
  gas_mw : F
}.

(** A custom gas [{id, name, gamma, mw}] as the local storage holds it, with
    numbers for [gamma] and [mw]. *)
Record StoredGas : Type := mkStoredGas {
  stored_id : string;
  stored_name : string;
  stored_gamma : F;
  stored_mw : F
}.

Definition GasDatabase : list (string * Gas) := [
  ("1", mkGas "Air" (lit 14020 10000) (lit 289660 10000));
  ("2", mkGas "Argon" (lit 16700 10000) (lit 39948000 1000000));
  ("3", mkGas "Carbon Dioxide" (lit 129700 100000) (lit 4401000 100000));
  ("4", mkGas "Helium" (lit 166700 100000) (lit 4002602000 1000000000));
  ("5", mkGas "Neon" (lit 166700 100000) (lit 20179700 1000000));
  ("6", mkGas "Nitrogen" (lit 140100 100000) (lit 280134000 10000000));
  ("7", mkGas "Xenon" (lit 166700 100000) (lit 13129000 100000));
  ("8", mkGas "Sulfur Hexafluoride" (lit 109200 100000) (lit 14606000 100000));
  ("9", mkGas "Helium-Neon" (lit 1668 1000) (lit 2198 100));
  ("10", mkGas "Acetone Vapor" (lit 114000 100000) (lit 5808000 100000))
]%string.

(** [loadCustomGases()]; [stored] is what [wistl_custom_gases] holds in the
    local storage, [None] when there is nothing or nothing that parses. *)
Definition loadCustomGases (stored : option (list StoredGas)) : list (string * Gas) :=
  match stored with
  | Some gases =>
      fold_left (fun customGases gas =>
                   table_set customGases (stored_id gas)
                     (mkGas (stored_name gas) (stored_gamma gas) (stored_mw gas)))
                gases []
  | None => []
  end.

(** [getAllGases()]: the database, then the custom gases over it. *)
Definition getAllGases (stored : option (list StoredGas)) : list (string * Gas) :=
  fold_left (fun allGases entry => table_set allGases (fst entry) (snd entry))
            (loadCustomGases stored) GasDatabase.

(** [getGasById(gasId)]; [None] is [null]. *)
Definition getGasById (stored : option (list StoredGas)) (gasId : string) : option Gas :=
  table_get (getAllGases stored) gasId.

(** A component [{gasId, fraction}] of a mixture; the gas id of a component
    for which no gas is selected is the empty string. *)
Record Component : Type := mkComponent {
  comp_gasId : string;
  comp_fraction : F
}.

(** [{gamma, mw}], what [calculateMixtureProperties] returns. *)
Record Mixture : Type := mkMixture {
  mix_gamma : F;
  mix_mw : F
}.

(** The loop that adds up the molecular weight; [None] when it returns
    [null] at a gas that is not found. *)
Fixpoint mixture_weight (allGases : list (string * Gas)) (components : list Component)
    (mw_mix : F) : option F :=
  match components with
  | [] => Some mw_mix
  | component :: rest =>
      match table_get allGases (comp_gasId component) with
      | None => None
      | Some gas =>
          mixture_weight allGases rest (mw_mix + comp_fraction component * gas_mw gas)
      end
  end.

(** The specific heats [(cv_mix, cp_mix)] after one more gas of mole
    fraction [x]. *)
Definition add_heats (heats : F * F) (x : F) (gas : Gas) : F * F :=
  let gamma := gas_gamma gas in
  let cv := of_Z 1 / (gamma - of_Z 1) in
  let cp := gamma * cv in
  (fst heats + x * cv, snd heats + x * cp).

(** [calculateMixtureProperties(components)]; [components] is [None] when
    it is [null] or [undefined], and the result [None] when it is [null].
    What is written to the console is left out. *)
Definition calculateMixtureProperties (stored : option (list StoredGas))
    (components : option (list Component)) : outcome (option Mixture) :=
  match components with
  | None | Some [] => Ok None
  | Some components =>
      let allGases := getAllGases stored in
      let totalFraction :=
        fold_left (fun sum c => sum + comp_fraction c) components (of_Z 0) in
      if abs (totalFraction - of_Z 1) >? lit 1 1000 then Ok None
      else
        match mixture_weight allGases components (of_Z 0) with
        | None => Ok None
        | Some mw_mix =>
            heats <- foldM (fun heats component =>
                              match table_get allGases (comp_gasId component) with
                              | Some gas => Ok (add_heats heats (comp_fraction component) gas)
                              | None => Throw (TypeError
                                  "Cannot read properties of undefined (reading 'gamma')")
                              end)
                           components (of_Z 0, of_Z 0) ;;
            Ok (Some (mkMixture (snd heats / fst heats) mw_mix))
        end
  end.

(** An entry [{gas, fraction}] of [validComponents]. *)
Record ValidComponent : Type := mkValidComponent {
  valid_gas : Gas;
  valid_fraction : F
}.

(** [{gamma, mw, components}], what [calculateXTMixtureProperties]
    returns. *)
Record XTMixture : Type := mkXTMixture {
  xt_gamma : F;
  xt_mw : F;
  xt_components : list ValidComponent
}.

(** The two errors [calculateXTMixtureProperties] throws; the message of
    the first one shows the total it carries. *)
Inductive MixtureError : Type :=
| FractionsNotOne (totalFraction : F)
| NoValidComponents.

Inductive attempt (A : Type) : Type :=
| Returned (a : A)
| Raised (e : MixtureError).

(** One turn of the loop that collects [(validComponents, totalFraction)].
    The fraction of a component is a number, which [parseFloat] gives back,
    but for the sign of a zero, which [|| 0] drops. *)
Definition collect_step (allGases : list (string * Gas))
    (acc : list ValidComponent * F) (comp : Component) : list ValidComponent * F :=
  let fraction :=
    if falsy (comp_fraction comp) then of_Z 0 else comp_fraction comp in
  if negb (String.eqb (comp_gasId comp) "") && (fraction >? of_Z 0) then
    match table_get allGases (comp_gasId comp) with
    | Some gas => (fst acc ++ [mkValidComponent gas fraction], snd acc + fraction)
    | None => acc
    end
  else acc.

Definition collect_valid (allGases : list (string * Gas)) (components : list Component)
    : list ValidComponent * F :=
  fold_left (collect_step allGases) components ([], of_Z 0).

(** [calculateXTMixtureProperties(slabId)] on the components
    [xtSlabMixtures[slabId]], [None] when there are none for the slab. *)
Definition calculateXTMixtureProperties (stored : option (list StoredGas))
    (components : option (list Component)) : attempt (option XTMixture) :=
  match components with
  | None | Some [] => Returned None
  | Some components =>
      let allGases := getAllGases stored in
      let (validComponents, totalFraction) := collect_valid allGases components in
      if abs (totalFraction - of_Z 1) >? lit 1 1000 then
        Raised _ (FractionsNotOne totalFraction)
      else if Nat.eqb (length validComponents) 0 then Raised _ NoValidComponents
      else
        let mw_mix :=
          fold_left (fun mw_mix c => mw_mix + valid_fraction c * gas_mw (valid_gas c))
                    validComponents (of_Z 0) in
        let heats :=
          fold_left (fun heats c => add_heats heats (valid_fraction c) (valid_gas c))
                    validComponents (of_Z 0, of_Z 0) in
        Returned (Some (mkXTMixture (snd heats / fst heats) mw_mix validComponents))
  end.

End Gases.

Arguments Gas : clear implicits.
Arguments StoredGas : clear implicits.
Arguments Component : clear implicits.
Arguments Mixture : clear implicits.
Arguments ValidComponent : clear implicits.
Arguments XTMixture : clear implicits.
Arguments MixtureError : clear implicits.
Arguments attempt : clear implicits.
Arguments Returned {F A} a.
Arguments Raised {F A} e.

(** ** A shock tube of two cells *)

(** Two slabs of one cell each, the left one at twice the pressure of the
    right one, of a gas in which sound travels at speed 2 in both: the gas
    of the left cell starts to move with the first step.  The final time 1
    is out of reach of a step. *)
Module ShockTube.
Local Open Scope R_scope.

Definition driver : Slab R :=
  mkSlab (Some "Driver"%string) 4 (831451 / 100) 2 1 1.

Definition driven : Slab R :=
  mkSlab (Some "Driven"%string) 4 (831451 / 100) 1 1 1.

Definition config (method name : string) : Config R :=
  mkConfig (Some 2%nat) None (Some 1) (Some method) (Some name) None.

(** The same tube on eight cells, four to a slab. *)
Definition fine (method name : string) : Config R :=
  mkConfig (Some 8%nat) None (Some 1) (Some method) (Some name) None.

End ShockTube.

(** The same tube in binary64. *)
Module ShockTube64.
Import F64.
Local Open Scope js_scope.

Definition driver : Slab float :=
  mkSlab (Some "Driver"%string) (of_Z 4) (lit 831451 100) (of_Z 2) (of_Z 1)
         (of_Z 1).

Definition driven : Slab float :=
  mkSlab (Some "Driven"%string) (of_Z 4) (lit 831451 100) (of_Z 1) (of_Z 1)
         (of_Z 1).

Definition config (method name : string) : Config float :=
  mkConfig (Some 2%nat) None (Some (of_Z 1)) (Some method) (Some name) None.

End ShockTube64.

(** ** A step that overflows *)

(** The gases of the README on fifteen cells of width 1, helium in the first
    three, with a CFL number of [2^500] and the final time and the interval
    of the snapshots at [2^1000]: the solver after one SSP step. *)
Module Overflow.
Import F64.
Local Open Scope js_scope.

Definition config (method : string) : Config float :=
  mkConfig (Some 15%nat) (Some 0x1p+500%float) (Some 0x1p+1000%float)
           (Some method) (Some "SSP"%string) (Some 0x1p+1000%float).

Definition run (method : string) : outcome (Solver float) :=
  s0 <- initialize (fst (EulerSolver (config method)))
          [Examples.helium; Examples.air; Examples.air] ;;
  steps 1 s0.

End Overflow.

(** * Properties *)

Unset Implicit Arguments.

(** ** Loops and arrays *)

Lemma tabulate_length {A : Type} (n : nat) (f : nat -> A) :
  length (tabulate n f) = n.
Proof. unfold tabulate. now rewrite length_map, length_seq. Qed.

Lemma tabulate_nth {A : Type} (n : nat) (f : nat -> A) (i : nat) (d : A) :
  (i < n)%nat -> nth i (tabulate n f) d = f i.
Proof.
  intros Hi. unfold tabulate.
  rewrite (nth_indep _ d (f 0%nat)) by now rewrite length_map, length_seq.
  rewrite map_nth. now rewrite seq_nth.
Qed.

Lemma tabulate_ext {A : Type} (n : nat) (f g : nat -> A) :
  (forall i, (i < n)%nat -> f i = g i) -> tabulate n f = tabulate n g.
Proof.
  intros Hfg. unfold tabulate. apply map_ext_in.
  intros i Hi. apply in_seq in Hi. apply Hfg. lia.
Qed.

Lemma tabulate2_length {A : Type} (n w : nat) (f : nat -> nat -> A) :
  length (tabulate2 n w f) = (n * w)%nat.
Proof.
  unfold tabulate2. generalize 0%nat as a.
  induction n as [|n IH]; intros a; simpl; [reflexivity|].
  rewrite length_app, tabulate_length, IH. reflexivity.
Qed.

Lemma tabulate2_nth {A : Type} (n w : nat) (f : nat -> nat -> A) (i k : nat) (d : A) :
  (i < n)%nat -> (k < w)%nat -> nth (i * w + k) (tabulate2 n w f) d = f i k.
Proof.
  unfold tabulate2.
  assert (G : forall a, (i < n)%nat -> (k < w)%nat ->
            nth (i * w + k)
              (flat_map (fun j => tabulate w (f j)) (seq a n)) d = f (a + i)%nat k).
  { revert i. induction n as [|n IH]; intros i a Hi Hk; [lia|].
    simpl. destruct i as [|i].
    - rewrite app_nth1 by (rewrite tabulate_length; lia).
      simpl. rewrite tabulate_nth by lia. now rewrite Nat.add_0_r.
    - rewrite app_nth2 by (rewrite tabulate_length; simpl; lia).
      rewrite tabulate_length.
      replace (S i * w + k - w)%nat with (i * w + k)%nat by (simpl; lia).
      rewrite IH by lia. f_equal. lia. }
  intros Hi Hk. now rewrite (G 0%nat Hi Hk).
Qed.

Lemma item_in_range {A : Type} (a : list A) (i : nat) (what : string) :
  (i < length a)%nat -> exists v, item a i what = Ok v /\ nth_error a i = Some v.
Proof.
  intros Hi. unfold item.
  destruct (nth_error a i) as [v|] eqn:E.
  - now exists v.
  - apply nth_error_None in E. lia.
Qed.

Lemma mapM_ok {A B : Type} (f : A -> outcome B) (g : A -> B) (l : list A) :
  (forall a, In a l -> f a = Ok (g a)) -> mapM f l = Ok (map g l).
Proof.
  induction l as [|a l IH]; intros Hf; simpl; [reflexivity|].
  rewrite (Hf a) by now left. simpl.
  rewrite IH by (intros b Hb; apply Hf; now right). reflexivity.
Qed.

(** Slot [i * w + k] of rows of [w] entries laid end to end. *)
Lemma rows_nth {A : Type} (n w : nat) (g : nat -> list A) (i k : nat) (d : A) :
  (forall j, (j < n)%nat -> length (g j) = w) ->
  (i < n)%nat -> (k < w)%nat ->
  nth (i * w + k) (flat_map g (seq 0 n)) d = nth k (g i) d.
Proof.
  assert (G : forall a, (forall j, (j < n)%nat -> length (g (a + j)%nat) = w) ->
            (i < n)%nat -> (k < w)%nat ->
            nth (i * w + k) (flat_map g (seq a n)) d = nth k (g (a + i)%nat) d).
  { revert i. induction n as [|n IH]; intros i a Hlen Hi Hk; [lia|].
    simpl. destruct i as [|i].
    - rewrite app_nth1.
      + simpl. now rewrite Nat.add_0_r.
      + specialize (Hlen 0%nat). rewrite Nat.add_0_r in Hlen. rewrite Hlen; lia.
    - assert (Ha : length (g a) = w).
      { specialize (Hlen 0%nat). rewrite Nat.add_0_r in Hlen. apply Hlen. lia. }
      rewrite app_nth2 by (rewrite Ha; simpl; lia).
      rewrite Ha.
      replace (S i * w + k - w)%nat with (i * w + k)%nat by (simpl; lia).
      rewrite IH; [f_equal; f_equal; lia | | lia | lia].
      intros j Hj. replace (S a + j)%nat with (a + S j)%nat by lia.
      apply Hlen. lia. }
  intros Hlen Hi Hk. now rewrite (G 0%nat Hlen Hi Hk).
Qed.

Lemma rows_length {A : Type} (n w : nat) (g : nat -> list A) :
  (forall j, (j < n)%nat -> length (g j) = w) ->
  length (flat_map g (seq 0 n)) = (n * w)%nat.
Proof.
  assert (G : forall a, (forall j, (j < n)%nat -> length (g (a + j)%nat) = w) ->
            length (flat_map g (seq a n)) = (n * w)%nat).
  { induction n as [|n IH]; intros a Hlen; simpl; [reflexivity|].
    rewrite length_app, IH.
    - specialize (Hlen 0%nat). rewrite Nat.add_0_r in Hlen. rewrite Hlen; lia.
    - intros j Hj. replace (S a + j)%nat with (a + S j)%nat by lia.
      apply Hlen. lia. }
  intros Hlen. now apply (G 0%nat).
Qed.

Lemma map_constant_seq {A : Type} (c : A) (a n : nat) :
  map (fun _ => c) (seq a n) = repeat c n.
Proof.
  revert a. induction n as [|n IH]; intros a; simpl; [reflexivity|].
  now rewrite IH.
Qed.

Lemma mapM_nth {A B : Type} (f : A -> outcome B) (l : list A) (found : list B) :
  mapM f l = Ok found ->
  forall k a, nth_error l k = Some a ->
  exists b, f a = Ok b /\ nth_error found k = Some b.
Proof.
  revert found. induction l as [|a0 l IH]; intros found Hm k a Hk.
  - destruct k; discriminate.
  - simpl in Hm. destruct (f a0) as [b0|e] eqn:E0; [|discriminate].
    simpl in Hm. destruct (mapM f l) as [bs|e]; [|discriminate].
    simpl in Hm. injection Hm as <-.
    destruct k as [|k]; simpl in *.
    + injection Hk as <-. now exists b0.
    + now apply IH.
Qed.

Lemma mapM_throws {A B : Type} (f : A -> outcome B) (l : list A) (e : JsError) :
  mapM f l = Throw e -> exists a, In a l /\ f a = Throw e.
Proof.
  induction l as [|a0 l IH]; intros Hm; [discriminate|].
  simpl in Hm. destruct (f a0) as [b0|e0] eqn:E0.
  - simpl in Hm. destruct (mapM f l) as [bs|e1]; [discriminate|].
    simpl in Hm. injection Hm as ->.
    destruct (IH eq_refl) as [a [Ha Hf]]. exists a. split; [now right | exact Hf].
  - simpl in Hm. injection Hm as ->. exists a0. split; [now left | exact E0].
Qed.

(** ** Exact arithmetic *)

(** The operations of [Exact.number], unfolded to those of [R]. *)
Ltac exact_ops :=
  cbn [of_Z NaN add sub mul div neg sqrt abs floor ceil ltb leb min max to_index
       Exact.number lit of_nat] in *.

Lemma exact_ltb_true (a b : R) : Exact.ltb a b = true <-> (a < b)%R.
Proof. unfold Exact.ltb. destruct (Rlt_dec a b); split; intros; try easy. Qed.

Lemma exact_ltb_false (a b : R) : Exact.ltb a b = false <-> (b <= a)%R.
Proof.
  unfold Exact.ltb. destruct (Rlt_dec a b); split; intros; try easy; lra.
Qed.

Lemma exact_leb_true (a b : R) : Exact.leb a b = true <-> (a <= b)%R.
Proof. unfold Exact.leb. destruct (Rle_dec a b); split; intros; try easy. Qed.

Lemma exact_leb_false (a b : R) : Exact.leb a b = false <-> (b < a)%R.
Proof.
  unfold Exact.leb. destruct (Rle_dec a b); split; intros; try easy; lra.
Qed.

(** Comparisons between numbers that linear arithmetic decides. *)
Ltac decide_exact :=
  repeat first
    [ match goal with
      | |- context [Exact.ltb ?a ?b] =>
          first [ rewrite (proj2 (exact_ltb_true a b)) by lra
                | rewrite (proj2 (exact_ltb_false a b)) by lra ]
      | |- context [Exact.leb ?a ?b] =>
          first [ rewrite (proj2 (exact_leb_true a b)) by lra
                | rewrite (proj2 (exact_leb_false a b)) by lra ]
      end
    | progress cbn [andb orb negb] ].

(** Tests between closed integers. *)
Ltac decide_Z :=
  repeat match goal with
         | |- context [Z.ltb ?a ?b] =>
             let v := eval vm_compute in (Z.ltb a b) in
             change (Z.ltb a b) with v
         | |- context [Z.of_nat ?n] =>
             let v := eval vm_compute in (Z.of_nat n) in
             change (Z.of_nat n) with v
         end.

(** The cell loop of [initialize] on given slabs, run to its end. *)
Ltac run_exact :=
  repeat (progress
    (cbn [assign_slabs advance_slab length nth_error andb item bind slab_length
          ShockTube.driver ShockTube.driven fst snd];
     exact_ops; decide_Z; decide_exact; cbv beta iota)).

Section ExactSums.
Local Open Scope R_scope.

Lemma sum_from (l : list R) (a : R) :
  fold_left Rplus l a = a + fold_left Rplus l 0.
Proof.
  revert a. induction l as [|b l IH]; intros a; simpl; [lra|].
  rewrite (IH (a + b)), (IH (0 + b)). lra.
Qed.

Lemma sum_cons (a : R) (l : list R) : sum (a :: l) = a + sum l.
Proof. unfold sum. exact_ops. simpl. rewrite sum_from. lra. Qed.

Lemma sum_nil : sum (@nil R) = 0.
Proof. reflexivity. Qed.

Lemma sum_nonneg (l : list R) :
  (forall a, In a l -> 0 <= a) -> 0 <= sum l.
Proof.
  induction l as [|b l IH]; intros Hl.
  - rewrite sum_nil. lra.
  - rewrite sum_cons.
    assert (0 <= b) by (apply Hl; now left).
    assert (0 <= sum l) by (apply IH; intros a Ha; apply Hl; now right).
    lra.
Qed.

Lemma entry_le_sum (l : list R) (a : R) :
  (forall b, In b l -> 0 <= b) -> In a l -> a <= sum l.
Proof.
  induction l as [|b l IH]; intros Hl Ha; [contradiction|].
  rewrite sum_cons.
  assert (0 <= b) by (apply Hl; now left).
  assert (0 <= sum l) by (apply sum_nonneg; intros c Hc; apply Hl; now right).
  destruct Ha as [<-|Ha]; [lra|].
  assert (a <= sum l) by (apply IH; [intros c Hc; apply Hl; now right | exact Ha]).
  lra.
Qed.

Lemma sum_scaled (l : list R) (c : R) :
  sum (map (fun a => a / c) l) = sum l / c.
Proof.
  induction l as [|b l IH]; simpl map.
  - rewrite sum_nil. unfold Rdiv. lra.
  - rewrite !sum_cons, IH. unfold Rdiv. lra.
Qed.

Lemma sum_constant {A : Type} (l : list A) (c : R) :
  sum (map (fun _ => c) l) = INR (length l) * c.
Proof.
  induction l as [|b l IH]; simpl map.
  - rewrite sum_nil. simpl. lra.
  - rewrite sum_cons, IH. simpl length. rewrite S_INR. lra.
Qed.

End ExactSums.

Section ExactTabulate.
Local Open Scope R_scope.

Lemma tabulate_succ {A : Type} (n : nat) (f : nat -> A) :
  tabulate (S n) f = tabulate n f ++ [f n].
Proof. unfold tabulate. now rewrite seq_S, map_app. Qed.

Lemma sum_app_one (l : list R) (a : R) : sum (l ++ [a]) = sum l + a.
Proof.
  induction l as [|b l IH]; simpl app.
  - rewrite sum_cons, sum_nil. lra.
  - rewrite !sum_cons, IH. lra.
Qed.

Lemma sum_tabulate_succ (n : nat) (f : nat -> R) :
  sum (tabulate (S n) f) = sum (tabulate n f) + f n.
Proof. now rewrite tabulate_succ, sum_app_one. Qed.

(** A sum of differences of neighbours. *)
Lemma sum_telescope (n : nat) (f g : nat -> R) (c : R) :
  sum (tabulate n (fun i => f i - c * (g (S i) - g i)))
  = sum (tabulate n f) - c * (g n - g 0%nat).
Proof.
  induction n as [|n IH].
  - unfold tabulate. simpl. rewrite sum_nil. lra.
  - rewrite !sum_tabulate_succ, IH. lra.
Qed.

Lemma sum_linear (n : nat) (f g h : nat -> R) (c1 c2 c3 : R) :
  sum (tabulate n (fun i => c1 * f i + c2 * g i + c3 * h i))
  = c1 * sum (tabulate n f) + c2 * sum (tabulate n g) + c3 * sum (tabulate n h).
Proof.
  induction n as [|n IH].
  - unfold tabulate. simpl. rewrite sum_nil. lra.
  - rewrite !sum_tabulate_succ, IH. lra.
Qed.

End ExactTabulate.

(** ** What the parts of a step leave alone *)

Section Frames.
Context {F : Type} `{Number F}.

Lemma stages_beside_buffers (s : Solver F) :
  beside_buffers (stages s) = beside_buffers s.
Proof. unfold stages. destruct (integrator s); reflexivity. Qed.

Lemma updateGasProperties_buffers (s s' : Solver F) :
  updateGasProperties s = Ok s' -> buffers s' = buffers s.
Proof.
  unfold updateGasProperties.
  destruct (String.eqb (interfaceMethod s) "mixed").
  - destruct (mapM _ _); [|discriminate]. cbn [bind]. intros E.
    injection E as <-. reflexivity.
  - destruct (String.eqb (interfaceMethod s) "ghost").
    + destruct (mapM _ _); [|discriminate]. cbn [bind]. intros E.
      injection E as <-. reflexivity.
    + destruct (mapM _ _); [|discriminate]. cbn [bind]. intros E.
      injection E as <-. reflexivity.
Qed.

Lemma updateGasProperties_keeps (s s' : Solver F) :
  updateGasProperties s = Ok s' ->
  rho s' = rho s /\ u s' = u s /\ p s' = p s /\ T s' = T s
  /\ xtData s' = xtData s /\ t s' = t s /\ nextXTStore s' = nextXTStore s
  /\ tracers s' = tracers s /\ timeSteps s' = timeSteps s.
Proof.
  unfold updateGasProperties.
  destruct (String.eqb (interfaceMethod s) "mixed").
  - destruct (mapM _ _); [|discriminate]. cbn [bind]. intros E.
    injection E as <-. repeat split; reflexivity.
  - destruct (String.eqb (interfaceMethod s) "ghost").
    + destruct (mapM _ _); [|discriminate]. cbn [bind]. intros E.
      injection E as <-. repeat split; reflexivity.
    + destruct (mapM _ _); [|discriminate]. cbn [bind]. intros E.
      injection E as <-. repeat split; reflexivity.
Qed.

Lemma updatePrimitives_rho (s : Solver F) :
  rho (updatePrimitives s) = tabulate (nx s) (fun i => get (U s) (i * 3)).
Proof.
  unfold updatePrimitives. cbn [rho set_rho]. unfold tabulate.
  rewrite map_map. reflexivity.
Qed.

(** [postStep] stores at most one snapshot, whose densities are those of
    the current buffer. *)
Lemma postStep_snapshot (s s' : Solver F) :
  postStep s = Ok s' ->
  xtData s' = xtData s
  \/ exists snap,
       xtData s' = xtData s ++ [snap]
       /\ snap_rho snap = tabulate (nx s) (fun i => get (U s) (i * 3)).
Proof.
  unfold postStep.
  set (a1 := set_timeSteps _ (set_t _ s)).
  assert (Hrho1 : rho (updateTracers (updatePrimitives a1))
                  = tabulate (nx s) (fun i => get (U s) (i * 3)))
    by exact (updatePrimitives_rho a1).
  assert (Hxt1 : xtData (updateTracers (updatePrimitives a1)) = xtData s)
    by reflexivity.
  generalize dependent (updateTracers (updatePrimitives a1)). intros a3 Hrho1 Hxt1.
  destruct (updateGasProperties a3) as [s2|e] eqn:E2; [|discriminate].
  cbn [bind]. apply updateGasProperties_keeps in E2.
  destruct E2 as [Hrho [_ [_ [_ [Hxt _]]]]].
  destruct (_ || _); intros E; injection E as <-.
  - right. eexists. split.
    + cbn [xtData set_nextXTStore storeXTData set_xtData].
      rewrite Hxt, Hxt1. reflexivity.
    + cbn [snap_rho]. congruence.
  - left. congruence.
Qed.

Lemma postStep_buffers (s s' : Solver F) :
  postStep s = Ok s' -> buffers s' = buffers s.
Proof.
  unfold postStep.
  destruct (updateGasProperties _) as [s2|e] eqn:E2; [|discriminate].
  cbn [bind]. apply updateGasProperties_buffers in E2.
  destruct (_ || _); intros E; injection E as <-.
  - etransitivity; [|exact E2]. reflexivity.
  - exact E2.
Qed.

Lemma postStep_keeps (s s' : Solver F) :
  postStep s = Ok s' ->
  U s' = U s /\ Un s' = Un s /\ Uk s' = Uk s /\ dt s' = dt s
  /\ nx s' = nx s /\ dx s' = dx s.
Proof.
  intros E. apply postStep_buffers in E. unfold buffers in E.
  injection E. intros. repeat split; assumption.
Qed.

Lemma tabulate_get (l : list F) : tabulate (length l) (get l) = l.
Proof.
  apply (nth_ext _ _ NaN NaN).
  - apply tabulate_length.
  - intros i Hi. rewrite tabulate_length in Hi. now rewrite tabulate_nth.
Qed.

Lemma get_tabulate (n : nat) (f : nat -> F) (i : nat) :
  (i < n)%nat -> get (tabulate n f) i = f i.
Proof. intros Hi. unfold get. now apply tabulate_nth. Qed.

(** The nested loop over cells and components, as one loop over slots. *)
Lemma tabulate2_flat {A : Type} (n w : nat) (f : nat -> nat -> A) :
  tabulate2 n w f = tabulate (n * w) (fun j => f (j / w)%nat (j mod w)%nat).
Proof.
  destruct w as [|w].
  - rewrite Nat.mul_0_r. unfold tabulate2, tabulate. simpl.
    induction (seq 0 n) as [|a l IH]; simpl; [reflexivity | exact IH].
  - destruct n as [|n]; [reflexivity|].
    apply (nth_ext _ _ (f 0%nat 0%nat) (f 0%nat 0%nat)).
    + now rewrite tabulate2_length, tabulate_length.
    + intros j Hj. rewrite tabulate2_length in Hj.
      rewrite tabulate_nth by exact Hj.
      rewrite (Nat.div_mod_eq j (S w)) at 1.
      rewrite (Nat.mul_comm (S w)).
      apply tabulate2_nth.
      * apply Nat.Div0.div_lt_upper_bound. lia.
      * apply Nat.mod_upper_bound. lia.
Qed.

Lemma updateConservative_flat (s : Solver F) (Uin : list F) (dt_ : F) :
  updateConservative s Uin dt_
  = tabulate (nx s * 3) (fun j =>
      sub (get Uin j)
          (mul (div dt_ (dx s)) (sub (get (flux s) (j + 3)) (get (flux s) j)))).
Proof.
  unfold updateConservative. rewrite tabulate2_flat.
  apply tabulate_ext. intros j Hj.
  assert (E : (j / 3 * 3 + j mod 3 = j)%nat).
  { rewrite (Nat.div_mod_eq j 3) at 3. lia. }
  replace ((j / 3 + 1) * 3 + j mod 3)%nat with (j + 3)%nat by lia.
  now rewrite E.
Qed.

(** The fluxes depend on the state, the gammas and the number of cells
    only. *)
Lemma refresh_fluxes_flux (a b : Solver F) :
  U a = U b -> gamma a = gamma b -> nx a = nx b ->
  flux (refresh_fluxes a) = flux (refresh_fluxes b).
Proof.
  intros HU Hg Hn. unfold refresh_fluxes, computeFluxes.
  cbn [fst flux set_flux]. rewrite Hn. f_equal.
  apply tabulate_ext. intros i _.
  unfold interface_flux, interface_states. now rewrite HU, Hg, Hn.
Qed.

End Frames.

(** ** The integrator factory *)

(** C2 (as stated, refuted): for the unrecognized name ["Euler"] construction
    signals no error; the factory returns an [RK2Integrator] and writes a
    warning to the console. *)
Lemma unknown_integrator_is_no_error :
  IntegratorFactory_create "Euler"
  = (RK2Integrator,
     [console_warn "Unknown integrator: Euler, defaulting to RK2"])
  /\ integrator (fst (EulerSolver (Examples.config3 None "Euler"))) = RK2Integrator.
Proof. split; reflexivity. Qed.

(** C2 (amended): for every integrator name other than ['RK2'] and ['SSP'],
    [IntegratorFactory.create] returns an [RK2Integrator] and writes the
    warning "Unknown integrator: <name>, defaulting to RK2" to the console;
    the constructor passes a non-empty name to the factory as it is, and
    replaces an empty one by ['RK2'] before the call, with no warning. *)
Theorem unknown_integrator_defaults_to_RK2 (name : string) :
  name <> "RK2"%string -> name <> "SSP"%string ->
  IntegratorFactory_create name
  = (RK2Integrator,
     [console_warn ("Unknown integrator: " ++ name ++ ", defaulting to RK2")%string])
  /\ forall (F : Type) (N : Number F) (config : Config F),
       config_integrator config = Some name ->
       integrator (fst (EulerSolver config)) = RK2Integrator
       /\ snd (EulerSolver config)
          = match name with
            | EmptyString => []
            | _ => [console_warn
                      ("Unknown integrator: " ++ name ++ ", defaulting to RK2")%string]
            end.
Proof.
  intros Hrk2 Hssp.
  assert (Hcreate : IntegratorFactory_create name
            = (RK2Integrator,
               [console_warn ("Unknown integrator: " ++ name
                              ++ ", defaulting to RK2")%string])).
  { unfold IntegratorFactory_create.
    destruct (String.eqb_spec name "RK2"); [contradiction|].
    destruct (String.eqb_spec name "SSP"); [contradiction|]. reflexivity. }
  split; [exact Hcreate|].
  intros F N config Hname. unfold EulerSolver. cbn [fst snd integrator].
  rewrite Hname. destruct name as [|c rest].
  - cbn. split; reflexivity.
  - cbn [string_or_default]. rewrite Hcreate. split; reflexivity.
Qed.

Lemma unknown_integrator_defaults_to_RK2_witness :
  IntegratorFactory_create "Euler"
  = (RK2Integrator,
     [console_warn ("Unknown integrator: " ++ "Euler" ++ ", defaulting to RK2")%string]).
Proof.
  apply (unknown_integrator_defaults_to_RK2 "Euler"%string); discriminate.
Defined.

(** ** initialize *)

Section Initialize.
Context {F : Type} `{Number F}.

Lemma advance_slab_in_range (n : nat) (slabs : list (Slab F)) (c pos : F) (k : nat) :
  (k < length slabs)%nat ->
  (snd (advance_slab n slabs c pos k) < length slabs)%nat.
Proof.
  revert pos k. induction n as [|n IH]; intros pos k Hk; simpl; [exact Hk|].
  destruct (nth_error slabs k) as [slab|]; [|exact Hk].
  destruct ((Z.of_nat k <? Z.of_nat (length slabs) - 1)%Z
            && leb (add pos (slab_length slab)) c) eqn:E; [|exact Hk].
  apply andb_prop in E. destruct E as [E _]. apply Z.ltb_lt in E.
  apply IH. lia.
Qed.

Lemma assign_slabs_ok (slabs : list (Slab F)) (centers : list F) (pos : F) (k : nat) :
  (k < length slabs)%nat ->
  exists chosen, assign_slabs slabs centers pos k = Ok chosen
                 /\ length chosen = length centers.
Proof.
  revert pos k. induction centers as [|c rest IH]; intros pos k Hk; simpl.
  - now exists [].
  - pose proof (advance_slab_in_range (length slabs) slabs c pos k Hk) as Hin.
    destruct (advance_slab (length slabs) slabs c pos k) as [pos' k'].
    simpl in Hin.
    destruct (item_in_range slabs k'
                "Cannot read properties of undefined (reading 'gamma')" Hin)
      as [slab [Hitem _]].
    rewrite Hitem. simpl.
    destruct (IH pos' k' Hin) as [more [Hmore Hlen]].
    rewrite Hmore. simpl. exists (slab :: more). split; [reflexivity|].
    simpl. now rewrite Hlen.
Qed.

Lemma initialize_nonempty (s : Solver F) (slab : Slab F) (slabs : list (Slab F)) :
  exists s', initialize s (slab :: slabs) = Ok s'.
Proof.
  unfold initialize.
  match goal with
  | |- context [assign_slabs ?l ?c ?p ?k] =>
      destruct (assign_slabs_ok l c p k) as [chosen [Hchosen _]];
      [simpl; lia | rewrite Hchosen]
  end.
  simpl. eexists. reflexivity.
Qed.

Lemma constructor_nx_positive (config : Config F) :
  (0 < nx (fst (EulerSolver config)))%nat.
Proof.
  unfold EulerSolver. cbn [fst nx].
  destruct (config_nx config) as [[|n]|]; lia.
Qed.

Lemma initialize_empty (s : Solver F) :
  (0 < nx s)%nat ->
  initialize s []
  = Throw (TypeError "Cannot read properties of undefined (reading 'gamma')").
Proof.
  intros Hnx. unfold initialize. cbn [x set_x set_dx nx].
  destruct (nx s) as [|n]; [lia|]. reflexivity.
Qed.

End Initialize.

(** C1 (as stated, refuted): [initialize] completes on a slab list whose only
    slab has [gamma = 1], [mw = 0], [pressure = -5], [temperature = 0] and
    [length = -2], each of them outside what the solver can compute with. *)
Lemma initialize_accepts_invalid_slab :
  (F64.number.(leb) (slab_gamma Examples.invalid_slab) (F64.number.(of_Z) 1),
   F64.number.(leb) (slab_mw Examples.invalid_slab) (F64.number.(of_Z) 0),
   F64.number.(leb) (slab_pressure Examples.invalid_slab) (F64.number.(of_Z) 0),
   F64.number.(leb) (slab_temperature Examples.invalid_slab) (F64.number.(of_Z) 0),
   F64.number.(leb) (slab_length Examples.invalid_slab) (F64.number.(of_Z) 0))
  = (true, true, true, true, true)
  /\ exists s',
       initialize (fst (EulerSolver (Examples.config3 None "RK2")))
                  [Examples.invalid_slab] = Ok s'.
Proof. split; [reflexivity|]. vm_compute. eexists. reflexivity. Qed.

(** C1 (amended): [initialize] validates nothing.  On every non-empty slab
    list it completes, whatever the gamma, molecular weight, pressure,
    temperature and length of the slabs; on the empty list it fails, with the
    [TypeError] of reading a property of the undefined [slabs[0]], raised in
    the loop over the cells. *)
Theorem initialize_validates_nothing :
  forall (F : Type) (N : Number F) (config : Config F),
    (forall (slab : Slab F) (slabs : list (Slab F)),
        exists s', initialize (fst (EulerSolver config)) (slab :: slabs) = Ok s')
    /\ initialize (fst (EulerSolver config)) []
       = Throw (TypeError "Cannot read properties of undefined (reading 'gamma')").
Proof.
  intros F N config. split.
  - intros slab slabs. apply initialize_nonempty.
  - apply initialize_empty, constructor_nx_positive.
Qed.

(** ** Determinism of a run *)

Section Determinism.
Context {F : Type} `{Number F}.

(** The solver the loop of [run] ends with does not depend on what
    [Date.now()] returns, nor on whether a progress callback was passed. *)
Lemma run_loop_ignores_clock (fuel : nat) (clock1 clock2 : nat -> Z)
    (cb1 cb2 : bool) (s : Solver F) :
  forall (k1 k2 : nat) (last1 last2 : Z) (rep1 rep2 : list F),
    option_map (outcome_map (fun r => fst (fst r)))
      (run_loop fuel clock1 cb1 k1 last1 rep1 s)
    = option_map (outcome_map (fun r => fst (fst r)))
        (run_loop fuel clock2 cb2 k2 last2 rep2 s).
Proof.
  revert s. induction fuel as [|fuel IH]; intros s k1 k2 last1 last2 rep1 rep2.
  - simpl. destruct (ltb (t s) (finalTime s)); reflexivity.
  - simpl. destruct (ltb (t s) (finalTime s)); [|reflexivity].
    destruct (step s) as [[s' d]|e]; [|reflexivity].
    destruct (cb1 && (100 <? clock1 k1 - last1)%Z),
             (cb2 && (100 <? clock2 k2 - last2)%Z); apply IH.
Qed.

Lemma run_ignores_clock (fuel : nat) (clock1 clock2 : nat -> Z)
    (cb1 cb2 : bool) (s : Solver F) :
  final_solver (run fuel clock1 cb1 s) = final_solver (run fuel clock2 cb2 s).
Proof.
  unfold run, final_solver.
  pose proof (run_loop_ignores_clock fuel clock1 clock2 cb1 cb2 s
                1%nat 1%nat (clock1 0%nat) (clock2 0%nat) [] []) as E.
  destruct (run_loop fuel clock1 cb1 1 (clock1 0%nat) [] s) as [[[[a1 r1] n1]|e1]|],
           (run_loop fuel clock2 cb2 1 (clock2 0%nat) [] s) as [[[[a2 r2] n2]|e2]|];
    simpl in *; congruence.
Qed.

End Determinism.

(** C10: two runs with the same configuration (slabs, nx, CFL, final time,
    snapshot interval, integrator, interface method) and the same bound on the
    number of steps end with the same solver, hence the same snapshot
    sequence, whatever [Date.now()] returns during each of them and whether
    or not a progress callback is passed.  Over [float] the equality is that
    of binary64 values. *)
Theorem run_is_deterministic :
  forall (F : Type) (N : Number F) (fuel : nat) (clock1 clock2 : nat -> Z)
         (cb1 cb2 : bool) (config : Config F) (slabs : list (Slab F)),
    final_solver (simulate fuel clock1 cb1 config slabs)
    = final_solver (simulate fuel clock2 cb2 config slabs)
    /\ snapshots (simulate fuel clock1 cb1 config slabs)
       = snapshots (simulate fuel clock2 cb2 config slabs).
Proof.
  intros F N fuel clock1 clock2 cb1 cb2 config slabs.
  assert (E : final_solver (simulate fuel clock1 cb1 config slabs)
              = final_solver (simulate fuel clock2 cb2 config slabs)).
  { unfold simulate.
    destruct (initialize (fst (EulerSolver config)) slabs) as [s|e];
      [apply run_ignores_clock | reflexivity]. }
  split; [exact E|].
  unfold final_solver, snapshots in *.
  destruct (simulate fuel clock1 cb1 config slabs) as [[r1|e1]|],
           (simulate fuel clock2 cb2 config slabs) as [[r2|e2]|];
    simpl in *; congruence.
Qed.

(** ** Steps never fail *)

Section StepsComplete.
Context {F : Type} `{Number F}.

Lemma tables_stages (s : Solver F) : tables (stages s) = tables s.
Proof. unfold stages. destruct (integrator s); reflexivity. Qed.

Lemma ready_tables (s s' : Solver F) : tables s' = tables s -> ready s -> ready s'.
Proof.
  unfold tables, ready. intros E. injection E as -> -> -> -> ->. tauto.
Qed.

Lemma clamp_region_in_range (s : Solver F) (k : nat) :
  regions s <> [] -> (clamp_region s k < length (regions s))%nat.
Proof.
  intros Hne. unfold clamp_region.
  destruct (regions s) as [|r rs]; [contradiction|]. simpl length. lia.
Qed.

(** The loop of the sharp and ghost methods finds a region for every cell. *)
Lemma regions_found (s : Solver F) (positions : list F) (cells : list nat) :
  regions s <> [] ->
  exists found,
    mapM (fun i =>
            item (regions s)
              (clamp_region s (scan_region (get (x s) i) positions 0 0))
              "Cannot read properties of undefined (reading 'gamma')")
         cells = Ok found.
Proof.
  intros Hne. induction cells as [|i cells [found IH]]; simpl.
  - now exists [].
  - destruct (item_in_range (regions s)
                (clamp_region s (scan_region (get (x s) i) positions 0 0))
                "Cannot read properties of undefined (reading 'gamma')"
                (clamp_region_in_range s _ Hne)) as [r [Hr _]].
    rewrite Hr, IH. simpl. now exists (r :: found).
Qed.

(** The accumulation over the materials completes, and the dominant
    material it ends with is one of those visited, or the initial one. *)
Lemma mixture_loop_ok (s : Solver F) (cellIdx : nat) (ms : list nat) (acc : MixAcc F)
    (bound : nat) :
  materialFractions s <> None ->
  (forall m, In m ms -> (m < length (materialProperties s))%nat) ->
  (forall m, In m ms -> (m < bound)%nat) ->
  (dominantMaterial acc < bound)%nat ->
  exists acc', foldM (mixture_step s cellIdx) ms acc = Ok acc'
               /\ (dominantMaterial acc' < bound)%nat.
Proof.
  intros Hfr. revert acc. induction ms as [|m ms IH]; intros acc Hin Hb Hd; simpl.
  - now exists acc.
  - unfold mixture_step at 1. unfold fraction_at.
    destruct (materialFractions s) as [fr|]; [|contradiction]. simpl.
    destruct (item_in_range (materialProperties s) m
                "Cannot read properties of undefined (reading 'gamma')"
                (Hin m (or_introl eq_refl))) as [pr [Hpr _]].
    rewrite Hpr. simpl.
    apply IH.
    + intros m' Hm'. apply Hin. now right.
    + intros m' Hm'. apply Hb. now right.
    + simpl. destruct (ltb (maxFraction acc) (get fr (cellIdx * numMaterials s + m)));
        simpl; [apply Hb; now left | exact Hd].
Qed.

Lemma computeMixtureProperties_ok (s : Solver F) (cellIdx : nat) :
  materialFractions s <> None -> materialProperties s <> [] ->
  (numMaterials s <= length (materialProperties s))%nat ->
  exists r, computeMixtureProperties s cellIdx = Ok r.
Proof.
  intros Hfr Hne Hlen. unfold computeMixtureProperties.
  assert (Hpos : (0 < length (materialProperties s))%nat)
    by (destruct (materialProperties s); [contradiction | simpl; lia]).
  destruct (mixture_loop_ok s cellIdx (seq 0 (numMaterials s))
              (mkMixAcc (of_Z 0) (of_Z 0) (of_Z 0) 0%nat (of_Z 0))
              (length (materialProperties s)) Hfr) as [acc [Hacc Hd]].
  - intros m Hm. apply in_seq in Hm. lia.
  - intros m Hm. apply in_seq in Hm. lia.
  - exact Hpos.
  - rewrite Hacc. cbn [bind].
    destruct (ltb (lit 1 10000000000) (totalFraction acc)); cbn [bind].
    + cbn [dominantMaterial].
      destruct (item_in_range (materialProperties s) (dominantMaterial acc)
                  "Cannot read properties of undefined (reading 'gasId')" Hd)
        as [d [Hitem _]].
      rewrite Hitem. cbn [bind]. eexists. reflexivity.
    + destruct (item_in_range (materialProperties s) 0
                  "Cannot read properties of undefined (reading 'gamma')" Hpos)
        as [d0 [Hitem0 _]].
      rewrite Hitem0. cbn [bind dominantMaterial].
      destruct (item_in_range (materialProperties s) 0
                  "Cannot read properties of undefined (reading 'gasId')" Hpos)
        as [d [Hitem _]].
      rewrite Hitem. cbn [bind]. eexists. reflexivity.
Qed.

Lemma mixtures_found (s : Solver F) (cells : list nat) :
  materialFractions s <> None -> materialProperties s <> [] ->
  (numMaterials s <= length (materialProperties s))%nat ->
  exists found, mapM (computeMixtureProperties s) cells = Ok found.
Proof.
  intros Hfr Hne Hlen. induction cells as [|i cells [found IH]]; simpl.
  - now exists [].
  - destruct (computeMixtureProperties_ok s i Hfr Hne Hlen) as [r Hr].
    rewrite Hr, IH. simpl. now exists (r :: found).
Qed.

Lemma updateGasProperties_ok (s : Solver F) :
  ready s ->
  exists s', updateGasProperties s = Ok s' /\ tables s' = tables s.
Proof.
  intros [Hreg Hmix]. unfold updateGasProperties.
  destruct (String.eqb_spec (interfaceMethod s) "mixed") as [Em|Em].
  - destruct (Hmix Em) as [Hfr [Hne Hlen]].
    destruct (mixtures_found s (seq 0 (nx s)) Hfr Hne Hlen) as [found Hf].
    rewrite Hf. cbn [bind]. eexists. split; reflexivity.
  - destruct (String.eqb (interfaceMethod s) "ghost").
    + destruct (regions_found (identifyInterfaceCells s)
                  (sort_positions (map (@tracer_x F) (tracers (identifyInterfaceCells s))))
                  (seq 0 (nx (identifyInterfaceCells s))) Hreg) as [found Hf].
      rewrite Hf. cbn [bind]. eexists. split; reflexivity.
    + destruct (regions_found s (sort_positions (map (@tracer_x F) (tracers s)))
                  (seq 0 (nx s)) Hreg) as [found Hf].
      rewrite Hf. cbn [bind]. eexists. split; reflexivity.
Qed.

Lemma postStep_ok (s : Solver F) :
  ready s -> exists s', postStep s = Ok s' /\ tables s' = tables s.
Proof.
  intros Hr. unfold postStep.
  set (s1 := updateTracers _).
  assert (Ht1 : tables s1 = tables s) by reflexivity.
  destruct (updateGasProperties_ok s1 (ready_tables _ _ Ht1 Hr)) as [s2 [H2 Ht2]].
  rewrite H2. cbn [bind].
  destruct (_ || _); eexists; (split; [reflexivity|]).
  - change (tables s2 = tables s). congruence.
  - congruence.
Qed.

Lemma step_ok (s : Solver F) :
  ready s -> exists s', step s = Ok (s', dt s') /\ ready s'.
Proof.
  intros Hr.
  assert (E : step s = (s' <- postStep (stages s) ;; Ok (s', dt s')))
    by (unfold step, stages; destruct (integrator s); reflexivity).
  destruct (postStep_ok (stages s)
              (ready_tables _ _ (tables_stages s) Hr)) as [s' [Hs' Ht]].
  exists s'. rewrite E, Hs'. split; [reflexivity|].
  apply (ready_tables s); [|exact Hr]. rewrite Ht. apply tables_stages.
Qed.

Lemma steps_ok (n : nat) (s : Solver F) :
  ready s -> exists s', steps n s = Ok s' /\ ready s'.
Proof.
  revert s. induction n as [|n IH]; intros s Hr; simpl.
  - now exists s.
  - destruct (step_ok s Hr) as [s1 [H1 Hr1]]. rewrite H1. cbn [bind fst].
    now apply IH.
Qed.

Lemma initialize_ready (s s' : Solver F) (slab : Slab F) (slabs : list (Slab F)) :
  initialize s (slab :: slabs) = Ok s' -> ready s'.
Proof.
  unfold initialize.
  match goal with
  | |- context [assign_slabs ?l ?c ?p ?k] =>
      destruct (assign_slabs l c p k) as [chosen|e]; [|discriminate]
  end.
  cbn [bind]. intros E. injection E as <-.
  unfold ready, initialize_mixed.
  cbn [interfaceMethod set_tracers set_regions set_U set_gasId set_mw set_gamma
       set_x set_dx].
  destruct (String.eqb_spec (interfaceMethod s) "mixed") as [Em|Em].
  - split; [discriminate|]. intros _.
    repeat split; try discriminate.
    change (length (slab :: slabs) <= length (map (@region_of_slab F) (slab :: slabs)))%nat.
    now rewrite length_map.
  - split; [discriminate|]. intros Em'. exfalso. apply Em. exact Em'.
Qed.

End StepsComplete.

(** C3 (as stated, refuted): in the scenario of the README on three cells
    with a CFL number of 3, the first step leaves a negative pressure in cell
    2 and fails with nothing; the second step computes with it and completes
    as well, leaving [NaN] in every density and in the time, and so does the
    third. *)
Lemma negative_pressure_goes_undetected :
  outcome_map (fun s => ltb (get (p s) 2) (of_Z 0)) (Examples.overshoot 1) = Ok true
  /\ outcome_map (fun s => (map is_nan (rho s), is_nan (t s))) (Examples.overshoot 2)
     = Ok ([true; true; true], true)
  /\ outcome_map (fun s => (map is_nan (rho s), is_nan (t s))) (Examples.overshoot 3)
     = Ok ([true; true; true], true).
Proof. repeat split; vm_compute; reflexivity. Qed.

(** C3 (amended): the solver detects no non-physical state.  From every
    solver [initialize] returns, on any non-empty slab list and for any
    configuration, any number of steps of either integrator completes
    without an exception, whatever densities and pressures the updates
    produce; what the arithmetic yields is stored and read by the next
    step. *)
Theorem steps_never_fail :
  forall (F : Type) (N : Number F) (config : Config F)
         (slab : Slab F) (slabs : list (Slab F)) (n : nat),
  exists s0 s',
    initialize (fst (EulerSolver config)) (slab :: slabs) = Ok s0
    /\ steps n s0 = Ok s'.
Proof.
  intros F N config slab slabs n.
  destruct (initialize_nonempty (fst (EulerSolver config)) slab slabs) as [s0 H0].
  destruct (steps_ok n s0 (initialize_ready _ _ _ _ H0)) as [s' [Hs' _]].
  now exists s0, s'.
Qed.

(** ** The step size *)

Section StepSize.
Local Open Scope R_scope.

(** C4: in exact arithmetic, for [maxWaveSpeed > 0], let [dt0] be
    [CFL*dx/maxWaveSpeed] clamped so that [t + dt0] does not exceed
    [finalTime], and [r = nextXTStore - t].  Unless [0 < r < 2.5*dt0],
    [calculateTimeStep] returns [dt0]; if [0 < r < 2.5*dt0], it returns
    [r / ceil(r/dt0)], which is positive, at most [dt0], and [ceil(r/dt0)]
    (an integer, at least 1) times it is exactly [r]. *)
Theorem calculateTimeStep_policy (s : Solver R) (maxWaveSpeed : R) :
  0 < maxWaveSpeed ->
  let dt0 := Rmin (cfl s * dx s / maxWaveSpeed) (finalTime s - t s) in
  let r := nextXTStore s - t s in
  t s + dt0 <= finalTime s
  /\ (~ (0 < r < 25 / 10 * dt0) -> calculateTimeStep s maxWaveSpeed = dt0)
  /\ (0 < r < 25 / 10 * dt0 ->
      let n := Zceil (r / dt0) in
      calculateTimeStep s maxWaveSpeed = r / IZR n
      /\ (1 <= n)%Z
      /\ 0 < calculateTimeStep s maxWaveSpeed <= dt0
      /\ IZR n * calculateTimeStep s maxWaveSpeed = r).
Proof.
  intros _ dt0 r.
  assert (Hclamp : (if Exact.ltb (finalTime s) (t s + cfl s * dx s / maxWaveSpeed)
                    then finalTime s - t s
                    else cfl s * dx s / maxWaveSpeed) = dt0).
  { unfold dt0, Rmin.
    destruct (Exact.ltb _ _) eqn:E;
      [apply exact_ltb_true in E | apply exact_ltb_false in E];
      destruct (Rle_dec _ _); lra. }
  assert (Hcalc : calculateTimeStep s maxWaveSpeed
                  = if Exact.ltb 0 r && Exact.ltb r (25 / 10 * dt0)
                    then r / Rmax 1 (IZR (Zceil (r / dt0)))
                    else dt0).
  { unfold calculateTimeStep. exact_ops. rewrite Hclamp. reflexivity. }
  split; [unfold dt0, Rmin; destruct (Rle_dec _ _); lra|].
  split.
  - intros Hfar. rewrite Hcalc.
    destruct (Exact.ltb 0 r) eqn:E1; [|reflexivity].
    destruct (Exact.ltb r (25 / 10 * dt0)) eqn:E2; [|reflexivity].
    apply exact_ltb_true in E1, E2. exfalso. apply Hfar. lra.
  - intros [Hr Hnear] n.
    assert (Hdt : 0 < dt0) by lra.
    assert (Hq : 0 < r / dt0) by (apply Rdiv_lt_0_compat; lra).
    pose proof (Zceil_bound (r / dt0)) as [_ Hup]. fold n in Hup.
    assert (Hn : (1 <= n)%Z).
    { assert (Hpos : 0 < IZR n) by lra. apply lt_IZR in Hpos. lia. }
    assert (Hn1 : 1 <= IZR n) by (apply IZR_le in Hn; exact Hn).
    assert (E : calculateTimeStep s maxWaveSpeed = r / IZR n).
    { rewrite Hcalc.
      rewrite (proj2 (exact_ltb_true 0 r) Hr).
      rewrite (proj2 (exact_ltb_true r (25 / 10 * dt0)) Hnear).
      cbn [andb]. fold n. rewrite Rmax_right by exact Hn1. reflexivity. }
    rewrite E.
    split; [reflexivity|]. split; [exact Hn|].
    split; [split|].
    + apply Rdiv_lt_0_compat; lra.
    + apply (Rmult_le_reg_r (IZR n)); [lra|].
      unfold Rdiv at 1. rewrite Rmult_assoc, Rinv_l by lra. rewrite Rmult_1_r.
      apply (Rmult_le_compat_l dt0) in Hup; [|lra].
      unfold Rdiv in Hup. rewrite (Rmult_comm r), <- Rmult_assoc, Rinv_r in Hup by lra.
      lra.
    + field. lra.
Qed.

Lemma calculateTimeStep_policy_witness :
  0 < calculateTimeStep ExactExamples.near_snapshot 4000 <= 1 / 10000.
Proof.
  assert (Hw : 0 < 4000) by lra.
  pose proof (calculateTimeStep_policy ExactExamples.near_snapshot 4000 Hw)
    as [_ [_ Hnear]].
  assert (Hdt0 : Rmin (cfl ExactExamples.near_snapshot
                       * dx ExactExamples.near_snapshot / 4000)
                      (finalTime ExactExamples.near_snapshot
                       - t ExactExamples.near_snapshot) = 1 / 10000).
  { cbn. unfold Rmin. destruct (Rle_dec _ _); lra. }
  rewrite Hdt0 in Hnear.
  destruct Hnear as [_ [_ [Hbounds _]]]; [cbn; lra | exact Hbounds].
Defined.

End StepSize.

(** ** The material fractions *)

Section Fractions.
Local Open Scope R_scope.

Lemma clamp_row_bounds (row : list R) (a : R) :
  In a (clamp_row row) -> 0 <= a <= 1.
Proof.
  unfold clamp_row. intros Ha. apply in_map_iff in Ha.
  destruct Ha as [b [<- _]]. exact_ops.
  unfold Rmax, Rmin. repeat destruct (Rle_dec _ _); lra.
Qed.

(** A renormalized row has its entries in [[0, 1]] and sums to 1. *)
Lemma renormalize_row_normalized (s : Solver R) (clamped : list R) :
  (0 < numMaterials s)%nat -> length clamped = numMaterials s ->
  (forall a, In a clamped -> 0 <= a <= 1) ->
  (forall a, In a (renormalize_row s clamped) -> 0 <= a <= 1)
  /\ sum (renormalize_row s clamped) = 1.
Proof.
  intros Hn Hlen Hc. unfold renormalize_row. exact_ops.
  assert (HN : 1 <= INR (numMaterials s)).
  { change 1 with (INR 1). apply le_INR. lia. }
  destruct (Exact.ltb (1 / 10000000000) (sum clamped)) eqn:E.
  - apply exact_ltb_true in E.
    assert (Hpos : 0 < sum clamped) by lra.
    split.
    + intros a Ha. apply in_map_iff in Ha. destruct Ha as [b [<- Hb]].
      assert (0 <= b) by (apply Hc; exact Hb).
      assert (b <= sum clamped)
        by (apply entry_le_sum; [intros c Hin; apply Hc; exact Hin | exact Hb]).
      split.
      * apply Rmult_le_pos; [lra|]. left. now apply Rinv_0_lt_compat.
      * apply (Rmult_le_reg_r (sum clamped)); [exact Hpos|].
        unfold Rdiv. rewrite Rmult_assoc, Rinv_l by lra. lra.
    + rewrite sum_scaled. field. lra.
  - rewrite <- INR_IZR_INZ. split.
    + intros a Ha. apply in_map_iff in Ha. destruct Ha as [b [<- _]].
      split.
      * apply Rmult_le_pos; [lra|]. left. apply Rinv_0_lt_compat. lra.
      * apply (Rmult_le_reg_r (INR (numMaterials s))); [lra|].
        unfold Rdiv. rewrite Rmult_assoc, Rinv_l by lra. lra.
    + rewrite sum_constant, Hlen. field. lra.
Qed.

Lemma renormalize_row_uniform (s : Solver R) (clamped : list R) :
  sum clamped <= 1 / 10000000000 ->
  renormalize_row s clamped
  = map (fun _ => 1 / INR (numMaterials s)) clamped.
Proof.
  intros Hsmall. unfold renormalize_row. exact_ops.
  rewrite (proj2 (exact_ltb_false _ _) Hsmall).
  now rewrite <- INR_IZR_INZ.
Qed.

Lemma advected_row_length (s : Solver R) (fractions mflux : list R) (dt_ : R)
    (i : nat) :
  length (advected_row s fractions mflux dt_ i) = numMaterials s.
Proof.
  unfold advected_row, renormalize_row, clamp_row, updated_row.
  destruct (ltb _ _); now rewrite !length_map, tabulate_length.
Qed.

Lemma row_of_rows (n w : nat) (g : nat -> list R) (rest : list R) (i : nat) :
  (forall j, (j < n)%nat -> length (g j) = w) -> (i < n)%nat ->
  row_of w (flat_map g (seq 0 n) ++ rest) i = g i.
Proof.
  intros Hlen Hi. unfold row_of.
  apply (nth_ext _ _ 0 0).
  - now rewrite tabulate_length, Hlen.
  - intros k Hk. rewrite tabulate_length in Hk.
    rewrite tabulate_nth by exact Hk. unfold get.
    rewrite app_nth1.
    + rewrite (nth_indep _ NaN 0).
      * now apply rows_nth.
      * rewrite (rows_length n w g Hlen). nia.
    + rewrite (rows_length n w g Hlen). nia.
Qed.

(** C5: in exact arithmetic, in the mixed method, [advectMaterialFractions]
    completes and leaves a material fraction table every row of which (one
    per cell) has its entries in [[0, 1]] and sums to 1, so within [1e-9] of
    1; a row whose clamped entries sum to at most the threshold [1e-10] is
    reset to the uniform distribution [1/numMaterials]. *)
Theorem advected_rows_normalized (s : Solver R) (fractions : list R) (dt_ : R) :
  interfaceMethod s = "mixed"%string ->
  materialFractions s = Some fractions ->
  materialFlux s <> None ->
  (0 < numMaterials s)%nat ->
  length fractions = (nx s * numMaterials s)%nat ->
  exists s' fractions',
    advectMaterialFractions s dt_ = Ok s'
    /\ materialFractions s' = Some fractions'
    /\ forall i, (i < nx s)%nat ->
         let row := row_of (numMaterials s) fractions' i in
         (forall a, In a row -> 0 <= a <= 1)
         /\ sum row = 1
         /\ Rabs (sum row - 1) <= 1 / 1000000000
         /\ (sum (clamped_row s fractions dt_ i) <= 1 / 10000000000 ->
             row = repeat (1 / INR (numMaterials s)) (numMaterials s)).
Proof.
  intros Hmixed Hfr Hflux Hn Hlen.
  unfold advectMaterialFractions. rewrite Hfr, Hmixed. cbn [String.eqb negb].
  change (String.eqb "mixed" "mixed") with true. cbn [negb].
  destruct (materialFlux s) as [old|]; [|contradiction]. cbn [bind].
  set (mflux := tabulate2 (nx s + 1) (numMaterials s) (material_flux s fractions)).
  set (alphaNew := flat_map (advected_row s fractions mflux dt_) (seq 0 (nx s))).
  assert (Hrows : forall j, (j < nx s)%nat ->
            length (advected_row s fractions mflux dt_ j) = numMaterials s)
    by (intros j _; apply advected_row_length).
  assert (HlenNew : length alphaNew = (nx s * numMaterials s)%nat)
    by (apply rows_length; exact Hrows).
  unfold typed_array_set. rewrite HlenNew, Hlen, Nat.leb_refl. cbn [bind].
  eexists. eexists. split; [reflexivity|]. split; [reflexivity|].
  intros i Hi. unfold alphaNew.
  rewrite (row_of_rows (nx s) (numMaterials s) _ _ i Hrows Hi).
  unfold advected_row.
  destruct (renormalize_row_normalized s
              (clamp_row (updated_row s fractions mflux dt_ i)) Hn) as [Hb Hs].
  - unfold clamp_row, updated_row. now rewrite length_map, tabulate_length.
  - apply clamp_row_bounds.
  - split; [exact Hb|]. split; [exact Hs|]. split.
    + rewrite Hs. replace (1 - 1) with 0 by lra. rewrite Rabs_R0. lra.
    + intros Hsmall. unfold clamped_row in Hsmall. fold mflux in Hsmall.
      rewrite renormalize_row_uniform by exact Hsmall.
      unfold clamp_row, updated_row, tabulate. rewrite !map_map.
      apply map_constant_seq.
Qed.

End Fractions.

(** ** The sharp and the ghost method *)

Section SortedPositions.
Context {F : Type} `{Number F}.

Lemma insert_position_in (a b : F) (l : list F) :
  In a (insert_position b l) <-> a = b \/ In a l.
Proof.
  induction l as [|c l IH]; simpl.
  - intuition congruence.
  - destruct (ltb (of_Z 0) (sub b c)); simpl; rewrite ?IH; intuition congruence.
Qed.

Lemma sort_positions_in (a : F) (l : list F) :
  In a (sort_positions l) <-> In a l.
Proof.
  induction l as [|b l IH]; simpl; [tauto|].
  rewrite insert_position_in, IH. intuition congruence.
Qed.

Lemma insert_position_perm (b : F) (l : list F) :
  Permutation (b :: l) (insert_position b l).
Proof.
  induction l as [|c l IH]; simpl; [reflexivity|].
  destruct (ltb (of_Z 0) (sub b c)); [|reflexivity].
  rewrite perm_swap. now apply perm_skip.
Qed.

Lemma sort_positions_perm (l : list F) : Permutation l (sort_positions l).
Proof.
  induction l as [|b l IH]; simpl; [reflexivity|].
  rewrite <- insert_position_perm. now apply perm_skip.
Qed.

Lemma filter_length_perm (f : F -> bool) (l l' : list F) :
  Permutation l l' -> length (filter f l) = length (filter f l').
Proof.
  induction 1 as [|a l l' _ IH|a b l|l l' l'' _ IH1 _ IH2]; simpl.
  - reflexivity.
  - destruct (f a); simpl; now rewrite IH.
  - destruct (f a), (f b); reflexivity.
  - now rewrite IH1.
Qed.

(** The scan counts the positions below the center that come first. *)
Lemma scan_region_leading (c : F) (l : list F) (j : nat) :
  scan_region c l j j
  = (j + length (filter (fun position => ltb position c) l))%nat
  \/ exists before position after,
       l = before ++ position :: after
       /\ ltb position c = false
       /\ scan_region c l j j = (j + length before)%nat
       /\ forall q, In q before -> ltb q c = true.
Proof.
  revert j. induction l as [|a l IH]; intros j; simpl.
  - left. lia.
  - destruct (ltb a c) eqn:E.
    + replace (j + 1)%nat with (S j) by lia.
      destruct (IH (S j)) as [IHl | [before [q [after [-> [Hq [Hs Hb]]]]]]].
      * left. rewrite IHl. simpl. lia.
      * right. exists (a :: before), q, after. repeat split; auto.
        -- rewrite Hs. simpl. lia.
        -- intros q' [<-|Hq']; auto.
    + right. exists [], a, l. repeat split; auto; try lia.
Qed.

End SortedPositions.

Section SortedReals.
Local Open Scope R_scope.

Lemma insert_position_sorted (b : R) (l : list R) :
  StronglySorted Rle l -> StronglySorted Rle (insert_position b l).
Proof.
  induction 1 as [|c l Hl IH Hc]; simpl.
  - constructor; constructor.
  - exact_ops. destruct (Exact.ltb 0 (b - c)) eqn:E.
    + apply exact_ltb_true in E. constructor; [exact IH|].
      apply Forall_forall. intros q Hq.
      apply insert_position_in in Hq. destruct Hq as [->|Hq]; [lra|].
      rewrite Forall_forall in Hc. now apply Hc.
    + apply exact_ltb_false in E. constructor.
      * now constructor.
      * constructor; [lra|].
        rewrite Forall_forall in Hc |- *. intros q Hq.
        specialize (Hc q Hq). lra.
Qed.

Lemma sort_positions_sorted (l : list R) : StronglySorted Rle (sort_positions l).
Proof.
  induction l as [|b l IH]; simpl; [constructor|].
  now apply insert_position_sorted.
Qed.

Lemma sorted_suffix (before after : list R) :
  StronglySorted Rle (before ++ after) -> StronglySorted Rle after.
Proof.
  induction before as [|b before IH]; simpl; intros Hs; [exact Hs|].
  inversion Hs; subst. now apply IH.
Qed.

Lemma none_below (c : R) (l : list R) :
  (forall y, In y l -> c <= y) ->
  filter (fun position => Exact.ltb position c) l = [].
Proof.
  induction l as [|r l IH]; intros Hl; [reflexivity|].
  simpl. rewrite (proj2 (exact_ltb_false r c)) by (apply Hl; now left).
  apply IH. intros y Hy. apply Hl. now right.
Qed.

(** Over a sorted list the scan counts all the positions below the center. *)
Lemma scan_region_counts (c : R) (l : list R) :
  StronglySorted Rle l ->
  scan_region c l 0 0
  = length (filter (fun position => Exact.ltb position c) l).
Proof.
  intros Hs.
  destruct (scan_region_leading c l 0)
    as [E | [before [q [after [-> [Hq [E Hb]]]]]]]; [exact E|].
  rewrite E. simpl. exact_ops.
  rewrite filter_app, length_app.
  assert (Hall : filter (fun position => Exact.ltb position c) before = before).
  { apply forallb_filter_id. apply forallb_forall. exact Hb. }
  assert (Hnone : filter (fun position => Exact.ltb position c) (q :: after) = []).
  { apply exact_ltb_false in Hq.
    apply sorted_suffix in Hs.
    inversion Hs as [|? ? Hs' Hall']; subst.
    rewrite Forall_forall in Hall'.
    apply none_below. intros y [<-|Hy]; [exact Hq|].
    specialize (Hall' y Hy). lra. }
  rewrite Hall, Hnone. simpl. lia.
Qed.

Lemma scan_region_count_below (s : Solver R) (i : nat) :
  scan_region (get (x s) i) (sort_positions (map (@tracer_x R) (tracers s))) 0 0
  = count_below s i.
Proof.
  rewrite scan_region_counts by apply sort_positions_sorted.
  unfold count_below. symmetry. apply filter_length_perm, sort_positions_perm.
Qed.

End SortedReals.

Section GhostAndSharp.
Context {F : Type} `{Number F}.

Lemma sharp_is_region_loop (s : Solver F) :
  updateGasProperties (with_method "sharp" s)
  = (found <- region_loop s ;; Ok (assign_regions found (with_method "sharp" s))).
Proof. reflexivity. Qed.

Lemma ghost_is_region_loop (s : Solver F) :
  updateGasProperties (with_method "ghost" s)
  = (found <- region_loop s ;;
     Ok (assign_regions found (identifyInterfaceCells (with_method "ghost" s)))).
Proof. reflexivity. Qed.

Lemma interface_cells_marked (s : Solver F) (i : nat) :
  In i (interfaceCells (identifyInterfaceCells s))
  <-> (i < nx s)%nat
      /\ exists tracer, In tracer (tracers s)
                        /\ near_tracer s i (tracer_x tracer) = true.
Proof.
  unfold identifyInterfaceCells. cbn [interfaceCells set_interfaceCells].
  rewrite filter_In, in_seq, existsb_exists. split.
  - intros [Hi [position [Hin Hnear]]]. split; [lia|].
    apply sort_positions_in, in_map_iff in Hin.
    destruct Hin as [tracer [<- Hin]]. now exists tracer.
  - intros [Hi [tracer [Hin Hnear]]]. split; [lia|].
    exists (tracer_x tracer). split; [|exact Hnear].
    apply sort_positions_in, in_map_iff. now exists tracer.
Qed.

(** One call under the ghost method against one under the sharp method, on
    the same solver. *)
Lemma ghost_agrees_with_sharp (s : Solver F) :
  match updateGasProperties (with_method "sharp" s),
        updateGasProperties (with_method "ghost" s) with
  | Ok a, Ok b =>
      gamma b = gamma a /\ mw b = mw a /\ gasId b = gasId a
      /\ b = set_interfaceCells (interfaceCells b) (with_method "ghost" a)
      /\ a = set_gamma (gamma a)
               (set_mw (mw a) (set_gasId (gasId a) (with_method "sharp" s)))
      /\ forall i,
           In i (interfaceCells b)
           <-> (i < nx s)%nat
               /\ exists tracer, In tracer (tracers s)
                                 /\ near_tracer s i (tracer_x tracer) = true
  | Throw e1, Throw e2 => e1 = e2
  | _, _ => False
  end.
Proof.
  rewrite sharp_is_region_loop, ghost_is_region_loop.
  destruct (region_loop s) as [found|e]; cbn [bind]; [|reflexivity].
  do 5 (split; [reflexivity|]).
  intros i. apply (interface_cells_marked (with_method "ghost" s)).
Qed.

End GhostAndSharp.

(** Under the sharp method every cell takes the properties of the region
    whose index is the number of tracers strictly below its center, clamped
    to the range of [regions]; the call fails only with no region at all. *)
Lemma sharp_region_is_count (s : Solver R) :
  match updateGasProperties (with_method "sharp" s) with
  | Ok a =>
      forall i, (i < nx s)%nat ->
      exists region,
        nth_error (regions s) (clamp_region s (count_below s i)) = Some region
        /\ nth_error (gamma a) i = Some (region_gamma region)
        /\ nth_error (mw a) i = Some (region_mw region)
        /\ nth_error (gasId a) i = Some (region_gasId region)
  | Throw _ => regions s = [] /\ (0 < nx s)%nat
  end.
Proof.
  rewrite sharp_is_region_loop.
  destruct (region_loop s) as [found|e] eqn:E; cbn [bind].
  - intros i Hi. unfold region_loop in E.
    destruct (mapM_nth _ _ _ E i i) as [region [Hitem Hfound]].
    { rewrite nth_error_nth' with (d := 0%nat) by (rewrite length_seq; exact Hi).
      now rewrite seq_nth. }
    rewrite scan_region_count_below in Hitem.
    exists region. unfold item in Hitem.
    destruct (nth_error (regions s) (clamp_region s (count_below s i)))
      as [r|] eqn:En; [|discriminate].
    injection Hitem as ->.
    cbn [gamma mw gasId assign_regions set_gamma set_mw set_gasId].
    repeat split; try (apply map_nth_error; exact Hfound).
  - unfold region_loop in E. apply mapM_throws in E.
    destruct E as [i [Hi Hthrow]]. apply in_seq in Hi.
    split; [|lia].
    destruct (regions s) as [|r rs] eqn:Er; [reflexivity|].
    exfalso. unfold item in Hthrow.
    match type of Hthrow with
    | context [nth_error ?l ?k] =>
        destruct (nth_error l k) eqn:En; [discriminate|]
    end.
    apply nth_error_None in En.
    pose proof (clamp_region_in_range s
                  (scan_region (get (x s) i)
                     (sort_positions (map (@tracer_x R) (tracers s))) 0 0)) as Hc.
    rewrite Er in Hc. specialize (Hc ltac:(discriminate)). lia.
Qed.

Section NearCells.
Local Open Scope R_scope.

Lemma Rmin_lt_iff (a b c : R) : Rmin a b < c <-> a < c \/ b < c.
Proof. unfold Rmin. destruct (Rle_dec a b); lra. Qed.

Lemma Rmax_lt_iff (a b c : R) : Rmax a b < c <-> a < c /\ b < c.
Proof. unfold Rmax. destruct (Rle_dec a b); lra. Qed.

Lemma Rabs_lt_iff (a c : R) : Rabs a < c <-> - c < a < c.
Proof. unfold Rabs. destruct (Rcase_abs a); lra. Qed.

(** With the center of the cell at its midpoint, the test of
    [identifyInterfaceCells] holds when the tracer is less than 1.5 cell
    widths away from the cell, and only then. *)
Lemma near_tracer_distance (s : Solver R) (i : nat) (position : R) :
  get (x s) i = (INR i + 1 / 2) * dx s ->
  near_tracer s i position = true
  <-> distance_to_cell s i position < 15 / 10 * dx s.
Proof.
  intros Hc. unfold near_tracer, distance_to_cell. rewrite Hc. exact_ops.
  rewrite exact_ltb_true, <- !INR_IZR_INZ, plus_INR. change (INR 1) with 1.
  replace ((INR i + 1) * dx s) with (INR i * dx s + dx s) by ring.
  replace ((INR i + 1 / 2) * dx s) with (INR i * dx s + dx s / 2) by field.
  set (a := INR i * dx s). clearbody a. generalize (dx s) as d. intros d.
  rewrite !Rmin_lt_iff, !Rmax_lt_iff, !Rabs_lt_iff. lra.
Qed.

(** The cells the ghost method marks on a grid of midpoints. *)
Lemma ghost_marks_near_cells (s : Solver R) :
  centered s ->
  match updateGasProperties (with_method "ghost" s) with
  | Ok b =>
      forall i,
        In i (interfaceCells b)
        <-> (i < nx s)%nat
            /\ exists tracer, In tracer (tracers s)
                 /\ distance_to_cell s i (tracer_x tracer) < 15 / 10 * dx s
  | Throw _ => regions s = [] /\ (0 < nx s)%nat
  end.
Proof.
  intros Hc.
  pose proof (ghost_agrees_with_sharp s) as H.
  pose proof (sharp_region_is_count s) as Hs.
  destruct (updateGasProperties (with_method "sharp" s)) as [a|e1];
    destruct (updateGasProperties (with_method "ghost" s)) as [b|e2];
    try contradiction; [|exact Hs].
  destruct H as [_ [_ [_ [_ [_ H]]]]]. intros i. rewrite H. split.
  - intros [Hi [tracer [Hin Hn]]]. split; [exact Hi|]. exists tracer.
    split; [exact Hin|]. now apply near_tracer_distance; [apply Hc|].
  - intros [Hi [tracer [Hin Hn]]]. split; [exact Hi|]. exists tracer.
    split; [exact Hin|]. now apply near_tracer_distance; [apply Hc|].
Qed.

End NearCells.

(** C6 (as stated, refuted): in binary64 the region of a cell is not always
    the one the count of the tracer positions below its center gives.  On
    the tube of the README with fifteen cells and a CFL number of [2^500]
    the first SSP step overflows in the first four cells and leaves the
    tracers at [NaN] and 9.  The sort keeps that order, the comparator
    returning [NaN]; the scan of [updateGasProperties] stops at the [NaN],
    and every cell gets region 0, the helium, under the sharp and under the
    ghost method alike, while one tracer position, 9, lies strictly below
    the centers of the last six cells, whose region by the count is region
    1, the air. *)
Lemma NaN_tracer_stops_the_scan_in_binary64 :
  outcome_map
    (fun s =>
       (map (fun tracer => is_nan (tracer_x tracer)) (tracers s),
        length (regions s),
        map (fun i => clamp_region s (count_below s i)) (seq 0 (nx s)),
        map (fun method =>
               outcome_map
                 (fun a =>
                    (map (fun g => PrimFloat.eqb g (lit 1667 1000)) (gamma a),
                     map (fun i =>
                            match nth_error (regions s)
                                    (clamp_region s (count_below s i)) with
                            | Some region =>
                                PrimFloat.eqb (get (gamma a) i)
                                              (region_gamma region)
                            | None => false
                            end) (seq 0 (nx s))))
                 (updateGasProperties (with_method method s)))
            ["sharp"%string; "ghost"%string]))
    (Overflow.run "ghost")
  = Ok ([true; false], 3%nat,
        repeat 0%nat 9 ++ repeat 1%nat 6,
        [Ok (repeat true 15, repeat true 9 ++ repeat false 6);
         Ok (repeat true 15, repeat true 9 ++ repeat false 6)]).
Proof. vm_compute. reflexivity. Qed.

(** C6 (amended): on every solver, in every number model, one call of
    [updateGasProperties] under the ghost method assigns to every cell the
    gamma, molecular weight and gas id that a call under the sharp method
    assigns (both fail, alike, only when there is no region): the solver the
    ghost call returns is the one the sharp call returns but for
    [interfaceCells], which holds the cells the test of
    [identifyInterfaceCells] accepts for some tracer, and the sharp call
    changes nothing but the three per-cell arrays.  In exact arithmetic the
    region of a cell is the one whose index is the number of tracer
    positions strictly below the cell center, clamped to a valid index; and,
    on a grid whose cell centers are the midpoints of the cells, the cells
    the ghost call records are the cells less than 1.5 cell widths away from
    a tracer: the cells [i] with a tracer whose distance to the interval
    from [i dx] to [(i + 1) dx] is below [1.5 dx]. *)
Theorem ghost_refines_sharp :
  (forall (F : Type) (N : Number F) (s : Solver F),
     match updateGasProperties (with_method "sharp" s),
           updateGasProperties (with_method "ghost" s) with
     | Ok a, Ok b =>
         gamma b = gamma a /\ mw b = mw a /\ gasId b = gasId a
         /\ b = set_interfaceCells (interfaceCells b) (with_method "ghost" a)
         /\ a = set_gamma (gamma a)
                  (set_mw (mw a) (set_gasId (gasId a) (with_method "sharp" s)))
         /\ forall i,
              In i (interfaceCells b)
              <-> (i < nx s)%nat
                  /\ exists tracer, In tracer (tracers s)
                                    /\ near_tracer s i (tracer_x tracer) = true
     | Throw e1, Throw e2 => e1 = e2
     | _, _ => False
     end)
  /\ (forall s : Solver R,
        match updateGasProperties (with_method "sharp" s) with
        | Ok a =>
            forall i, (i < nx s)%nat ->
            exists region,
              nth_error (regions s) (clamp_region s (count_below s i)) = Some region
              /\ nth_error (gamma a) i = Some (region_gamma region)
              /\ nth_error (mw a) i = Some (region_mw region)
              /\ nth_error (gasId a) i = Some (region_gasId region)
        | Throw _ => regions s = [] /\ (0 < nx s)%nat
        end)
  /\ (forall s : Solver R,
        centered s ->
        match updateGasProperties (with_method "ghost" s) with
        | Ok b =>
            forall i,
              In i (interfaceCells b)
              <-> (i < nx s)%nat
                  /\ exists tracer,
                       In tracer (tracers s)
                       /\ (distance_to_cell s i (tracer_x tracer)
                           < 15 / 10 * dx s)%R
        | Throw _ => regions s = [] /\ (0 < nx s)%nat
        end).
Proof.
  split; [|split].
  - intros F N s. apply ghost_agrees_with_sharp.
  - apply sharp_region_is_count.
  - apply ghost_marks_near_cells.
Qed.

(** ** The SSP step *)

Section SSP.
Local Open Scope R_scope.

(** A forward Euler update and the move half way towards it: the state
    advanced by half a step of [L]. *)
Lemma euler_half (s a : Solver R) :
  nx a = nx s -> dx a = dx s ->
  flux a = flux (refresh_fluxes (set_U (U a) s)) ->
  U (half_way (forward_euler a))
  = tabulate (nx s * 3) (fun j => get (U a) j + dt a / 2 * get (L s (U a)) j).
Proof.
  intros Hn Hd Hf. unfold half_way, forward_euler.
  cbn [U Uk nx set_U set_Uk]. rewrite updateConservative_flat, Hn, Hd.
  apply tabulate_ext. intros j Hj.
  rewrite get_tabulate by exact Hj.
  unfold L. rewrite get_tabulate by exact Hj. rewrite <- Hf.
  exact_ops. unfold Rdiv. generalize (/ dx s) as idx. intros idx. field.
Qed.

(** A forward Euler update blended with the saved state, weights 2/3, 1/6
    and 1/6. *)
Lemma euler_blend (s a : Solver R) :
  nx a = nx s -> dx a = dx s ->
  flux a = flux (refresh_fluxes (set_U (U a) s)) ->
  U (blend_with_saved (forward_euler a))
  = tabulate (nx s * 3) (fun j =>
      2 / 3 * get (Un a) j + 1 / 3 * get (U a) j + dt a / 6 * get (L s (U a)) j).
Proof.
  intros Hn Hd Hf. unfold blend_with_saved, forward_euler.
  cbn [U Un Uk nx set_U set_Uk]. rewrite updateConservative_flat, Hn, Hd.
  apply tabulate_ext. intros j Hj.
  rewrite get_tabulate by exact Hj.
  unfold L. rewrite get_tabulate by exact Hj. rewrite <- Hf.
  exact_ops. unfold Rdiv. generalize (/ dx s) as idx. intros idx. field.
Qed.

(** A forward Euler update averaged with the state it started from. *)
Lemma euler_average (s a : Solver R) :
  nx a = nx s -> dx a = dx s ->
  flux a = flux (refresh_fluxes (set_U (U a) s)) ->
  U (average_with_work (forward_euler a))
  = tabulate (nx s * 3) (fun j => get (U a) j + dt a / 2 * get (L s (U a)) j).
Proof.
  intros Hn Hd Hf. unfold average_with_work, forward_euler.
  cbn [U Uk nx set_U set_Uk]. rewrite updateConservative_flat, Hn, Hd.
  apply tabulate_ext. intros j Hj.
  rewrite get_tabulate by exact Hj.
  unfold L. rewrite get_tabulate by exact Hj. rewrite <- Hf.
  exact_ops. unfold Rdiv. generalize (/ dx s) as idx. intros idx. field.
Qed.

Lemma fluxes_of_state (s a : Solver R) :
  gamma a = gamma s -> nx a = nx s ->
  flux (refresh_fluxes a) = flux (refresh_fluxes (set_U (U a) s)).
Proof. intros Hg Hn. now apply refresh_fluxes_flux. Qed.

(** What the stages keep of the solver they start from. *)
Lemma SSP_stage1_scheme (s : Solver R) :
  U (SSP_stage1 s)
  = tabulate (nx s * 3) (fun j =>
      get (U s) j + dt (begin_step s) / 2 * get (L s (U s)) j)
  /\ nx (SSP_stage1 s) = nx s /\ dx (SSP_stage1 s) = dx s
  /\ gamma (SSP_stage1 s) = gamma s
  /\ dt (SSP_stage1 s) = dt (begin_step s)
  /\ Un (SSP_stage1 s) = tabulate (nx s * 3) (get (U s)).
Proof.
  split; [|repeat split; reflexivity].
  apply (euler_half s (save_state (begin_step s))); [reflexivity | reflexivity |].
  apply (fluxes_of_state s s); reflexivity.
Qed.

Lemma SSP_stage2_scheme (s a : Solver R) :
  nx a = nx s -> dx a = dx s -> gamma a = gamma s ->
  U (SSP_stage2 a)
  = tabulate (nx s * 3) (fun j => get (U a) j + dt a / 2 * get (L s (U a)) j)
  /\ nx (SSP_stage2 a) = nx s /\ dx (SSP_stage2 a) = dx s
  /\ gamma (SSP_stage2 a) = gamma s
  /\ dt (SSP_stage2 a) = dt a /\ Un (SSP_stage2 a) = Un a.
Proof.
  intros Hn Hd Hg. split; [|repeat split; assumption || reflexivity].
  apply (euler_half s (refresh_fluxes a)); [exact Hn | exact Hd |].
  apply (fluxes_of_state s a); assumption.
Qed.

Lemma SSP_stage3_scheme (s a : Solver R) :
  nx a = nx s -> dx a = dx s -> gamma a = gamma s ->
  U (SSP_stage3 a)
  = tabulate (nx s * 3) (fun j =>
      2 / 3 * get (Un a) j + 1 / 3 * get (U a) j + dt a / 6 * get (L s (U a)) j)
  /\ nx (SSP_stage3 a) = nx s /\ dx (SSP_stage3 a) = dx s
  /\ gamma (SSP_stage3 a) = gamma s
  /\ dt (SSP_stage3 a) = dt a /\ Un (SSP_stage3 a) = Un a.
Proof.
  intros Hn Hd Hg. split; [|repeat split; assumption || reflexivity].
  apply (euler_blend s (refresh_fluxes a)); [exact Hn | exact Hd |].
  apply (fluxes_of_state s a); assumption.
Qed.

Lemma SSP_stage4_scheme (s a : Solver R) :
  nx a = nx s -> dx a = dx s -> gamma a = gamma s ->
  U (SSP_stage4 a)
  = tabulate (nx s * 3) (fun j => get (U a) j + dt a / 2 * get (L s (U a)) j)
  /\ dt (SSP_stage4 a) = dt a /\ Un (SSP_stage4 a) = Un a.
Proof.
  intros Hn Hd Hg. split; [|repeat split; reflexivity].
  apply (euler_average s (refresh_fluxes a)); [exact Hn | exact Hd |].
  apply (fluxes_of_state s a); assumption.
Qed.

(** The four stages of [SSPIntegrator.step] compute SSPRK(4,3). *)
Lemma SSP_stages_scheme (s : Solver R) :
  length (U s) = (nx s * 3)%nat ->
  U (SSP_stages s) = SSPRK43 s (dt (begin_step s)) (U s)
  /\ Un (SSP_stages s) = U s
  /\ dt (SSP_stages s) = calculateTimeStep s (snd (computeFluxes s)).
Proof.
  intros Hlen. unfold SSP_stages.
  destruct (SSP_stage1_scheme s) as [H1 [Hn1 [Hd1 [Hg1 [Ht1 Hs1]]]]].
  rewrite <- Hlen, tabulate_get in Hs1.
  generalize dependent (SSP_stage1 s). intros s1 H1 Hn1 Hd1 Hg1 Ht1 Hs1.
  destruct (SSP_stage2_scheme s s1 Hn1 Hd1 Hg1) as [H2 [Hn2 [Hd2 [Hg2 [Ht2 Hs2]]]]].
  generalize dependent (SSP_stage2 s1). intros s2 H2 Hn2 Hd2 Hg2 Ht2 Hs2.
  destruct (SSP_stage3_scheme s s2 Hn2 Hd2 Hg2) as [H3 [Hn3 [Hd3 [Hg3 [Ht3 Hs3]]]]].
  generalize dependent (SSP_stage3 s2). intros s3 H3 Hn3 Hd3 Hg3 Ht3 Hs3.
  destruct (SSP_stage4_scheme s s3 Hn3 Hd3 Hg3) as [H4 [Ht4 Hs4]].
  rewrite Ht1 in Ht2. rewrite Ht2 in Ht3. rewrite Ht3 in Ht4.
  rewrite Hs1 in Hs2. rewrite Hs2 in Hs3. rewrite Hs3 in Hs4.
  rewrite Ht1, H1 in H2. rewrite Hs2, Ht2, H2 in H3. rewrite Ht3, H3 in H4.
  split; [|split].
  - rewrite H4. reflexivity.
  - exact Hs4.
  - rewrite Ht4. reflexivity.
Qed.

(** The buffer [initialize] fills has three slots per cell. *)
Lemma assign_slabs_length (slabs : list (Slab R)) (centers : list R) (pos : R)
    (k : nat) (chosen : list (Slab R)) :
  assign_slabs slabs centers pos k = Ok chosen -> length chosen = length centers.
Proof.
  revert pos k chosen. induction centers as [|c rest IH]; intros pos k chosen.
  - cbn [assign_slabs]. intros E. now injection E as <-.
  - cbn [assign_slabs].
    destruct (advance_slab (length slabs) slabs c pos k) as [pos' k'].
    destruct (item slabs k' _) as [slab|e]; [|discriminate]. cbn [bind].
    destruct (assign_slabs slabs rest pos' k') as [more|e] eqn:E; [|discriminate].
    cbn [bind]. intros E'. injection E' as <-. cbn [length].
    now rewrite (IH _ _ _ E).
Qed.

Lemma initialize_buffer (s s' : Solver R) (slabs : list (Slab R)) :
  initialize s slabs = Ok s' ->
  length (U s') = (nx s' * 3)%nat /\ nx s' = nx s.
Proof.
  unfold initialize.
  match goal with
  | |- context [assign_slabs ?l ?c ?p ?k] =>
      destruct (assign_slabs l c p k) as [chosen|e] eqn:E; [|discriminate]
  end.
  cbn [bind]. intros E'. injection E' as <-.
  apply assign_slabs_length in E.
  cbn [x set_x set_dx] in E. rewrite tabulate_length in E.
  assert (Hlen : length (flat_map (initial_state (Ru s)) chosen)
                 = (length chosen * 3)%nat).
  { clear. induction chosen as [|c l IH]; [reflexivity|].
    cbn [flat_map]. rewrite length_app, IH. reflexivity. }
  unfold initialize_mixed.
  destruct (String.eqb _ _);
    cbn [U nx storeXTData updatePrimitives set_xtData set_rho set_u set_p set_T
         set_numMaterials set_materialFractions set_materialFlux
         set_materialProperties set_tracers set_regions set_U set_gasId set_mw
         set_gamma set_x set_dx];
    rewrite Hlen, E; split; reflexivity.
Qed.

(** The sizes of the three buffers after the four stages. *)
Lemma forward_average_sizes (a : Solver R) :
  length (U (average_with_work (forward_euler a))) = (nx a * 3)%nat
  /\ length (Uk (average_with_work (forward_euler a))) = (nx a * 3)%nat.
Proof.
  unfold average_with_work, forward_euler. cbn [U Uk set_U set_Uk nx].
  rewrite tabulate_length. unfold updateConservative.
  rewrite tabulate2_length. split; reflexivity.
Qed.

Lemma SSP_sizes (s : Solver R) :
  length (U s) = (nx s * 3)%nat ->
  (length (U (SSP_stages s)), length (Un (SSP_stages s)),
   length (Uk (SSP_stages s)))
  = ((nx s * 3)%nat, (nx s * 3)%nat, (nx s * 3)%nat).
Proof.
  intros Hlen.
  destruct (SSP_stages_scheme s Hlen) as [_ [HUn _]].
  rewrite HUn, Hlen.
  assert (Hnx : nx (refresh_fluxes (SSP_stage3 (SSP_stage2 (SSP_stage1 s))))
                = nx s) by reflexivity.
  unfold SSP_stages, SSP_stage4.
  destruct (forward_average_sizes
              (refresh_fluxes (SSP_stage3 (SSP_stage2 (SSP_stage1 s)))))
    as [H1 H2].
  rewrite H1, H2, Hnx. reflexivity.
Qed.

(** C7 (amended): in exact arithmetic, a step of the SSP integrator on a
    solver whose current buffer has its [3 nx] slots completes and leaves in
    [U] the result of the four-stage Shu-Osher scheme SSPRK(4,3),
    [U1 = Un + (dt/2) L(Un)], [U2 = U1 + (dt/2) L(U1)],
    [U3 = (2/3) Un + (1/3) U2 + (dt/6) L(U2)], [U_next = U3 + (dt/2) L(U3)],
    with [L(V) = -(1/dx) (F_right(V) - F_left(V))] on the fluxes recomputed
    from [V], [dt] the step [calculateTimeStep] returns on the fluxes of
    [Un], and [Un] kept in the buffer of that name.  The four stages write
    the three state buffers [U], [Un] and [Uk], the flux array and [dt], and
    no other field of the solver; [postStep] then runs on what they
    leave. *)
Theorem SSP_step_is_SSPRK43 (s : Solver R) :
  length (U s) = (nx s * 3)%nat -> ready s ->
  exists s',
    SSPIntegrator_step s = Ok (s', dt s')
    /\ dt s' = calculateTimeStep s (snd (computeFluxes s))
    /\ U s' = SSPRK43 s (dt s') (U s)
    /\ Un s' = U s
    /\ postStep (SSP_stages s) = Ok s'
    /\ beside_buffers (SSP_stages s) = beside_buffers s
    /\ (length (U (SSP_stages s)), length (Un (SSP_stages s)),
        length (Uk (SSP_stages s)))
       = ((nx s * 3)%nat, (nx s * 3)%nat, (nx s * 3)%nat).
Proof.
  intros Hlen Hready.
  destruct (SSP_stages_scheme s Hlen) as [HU [HUn Hdt]].
  assert (Hr : ready (SSP_stages s)).
  { apply (ready_tables s); [reflexivity | exact Hready]. }
  assert (Hframe : beside_buffers (SSP_stages s) = beside_buffers s)
    by reflexivity.
  assert (Hsizes := SSP_sizes s Hlen).
  destruct (postStep_ok (SSP_stages s) Hr) as [s' [Hs' _]].
  destruct (postStep_keeps _ _ Hs') as [HU' [HUn' [_ [Hdt' _]]]].
  exists s'. unfold SSPIntegrator_step. rewrite Hs'. cbn [bind].
  generalize dependent (SSP_stages s).
  intros a HU HUn Hdt _ Hframe Hsizes _ HU' HUn' Hdt'.
  split; [reflexivity|]. split; [congruence|]. split.
  - rewrite HU', Hdt', HU, Hdt. reflexivity.
  - split; [congruence|]. split; [reflexivity|].
    split; [exact Hframe | exact Hsizes].
Qed.

End SSP.

(** C7 (as stated, refuted): in binary64 the buffer an SSP step leaves is
    not the result of the scheme evaluated by its formulas.  On the scenario
    of the README with three cells (air at 101325 Pa, helium at 400000 Pa,
    both at 300 K) the step completes, [Un] is the state it started from and
    the stages leave every field beside the buffers, the fluxes and [dt] as
    it was, yet four of the nine slots of [U] differ from the formulas of
    SSPRK(4,3): the code forms the stages as [U + 0.5 (Uk - U)],
    [(2/3) Un + (1/6) U + (1/6) Uk] and [0.5 U + 0.5 Uk], which round
    otherwise. *)
Lemma SSP_step_rounds_in_binary64 :
  outcome_map
    (fun r : Solver float * Solver float =>
       let (s0, s') := r in
       (Nat.eqb (length (U s0)) (nx s0 * 3),
        map (fun j => PrimFloat.eqb (get (U s') j)
                        (get (SSPRK43 s0 (dt s') (U s0)) j)) (seq 0 9),
        map (fun j => PrimFloat.eqb (get (Un s') j) (get (U s0) j)) (seq 0 9),
        map is_nan (U s')))
    (s0 <- initialize (fst (EulerSolver (Examples.config3 None "SSP")))
             [Examples.air; Examples.helium] ;;
     r <- SSPIntegrator_step s0 ;;
     Ok (s0, fst r))
  = Ok (true,
        [true; false; true; true; false; true; false; true; false],
        repeat true 9, repeat false 9).
Proof. vm_compute. reflexivity. Qed.

(** ** The walls *)

Section Walls.
Local Open Scope R_scope.

Lemma mirrored_speeds (v a : R) :
  0 < a ->
  Rmin (- v - a) (v - a) + Rmax (- v + a) (v + a) = 0
  /\ Rmin (- v - a) (v - a) < 0.
Proof.
  intros Ha. unfold Rmin, Rmax.
  destruct (Rle_dec (- v - a) (v - a)), (Rle_dec (- v + a) (v + a)); lra.
Qed.

Lemma sealed_triple (a b c d : R) : (a * 0, b, 0 * c, d) = (0, b, 0, d).
Proof. now rewrite Rmult_0_r, Rmult_0_l. Qed.

(** The HLLC flux between a state and its mirror image, the state on the
    right: the contact speed is 0, and no mass and no energy crosses. *)
Lemma hllcFlux_mirror_left (density momentum energy g : R) :
  0 < density ->
  0 < (g - 1) * (energy - 1 / 2 * density * (momentum / density)
                                    * (momentum / density)) ->
  1 < g ->
  exists f1 speed,
    hllcFlux (density, - momentum, energy) (density, momentum, energy) g g
    = ((0, f1, 0), speed).
Proof.
  intros Hrho Hp Hg. unfold hllcFlux. exact_ops.
  set (v := momentum / density) in *.
  replace (- momentum / density) with (- v) by (unfold v; field; lra).
  replace ((g - 1) * (energy - 1 / 2 * density * - v * - v))
    with ((g - 1) * (energy - 1 / 2 * density * v * v)) by ring.
  set (pr := (g - 1) * (energy - 1 / 2 * density * v * v)) in *.
  set (a := R_sqrt.sqrt (g * pr / density)).
  assert (Ha : 0 < a).
  { apply sqrt_lt_R0. apply Rdiv_lt_0_compat; [|exact Hrho].
    apply Rmult_lt_0_compat; lra. }
  destruct (mirrored_speeds v a Ha) as [Hsum Hneg].
  set (SL := Rmin (- v - a) (v - a)) in *.
  set (SR := Rmax (- v + a) (v + a)) in *.
  assert (Hstar : (pr - pr + density * - v * (SL - - v) - density * v * (SR - v))
                  / (density * (SL - - v) - density * (SR - v)) = 0).
  { replace (pr - pr + density * - v * (SL - - v) - density * v * (SR - v))
      with (- density * v * (SL + SR)) by ring.
    rewrite Hsum. unfold Rdiv. ring. }
  rewrite Hstar.
  rewrite (proj2 (exact_leb_false 0 SL) Hneg).
  rewrite (proj2 (exact_leb_true 0 0)) by lra.
  eexists. eexists. apply sealed_triple.
Qed.

(** The same with the state on the left. *)
Lemma hllcFlux_mirror_right (density momentum energy g : R) :
  0 < density ->
  0 < (g - 1) * (energy - 1 / 2 * density * (momentum / density)
                                    * (momentum / density)) ->
  1 < g ->
  exists f1 speed,
    hllcFlux (density, momentum, energy) (density, - momentum, energy) g g
    = ((0, f1, 0), speed).
Proof.
  intros Hrho Hp Hg.
  pose proof (hllcFlux_mirror_left density (- momentum) energy g Hrho) as Hl.
  rewrite Ropp_involutive in Hl. apply Hl; [|exact Hg].
  replace (- momentum / density) with (- (momentum / density))
    by (field; lra).
  replace (1 / 2 * density * - (momentum / density) * - (momentum / density))
    with (1 / 2 * density * (momentum / density) * (momentum / density)) by ring.
  exact Hp.
Qed.

(** The three slots of [flux] that [computeFluxes] fills for interface
    [i]. *)
Lemma flux_slots (s : Solver R) (i : nat) (f0 f1 f2 speed : R) :
  (i <= nx s)%nat -> interface_flux s i = ((f0, f1, f2), speed) ->
  get (flux (refresh_fluxes s)) (i * 3) = f0
  /\ get (flux (refresh_fluxes s)) (i * 3 + 1) = f1
  /\ get (flux (refresh_fluxes s)) (i * 3 + 2) = f2.
Proof.
  intros Hi Hface. unfold refresh_fluxes, computeFluxes.
  cbn [fst flux set_flux]. unfold tabulate. rewrite flat_map_concat_map, map_map.
  rewrite <- flat_map_concat_map.
  assert (Hrow : forall k, (k < 3)%nat ->
            get (flat_map (fun j => let '(g0, g1, g2) := fst (interface_flux s j) in
                                    [g0; g1; g2]) (seq 0 (nx s + 1))) (i * 3 + k)
            = nth k [f0; f1; f2] 0).
  { intros k Hk. unfold get. rewrite (rows_nth (nx s + 1) 3).
    - now rewrite Hface.
    - intros j _. now destruct (interface_flux s j) as [[[g0 g1] g2] w].
    - lia.
    - exact Hk. }
  repeat split.
  - rewrite <- (Nat.add_0_r (i * 3)). apply (Hrow 0%nat). lia.
  - apply (Hrow 1%nat). lia.
  - apply (Hrow 2%nat). lia.
Qed.

Lemma flux_slot (s : Solver R) (i k : nat) :
  (i <= nx s)%nat -> (k < 3)%nat ->
  get (flux (refresh_fluxes s)) (i * 3 + k)
  = let '(f0, f1, f2) := fst (interface_flux s i) in nth k [f0; f1; f2] 0.
Proof.
  intros Hi Hk.
  destruct (interface_flux s i) as [[[f0 f1] f2] w] eqn:E.
  destruct (flux_slots s i f0 f1 f2 w Hi E) as [H0 [H1 H2]].
  cbn [fst].
  destruct k as [|[|[|k]]]; [rewrite Nat.add_0_r| | |lia]; assumption.
Qed.

(** In a state with positive density and pressure in the cells at the
    walls, the mass and energy fluxes through both walls are zero. *)
Lemma walls_sealed (s : Solver R) :
  (0 < nx s)%nat -> positive s ->
  get (flux (refresh_fluxes s)) 0 = 0
  /\ get (flux (refresh_fluxes s)) 2 = 0
  /\ get (flux (refresh_fluxes s)) (nx s * 3) = 0
  /\ get (flux (refresh_fluxes s)) (nx s * 3 + 2) = 0.
Proof.
  intros Hnx Hpos.
  destruct (Hpos 0%nat Hnx) as [Hrho0 [Hp0 Hg0]].
  destruct (Hpos (nx s - 1)%nat ltac:(lia)) as [Hrho1 [Hp1 Hg1]].
  unfold pressure_of, primitives_of_cell in Hp0, Hp1.
  cbn [fst snd] in Hp0, Hp1. exact_ops.
  destruct (hllcFlux_mirror_left _ (get (U s) 1) _ _ Hrho0 Hp0 Hg0)
    as [f1 [w Hleft]].
  destruct (hllcFlux_mirror_right _ _ _ _ Hrho1 Hp1 Hg1) as [g1 [w' Hright]].
  assert (Hface0 : interface_flux s 0 = ((0, f1, 0), w)).
  { unfold interface_flux, interface_states. cbn [Nat.eqb]. exact Hleft. }
  assert (HfaceN : interface_flux s (nx s) = ((0, g1, 0), w')).
  { unfold interface_flux, interface_states.
    destruct (nx s) as [|n] eqn:En; [lia|].
    cbn [Nat.eqb]. rewrite Nat.eqb_refl. rewrite <- En in *. exact Hright. }
  destruct (flux_slots s 0 _ _ _ _ ltac:(lia) Hface0) as [H00 [_ H02]].
  destruct (flux_slots s (nx s) _ _ _ _ ltac:(lia) HfaceN) as [HN0 [_ HN2]].
  repeat split; assumption.
Qed.

End Walls.

(** ** Totals *)

Section Totals.
Local Open Scope R_scope.

Lemma total_tabulate (k n : nat) (f : nat -> R) :
  (k < 3)%nat ->
  total k n (tabulate (n * 3) f) = sum (tabulate n (fun i => f (i * 3 + k)%nat)).
Proof.
  intros Hk. unfold total. f_equal. apply tabulate_ext. intros i Hi.
  apply get_tabulate. lia.
Qed.

Lemma total_copy (k n : nat) (V : list R) :
  (k < 3)%nat -> total k n (tabulate (n * 3) (get V)) = total k n V.
Proof. intros Hk. now rewrite total_tabulate. Qed.

Lemma total_blend (k n : nat) (A B C : list R) (c1 c2 c3 : R) :
  (k < 3)%nat ->
  total k n (tabulate (n * 3) (fun j => c1 * get A j + c2 * get B j + c3 * get C j))
  = c1 * total k n A + c2 * total k n B + c3 * total k n C.
Proof.
  intros Hk. rewrite total_tabulate by exact Hk.
  now rewrite (sum_linear n (fun i => get A (i * 3 + k)) (fun i => get B (i * 3 + k))
                 (fun i => get C (i * 3 + k))).
Qed.

(** The total of a conservative update: the total before, less what leaves
    through the walls. *)
Lemma total_updateConservative (s : Solver R) (V : list R) (h : R) (k : nat) :
  (k < 3)%nat ->
  total k (nx s) (updateConservative s V h)
  = total k (nx s) V
    - h / dx s * (get (flux s) (nx s * 3 + k) - get (flux s) k).
Proof.
  intros Hk. rewrite updateConservative_flat, total_tabulate by exact Hk.
  exact_ops.
  rewrite (tabulate_ext (nx s) _
             (fun i => get V (i * 3 + k)
                       - h / dx s * (get (flux s) (S i * 3 + k)
                                     - get (flux s) (i * 3 + k)))).
  - rewrite (sum_telescope (nx s) (fun i => get V (i * 3 + k))
               (fun i => get (flux s) (i * 3 + k))).
    reflexivity.
  - intros i _. replace (i * 3 + k + 3)%nat with (S i * 3 + k)%nat by lia.
    reflexivity.
Qed.

(** With sealed walls a forward Euler update keeps the total. *)
Lemma total_forward_euler (a : Solver R) (k : nat) :
  (k < 3)%nat ->
  get (flux a) k = 0 -> get (flux a) (nx a * 3 + k) = 0 ->
  total k (nx a) (Uk (forward_euler a)) = total k (nx a) (U a).
Proof.
  intros Hk H0 HN. unfold forward_euler. cbn [Uk set_Uk].
  rewrite total_updateConservative, H0, HN by exact Hk. lra.
Qed.

Lemma total_correct_predictor (a : Solver R) (k : nat) :
  (k < 3)%nat ->
  get (flux a) k = 0 -> get (flux a) (nx a * 3 + k) = 0 ->
  total k (nx a) (Uk (correct_predictor a)) = total k (nx a) (Uk a).
Proof.
  intros Hk H0 HN. unfold correct_predictor. cbn [Uk set_Uk].
  rewrite total_updateConservative, H0, HN by exact Hk. lra.
Qed.

(** The walls are sealed for the mass ([k = 0]) and the energy ([k = 2]). *)
Lemma sealed_component (a : Solver R) (k : nat) :
  (0 < nx a)%nat -> positive a -> k = 0%nat \/ k = 2%nat ->
  get (flux (refresh_fluxes a)) k = 0
  /\ get (flux (refresh_fluxes a)) (nx a * 3 + k) = 0.
Proof.
  intros Hnx Hpos Hk. destruct (walls_sealed a Hnx Hpos) as [H0 [H2 [HN0 HN2]]].
  destruct Hk as [-> | ->]; [rewrite Nat.add_0_r|]; auto.
Qed.

End Totals.

Section StepTotals.
Local Open Scope R_scope.

Lemma total_half_way (a : Solver R) (k : nat) :
  (k < 3)%nat ->
  total k (nx a) (U (half_way a))
  = 1 / 2 * total k (nx a) (U a) + 1 / 2 * total k (nx a) (Uk a).
Proof.
  intros Hk. unfold half_way. cbn [U set_U]. exact_ops.
  rewrite (tabulate_ext _ _
             (fun j => 1 / 2 * get (U a) j + 1 / 2 * get (Uk a) j + 0 * get (U a) j))
    by (intros j _; lra).
  rewrite total_blend by exact Hk. lra.
Qed.

Lemma total_average_with_saved (a : Solver R) (k : nat) :
  (k < 3)%nat ->
  total k (nx a) (U (average_with_saved a))
  = 1 / 2 * total k (nx a) (Un a) + 1 / 2 * total k (nx a) (Uk a).
Proof.
  intros Hk. unfold average_with_saved. cbn [U set_U]. exact_ops.
  rewrite (tabulate_ext _ _
             (fun j => 1 / 2 * get (Un a) j + 1 / 2 * get (Uk a) j + 0 * get (U a) j))
    by (intros j _; lra).
  rewrite total_blend by exact Hk. lra.
Qed.

Lemma total_average_with_work (a : Solver R) (k : nat) :
  (k < 3)%nat ->
  total k (nx a) (U (average_with_work a))
  = 1 / 2 * total k (nx a) (U a) + 1 / 2 * total k (nx a) (Uk a).
Proof.
  intros Hk. unfold average_with_work. cbn [U set_U]. exact_ops.
  rewrite (tabulate_ext _ _
             (fun j => 1 / 2 * get (U a) j + 1 / 2 * get (Uk a) j + 0 * get (U a) j))
    by (intros j _; lra).
  rewrite total_blend by exact Hk. lra.
Qed.

Lemma total_blend_with_saved (a : Solver R) (k : nat) :
  (k < 3)%nat ->
  total k (nx a) (U (blend_with_saved a))
  = 2 / 3 * total k (nx a) (Un a) + 1 / 6 * total k (nx a) (U a)
    + 1 / 6 * total k (nx a) (Uk a).
Proof.
  intros Hk. unfold blend_with_saved. cbn [U set_U]. exact_ops.
  now rewrite total_blend by exact Hk.
Qed.

(** A refresh of the fluxes of a positive state followed by a forward
    Euler update: the work buffer has the total of the current one. *)
Lemma total_refreshed_euler (a : Solver R) (k : nat) :
  (0 < nx a)%nat -> positive a -> k = 0%nat \/ k = 2%nat ->
  total k (nx a) (Uk (forward_euler (refresh_fluxes a))) = total k (nx a) (U a).
Proof.
  intros Hnx Hpos Hk. destruct (sealed_component a k Hnx Hpos Hk) as [H0 HN].
  apply (total_forward_euler (refresh_fluxes a)); [destruct Hk; lia | exact H0 | exact HN].
Qed.

Lemma SSP_stage1_total (s : Solver R) (k : nat) :
  (0 < nx s)%nat -> positive s -> k = 0%nat \/ k = 2%nat ->
  total k (nx s) (U (SSP_stage1 s)) = total k (nx s) (U s)
  /\ total k (nx s) (Un (SSP_stage1 s)) = total k (nx s) (U s)
  /\ nx (SSP_stage1 s) = nx s.
Proof.
  intros Hnx Hpos Hk. assert (Hk3 : (k < 3)%nat) by (destruct Hk; lia).
  destruct (sealed_component s k Hnx Hpos Hk) as [H0 HN].
  split; [|split; [|reflexivity]].
  - unfold SSP_stage1.
    pose proof (total_half_way (forward_euler (save_state (begin_step s))) k Hk3) as E.
    change (nx (forward_euler (save_state (begin_step s)))) with (nx s) in E.
    rewrite E.
    pose proof (total_forward_euler (save_state (begin_step s)) k Hk3 H0 HN) as E2.
    change (nx (save_state (begin_step s))) with (nx s) in E2.
    rewrite E2.
    change (U (forward_euler (save_state (begin_step s)))) with (U s).
    change (U (save_state (begin_step s))) with (U s). lra.
  - change (Un (SSP_stage1 s)) with (tabulate (nx s * 3) (get (U s))).
    now apply total_copy.
Qed.

Lemma SSP_stage2_total (a : Solver R) (k : nat) :
  (0 < nx a)%nat -> positive a -> k = 0%nat \/ k = 2%nat ->
  total k (nx a) (U (SSP_stage2 a)) = total k (nx a) (U a)
  /\ Un (SSP_stage2 a) = Un a /\ nx (SSP_stage2 a) = nx a.
Proof.
  intros Hnx Hpos Hk. assert (Hk3 : (k < 3)%nat) by (destruct Hk; lia).
  split; [|split; reflexivity].
  unfold SSP_stage2.
  pose proof (total_half_way (forward_euler (refresh_fluxes a)) k Hk3) as E.
  change (nx (forward_euler (refresh_fluxes a))) with (nx a) in E. rewrite E.
  rewrite (total_refreshed_euler a k Hnx Hpos Hk).
  change (U (forward_euler (refresh_fluxes a))) with (U a). lra.
Qed.

Lemma SSP_stage3_total (a : Solver R) (k : nat) :
  (0 < nx a)%nat -> positive a -> k = 0%nat \/ k = 2%nat ->
  total k (nx a) (U (SSP_stage3 a))
  = 2 / 3 * total k (nx a) (Un a) + 1 / 3 * total k (nx a) (U a)
  /\ nx (SSP_stage3 a) = nx a.
Proof.
  intros Hnx Hpos Hk. assert (Hk3 : (k < 3)%nat) by (destruct Hk; lia).
  split; [|reflexivity].
  unfold SSP_stage3.
  pose proof (total_blend_with_saved (forward_euler (refresh_fluxes a)) k Hk3) as E.
  change (nx (forward_euler (refresh_fluxes a))) with (nx a) in E. rewrite E.
  rewrite (total_refreshed_euler a k Hnx Hpos Hk).
  change (U (forward_euler (refresh_fluxes a))) with (U a).
  change (Un (forward_euler (refresh_fluxes a))) with (Un a). lra.
Qed.

Lemma SSP_stage4_total (a : Solver R) (k : nat) :
  (0 < nx a)%nat -> positive a -> k = 0%nat \/ k = 2%nat ->
  total k (nx a) (U (SSP_stage4 a)) = total k (nx a) (U a)
  /\ nx (SSP_stage4 a) = nx a.
Proof.
  intros Hnx Hpos Hk. assert (Hk3 : (k < 3)%nat) by (destruct Hk; lia).
  split; [|reflexivity].
  unfold SSP_stage4.
  pose proof (total_average_with_work (forward_euler (refresh_fluxes a)) k Hk3) as E.
  change (nx (forward_euler (refresh_fluxes a))) with (nx a) in E. rewrite E.
  rewrite (total_refreshed_euler a k Hnx Hpos Hk).
  change (U (forward_euler (refresh_fluxes a))) with (U a). lra.
Qed.

Lemma RK2_predictor_total (s : Solver R) (k : nat) :
  (0 < nx s)%nat -> positive s -> k = 0%nat \/ k = 2%nat ->
  let predicted := take_predictor (save_state (forward_euler (begin_step s))) in
  total k (nx s) (U predicted) = total k (nx s) (U s)
  /\ total k (nx s) (Un predicted) = total k (nx s) (U s)
  /\ total k (nx s) (Uk predicted) = total k (nx s) (U s)
  /\ nx predicted = nx s.
Proof.
  intros Hnx Hpos Hk predicted.
  assert (Hk3 : (k < 3)%nat) by (destruct Hk; lia).
  destruct (sealed_component s k Hnx Hpos Hk) as [H0 HN].
  pose proof (total_forward_euler (begin_step s) k Hk3 H0 HN) as E.
  change (nx (begin_step s)) with (nx s) in E.
  change (U (begin_step s)) with (U s) in E.
  repeat split.
  - change (U predicted)
      with (tabulate (nx s * 3) (get (Uk (forward_euler (begin_step s))))).
    rewrite total_copy by exact Hk3. exact E.
  - change (Un predicted) with (tabulate (nx s * 3) (get (U s))).
    now apply total_copy.
  - exact E.
Qed.

Lemma RK2_corrector_total (a : Solver R) (k : nat) :
  (0 < nx a)%nat -> positive a -> k = 0%nat \/ k = 2%nat ->
  total k (nx a)
    (U (average_with_saved (correct_predictor (refresh_fluxes a))))
  = 1 / 2 * total k (nx a) (Un a) + 1 / 2 * total k (nx a) (Uk a)
  /\ nx (average_with_saved (correct_predictor (refresh_fluxes a))) = nx a.
Proof.
  intros Hnx Hpos Hk. assert (Hk3 : (k < 3)%nat) by (destruct Hk; lia).
  split; [|reflexivity].
  destruct (sealed_component a k Hnx Hpos Hk) as [H0 HN].
  pose proof (total_average_with_saved
                (correct_predictor (refresh_fluxes a)) k Hk3) as E.
  change (nx (correct_predictor (refresh_fluxes a))) with (nx a) in E. rewrite E.
  pose proof (total_correct_predictor (refresh_fluxes a) k Hk3 H0 HN) as E2.
  change (nx (refresh_fluxes a)) with (nx a) in E2. rewrite E2.
  reflexivity.
Qed.

(** The stages of a step keep the mass and the energy, when every state
    they compute fluxes from is positive. *)
Lemma stages_total (s : Solver R) (k : nat) :
  (0 < nx s)%nat -> (forall a, In a (flux_states s) -> positive a) ->
  k = 0%nat \/ k = 2%nat ->
  total k (nx s) (U (stages s)) = total k (nx s) (U s)
  /\ nx (stages s) = nx s.
Proof.
  intros Hnx Hpos Hk. unfold stages, flux_states in *.
  destruct (integrator s).
  - assert (Hs : positive s) by (apply Hpos; left; reflexivity).
    assert (Hp : positive (take_predictor (save_state (forward_euler (begin_step s)))))
      by (apply Hpos; right; left; reflexivity).
    clear Hpos.
    destruct (RK2_predictor_total s k Hnx Hs Hk) as [HU [HUn [HUk Hn]]].
    unfold RK2_stages.
    generalize dependent (take_predictor (save_state (forward_euler (begin_step s)))).
    intros a Hp HU HUn HUk Hn.
    destruct (RK2_corrector_total a k ltac:(lia) Hp Hk) as [HT Hn'].
    rewrite Hn in HT. rewrite HT, HUn, HUk. split; [lra | congruence].
  - assert (Hs : positive s) by (apply Hpos; left; reflexivity).
    assert (Hp1 : positive (SSP_stage1 s)) by (apply Hpos; right; left; reflexivity).
    assert (Hp2 : positive (SSP_stage2 (SSP_stage1 s)))
      by (apply Hpos; right; right; left; reflexivity).
    assert (Hp3 : positive (SSP_stage3 (SSP_stage2 (SSP_stage1 s))))
      by (apply Hpos; right; right; right; left; reflexivity).
    clear Hpos.
    destruct (SSP_stage1_total s k Hnx Hs Hk) as [HU1 [HUn1 Hn1]].
    unfold SSP_stages.
    generalize dependent (SSP_stage1 s). intros s1 Hp1 Hp2 Hp3 HU1 HUn1 Hn1.
    destruct (SSP_stage2_total s1 k ltac:(lia) Hp1 Hk) as [HU2 [HUn2 Hn2]].
    rewrite Hn1 in HU2.
    generalize dependent (SSP_stage2 s1). intros s2 Hp2 Hp3 HU2 HUn2 Hn2.
    destruct (SSP_stage3_total s2 k ltac:(lia) Hp2 Hk) as [HU3 Hn3].
    rewrite Hn2, Hn1, HUn2, HUn1, HU2, HU1 in HU3.
    generalize dependent (SSP_stage3 s2). intros s3 Hp3 HU3 Hn3.
    destruct (SSP_stage4_total s3 k ltac:(lia) Hp3 Hk) as [HU4 Hn4].
    rewrite Hn3, Hn2, Hn1 in HU4.
    split; [rewrite HU4, HU3; lra | congruence].
Qed.

End StepTotals.

Section Conserved.
Local Open Scope R_scope.

Lemma sum_densities (n : nat) (V : list R) :
  sum (tabulate n (fun i => get V (i * 3))) = total 0 n V.
Proof.
  unfold total. f_equal. apply tabulate_ext. intros i _. now rewrite Nat.add_0_r.
Qed.

(** One step keeps the mass and the energy, and the snapshot it may store
    has the mass of the state. *)
Lemma step_conserves (s : Solver R) :
  (0 < nx s)%nat -> ready s ->
  (forall a, In a (flux_states s) -> positive a) ->
  exists s',
    step s = Ok (s', dt s') /\ ready s' /\ nx s' = nx s
    /\ mass s' = mass s /\ energy s' = energy s
    /\ forall snap, In snap (xtData s') ->
         In snap (xtData s) \/ sum (snap_rho snap) = mass s.
Proof.
  intros Hnx Hready Hpos.
  destruct (stages_total s 0 Hnx Hpos (or_introl eq_refl)) as [Hm Hn].
  destruct (stages_total s 2 Hnx Hpos (or_intror eq_refl)) as [He _].
  assert (Hxt : xtData (stages s) = xtData s).
  { pose proof (stages_beside_buffers s) as E. unfold beside_buffers in E.
    generalize dependent (stages s). intros a _ _ _ E. now injection E. }
  assert (E : step s = (s' <- postStep (stages s) ;; Ok (s', dt s')))
    by (unfold step, stages; destruct (integrator s); reflexivity).
  assert (Hr : ready (stages s))
    by (apply (ready_tables s); [apply tables_stages | exact Hready]).
  destruct (postStep_ok (stages s) Hr) as [s' [Hs' Ht]].
  destruct (postStep_keeps _ _ Hs') as [HU [_ [_ [_ [Hnx' _]]]]].
  pose proof (postStep_snapshot _ _ Hs') as Hsnap.
  exists s'. rewrite E, Hs'. cbn [bind].
  split; [reflexivity|]. split.
  { apply (ready_tables (stages s)); [exact Ht | exact Hr]. }
  generalize dependent (stages s). intros a Hm Hn He Hxt _ Hr Hs' Ht HU Hnx' Hsnap.
  split; [congruence|].
  unfold mass, energy. rewrite HU, Hnx', Hn.
  split; [exact Hm|]. split; [exact He|].
  intros snap Hin.
  destruct Hsnap as [Hsame | [new [Hnew Hrho]]].
  - left. now rewrite <- Hxt, <- Hsame.
  - rewrite Hnew in Hin. apply in_app_or in Hin. destruct Hin as [Hin|[<-|[]]].
    + left. now rewrite <- Hxt.
    + right. rewrite Hrho, sum_densities, Hn. exact Hm.
Qed.

Lemma steps_conserve (n : nat) (s : Solver R) :
  (0 < nx s)%nat -> ready s -> positive_steps n s ->
  exists s',
    steps n s = Ok s' /\ mass s' = mass s /\ energy s' = energy s
    /\ forall snap, In snap (xtData s') ->
         In snap (xtData s) \/ sum (snap_rho snap) = mass s.
Proof.
  revert s. induction n as [|n IH]; intros s Hnx Hready Hpos.
  - exists s. simpl. repeat split; auto.
  - destruct Hpos as [Hpos Hnext].
    destruct (step_conserves s Hnx Hready Hpos)
      as [s1 [Hs1 [Hr1 [Hn1 [Hm1 [He1 Hx1]]]]]].
    rewrite Hs1 in Hnext.
    destruct (IH s1 ltac:(lia) Hr1 Hnext) as [s' [Hs' [Hm' [He' Hx']]]].
    exists s'. cbn [steps]. rewrite Hs1. cbn [bind fst].
    split; [exact Hs'|]. split; [congruence|]. split; [congruence|].
    intros snap Hin. destruct (Hx' snap Hin) as [Hold | Hsum].
    + apply Hx1. exact Hold.
    + right. congruence.
Qed.

(** What [initialize] keeps of the solver the constructor made, and the
    snapshot it stores. *)
Lemma initialize_keeps (s s' : Solver R) (slabs : list (Slab R)) :
  initialize s slabs = Ok s' ->
  (cfl s', finalTime s', integrator s', t s', nextXTStore s', xtInterval s')
  = (cfl s, finalTime s, integrator s, t s, nextXTStore s, xtInterval s)
  /\ exists snap,
       xtData s' = xtData s ++ [snap]
       /\ snap_rho snap = tabulate (nx s') (fun i => get (U s') (i * 3)).
Proof.
  unfold initialize.
  match goal with
  | |- context [assign_slabs ?l ?c ?p ?k] =>
      destruct (assign_slabs l c p k) as [chosen|e]; [|discriminate]
  end.
  cbn [bind]. intros E. injection E as <-.
  match goal with
  | |- context [storeXTData (updatePrimitives ?a)] =>
      assert (Hk : (cfl a, finalTime a, integrator a, t a, nextXTStore a,
                    xtInterval a, xtData a)
                   = (cfl s, finalTime s, integrator s, t s, nextXTStore s,
                      xtInterval s, xtData s))
        by (unfold initialize_mixed; destruct (String.eqb _ _); reflexivity);
      generalize dependent a
  end.
  intros a Hk. injection Hk as Hc Hf Hi Ht Hn Hx Hd. split.
  - cbn [storeXTData updatePrimitives cfl finalTime integrator t nextXTStore
         xtInterval set_xtData set_rho set_u set_p set_T]. congruence.
  - eexists. split.
    + unfold storeXTData. cbn [xtData set_xtData].
      change (xtData (updatePrimitives a)) with (xtData a). rewrite Hd.
      reflexivity.
    + cbn [snap_rho]. unfold storeXTData. cbn [nx U set_xtData].
      change (nx (updatePrimitives a)) with (nx a).
      change (U (updatePrimitives a)) with (U a).
      apply updatePrimitives_rho.
Qed.

(** A run from [initialize]: the snapshot [initialize] stores and every
    snapshot the steps store hold the total density of the start. *)
Lemma run_conserves (config : Config R) (slab : Slab R) (slabs : list (Slab R)) :
  exists s0,
    initialize (fst (EulerSolver config)) (slab :: slabs) = Ok s0
    /\ (exists snap, xtData s0 = [snap] /\ sum (snap_rho snap) = mass s0)
    /\ forall n, positive_steps n s0 ->
         exists s',
           steps n s0 = Ok s' /\ mass s' = mass s0 /\ energy s' = energy s0
           /\ forall snap, In snap (xtData s') ->
                sum (snap_rho snap) = mass s0.
Proof.
  destruct (initialize_nonempty (fst (EulerSolver config)) slab slabs)
    as [s0 H0].
  destruct (initialize_keeps _ _ _ H0) as [_ [snap [Hxt Hrho]]].
  cbn [xtData EulerSolver fst app] in Hxt.
  assert (Hsnap : sum (snap_rho snap) = mass s0)
    by (rewrite Hrho; apply sum_densities).
  assert (Hnx : (0 < nx s0)%nat).
  { rewrite (proj2 (initialize_buffer _ _ _ H0)).
    apply constructor_nx_positive. }
  exists s0. split; [exact H0|]. split; [now exists snap|].
  intros n Hpos.
  destruct (steps_conserve n s0 Hnx (initialize_ready _ _ _ _ H0) Hpos)
    as [s' [Hs' [Hm [He Hx]]]].
  exists s'. split; [exact Hs'|]. split; [exact Hm|]. split; [exact He|].
  intros sn Hin. destruct (Hx sn Hin) as [Hold|Hnew]; [|exact Hnew].
  rewrite Hxt in Hold. destruct Hold as [<-|[]]. exact Hsnap.
Qed.

(** C8: in exact arithmetic, in a state with positive density and pressure
    (and gamma above 1) in every cell, the HLLC mass and energy fluxes at the
    two walls are zero, so every conservative update on the fluxes of such a
    state keeps the total density and the total energy of the buffer it
    updates; hence, as long as the states the steps compute fluxes from are
    positive, any number of steps completes with the total density and the
    total energy it started from, and every snapshot stored on the way holds
    that total density.  In a run, from [initialize] on, the snapshot
    [initialize] stores holds it too: all the snapshots of the run have the
    total density of the initial state, and the states they were taken from
    its total energy. *)
Theorem mass_and_energy_conserved :
  (forall s : Solver R,
     (0 < nx s)%nat -> positive s ->
     (get (flux (refresh_fluxes s)) 0 = 0
      /\ get (flux (refresh_fluxes s)) 2 = 0
      /\ get (flux (refresh_fluxes s)) (nx s * 3) = 0
      /\ get (flux (refresh_fluxes s)) (nx s * 3 + 2) = 0)
     /\ forall (V : list R) (h : R),
          total 0 (nx s) (updateConservative (refresh_fluxes s) V h)
          = total 0 (nx s) V
          /\ total 2 (nx s) (updateConservative (refresh_fluxes s) V h)
             = total 2 (nx s) V)
  /\ (forall (s : Solver R) (n : nat),
        (0 < nx s)%nat -> ready s -> positive_steps n s ->
        exists s',
          steps n s = Ok s' /\ mass s' = mass s /\ energy s' = energy s
          /\ forall snap, In snap (xtData s') ->
               In snap (xtData s) \/ sum (snap_rho snap) = mass s)
  /\ (forall (config : Config R) (slab : Slab R) (slabs : list (Slab R)),
        exists s0,
          initialize (fst (EulerSolver config)) (slab :: slabs) = Ok s0
          /\ (exists snap, xtData s0 = [snap] /\ sum (snap_rho snap) = mass s0)
          /\ forall n, positive_steps n s0 ->
               exists s',
                 steps n s0 = Ok s'
                 /\ mass s' = mass s0 /\ energy s' = energy s0
                 /\ forall snap, In snap (xtData s') ->
                      sum (snap_rho snap) = mass s0).
Proof.
  split; [|split].
  - intros s Hnx Hpos. split; [now apply walls_sealed|].
    intros V h.
    destruct (walls_sealed s Hnx Hpos) as [H0 [H2 [HN0 HN2]]].
    pose proof (total_updateConservative (refresh_fluxes s) V h 0 ltac:(lia)) as E0.
    pose proof (total_updateConservative (refresh_fluxes s) V h 2 ltac:(lia)) as E2.
    change (nx (refresh_fluxes s)) with (nx s) in E0, E2.
    rewrite Nat.add_0_r in E0.
    rewrite E0, E2, H0, H2, HN0, HN2. split; lra.
  - intros s n. apply steps_conserve.
  - apply run_conserves.
Qed.

End Conserved.

(** ** A single slab *)

Section Steady.
Local Open Scope R_scope.

Lemma assign_single_slab (slab : Slab R) (centers : list R) (pos : R) :
  assign_slabs [slab] centers pos 0 = Ok (map (fun _ => slab) centers).
Proof.
  revert pos. induction centers as [|c rest IH]; intros pos; [reflexivity|].
  cbn. now rewrite IH.
Qed.

Lemma flat_map_constant {A B : Type} (row : list B) (f : A -> list B) (l : list A) :
  (forall a, f a = row) -> flat_map f l = flat_map (fun _ => row) l.
Proof.
  intros Hf. induction l as [|a l IH]; simpl; [reflexivity|].
  now rewrite Hf, IH.
Qed.

Lemma flat_map_map_constant {A B C : Type} (f : B -> list C) (b : B) (l : list A) :
  flat_map f (map (fun _ => b) l) = flat_map (fun _ => f b) l.
Proof. induction l as [|a l IH]; simpl; [reflexivity | now rewrite IH]. Qed.

Lemma map_map_constant {A B C : Type} (f : B -> C) (b : B) (n : nat) (l : list A) :
  length l = n -> map f (map (fun _ => b) l) = repeat (f b) n.
Proof.
  intros <-. induction l as [|a l IH]; simpl; [reflexivity | now rewrite IH].
Qed.

Lemma flat_map_over_map {A B C : Type} (row : list C) (f : A -> B) (l : list A) :
  flat_map (fun _ => row) (map f l) = flat_map (fun _ => row) l.
Proof. induction l as [|a l IH]; simpl; [reflexivity | now rewrite IH]. Qed.

Lemma updatePrimitives_ext (a b : Solver R) :
  U a = U b -> gamma a = gamma b -> mw a = mw b -> Ru a = Ru b -> nx a = nx b ->
  rho (updatePrimitives a) = rho (updatePrimitives b)
  /\ u (updatePrimitives a) = u (updatePrimitives b)
  /\ p (updatePrimitives a) = p (updatePrimitives b)
  /\ T (updatePrimitives a) = T (updatePrimitives b).
Proof.
  intros HU Hg Hm HR Hn. unfold updatePrimitives.
  cbn [rho u p T set_rho set_u set_p set_T].
  assert (E : tabulate (nx a) (primitives_of_cell a)
              = tabulate (nx b) (primitives_of_cell b)).
  { rewrite Hn. apply tabulate_ext. intros i _. unfold primitives_of_cell.
    now rewrite HU, Hg, Hm, HR. }
  rewrite E. repeat split; reflexivity.
Qed.

(** The share of a cell that the only slab overlaps is the whole cell. *)
Lemma single_slab_fraction (s : Solver R) (slab : Slab R) (i : nat) :
  0 < slab_length slab -> (i < nx s)%nat ->
  dx s = (0 + slab_length slab) / IZR (Z.of_nat (nx s)) ->
  initial_fraction s [slab] i 0 = 1.
Proof.
  intros HL Hi Hdx. unfold initial_fraction, position_after. exact_ops.
  cbn [firstn fold_left nth_error].
  assert (Hn : 0 < IZR (Z.of_nat (nx s))) by (apply IZR_lt; lia).
  assert (Hd : 0 < dx s).
  { rewrite Hdx. apply Rdiv_lt_0_compat; lra. }
  assert (Hi0 : 0 <= IZR (Z.of_nat i)) by (apply IZR_le; lia).
  assert (Hi1 : IZR (Z.of_nat (i + 1)) = IZR (Z.of_nat i) + 1).
  { rewrite Nat2Z.inj_add, plus_IZR. reflexivity. }
  assert (Hi2 : IZR (Z.of_nat (i + 1)) <= IZR (Z.of_nat (nx s)))
    by (apply IZR_le; lia).
  assert (Hright : IZR (Z.of_nat (i + 1)) * dx s <= 0 + slab_length slab).
  { replace (0 + slab_length slab) with (IZR (Z.of_nat (nx s)) * dx s)
      by (rewrite Hdx; field; lra).
    apply Rmult_le_compat_r; lra. }
  rewrite (Rmax_left (IZR (Z.of_nat i) * dx s) 0) by (apply Rmult_le_pos; lra).
  rewrite Rmin_left by exact Hright.
  rewrite Hi1.
  replace ((IZR (Z.of_nat i) + 1) * dx s - IZR (Z.of_nat i) * dx s) with (dx s)
    by ring.
  rewrite Rmax_right by lra. field. lra.
Qed.

Lemma filled_ext (slab : Slab R) (a b : Solver R) :
  filling b = filling a -> filled slab a -> filled slab b.
Proof.
  unfold filling, filled. intros E.
  injection E as -> -> -> -> -> -> -> -> -> -> -> ->. tauto.
Qed.

(** Once [updatePrimitives] has run, the primitive fields are current. *)
Lemma at_rest_primitives (slab : Slab R) (a : Solver R) :
  filled slab a -> at_rest slab (storeXTData (updatePrimitives a)).
Proof.
  intros Hf. split.
  - apply (filled_ext slab a); [reflexivity | exact Hf].
  - apply (updatePrimitives_ext a (storeXTData (updatePrimitives a)));
      reflexivity.
Qed.

(** [initialize] on one valid slab leaves the gas of the slab at rest. *)
Lemma initialize_single_slab (config : Config R) (slab : Slab R) :
  valid_slab slab ->
  exists s0,
    initialize (fst (EulerSolver config)) [slab] = Ok s0 /\ at_rest slab s0.
Proof.
  intros [Hg [Hm [Hp [HT HL]]]].
  pose proof (constructor_nx_positive config) as Hnx.
  set (c := fst (EulerSolver config)) in *.
  unfold initialize. rewrite assign_single_slab. cbn [bind].
  eexists. split; [reflexivity|].
  apply at_rest_primitives.
  assert (Hlen : length (tabulate (nx c) (fun i => mul (add (of_nat i) (lit 1 2))
                   (div (fold_left (fun sum slab => add sum (slab_length slab))
                           [slab] (of_Z 0)) (of_nat (nx c))))) = nx c)
    by apply tabulate_length.
  unfold filled, initialize_mixed.
  cbn [interfaceMethod set_tracers set_regions set_U set_gasId set_mw set_gamma
       set_x set_dx x nx Ru].
  destruct (String.eqb_spec (interfaceMethod c) "mixed") as [Em|Em].
  - cbn [nx U gamma mw gasId tracers regions interfaceMethod numMaterials
         materialProperties materialFractions set_numMaterials
         set_materialFractions set_materialFlux set_materialProperties
         set_tracers set_regions set_U set_gasId set_mw set_gamma set_x set_dx Ru].
    split; [exact Hnx|].
    split; [rewrite flat_map_map_constant; apply flat_map_over_map|].
    split; [now apply map_map_constant|].
    split; [now apply map_map_constant|].
    split; [now apply map_map_constant|].
    split; [reflexivity|].
    split; [reflexivity|].
    intros _. split; [reflexivity|]. split; [reflexivity|].
    f_equal. rewrite tabulate2_flat, Nat.mul_1_r.
    rewrite <- (map_constant_seq 1 0 (nx c)). apply tabulate_ext.
    intros i Hi. rewrite Nat.div_1_r, Nat.mod_1_r.
    apply single_slab_fraction; [exact HL | exact Hi | reflexivity].
  - cbn [nx U gamma mw gasId tracers regions interfaceMethod numMaterials
         materialProperties materialFractions
         set_tracers set_regions set_U set_gasId set_mw set_gamma set_x set_dx Ru].
    split; [exact Hnx|].
    split; [rewrite flat_map_map_constant; apply flat_map_over_map|].
    split; [now apply map_map_constant|].
    split; [now apply map_map_constant|].
    split; [now apply map_map_constant|].
    split; [reflexivity|].
    split; [reflexivity|].
    intros Em'. contradiction.
Qed.

(** *** The fluxes of a gas at rest *)

Lemma filled_cell (slab : Slab R) (a : Solver R) (i : nat) :
  filled slab a -> (i < nx a)%nat ->
  get (U a) (i * 3) = nth 0 (initial_state (Ru a) slab) 0
  /\ get (U a) (i * 3 + 1) = 0
  /\ get (U a) (i * 3 + 2) = nth 2 (initial_state (Ru a) slab) 0
  /\ get (gamma a) i = slab_gamma slab.
Proof.
  intros [_ [HU [Hg _]]] Hi.
  assert (Hrow : forall k, (k < 3)%nat ->
            get (U a) (i * 3 + k) = nth k (initial_state (Ru a) slab) 0).
  { intros k Hk. rewrite HU. unfold get. exact_ops.
    apply (rows_nth (nx a) 3 (fun _ => initial_state (Ru a) slab) i k 0);
      [reflexivity | exact Hi | exact Hk]. }
  split; [rewrite <- (Nat.add_0_r (i * 3)); apply Hrow; lia|].
  split; [rewrite Hrow by lia; unfold initial_state; exact_ops; cbn [nth]; ring|].
  split; [apply Hrow; lia|].
  rewrite Hg. unfold get. apply nth_repeat_lt. exact Hi.
Qed.

(** Every interface of a gas at rest, walls included, has the same two
    states on its sides, hence the same flux. *)
Lemma filled_interface (slab : Slab R) (a : Solver R) (i : nat) :
  filled slab a -> (i <= nx a)%nat ->
  interface_flux a i
  = hllcFlux (nth 0 (initial_state (Ru a) slab) 0, 0,
              nth 2 (initial_state (Ru a) slab) 0)
             (nth 0 (initial_state (Ru a) slab) 0, 0,
              nth 2 (initial_state (Ru a) slab) 0)
             (slab_gamma slab) (slab_gamma slab).
Proof.
  intros Hf Hi. pose proof Hf as [Hnx _].
  unfold interface_flux, interface_states.
  destruct (Nat.eqb_spec i 0) as [-> | Hi0].
  - destruct (filled_cell slab a 0 Hf Hnx) as [H0 [H1 [H2 Hg]]].
    cbn [Nat.mul Nat.add] in H0, H1, H2. cbn [Nat.add].
    rewrite H0, H1, H2, Hg. exact_ops. now rewrite Ropp_0.
  - destruct (Nat.eqb_spec i (nx a)) as [-> | HiN].
    + destruct (filled_cell slab a (nx a - 1) Hf ltac:(lia)) as [H0 [H1 [H2 Hg]]].
      rewrite H0, H1, H2, Hg. exact_ops. now rewrite Ropp_0.
    + destruct (filled_cell slab a (i - 1) Hf ltac:(lia)) as [H0 [H1 [H2 Hg]]].
      destruct (filled_cell slab a i Hf ltac:(lia)) as [H0' [H1' [H2' Hg']]].
      now rewrite H0, H1, H2, Hg, H0', H1', H2', Hg'.
Qed.

(** The fluxes of a gas at rest are the same at all interfaces. *)
Lemma filled_flux_uniform (slab : Slab R) (a : Solver R) (j : nat) :
  filled slab a -> (j < nx a * 3)%nat ->
  get (flux (refresh_fluxes a)) (j + 3) = get (flux (refresh_fluxes a)) j.
Proof.
  intros Hf Hj.
  assert (Ej : (j = j / 3 * 3 + j mod 3)%nat).
  { rewrite (Nat.div_mod_eq j 3) at 1. lia. }
  assert (Hd : (j / 3 < nx a)%nat) by (apply Nat.Div0.div_lt_upper_bound; lia).
  assert (Hm : (j mod 3 < 3)%nat) by (apply Nat.mod_upper_bound; lia).
  replace (j + 3)%nat with ((j / 3 + 1) * 3 + j mod 3)%nat by lia.
  rewrite Ej at 3.
  rewrite !flux_slot by lia.
  now rewrite !(filled_interface slab) by (trivial; lia).
Qed.

(** On the fluxes of a gas at rest a conservative update changes nothing. *)
Lemma filled_update (slab : Slab R) (a b : Solver R) (V : list R) (h : R) :
  filled slab a -> nx b = nx a -> flux b = flux (refresh_fluxes a) ->
  updateConservative b V h = tabulate (nx a * 3) (get V).
Proof.
  intros Hf Hn Hfl. rewrite updateConservative_flat, Hn, Hfl.
  apply tabulate_ext. intros j Hj.
  rewrite (filled_flux_uniform slab a j Hf Hj). exact_ops. ring.
Qed.

Lemma filled_length (slab : Slab R) (a : Solver R) :
  filled slab a -> length (U a) = (nx a * 3)%nat.
Proof.
  intros [_ [HU _]]. rewrite HU. apply rows_length. reflexivity.
Qed.

Lemma tabulate_fixed (n : nat) (V : list R) (f : nat -> R) :
  length V = n -> (forall j, (j < n)%nat -> f j = get V j) -> tabulate n f = V.
Proof.
  intros Hlen Hf. rewrite <- (tabulate_get V), Hlen.
  apply tabulate_ext. exact Hf.
Qed.

(** *** The stages leave a gas at rest as it is *)

(** A refresh of the fluxes and a forward Euler update of a gas at rest:
    the work buffer is the current one. *)
Lemma rest_euler (slab : Slab R) (a : Solver R) :
  filled slab a -> Uk (forward_euler (refresh_fluxes a)) = U a.
Proof.
  intros Hf. unfold forward_euler. cbn [Uk set_Uk].
  change (U (refresh_fluxes a)) with (U a).
  rewrite (filled_update slab a) by (trivial; reflexivity).
  rewrite <- (filled_length slab a Hf). apply tabulate_get.
Qed.

Lemma rest_stage2 (slab : Slab R) (a : Solver R) :
  filled slab a -> U (SSP_stage2 a) = U a.
Proof.
  intros Hf. unfold SSP_stage2, half_way. cbn [U set_U].
  rewrite (rest_euler slab a Hf).
  change (nx (forward_euler (refresh_fluxes a))) with (nx a).
  change (U (forward_euler (refresh_fluxes a))) with (U a).
  apply tabulate_fixed; [now apply (filled_length slab)|].
  intros j _. exact_ops. lra.
Qed.

Lemma rest_stage3 (slab : Slab R) (a : Solver R) :
  filled slab a -> Un a = U a -> U (SSP_stage3 a) = U a.
Proof.
  intros Hf HUn. unfold SSP_stage3, blend_with_saved. cbn [U set_U].
  rewrite (rest_euler slab a Hf).
  change (nx (forward_euler (refresh_fluxes a))) with (nx a).
  change (U (forward_euler (refresh_fluxes a))) with (U a).
  change (Un (forward_euler (refresh_fluxes a))) with (Un a). rewrite HUn.
  apply tabulate_fixed; [now apply (filled_length slab)|].
  intros j _. exact_ops. lra.
Qed.

Lemma rest_stage4 (slab : Slab R) (a : Solver R) :
  filled slab a -> U (SSP_stage4 a) = U a.
Proof.
  intros Hf. unfold SSP_stage4, average_with_work. cbn [U set_U].
  rewrite (rest_euler slab a Hf).
  change (nx (forward_euler (refresh_fluxes a))) with (nx a).
  change (U (forward_euler (refresh_fluxes a))) with (U a).
  apply tabulate_fixed; [now apply (filled_length slab)|].
  intros j _. exact_ops. lra.
Qed.

Lemma rest_stage1 (slab : Slab R) (s : Solver R) :
  filled slab s -> U (SSP_stage1 s) = U s /\ Un (SSP_stage1 s) = U s.
Proof.
  intros Hf. pose proof (filled_length slab s Hf) as Hlen.
  assert (HUn : tabulate (nx s * 3) (get (U s)) = U s)
    by (rewrite <- Hlen; apply tabulate_get).
  split; [|exact HUn].
  unfold SSP_stage1, half_way, forward_euler. cbn [U Uk set_U set_Uk].
  change (nx (save_state (begin_step s))) with (nx s).
  change (U (save_state (begin_step s))) with (U s).
  rewrite (filled_update slab s) by (trivial; reflexivity). rewrite HUn.
  apply tabulate_fixed; [exact Hlen|].
  intros j _. exact_ops. lra.
Qed.

Lemma rest_predictor (slab : Slab R) (s : Solver R) :
  filled slab s ->
  let predicted := take_predictor (save_state (forward_euler (begin_step s))) in
  U predicted = U s /\ Un predicted = U s /\ Uk predicted = U s.
Proof.
  intros Hf predicted. pose proof (filled_length slab s Hf) as Hlen.
  assert (HUn : tabulate (nx s * 3) (get (U s)) = U s)
    by (rewrite <- Hlen; apply tabulate_get).
  assert (HUk : Uk (forward_euler (begin_step s)) = U s).
  { unfold forward_euler. cbn [Uk set_Uk].
    change (U (begin_step s)) with (U s).
    now rewrite (filled_update slab s) by (trivial; reflexivity). }
  repeat split.
  - change (U predicted)
      with (tabulate (nx s * 3) (get (Uk (forward_euler (begin_step s))))).
    now rewrite HUk.
  - exact HUn.
  - exact HUk.
Qed.

Lemma rest_corrector (slab : Slab R) (a : Solver R) :
  filled slab a -> Un a = U a -> Uk a = U a ->
  U (average_with_saved (correct_predictor (refresh_fluxes a))) = U a.
Proof.
  intros Hf HUn HUk. unfold average_with_saved, correct_predictor.
  cbn [U Un Uk set_U set_Uk].
  change (nx (refresh_fluxes a)) with (nx a).
  change (Un (refresh_fluxes a)) with (Un a).
  change (Uk (refresh_fluxes a)) with (Uk a).
  rewrite (filled_update slab a) by (trivial; reflexivity).
  rewrite HUn, HUk.
  pose proof (filled_length slab a Hf) as Hlen.
  assert (Hcopy : tabulate (nx a * 3) (get (U a)) = U a)
    by (rewrite <- Hlen; apply tabulate_get).
  rewrite Hcopy. cbn [nx set_Uk].
  change (nx (refresh_fluxes a)) with (nx a).
  apply tabulate_fixed; [exact Hlen|].
  intros j _. exact_ops. lra.
Qed.

Lemma filled_after (slab : Slab R) (a b : Solver R) :
  filled slab a -> U b = U a ->
  (nx b, Ru b, (gamma b, mw b, gasId b), tracers b, regions b,
   (interfaceMethod b, numMaterials b, materialProperties b, materialFractions b))
  = (nx a, Ru a, (gamma a, mw a, gasId a), tracers a, regions a,
     (interfaceMethod a, numMaterials a, materialProperties a, materialFractions a)) ->
  filled slab b.
Proof.
  intros Hf HU E. apply (filled_ext slab a); [|exact Hf].
  unfold filling. injection E as -> -> -> -> -> -> -> -> -> -> ->.
  now rewrite HU.
Qed.

(** The stages of either integrator leave the state of a gas at rest as it
    is. *)
Lemma rest_stages (slab : Slab R) (s : Solver R) :
  filled slab s -> U (stages s) = U s.
Proof.
  intros Hf. unfold stages. destruct (integrator s).
  - unfold RK2_stages.
    destruct (rest_predictor slab s Hf) as [HU [HUn HUk]].
    assert (Hp : filled slab (take_predictor (save_state (forward_euler (begin_step s)))))
      by (apply (filled_after slab s); [exact Hf | exact HU | reflexivity]).
    generalize dependent (take_predictor (save_state (forward_euler (begin_step s)))).
    intros a HU HUn HUk Ha.
    rewrite (rest_corrector slab a Ha); congruence.
  - unfold SSP_stages.
    destruct (rest_stage1 slab s Hf) as [HU1 HUn1].
    assert (H1 : filled slab (SSP_stage1 s))
      by (apply (filled_after slab s); [exact Hf | exact HU1 | reflexivity]).
    generalize dependent (SSP_stage1 s). intros s1 HU1 HUn1 H1.
    pose proof (rest_stage2 slab s1 H1) as HU2.
    assert (HUn2 : Un (SSP_stage2 s1) = Un s1) by reflexivity.
    assert (H2 : filled slab (SSP_stage2 s1))
      by (apply (filled_after slab s1); [exact H1 | exact HU2 | reflexivity]).
    generalize dependent (SSP_stage2 s1). intros s2 HU2 HUn2 H2.
    pose proof (rest_stage3 slab s2 H2 ltac:(congruence)) as HU3.
    assert (H3 : filled slab (SSP_stage3 s2))
      by (apply (filled_after slab s2); [exact H2 | exact HU3 | reflexivity]).
    generalize dependent (SSP_stage3 s2). intros s3 HU3 H3.
    rewrite (rest_stage4 slab s3 H3). congruence.
Qed.

(** *** The gas properties of a gas at rest *)

Lemma rest_mixture (b : Solver R) (g w : R) (id : GasId) (i : nat) :
  numMaterials b = 1%nat -> materialProperties b = [mkRegion g w id] ->
  materialFractions b = Some (repeat 1 (nx b)) -> (i < nx b)%nat -> 1 < g ->
  computeMixtureProperties b i = Ok (mkRegion g w id).
Proof.
  intros Hnum Hprops Hfr Hi Hg. unfold computeMixtureProperties.
  rewrite Hnum. cbn [seq foldM]. unfold mixture_step, fraction_at.
  rewrite Hfr, Hprops, Hnum. cbn [bind item nth_error].
  replace (i * 1 + 0)%nat with i by lia.
  assert (Ha : get (repeat 1 (nx b)) i = 1)
    by (unfold get; apply nth_repeat_lt; exact Hi).
  rewrite Ha. exact_ops.
  cbn [region_gamma region_mw region_gasId totalFraction gamma_mix_inv mw_mix
       dominantMaterial maxFraction].
  rewrite (proj2 (exact_ltb_true 0 1)) by lra.
  cbn [fst snd bind totalFraction gamma_mix_inv mw_mix dominantMaterial maxFraction].
  rewrite (proj2 (exact_ltb_true (1 / 10000000000) (0 + 1))) by lra.
  cbn [bind totalFraction gamma_mix_inv mw_mix dominantMaterial maxFraction
       item nth_error region_gasId].
  f_equal. f_equal; field; lra.
Qed.

Lemma map_constant_repeat {A B : Type} (f : A -> B) (c : A) (n : nat) :
  map f (map (fun _ => c) (seq 0 n)) = repeat (f c) n.
Proof. rewrite map_map. apply map_constant_seq. Qed.

(** [updateGasProperties] gives back to a gas at rest the properties it
    has, under each of the three methods. *)
Lemma rest_gas (slab : Slab R) (b : Solver R) :
  1 < slab_gamma slab -> filled slab b ->
  exists s',
    updateGasProperties b = Ok s'
    /\ gamma s' = gamma b /\ mw s' = mw b /\ gasId s' = gasId b.
Proof.
  intros Hg [Hnx [HU [Hgam [Hmw [Hid [Htr [Hreg Hmix]]]]]]].
  unfold updateGasProperties.
  destruct (String.eqb_spec (interfaceMethod b) "mixed") as [Em|Em].
  - destruct (Hmix Em) as [Hnum [Hprops Hfr]].
    rewrite (mapM_ok _ (fun _ => region_of_slab slab)).
    + cbn [bind]. eexists. split; [reflexivity|].
      unfold assign_regions. cbn [gamma mw gasId set_gamma set_mw set_gasId].
      rewrite !map_constant_repeat, Hgam, Hmw, Hid. repeat split; reflexivity.
    + intros i Hi. apply in_seq in Hi.
      apply rest_mixture; [exact Hnum | exact Hprops | exact Hfr | lia | exact Hg].
  - destruct (String.eqb (interfaceMethod b) "ghost").
    + change (tracers (identifyInterfaceCells b)) with (tracers b).
      change (regions (identifyInterfaceCells b)) with (regions b).
      change (nx (identifyInterfaceCells b)) with (nx b).
      rewrite Htr. cbn [map sort_positions fold_right].
      rewrite (mapM_ok _ (fun _ => region_of_slab slab)).
      * cbn [bind]. eexists. split; [reflexivity|].
        unfold assign_regions. cbn [gamma mw gasId set_gamma set_mw set_gasId].
        change (gamma (identifyInterfaceCells b)) with (gamma b).
        change (mw (identifyInterfaceCells b)) with (mw b).
        change (gasId (identifyInterfaceCells b)) with (gasId b).
        rewrite !map_constant_repeat, Hgam, Hmw, Hid. repeat split; reflexivity.
      * intros i _. cbn [scan_region]. unfold clamp_region.
        change (regions (identifyInterfaceCells b)) with (regions b).
        rewrite Hreg. reflexivity.
    + rewrite Htr. cbn [map sort_positions fold_right].
      rewrite (mapM_ok _ (fun _ => region_of_slab slab)).
      * cbn [bind]. eexists. split; [reflexivity|].
        unfold assign_regions. cbn [gamma mw gasId set_gamma set_mw set_gasId].
        rewrite !map_constant_repeat, Hgam, Hmw, Hid. repeat split; reflexivity.
      * intros i _. cbn [scan_region]. unfold clamp_region.
        rewrite Hreg. reflexivity.
Qed.

(** *** One step and many *)

Lemma updateTracers_none (b : Solver R) :
  tracers b = [] -> updateTracers b = set_tracers [] b.
Proof. intros E. unfold updateTracers. now rewrite E. Qed.

(** [postStep] leaves a solver filled with the gas at rest that way, with
    its primitive fields current. *)
Lemma rest_postStep (slab : Slab R) (a : Solver R) :
  1 < slab_gamma slab -> filled slab a ->
  exists s',
    postStep a = Ok s' /\ at_rest slab s' /\ nx s' = nx a /\ Ru s' = Ru a
    /\ integrator s' = integrator a.
Proof.
  intros Hg Hf. unfold postStep.
  assert (Htr : tracers a = []) by apply Hf.
  rewrite updateTracers_none by exact Htr.
  set (a1 := set_timeSteps _ (set_t _ a)).
  assert (H3 : at_rest slab (set_tracers [] (updatePrimitives a1))).
  { split.
    - apply (filled_after slab a); [exact Hf | reflexivity |].
      rewrite Htr. reflexivity.
    - apply (updatePrimitives_ext a1 (set_tracers [] (updatePrimitives a1)));
        reflexivity. }
  assert (Hn3 : nx (set_tracers [] (updatePrimitives a1)) = nx a) by reflexivity.
  assert (HR3 : Ru (set_tracers [] (updatePrimitives a1)) = Ru a) by reflexivity.
  assert (Hi3 : integrator (set_tracers [] (updatePrimitives a1)) = integrator a)
    by reflexivity.
  generalize dependent (set_tracers [] (updatePrimitives a1)).
  intros a3 [Hf3 [Hrho [Hu [Hp HT]]]] Hn3 HR3 Hi3.
  destruct (rest_gas slab a3 Hg Hf3) as [s4 [E4 [Hgam [Hmw Hid]]]].
  rewrite E4. cbn [bind].
  pose proof (updateGasProperties_buffers _ _ E4) as Hb.
  destruct (updateGasProperties_keeps _ _ E4)
    as [Krho [Ku [Kp [KT [_ [_ [_ [Ktr _]]]]]]]].
  unfold buffers in Hb.
  assert (HU : U s4 = U a3) by congruence.
  assert (Hnx : nx s4 = nx a3) by congruence.
  assert (HRu : Ru s4 = Ru a3) by congruence.
  assert (Hint : integrator s4 = integrator a3) by congruence.
  assert (Htab : (regions s4, interfaceMethod s4, numMaterials s4,
                  materialProperties s4, materialFractions s4)
                 = (regions a3, interfaceMethod a3, numMaterials a3,
                    materialProperties a3, materialFractions a3)) by congruence.
  clear Hb.
  assert (H4 : at_rest slab s4).
  { split.
    - apply (filled_after slab a3); [exact Hf3 | exact HU | congruence].
    - destruct (updatePrimitives_ext s4 a3 HU Hgam Hmw HRu Hnx)
        as [Erho [Eu [Ep ET]]].
      repeat split; congruence. }
  assert (Hfin : forall h, at_rest slab (set_nextXTStore h (storeXTData s4))).
  { intros h. destruct H4 as [Hf4 Hprim]. split.
    - apply (filled_ext slab s4); [reflexivity | exact Hf4].
    - exact Hprim. }
  destruct (_ || _); eexists; (split; [reflexivity|]).
  - split; [apply Hfin|]. cbn [nx Ru integrator set_nextXTStore storeXTData set_xtData].
    repeat split; congruence.
  - split; [exact H4|]. repeat split; congruence.
Qed.

(** Two solvers filled with the same gas at rest, over as many cells, hold
    the same fields. *)
Lemma at_rest_fields (slab : Slab R) (a b : Solver R) :
  at_rest slab a -> at_rest slab b -> nx b = nx a -> Ru b = Ru a ->
  fields b = fields a.
Proof.
  intros [[_ [HUa [Hga [Hma [Hia _]]]]] [Ra [Ua [Pa Ta]]]]
         [[_ [HUb [Hgb [Hmb [Hib _]]]]] [Rb [Ub [Pb Tb]]]] Hn HR.
  assert (HU : U b = U a) by (rewrite HUa, HUb, Hn, HR; reflexivity).
  assert (Hg : gamma b = gamma a) by (rewrite Hga, Hgb, Hn; reflexivity).
  assert (Hm : mw b = mw a) by (rewrite Hma, Hmb, Hn; reflexivity).
  assert (Hi : gasId b = gasId a) by (rewrite Hia, Hib, Hn; reflexivity).
  destruct (updatePrimitives_ext b a HU Hg Hm HR Hn) as [Erho [Eu [Ep ET]]].
  unfold fields. rewrite HU, Hg, Hm, Hi, Ra, Rb, Ua, Ub, Pa, Pb, Ta, Tb.
  rewrite Erho, Eu, Ep, ET. reflexivity.
Qed.

Lemma rest_step (slab : Slab R) (s : Solver R) :
  1 < slab_gamma slab -> at_rest slab s ->
  exists s',
    step s = Ok (s', dt s') /\ at_rest slab s' /\ nx s' = nx s /\ Ru s' = Ru s.
Proof.
  intros Hg [Hf _].
  assert (E : step s = (s' <- postStep (stages s) ;; Ok (s', dt s')))
    by (unfold step, stages; destruct (integrator s); reflexivity).
  pose proof (rest_stages slab s Hf) as HU.
  pose proof (stages_beside_buffers s) as Hb. unfold beside_buffers in Hb.
  rewrite E. generalize dependent (stages s). intros a _ HU Hb.
  assert (Hnx : nx a = nx s) by congruence.
  assert (HRu : Ru a = Ru s) by congruence.
  assert (Ha : filled slab a)
    by (apply (filled_after slab s); [exact Hf | exact HU | congruence]).
  destruct (rest_postStep slab a Hg Ha) as [s' [E' [Hrest [Hn [HR _]]]]].
  exists s'. rewrite E'. cbn [bind].
  split; [reflexivity|]. split; [exact Hrest|]. split; congruence.
Qed.

Lemma rest_steps (slab : Slab R) (n : nat) (s : Solver R) :
  1 < slab_gamma slab -> at_rest slab s ->
  exists s',
    steps n s = Ok s' /\ at_rest slab s' /\ nx s' = nx s /\ Ru s' = Ru s.
Proof.
  intros Hg. revert s. induction n as [|n IH]; intros s Hs; cbn [steps].
  - exists s. split; [reflexivity|]. split; [exact Hs|]. split; reflexivity.
  - destruct (rest_step slab s Hg Hs) as [s1 [E1 [H1 [Hn1 HR1]]]].
    rewrite E1. cbn [bind fst].
    destruct (IH s1 H1) as [s' [E' [H' [Hn' HR']]]].
    exists s'. split; [exact E'|]. split; [exact H'|]. split; congruence.
Qed.

(** C9 (as stated, refuted): in binary64 the state of a single slab is no
    fixed point of the SSP step.  On three cells of air at 101325 Pa and
    300 K one SSP step lowers the energy, the pressure and the temperature
    of cell 0 (the weights 2/3, 1/6 and 1/6 of the third stage are rounded);
    and a single slab with [gamma = 1] has finite densities at the start
    and [NaN] in every density after one RK2 step. *)
Lemma single_slab_drifts_in_binary64 :
  outcome_map
    (fun r => (F64.number.(ltb) (get (U (snd r)) 2) (get (U (fst r)) 2),
               F64.number.(ltb) (get (p (snd r)) 0) (get (p (fst r)) 0),
               F64.number.(ltb) (get (T (snd r)) 0) (get (T (fst r)) 0),
               length (tracers (fst r))))
    (Examples.single_slab "SSP" Examples.air 1)
  = Ok (true, true, true, 0%nat)
  /\ outcome_map
       (fun r => (map is_nan (rho (fst r)), map is_nan (rho (snd r))))
       (Examples.single_slab "RK2" Examples.gamma_one 1)
     = Ok ([false; false; false], [true; true; true]).
Proof. split; vm_compute; reflexivity. Qed.

(** In binary64 the same three cells of air stay bit for bit what they were
    under RK2, for three steps. *)
Lemma single_slab_RK2_binary64 :
  outcome_map
    (fun r => (map (fun i => PrimFloat.eqb (get (U (snd r)) i) (get (U (fst r)) i))
                   (seq 0 9),
               map (fun i => PrimFloat.eqb (get (p (snd r)) i) (get (p (fst r)) i))
                   (seq 0 3),
               map (fun i => PrimFloat.eqb (get (T (snd r)) i) (get (T (fst r)) i))
                   (seq 0 3)))
    (Examples.single_slab "RK2" Examples.air 3)
  = Ok (repeat true 9, repeat true 3, repeat true 3).
Proof. vm_compute. reflexivity. Qed.

(** C9 (amended): in exact arithmetic, for every configuration and every
    single slab of admissible gas data ([gamma > 1] and positive molecular
    weight, pressure, temperature and length), [initialize] creates no
    tracer, and after any number [n] of steps of the integrator of the
    configuration, RK2 or SSP, the conservative state, the primitive fields
    and the gas properties of the cells are those [initialize] left; there
    is still no tracer. *)
Theorem single_slab_is_steady (config : Config R) (slab : Slab R) (n : nat) :
  valid_slab slab ->
  exists s0 s',
    initialize (fst (EulerSolver config)) [slab] = Ok s0
    /\ tracers s0 = []
    /\ steps n s0 = Ok s'
    /\ fields s' = fields s0
    /\ tracers s' = [].
Proof.
  intros Hv.
  destruct (initialize_single_slab config slab Hv) as [s0 [E0 H0]].
  destruct (rest_steps slab n s0 (proj1 Hv) H0) as [s' [E' [H' [Hn HR]]]].
  exists s0, s'. split; [exact E0|]. split; [apply H0|].
  split; [exact E'|]. split; [|apply H'].
  apply (at_rest_fields slab); assumption.
Qed.

Lemma single_slab_is_steady_witness :
  exists s0 s',
    initialize (fst (EulerSolver (ExactExamples.config_of "SSP")))
               [ExactExamples.air] = Ok s0
    /\ tracers s0 = []
    /\ steps 3 s0 = Ok s'
    /\ fields s' = fields s0
    /\ tracers s' = [].
Proof.
  apply (single_slab_is_steady (ExactExamples.config_of "SSP") ExactExamples.air 3).
  unfold valid_slab, ExactExamples.air.
  cbn [slab_gamma slab_mw slab_pressure slab_temperature slab_length].
  repeat split; lra.
Defined.

(** *** The gas at rest is positive

    The hypotheses of the conservation theorem hold along the steps of a
    single slab. *)

Lemma initialize_Ru (s s' : Solver R) (slabs : list (Slab R)) :
  initialize s slabs = Ok s' -> Ru s' = Ru s.
Proof.
  unfold initialize.
  match goal with
  | |- context [assign_slabs ?l ?c ?p ?k] =>
      destruct (assign_slabs l c p k) as [chosen|e]; [|discriminate]
  end.
  cbn [bind]. intros E. injection E as <-. unfold initialize_mixed.
  destruct (String.eqb _ _); reflexivity.
Qed.

Lemma filled_positive (slab : Slab R) (a : Solver R) :
  valid_slab slab -> 0 < Ru a -> filled slab a -> positive a.
Proof.
  intros [Hg [Hm [Hp [HT HL]]]] HR Hf i Hi.
  destruct (filled_cell slab a i Hf Hi) as [H0 [H1 [H2 Hgam]]].
  unfold pressure_of, primitives_of_cell. cbn [fst snd].
  rewrite H0, H1, H2, Hgam. unfold initial_state. cbn [nth]. exact_ops.
  assert (Hden : 0 < Ru a / slab_mw slab * slab_temperature slab)
    by (apply Rmult_lt_0_compat; [apply Rdiv_lt_0_compat|]; assumption).
  assert (Hrho : 0 < slab_pressure slab
                     / (Ru a / slab_mw slab * slab_temperature slab))
    by (apply Rdiv_lt_0_compat; assumption).
  split; [exact Hrho|]. split; [|exact Hg].
  set (r := slab_pressure slab / (Ru a / slab_mw slab * slab_temperature slab))
    in *.
  match goal with
  | |- 0 < ?e => replace e with (slab_pressure slab) by (field; lra)
  end.
  exact Hp.
Qed.

Lemma filled_stage1 (slab : Slab R) (s : Solver R) :
  filled slab s ->
  filled slab (SSP_stage1 s) /\ Un (SSP_stage1 s) = U (SSP_stage1 s).
Proof.
  intros Hf. destruct (rest_stage1 slab s Hf) as [HU HUn]. split.
  - apply (filled_after slab s); [exact Hf | exact HU | reflexivity].
  - congruence.
Qed.

Lemma filled_stage2 (slab : Slab R) (a : Solver R) :
  filled slab a -> Un a = U a ->
  filled slab (SSP_stage2 a) /\ Un (SSP_stage2 a) = U (SSP_stage2 a).
Proof.
  intros Hf HUn. pose proof (rest_stage2 slab a Hf) as HU. split.
  - apply (filled_after slab a); [exact Hf | exact HU | reflexivity].
  - change (Un (SSP_stage2 a)) with (Un a). congruence.
Qed.

Lemma filled_stage3 (slab : Slab R) (a : Solver R) :
  filled slab a -> Un a = U a -> filled slab (SSP_stage3 a).
Proof.
  intros Hf HUn.
  apply (filled_after slab a);
    [exact Hf | exact (rest_stage3 slab a Hf HUn) | reflexivity].
Qed.

Lemma filled_predictor (slab : Slab R) (s : Solver R) :
  filled slab s ->
  filled slab (take_predictor (save_state (forward_euler (begin_step s)))).
Proof.
  intros Hf. destruct (rest_predictor slab s Hf) as [HU _].
  apply (filled_after slab s); [exact Hf | exact HU | reflexivity].
Qed.

(** Every state a step of a gas at rest computes fluxes from is the gas at
    rest. *)
Lemma rest_flux_states (slab : Slab R) (s : Solver R) :
  filled slab s ->
  forall a, In a (flux_states s) -> filled slab a /\ Ru a = Ru s.
Proof.
  intros Hf a Hin. unfold flux_states in Hin. destruct (integrator s).
  - destruct Hin as [<- | [<- | []]].
    + split; [exact Hf | reflexivity].
    + split; [now apply filled_predictor | reflexivity].
  - destruct (filled_stage1 slab s Hf) as [H1 HUn1].
    destruct (filled_stage2 slab _ H1 HUn1) as [H2 HUn2].
    pose proof (filled_stage3 slab _ H2 HUn2) as H3.
    destruct Hin as [<- | [<- | [<- | [<- | []]]]].
    + split; [exact Hf | reflexivity].
    + split; [exact H1 | reflexivity].
    + split; [exact H2 | reflexivity].
    + split; [exact H3 | reflexivity].
Qed.

Lemma rest_positive_steps (slab : Slab R) (n : nat) (s : Solver R) :
  valid_slab slab -> 0 < Ru s -> at_rest slab s -> positive_steps n s.
Proof.
  intros Hv. revert s. induction n as [|n IH]; intros s HR Hs.
  - exact I.
  - cbn [positive_steps]. split.
    + intros a Hin.
      destruct (rest_flux_states slab s (proj1 Hs) a Hin) as [Hfa HRa].
      apply (filled_positive slab); [exact Hv | rewrite HRa; exact HR | exact Hfa].
    + destruct (rest_step slab s (proj1 Hv) Hs) as [s1 [E1 [H1 [_ HR1]]]].
      rewrite E1. apply IH; [rewrite HR1; exact HR | exact H1].
Qed.

End Steady.
(** ** A whole run in binary64 *)

(** In binary64 the scenario of the README on three cells runs to its end
    under either integrator: [run] leaves its loop after 16 steps with [t]
    no longer below [finalTime] and 17 snapshots stored, the first by
    [initialize].  With a callback and a clock that advances 60 ms per call
    the callback is called 9 times; with no callback, never. *)
Lemma scenario_runs_to_the_end :
  map (fun name =>
         option_map
           (outcome_map
              (fun r => (timeSteps (final r), length (xtData (final r)),
                         F64.number.(ltb) (t (final r)) (finalTime (final r)),
                         length (progress r))))
           (Examples.scenario name true true))
      ["RK2"%string; "SSP"%string]
  = [Some (Ok (16%nat, 17%nat, false, 9%nat));
     Some (Ok (16%nat, 17%nat, false, 9%nat))]
  /\ map (fun name =>
            option_map (outcome_map (fun r => length (progress r)))
              (Examples.scenario name false false))
         ["RK2"%string; "SSP"%string]
     = [Some (Ok 0%nat); Some (Ok 0%nat)].
Proof. split; vm_compute; reflexivity. Qed.

(** ** Consistency of the HLLC flux and the CFL condition *)

Section Flux.
Local Open Scope R_scope.

(** The physical flux of a conservative state, and its velocity, pressure
    and sound speed, as [hllcFlux] computes them. *)
Lemma Rmin_same (a : R) : Rmin a a = a.
Proof. unfold Rmin. now destruct (Rle_dec a a). Qed.

Lemma Rmax_same (a : R) : Rmax a a = a.
Proof. unfold Rmax. now destruct (Rle_dec a a). Qed.

Lemma fastest_wave (v a : R) :
  0 <= a -> Rmax (Rabs (v - a)) (Rabs (v + a)) = Rabs v + a.
Proof.
  intros Ha. unfold Rmax, Rabs.
  destruct (Rcase_abs (v - a)), (Rcase_abs (v + a)), (Rcase_abs v);
    destruct (Rle_dec _ _); lra.
Qed.

(** The HLLC flux between a state and itself is the physical flux of the
    state. *)
Theorem hllcFlux_consistent (density momentum energy g : R) :
  let v := momentum / density in
  let pr := (g - 1) * (energy - 1 / 2 * density * v * v) in
  0 < density -> 0 < pr -> 1 < g ->
  hllcFlux (density, momentum, energy) (density, momentum, energy) g g
  = ((density * v, density * v * v + pr, v * (energy + pr)),
     Rabs v + R_sqrt.sqrt (g * pr / density)).
Proof.
  intros v pr Hrho Hp Hg. unfold hllcFlux. exact_ops.
  fold v. fold pr.
  set (a := R_sqrt.sqrt (g * pr / density)).
  assert (Ha : 0 < a).
  { apply sqrt_lt_R0. apply Rdiv_lt_0_compat; [|exact Hrho].
    apply Rmult_lt_0_compat; lra. }
  clearbody a. clearbody pr. clearbody v.
  rewrite Rmin_same, Rmax_same, fastest_wave by lra.
  assert (Hstar : (pr - pr + density * v * (v - a - v) - density * v * (v + a - v))
                  / (density * (v - a - v) - density * (v + a - v)) = v)
    by (field; nra).
  rewrite Hstar.
  destruct (Exact.leb 0 (v - a)); [reflexivity|].
  destruct (Exact.leb 0 v).
  - f_equal. f_equal; [f_equal|]; field; nra.
  - destruct (Exact.leb 0 (v + a)); [|reflexivity].
    f_equal. f_equal; [f_equal|]; field; nra.
Qed.

End Flux.

Section CFL.
Local Open Scope R_scope.

(** The wave speed [hllcFlux] returns bounds the fastest acoustic wave of
    the states on both sides. *)
Lemma hllcFlux_speed (UL UR : R * R * R) (gL gR : R) :
  let speed_of (V : R * R * R) (g : R) :=
    let '(density, momentum, energy) := V in
    let v := momentum / density in
    Rabs v
    + R_sqrt.sqrt (g * ((g - 1) * (energy - 1 / 2 * density * v * v)) / density) in
  speed_of UL gL <= snd (hllcFlux UL UR gL gR)
  /\ speed_of UR gR <= snd (hllcFlux UL UR gL gR).
Proof.
  destruct UL as [[dL mL] eL], UR as [[dR mR] eR]. cbv zeta.
  unfold hllcFlux. cbn [snd]. exact_ops.
  set (vL := mL / dL). set (vR := mR / dR).
  set (aL := R_sqrt.sqrt (gL * ((gL - 1) * (eL - 1 / 2 * dL * vL * vL)) / dL)).
  set (aR := R_sqrt.sqrt (gR * ((gR - 1) * (eR - 1 / 2 * dR * vR * vR)) / dR)).
  assert (HaL : 0 <= aL) by apply sqrt_pos.
  assert (HaR : 0 <= aR) by apply sqrt_pos.
  clearbody aL aR vL vR.
  pose proof (Rmin_l (vL - aL) (vR - aR)) as HL1.
  pose proof (Rmin_r (vL - aL) (vR - aR)) as HL2.
  pose proof (Rmax_l (vL + aL) (vR + aR)) as HR1.
  pose proof (Rmax_r (vL + aL) (vR + aR)) as HR2.
  set (SL := Rmin (vL - aL) (vR - aR)) in *.
  set (SR := Rmax (vL + aL) (vR + aR)) in *.
  pose proof (Rmax_l (Rabs SL) (Rabs SR)) as HW1.
  pose proof (Rmax_r (Rabs SL) (Rabs SR)) as HW2.
  pose proof (Rle_abs SR) as HA1. pose proof (Rle_abs (- SL)) as HA2.
  rewrite Rabs_Ropp in HA2.
  set (W := Rmax (Rabs SL) (Rabs SR)) in *.
  set (AL := Rabs SL) in *. set (AR := Rabs SR) in *.
  clearbody W AL AR SL SR.
  unfold Rabs. destruct (Rcase_abs vL), (Rcase_abs vR); lra.
Qed.

Lemma fold_max_from (l : list R) (m : R) : m <= fold_left Rmax l m.
Proof.
  revert m. induction l as [|a l IH]; intros m; simpl; [lra|].
  apply Rle_trans with (Rmax m a); [apply Rmax_l | apply IH].
Qed.

Lemma fold_max_bounds (l : list R) (m a : R) :
  In a l -> a <= fold_left Rmax l m.
Proof.
  revert m. induction l as [|b l IH]; intros m Hin; [contradiction|].
  simpl. destruct Hin as [<- | Hin].
  - apply Rle_trans with (Rmax m b); [apply Rmax_r | apply fold_max_from].
  - now apply IH.
Qed.

(** [computeFluxes] returns at least the wave speed of every interface. *)
Lemma maxWaveSpeed_bounds (s : Solver R) (i : nat) :
  (i <= nx s)%nat -> snd (interface_flux s i) <= snd (computeFluxes s).
Proof.
  intros Hi. unfold computeFluxes. cbn [snd]. exact_ops.
  assert (E : forall (l : list (R * R * R * R)) (m : R),
            fold_left (fun m face => Rmax m (snd face)) l m
            = fold_left Rmax (map snd l) m).
  { induction l as [|a l IH]; intros m; simpl; [reflexivity | apply IH]. }
  rewrite E. apply fold_max_bounds. apply in_map.
  unfold tabulate. apply in_map, in_seq. lia.
Qed.

(** The fastest wave of every cell is no faster than what [computeFluxes]
    returns. *)
Lemma cell_speed_bounded (s : Solver R) (i : nat) :
  (i < nx s)%nat -> cell_speed s i <= snd (computeFluxes s).
Proof.
  intros Hi.
  apply Rle_trans with (snd (interface_flux s i));
    [|apply maxWaveSpeed_bounds; lia].
  unfold interface_flux, interface_states.
  destruct (Nat.eqb_spec i 0) as [-> | Hi0].
  - match goal with
    | |- context [hllcFlux ?UL ?UR ?gL ?gR] =>
        exact (proj2 (hllcFlux_speed UL UR gL gR))
    end.
  - destruct (Nat.eqb_spec i (nx s)) as [E | _]; [lia|].
    match goal with
    | |- context [hllcFlux ?UL ?UR ?gL ?gR] =>
        exact (proj2 (hllcFlux_speed UL UR gL gR))
    end.
Qed.

(** The step [calculateTimeStep] returns is at most the CFL step. *)
Lemma calculateTimeStep_bound (s : Solver R) (maxWaveSpeed : R) :
  0 < maxWaveSpeed -> 0 <= cfl s * dx s ->
  calculateTimeStep s maxWaveSpeed * maxWaveSpeed <= cfl s * dx s.
Proof.
  intros Hw Hc. unfold calculateTimeStep. exact_ops.
  set (full := cfl s * dx s / maxWaveSpeed).
  assert (Hfull : full * maxWaveSpeed = cfl s * dx s)
    by (unfold full; field; lra).
  set (dt0 := if Exact.ltb (finalTime s) (t s + full)
              then finalTime s - t s else full).
  assert (Hdt0 : dt0 <= full).
  { unfold dt0. destruct (Exact.ltb _ _) eqn:E; [|lra].
    apply exact_ltb_true in E. lra. }
  set (r := nextXTStore s - t s).
  assert (Hres : (if Exact.ltb 0 r && Exact.ltb r (25 / 10 * dt0)
                  then r / Rmax 1 (IZR (Zceil (r / dt0))) else dt0) <= dt0).
  { destruct (Exact.ltb 0 r) eqn:E1; [|cbn [andb]; lra].
    destruct (Exact.ltb r (25 / 10 * dt0)) eqn:E2; [|cbn [andb]; lra].
    cbn [andb]. apply exact_ltb_true in E1, E2.
    assert (Hpos : 0 < dt0) by lra.
    pose proof (Zceil_bound (r / dt0)) as [_ Hup].
    set (m := Rmax 1 (IZR (Zceil (r / dt0)))).
    assert (Hm1 : 1 <= m) by apply Rmax_l.
    assert (Hm : r / dt0 <= m)
      by (apply Rle_trans with (IZR (Zceil (r / dt0))); [exact Hup | apply Rmax_r]).
    apply (Rmult_le_reg_r m); [lra|].
    replace (r / m * m) with r by (field; lra).
    apply (Rmult_le_compat_r dt0) in Hm; [|lra].
    replace (r / dt0 * dt0) with r in Hm by (field; lra). lra. }
  clearbody dt0 r.
  apply Rle_trans with (full * maxWaveSpeed); [|lra].
  apply Rmult_le_compat_r; lra.
Qed.

(** Every step obeys the CFL condition of the solver's CFL number: the
    step size the integrator returns, times the fastest wave speed of any
    cell of the state the step starts from, is at most [cfl * dx]. *)
Theorem step_obeys_CFL (s : Solver R) :
  (0 < nx s)%nat -> positive s -> ready s -> 0 <= cfl s * dx s ->
  exists s',
    step s = Ok (s', dt s')
    /\ forall i, (i < nx s)%nat -> cell_speed s i * dt s' <= cfl s * dx s.
Proof.
  intros Hnx Hpos Hready Hc.
  destruct (step_ok s Hready) as [s' [Hs' _]].
  exists s'. split; [exact Hs'|].
  assert (Hdt : dt s' = calculateTimeStep s (snd (computeFluxes s))).
  { assert (E : step s = (s1 <- postStep (stages s) ;; Ok (s1, dt s1)))
      by (unfold step, stages; destruct (integrator s); reflexivity).
    rewrite E in Hs'.
    destruct (postStep (stages s)) as [s1|e] eqn:E1; [|discriminate].
    cbn [bind] in Hs'. injection Hs' as Hs1 _. subst s1.
    destruct (postStep_keeps _ _ E1) as [_ [_ [_ [Hdt _]]]].
    rewrite Hdt. unfold stages. destruct (integrator s); reflexivity. }
  rewrite Hdt.
  assert (Hw : 0 < snd (computeFluxes s)).
  { apply Rlt_le_trans with (cell_speed s 0); [|now apply cell_speed_bounded].
    destruct (Hpos 0%nat Hnx) as [Hrho [Hp Hg]].
    unfold cell_speed. cbv zeta.
    assert (0 < R_sqrt.sqrt (get (gamma s) 0 * pressure_of s 0 / get (U s) (0 * 3))).
    { apply sqrt_lt_R0. apply Rdiv_lt_0_compat; [|exact Hrho].
      apply Rmult_lt_0_compat; lra. }
    pose proof (Rabs_pos (get (U s) (0 * 3 + 1) / get (U s) (0 * 3))). lra. }
  pose proof (calculateTimeStep_bound s _ Hw Hc) as Hbound.
  intros i Hi. pose proof (cell_speed_bounded s i Hi) as Hcell.
  assert (Hnonneg : 0 <= cell_speed s i).
  { unfold cell_speed. cbv zeta.
    pose proof (Rabs_pos (get (U s) (i * 3 + 1) / get (U s) (i * 3))).
    pose proof (sqrt_pos (get (gamma s) i * pressure_of s i / get (U s) (i * 3))).
    lra. }
  generalize dependent (calculateTimeStep s (snd (computeFluxes s))).
  intros h _ Hbound.
  generalize dependent (snd (computeFluxes s)). intros w Hw Hcell Hbound.
  generalize dependent (cell_speed s i). intros c Hcell Hnonneg.
  destruct (Rle_dec 0 h).
  - apply Rle_trans with (h * w); [|exact Hbound].
    rewrite (Rmult_comm c h). apply Rmult_le_compat_l; assumption.
  - assert (c * h <= 0); [|lra].
    rewrite <- (Rmult_0_r c). apply Rmult_le_compat_l; lra.
Qed.

End CFL.

Section FluxWitnesses.
Local Open Scope R_scope.

Lemma hllcFlux_consistent_witness :
  hllcFlux (1, 1, 3) (1, 1, 3) (14 / 10) (14 / 10)
  = ((1 * (1 / 1),
      1 * (1 / 1) * (1 / 1)
      + (14 / 10 - 1) * (3 - 1 / 2 * 1 * (1 / 1) * (1 / 1)),
      1 / 1 * (3 + (14 / 10 - 1) * (3 - 1 / 2 * 1 * (1 / 1) * (1 / 1)))),
     Rabs (1 / 1)
     + R_sqrt.sqrt (14 / 10 * ((14 / 10 - 1) * (3 - 1 / 2 * 1 * (1 / 1) * (1 / 1)))
                    / 1)).
Proof. apply (hllcFlux_consistent 1 1 3 (14 / 10)); lra. Defined.

Lemma step_obeys_CFL_witness :
  exists s',
    step (ExactExamples.one_cell "RK2") = Ok (s', dt s')
    /\ cell_speed (ExactExamples.one_cell "RK2") 0 * dt s' <= 4 / 10 * 1.
Proof.
  destruct (step_obeys_CFL (ExactExamples.one_cell "RK2")) as [s' [E Hcfl]].
  - cbn. lia.
  - intros i Hi. cbn in Hi. assert (i = 0%nat) as -> by lia.
    unfold pressure_of, primitives_of_cell. cbn. lra.
  - split; [discriminate|]. intros Hmixed. discriminate Hmixed.
  - cbn. lra.
  - exists s'. split; [exact E|]. apply (Hcfl 0%nat). cbn. lia.
Defined.

End FluxWitnesses.

(** ** The RK2 step *)

Section RK2.
Local Open Scope R_scope.

(** A forward Euler update of a buffer [V] on the fluxes of [V]. *)
Lemma euler_update (s a : Solver R) (V : list R) (h : R) :
  nx a = nx s -> dx a = dx s ->
  flux a = flux (refresh_fluxes (set_U V s)) ->
  updateConservative a V h
  = tabulate (nx s * 3) (fun j => get V j + h * get (L s V) j).
Proof.
  intros Hn Hd Hf. rewrite updateConservative_flat, Hn, Hd.
  apply tabulate_ext. intros j Hj.
  unfold L. rewrite get_tabulate by exact Hj. rewrite <- Hf.
  exact_ops. unfold Rdiv. generalize (/ dx s) as idx. intros idx. field.
Qed.

(** The two stages of [RK2Integrator.step] compute the scheme of its
    comment. *)
Lemma RK2_stages_scheme (s : Solver R) :
  length (U s) = (nx s * 3)%nat ->
  U (RK2_stages s) = Heun s (dt (begin_step s)) (U s)
  /\ Un (RK2_stages s) = U s
  /\ dt (RK2_stages s) = calculateTimeStep s (snd (computeFluxes s)).
Proof.
  intros Hlen.
  set (h := dt (begin_step s)).
  set (Ustar := tabulate (nx s * 3) (fun j => get (U s) j + h * get (L s (U s)) j)).
  assert (Hk : Uk (forward_euler (begin_step s)) = Ustar).
  { unfold forward_euler. cbn [Uk set_Uk].
    apply (euler_update s (begin_step s)); [reflexivity | reflexivity |].
    apply (refresh_fluxes_flux s (set_U (U s) s)); reflexivity. }
  set (P := take_predictor (save_state (forward_euler (begin_step s)))).
  assert (HUP : U P = Ustar).
  { unfold P, take_predictor, save_state. cbn [U set_U set_Un Uk nx].
    change (nx (forward_euler (begin_step s))) with (nx s).
    rewrite Hk. unfold Ustar at 1.
    apply tabulate_ext. intros j Hj. now rewrite get_tabulate. }
  assert (HUkP : Uk P = Ustar) by exact Hk.
  assert (HUnP : Un P = U s).
  { unfold P, take_predictor, save_state. cbn [Un set_U set_Un U nx].
    change (nx (forward_euler (begin_step s))) with (nx s).
    change (U (forward_euler (begin_step s))) with (U s).
    rewrite <- Hlen. apply tabulate_get. }
  assert (HdtP : dt P = h) by reflexivity.
  assert (HnP : nx P = nx s) by reflexivity.
  assert (HdP : dx P = dx s) by reflexivity.
  assert (HgP : gamma P = gamma s) by reflexivity.
  unfold RK2_stages. fold P.
  split; [|split; [exact HUnP | reflexivity]].
  clearbody P.
  unfold average_with_saved, correct_predictor. cbn [U Un Uk nx set_U set_Uk].
  change (nx (refresh_fluxes P)) with (nx P).
  change (Un (refresh_fluxes P)) with (Un P).
  change (Uk (refresh_fluxes P)) with (Uk P).
  change (dt (refresh_fluxes P)) with (dt P).
  rewrite (euler_update s (refresh_fluxes P) (Uk P) (dt P)).
  - rewrite HnP, HUnP, HUkP, HdtP. unfold Heun. fold Ustar.
    apply tabulate_ext. intros j Hj. rewrite get_tabulate by exact Hj.
    exact_ops. reflexivity.
  - exact HnP.
  - exact HdP.
  - rewrite HUkP, <- HUP.
    apply (refresh_fluxes_flux P (set_U (U P) s)); [reflexivity | exact HgP | exact HnP].
Qed.

(** In exact arithmetic, a step of the RK2 integrator on a solver whose
    current buffer has its [3 nx] slots completes and leaves in [U] the
    result of the two-stage scheme of its comment,
    [Ustar = Un + dt L(Un)], [Unext = 0.5 Un + 0.5 (Ustar + dt L(Ustar))],
    with [dt] the step
    [calculateTimeStep] returns on the fluxes of [Un], which the step
    returns; [Un] holds the state the step started from. *)
Theorem RK2_step_is_Heun (s : Solver R) :
  length (U s) = (nx s * 3)%nat -> ready s ->
  exists s',
    RK2Integrator_step s = Ok (s', dt s')
    /\ dt s' = calculateTimeStep s (snd (computeFluxes s))
    /\ U s' = Heun s (dt s') (U s)
    /\ Un s' = U s.
Proof.
  intros Hlen Hready.
  destruct (RK2_stages_scheme s Hlen) as [HU [HUn Hdt]].
  assert (Hr : ready (RK2_stages s)).
  { apply (ready_tables s); [reflexivity | exact Hready]. }
  destruct (postStep_ok (RK2_stages s) Hr) as [s' [Hs' _]].
  destruct (postStep_keeps _ _ Hs') as [HU' [HUn' [_ [Hdt' _]]]].
  exists s'. unfold RK2Integrator_step. rewrite Hs'. cbn [bind].
  generalize dependent (RK2_stages s). intros a HU HUn Hdt _ _ HU' HUn' Hdt'.
  split; [reflexivity|]. split; [congruence|]. split.
  - rewrite HU', HU, Hdt', Hdt. reflexivity.
  - congruence.
Qed.

Lemma RK2_step_is_Heun_witness :
  exists s',
    RK2Integrator_step (ExactExamples.one_cell "RK2") = Ok (s', dt s')
    /\ U s' = Heun (ExactExamples.one_cell "RK2") (dt s') [1; 0; 5 / 2].
Proof.
  destruct (RK2_step_is_Heun (ExactExamples.one_cell "RK2"))
    as [s' [Hs' [_ [HU _]]]].
  - reflexivity.
  - split; [discriminate|]. intros Hmixed. discriminate Hmixed.
  - exists s'. split; [exact Hs' | exact HU].
Defined.

End RK2.

(** ** Tracers *)

Lemma nth_error_seq_from (m a i k : nat) :
  nth_error (seq a m) i = Some k -> k = (a + i)%nat /\ (i < m)%nat.
Proof.
  revert a i. induction m as [|m IH]; intros a i E.
  - destruct i; discriminate.
  - destruct i as [|i]; cbn [seq nth_error] in E.
    + injection E as <-. lia.
    + apply IH in E. lia.
Qed.

Lemma nth_error_seq (m i k : nat) :
  nth_error (seq 0 m) i = Some k -> k = i /\ (i < m)%nat.
Proof. intros E. apply nth_error_seq_from in E. lia. Qed.

Section Tracers.
Context {F : Type} `{Number F}.

Lemma steps_snoc (n : nat) (s : Solver F) :
  steps (S n) s = (a <- steps n s ;; r <- step a ;; Ok (fst r)).
Proof.
  revert s. induction n as [|n IH]; intros s.
  - cbn [steps bind]. destruct (step s) as [[s1 h]|e]; reflexivity.
  - change (steps (S (S n)) s) with (r <- step s ;; steps (S n) (fst r)).
    change (steps (S n) s) with (r <- step s ;; steps n (fst r)).
    destruct (step s) as [[s1 h]|e]; [|reflexivity].
    cbn [bind fst]. apply IH.
Qed.

(** [initialize] adds its tracers to those of the solver, which the
    constructor left empty. *)
Lemma initialize_tracers (s s' : Solver F) (slabs : list (Slab F)) :
  initialize s slabs = Ok s' -> tracers s' = tracers s ++ initial_tracers slabs.
Proof.
  unfold initialize.
  match goal with
  | |- context [assign_slabs ?l ?c ?p ?k] =>
      destruct (assign_slabs l c p k) as [chosen|e]; [|discriminate]
  end.
  cbn [bind]. intros E. injection E as <-. unfold initialize_mixed.
  destruct (String.eqb _ _); reflexivity.
Qed.

(** [postStep] moves every tracer once, at the time it leaves in [t], on
    the grid it was given. *)
Lemma postStep_tracers (s s' : Solver F) :
  postStep s = Ok s' ->
  exists a,
    t a = t s' /\ (nx a, dx a, x a) = (nx s, dx s, x s)
    /\ tracers s' = map (move_tracer a) (tracers s).
Proof.
  unfold postStep.
  set (a := updatePrimitives _).
  assert (Hgrid : (nx a, dx a, x a) = (nx s, dx s, x s)) by reflexivity.
  assert (Ht : t (updateTracers a) = t a) by reflexivity.
  assert (Htr : tracers (updateTracers a) = map (move_tracer a) (tracers s))
    by reflexivity.
  generalize dependent (updateTracers a). intros a3 Ht Htr.
  destruct (updateGasProperties a3) as [s2|e] eqn:E2; [|discriminate].
  cbn [bind]. destruct (updateGasProperties_keeps _ _ E2)
    as [_ [_ [_ [_ [_ [Kt [_ [Ktr _]]]]]]]].
  destruct (_ || _); intros E; injection E as <-; exists a.
  - cbn [t tracers set_nextXTStore storeXTData set_xtData].
    split; [congruence|]. split; [exact Hgrid | congruence].
  - split; [congruence|]. split; [exact Hgrid | congruence].
Qed.

Lemma move_tracer_follows (a : Solver F) (tr : Tracer F) :
  follows 1 (t a) tr (move_tracer a tr).
Proof.
  unfold follows, move_tracer. cbn [trajectory tracer_x].
  split; [now rewrite length_app|].
  split; [now rewrite firstn_app, Nat.sub_diag, firstn_all, app_nil_r|].
  split; [intros _; apply last_last | discriminate].
Qed.

Lemma step_tracers (s s' : Solver F) (h : F) :
  step s = Ok (s', h) -> Forall2 (follows 1 (t s')) (tracers s) (tracers s').
Proof.
  assert (E : step s = (s1 <- postStep (stages s) ;; Ok (s1, dt s1)))
    by (unfold step, stages; destruct (integrator s); reflexivity).
  rewrite E. destruct (postStep (stages s)) as [s1|e] eqn:E1; [|discriminate].
  cbn [bind]. intros Hs. injection Hs as -> _.
  destruct (postStep_tracers _ _ E1) as [a [Ht [_ Htr]]].
  assert (Hst : tracers (stages s) = tracers s)
    by (unfold stages; destruct (integrator s); reflexivity).
  rewrite Htr, Hst, <- Ht. clear.
  induction (tracers s) as [|tr l IH]; cbn [map]; constructor;
    [apply move_tracer_follows | exact IH].
Qed.

Lemma follows_once_more (n : nat) (now now' : F) (tr tr1 tr' : Tracer F) :
  follows n now tr tr1 -> follows 1 now' tr1 tr' -> follows (S n) now' tr tr'.
Proof.
  intros [Hlen [Hfirst _]] [Hlen' [Hfirst' [Hlast' _]]].
  split; [lia|]. split; [|split; [intros _; apply Hlast'; lia | discriminate]].
  rewrite <- Hfirst at 2. rewrite <- Hfirst'.
  rewrite firstn_firstn. f_equal. lia.
Qed.

(** [n] steps move every tracer [n] times and keep their number and their
    order. *)
Lemma steps_tracers (n : nat) (s s' : Solver F) :
  steps n s = Ok s' -> Forall2 (follows n (t s')) (tracers s) (tracers s').
Proof.
  revert s'. induction n as [|n IH]; intros s'.
  - cbn [steps]. intros E. injection E as <-.
    induction (tracers s) as [|tr l IHl]; constructor; [|exact IHl].
    split; [lia|]. split; [apply firstn_all|]. split; [lia | reflexivity].
  - rewrite steps_snoc.
    destruct (steps n s) as [a|e]; [|discriminate]. cbn [bind].
    destruct (step a) as [[s1 h]|e] eqn:Es; [|discriminate].
    cbn [bind fst]. intros E. injection E as <-.
    specialize (IH a eq_refl). pose proof (step_tracers _ _ _ Es) as Hstep.
    revert Hstep. generalize (tracers s1). revert IH.
    generalize (tracers a). generalize (tracers s).
    intros l. induction l as [|tr l IHl]; intros l1 H1 l2 H2.
    + inversion H1; subst. inversion H2; subst. constructor.
    + inversion H1 as [|? tr1 ? l1' Hf1 Hr1]; subst.
      inversion H2 as [|? tr2 ? l2' Hf2 Hr2]; subst.
      constructor; [exact (follows_once_more _ _ _ _ _ _ Hf1 Hf2)|].
      exact (IHl _ Hr1 _ Hr2).
Qed.

End Tracers.

(** Tracers are created by [initialize] only, one at the end of every slab
    but the last, and every step moves each of them once.  On every
    non-empty slab list and under every configuration, after [n] steps of
    either integrator there is still one tracer per inner slab boundary, in
    the order of the slabs; its trajectory has [n + 1] samples, the first
    the boundary it started from at time 0 and the last its current
    position, at the time the last step ended. *)
Theorem tracers_follow_the_run :
  forall (F : Type) (N : Number F) (config : Config F)
         (slab : Slab F) (slabs : list (Slab F)) (n : nat),
  exists s0 s',
    initialize (fst (EulerSolver config)) (slab :: slabs) = Ok s0
    /\ steps n s0 = Ok s'
    /\ length (tracers s0) = length slabs
    /\ length (tracers s') = length slabs
    /\ forall i tr', nth_error (tracers s') i = Some tr' ->
         length (trajectory tr') = S n
         /\ nth_error (trajectory tr') 0
            = Some (mkSample (of_Z 0) (position_after (slab :: slabs) (S i)))
         /\ sample_x (last (trajectory tr') (mkSample NaN NaN)) = tracer_x tr'
         /\ (1 <= n -> sample_t (last (trajectory tr') (mkSample NaN NaN))
                       = t s')%nat.
Proof.
  intros F N config slab slabs n.
  destruct (initialize_nonempty (fst (EulerSolver config)) slab slabs) as [s0 H0].
  destruct (steps_ok n s0 (initialize_ready _ _ _ _ H0)) as [s' [Hs' _]].
  exists s0, s'. split; [exact H0|]. split; [exact Hs'|].
  pose proof (initialize_tracers _ _ _ H0) as Htr. cbn [tracers EulerSolver fst app] in Htr.
  pose proof (steps_tracers n s0 s' Hs') as Hrun.
  assert (Hlen0 : length (tracers s0) = length slabs).
  { rewrite Htr. unfold initial_tracers. rewrite length_map, length_seq.
    cbn [length]. lia. }
  split; [exact Hlen0|].
  split; [rewrite <- (Forall2_length Hrun); exact Hlen0|].
  intros i tr' Hi.
  assert (Hex : exists tr, nth_error (tracers s0) i = Some tr /\ follows n (t s') tr tr').
  { clear Htr Hlen0. revert i Hi.
    induction Hrun as [|tr0 tr1 l0 l1 Hf Hr IH]; intros i Hi.
    - destruct i; discriminate.
    - destruct i as [|i]; cbn [nth_error] in *.
      + injection Hi as <-. now exists tr0.
      + now apply IH. }
  destruct Hex as [tr [Htr0 [Hlen [Hfirst [Hlast Hsame]]]]].
  assert (Hinit : tr = mkTracer (position_after (slab :: slabs) (S i))
                         [mkSample (of_Z 0) (position_after (slab :: slabs) (S i))]).
  { rewrite Htr in Htr0. unfold initial_tracers in Htr0.
    rewrite nth_error_map in Htr0.
    destruct (nth_error (seq 0 (length (slab :: slabs) - 1)) i) as [k|] eqn:Ek;
      [|discriminate].
    apply nth_error_seq in Ek as [Hk _].
    subst k. cbn [option_map] in Htr0. now injection Htr0 as <-. }
  subst tr. cbn [trajectory length] in *.
  split; [lia|]. split.
  - rewrite <- (firstn_skipn 1 (trajectory tr')), Hfirst. reflexivity.
  - destruct n as [|n].
    + rewrite (Hsame eq_refl). cbn. split; [reflexivity | lia].
    + rewrite Hlast by lia. cbn [sample_x sample_t]. split; [reflexivity|].
      intros _. reflexivity.
Qed.

(** ** Tracers stay in the tube *)

Section Inside.
Local Open Scope R_scope.

Lemma lengths_from (l : list (Slab R)) (a : R) :
  fold_left (fun sum slab => sum + slab_length slab) l a
  = a + fold_left (fun sum slab => sum + slab_length slab) l 0.
Proof.
  revert a. induction l as [|b l IH]; intros a; simpl; [lra|].
  rewrite (IH (a + slab_length b)), (IH (0 + slab_length b)). lra.
Qed.

Lemma lengths_nonneg (l : list (Slab R)) :
  (forall slab, In slab l -> 0 <= slab_length slab) -> 0 <= total_length l.
Proof.
  unfold total_length. induction l as [|b l IH]; intros Hl; simpl; [lra|].
  rewrite lengths_from.
  assert (0 <= slab_length b) by (apply Hl; now left).
  assert (0 <= fold_left (fun sum slab => sum + slab_length slab) l 0)
    by (apply IH; intros c Hc; apply Hl; now right).
  lra.
Qed.






(** The grid and the tracers [initialize] leaves. *)
Lemma initialize_grid (s s' : Solver R) (slabs : list (Slab R)) :
  initialize s slabs = Ok s' ->
  nx s' = nx s
  /\ dx s' = total_length slabs / of_nat (nx s)
  /\ x s' = tabulate (nx s) (fun i => (of_nat i + lit 1 2) * dx s').
Proof.
  unfold initialize.
  match goal with
  | |- context [assign_slabs ?l ?c ?p ?k] =>
      destruct (assign_slabs l c p k) as [chosen|e]; [|discriminate]
  end.
  cbn [bind]. intros E. injection E as <-. unfold initialize_mixed.
  destruct (String.eqb _ _); repeat split; reflexivity.
Qed.

End Inside.



(** ** What a step leaves besides the state *)

Section Bookkeeping.
Context {F : Type} `{Number F}.

(** The stages leave the time step [calculateTimeStep] chose and touch
    nothing [postStep] reads but [U] and [dt]. *)
Lemma stages_dt (s : Solver F) :
  dt (stages s) = calculateTimeStep (refresh_fluxes s) (snd (computeFluxes s))
  /\ beside_buffers (stages s) = beside_buffers s.
Proof. unfold stages. destruct (integrator s); split; reflexivity. Qed.

(** [postStep], field by field. *)
Lemma postStep_fields (a s' : Solver F) :
  postStep a = Ok s' ->
  t s' = add (t a) (dt a)
  /\ timeSteps s' = S (timeSteps a)
  /\ (rho s', u s', p s', T s')
     = (rho (updatePrimitives a), u (updatePrimitives a),
        p (updatePrimitives a), T (updatePrimitives a))
  /\ if ltb (abs (sub (t s') (nextXTStore a))) (lit 1 10000000000)
        || ltb (nextXTStore a) (t s')
     then xtData s'
          = xtData a ++ [mkSnapshot (t s') (rho s') (u s') (p s') (T s')
                                    (gamma s') (mw s') (gasId s')]
          /\ nextXTStore s' = add (nextXTStore a) (xtInterval a)
     else xtData s' = xtData a /\ nextXTStore s' = nextXTStore a.
Proof.
  unfold postStep.
  set (a2 := updatePrimitives _).
  assert (Hprim : (rho a2, u a2, p a2, T a2)
                  = (rho (updatePrimitives a), u (updatePrimitives a),
                     p (updatePrimitives a), T (updatePrimitives a)))
    by reflexivity.
  assert (Hrest : (t (updateTracers a2), timeSteps (updateTracers a2),
                   xtData (updateTracers a2), nextXTStore (updateTracers a2),
                   xtInterval (updateTracers a2))
                  = (add (t a) (dt a), S (timeSteps a), xtData a, nextXTStore a,
                     xtInterval a)) by reflexivity.
  assert (Hprim3 : (rho (updateTracers a2), u (updateTracers a2),
                    p (updateTracers a2), T (updateTracers a2))
                   = (rho a2, u a2, p a2, T a2)) by reflexivity.
  generalize dependent (updateTracers a2). intros a3 Hrest Hprim3.
  destruct (updateGasProperties a3) as [s2|e] eqn:E2; [|discriminate].
  cbn [bind].
  destruct (updateGasProperties_keeps _ _ E2)
    as [Krho [Ku [Kp [KT [Kxt [Kt [Knext [_ Ksteps]]]]]]]].
  pose proof (updateGasProperties_buffers _ _ E2) as Hb. unfold buffers in Hb.
  assert (Hint : xtInterval s2 = xtInterval a3) by congruence.
  clear Hb E2.
  injection Hrest as Ht3 Hsteps3 Hxt3 Hnext3 Hint3.
  rewrite Kt, Knext, Ht3, Hnext3.
  assert (Hprim' : (rho s2, u s2, p s2, T s2)
                   = (rho (updatePrimitives a), u (updatePrimitives a),
                      p (updatePrimitives a), T (updatePrimitives a)))
    by congruence.
  clearbody a2.
  destruct (ltb (abs (sub (add (t a) (dt a)) (nextXTStore a))) (lit 1 10000000000)
            || ltb (nextXTStore a) (add (t a) (dt a))) eqn:Edue;
    intros E; injection E as <-.
  - cbn [t timeSteps rho u p T gamma mw gasId xtData nextXTStore xtInterval
         set_nextXTStore storeXTData set_xtData].
    rewrite Kt, Ht3, Edue.
    split; [reflexivity|]. split; [congruence|]. split; [exact Hprim'|].
    split; [congruence | congruence].
  - rewrite Kt, Ht3, Edue.
    split; [reflexivity|]. split; [congruence|]. split; [exact Hprim'|].
    split; congruence.
Qed.

(** The primitive fields depend on the state, the gas properties and the
    number of cells only. *)
Lemma updatePrimitives_depends (a b : Solver F) :
  (U a, gamma a, mw a, Ru a, nx a) = (U b, gamma b, mw b, Ru b, nx b) ->
  (rho (updatePrimitives a), u (updatePrimitives a),
   p (updatePrimitives a), T (updatePrimitives a))
  = (rho (updatePrimitives b), u (updatePrimitives b),
     p (updatePrimitives b), T (updatePrimitives b)).
Proof.
  intros E. injection E as HU Hg Hm HR Hn. unfold updatePrimitives.
  cbn [rho u p T set_rho set_u set_p set_T].
  assert (Ecells : tabulate (nx a) (primitives_of_cell a)
                   = tabulate (nx b) (primitives_of_cell b)).
  { rewrite Hn. apply tabulate_ext. intros i _. unfold primitives_of_cell.
    now rewrite HU, Hg, Hm, HR. }
  now rewrite Ecells.
Qed.

End Bookkeeping.

(** What a step of either integrator leaves besides the new state, for
    every number model.  The time advances by the step size returned and the
    step counter by one.  The primitive fields are those of the new
    conservative state under the gas properties the cells had before the
    step: [updatePrimitives] runs before [updateGasProperties].  A snapshot
    of the new time, primitive fields and gas properties is stored, and
    [nextXTStore] advanced by [xtInterval], exactly when the new time is
    within 1e-10 of [nextXTStore] or beyond it; no other snapshot is added,
    changed or removed. *)
Theorem step_bookkeeping :
  forall (F : Type) (N : Number F) (s : Solver F),
  ready s ->
  exists s',
    step s = Ok (s', dt s')
    /\ dt s' = calculateTimeStep s (snd (computeFluxes s))
    /\ t s' = add (t s) (dt s')
    /\ timeSteps s' = S (timeSteps s)
    /\ (rho s', u s', p s', T s')
       = (let b := updatePrimitives (set_U (U s') s) in (rho b, u b, p b, T b))
    /\ if ltb (abs (sub (t s') (nextXTStore s))) (lit 1 10000000000)
          || ltb (nextXTStore s) (t s')
       then xtData s'
            = xtData s ++ [mkSnapshot (t s') (rho s') (u s') (p s') (T s')
                                      (gamma s') (mw s') (gasId s')]
            /\ nextXTStore s' = add (nextXTStore s) (xtInterval s)
       else xtData s' = xtData s /\ nextXTStore s' = nextXTStore s.
Proof.
  intros F N s Hready.
  destruct (step_ok s Hready) as [s' [Hs' _]].
  exists s'. split; [exact Hs'|].
  assert (E : step s = (s1 <- postStep (stages s) ;; Ok (s1, dt s1)))
    by (unfold step, stages; destruct (integrator s); reflexivity).
  rewrite E in Hs'.
  destruct (postStep (stages s)) as [s1|e] eqn:E1; [|discriminate].
  cbn [bind] in Hs'. injection Hs' as Hs1 _. subst s1.
  destruct (postStep_fields _ _ E1) as [Ht [Hsteps [Hprim Hsnap]]].
  destruct (postStep_keeps _ _ E1) as [HU [_ [_ [Hdt _]]]].
  destruct (stages_dt s) as [Hdt0 Hbeside]. unfold beside_buffers in Hbeside.
  assert (Hdep : (U (stages s), gamma (stages s), mw (stages s), Ru (stages s),
                  nx (stages s))
                 = (U (set_U (U s') s), gamma (set_U (U s') s),
                    mw (set_U (U s') s), Ru (set_U (U s') s),
                    nx (set_U (U s') s)))
    by (cbn [U gamma mw Ru nx set_U]; congruence).
  apply updatePrimitives_depends in Hdep.
  assert (Hold : (t (stages s), timeSteps (stages s), xtData (stages s),
                  nextXTStore (stages s), xtInterval (stages s))
                 = (t s, timeSteps s, xtData s, nextXTStore s, xtInterval s))
    by congruence.
  clear Hbeside E E1.
  generalize dependent (stages s). intros a Ht Hsteps Hprim Hsnap HU Hdt Hdt0 Hdep Hold.
  injection Hold as Ot Osteps Oxt Onext Oint.
  rewrite Onext, Oxt, Oint in Hsnap.
  split; [rewrite Hdt, Hdt0; reflexivity|].
  split; [rewrite Ht, Ot, Hdt; reflexivity|].
  split; [congruence|].
  split; [cbv zeta; congruence|].
  exact Hsnap.
Qed.

Lemma step_bookkeeping_witness :
  exists s',
    step (ExactExamples.one_cell "SSP") = Ok (s', dt s')
    /\ timeSteps s' = 1%nat.
Proof.
  destruct (step_bookkeeping R Exact.number (ExactExamples.one_cell "SSP"))
    as [s' [Hs' [_ [_ [Hsteps _]]]]].
  - split; [discriminate|]. intros Hmixed. discriminate Hmixed.
  - exists s'. split; [exact Hs' | exact Hsteps].
Defined.

(** ** What a run returns *)

Section Runs.
Context {F : Type} `{Number F}.

Lemma steps_timeSteps (n : nat) (s s' : Solver F) :
  steps n s = Ok s' -> timeSteps s' = (timeSteps s + n)%nat.
Proof.
  revert s. induction n as [|n IH]; intros s; cbn [steps].
  - intros E. injection E as <-. lia.
  - assert (E : step s = (s1 <- postStep (stages s) ;; Ok (s1, dt s1)))
      by (unfold step, stages; destruct (integrator s); reflexivity).
    rewrite E. destruct (postStep (stages s)) as [s1|e] eqn:E1; [|discriminate].
    cbn [bind fst]. intros Hn. rewrite (IH _ Hn).
    destruct (postStep_fields _ _ E1) as [_ [Hsteps _]]. rewrite Hsteps.
    destruct (stages_dt s) as [_ Hb]. unfold beside_buffers in Hb.
    assert (timeSteps (stages s) = timeSteps s) by congruence. lia.
Qed.

(** The loop of [run] leaves with [t < finalTime] false, after as many
    steps as it read the clock, each taken from a state with
    [t < finalTime]; it passes at most one fraction per step to the
    callback, and none when there is no callback. *)
Lemma run_loop_result (fuel : nat) (clock : nat -> Z) (cb : bool) :
  forall (k : nat) (last : Z) (reported : list F) (s s' : Solver F)
         (reported' : list F) (k' : nat),
    run_loop fuel clock cb k last reported s = Some (Ok (s', reported', k')) ->
    ltb (t s') (finalTime s') = false
    /\ exists n,
         (n <= fuel)%nat /\ steps n s = Ok s' /\ k' = (k + n)%nat
         /\ (forall j, (j < n)%nat ->
               exists a, steps j s = Ok a /\ ltb (t a) (finalTime a) = true)
         /\ exists more,
              reported' = reported ++ more /\ (length more <= n)%nat
              /\ (cb = false -> more = []).
Proof.
  induction fuel as [|fuel IH]; intros k last reported s s' reported' k';
    cbn [run_loop]; destruct (ltb (t s) (finalTime s)) eqn:Et;
    try discriminate.
  - intros E. injection E as <- <- <-. split; [exact Et|].
    exists 0%nat. split; [lia|]. split; [reflexivity|]. split; [lia|].
    split; [intros j Hj; lia|]. exists []. rewrite app_nil_r. auto.
  - destruct (step s) as [[s1 h]|e] eqn:Es; [|discriminate].
    intros E.
    assert (Hrec : exists last1 reported1,
              run_loop fuel clock cb (S k) last1 reported1 s1
              = Some (Ok (s', reported', k'))
              /\ exists one, reported1 = reported ++ one /\ (length one <= 1)%nat
                             /\ (cb = false -> one = [])).
    { destruct (cb && (100 <? clock k - last)%Z) eqn:Ecb.
      - eexists _, _. split; [exact E|]. eexists. split; [reflexivity|].
        split; [cbn; lia|]. intros ->. discriminate.
      - eexists _, _. split; [exact E|]. exists []. rewrite app_nil_r. auto. }
    destruct Hrec as [last1 [reported1 [Hrun [one [-> [Hone Hnone]]]]]].
    destruct (IH _ _ _ _ _ _ _ Hrun)
      as [Hend [n [Hn [Hsteps [Hk [Hbefore [more [-> [Hmore Hnomore]]]]]]]]].
    split; [exact Hend|].
    exists (S n). split; [lia|]. split; [cbn [steps]; rewrite Es; exact Hsteps|].
    split; [lia|]. split.
    + intros [|j] Hj.
      * exists s. split; [reflexivity | exact Et].
      * destruct (Hbefore j ltac:(lia)) as [a [Ha Hlt]].
        exists a. split; [cbn [steps]; rewrite Es; exact Ha | exact Hlt].
    + exists (one ++ more). rewrite app_assoc. split; [reflexivity|].
      split; [rewrite length_app; lia|].
      intros Hcb. rewrite (Hnone Hcb), (Hnomore Hcb). reflexivity.
  - intros E. injection E as <- <- <-. split; [exact Et|].
    exists 0%nat. split; [lia|]. split; [reflexivity|]. split; [lia|].
    split; [intros j Hj; lia|]. exists []. rewrite app_nil_r. auto.
Qed.

End Runs.

(** What a completed simulation returns, for every number model: the
    solver [initialize] left, advanced by some number [n] of steps of the
    integrator, each taken from a state with [t < finalTime], and stopped at
    the first state for which [t < finalTime] is false.  Its step counter is
    [n]; the elapsed time reported is the difference of the readings of the
    clock after the last step and before the first; the callback, if any,
    was called at most once per step and a last time with 1. *)
Theorem run_stops_at_final_time :
  forall (F : Type) (N : Number F) (fuel : nat) (clock : nat -> Z) (cb : bool)
         (config : Config F) (slabs : list (Slab F)) (r : RunResult F),
  simulate fuel clock cb config slabs = Some (Ok r) ->
  exists s0 n,
    initialize (fst (EulerSolver config)) slabs = Ok s0
    /\ (n <= fuel)%nat
    /\ steps n s0 = Ok (final r)
    /\ ltb (t (final r)) (finalTime (final r)) = false
    /\ (forall j, (j < n)%nat ->
          exists a, steps j s0 = Ok a /\ ltb (t a) (finalTime a) = true)
    /\ timeSteps (final r) = n
    /\ elapsed r = (clock (S n) - clock 0%nat)%Z
    /\ if cb
       then exists earlier,
              progress r = earlier ++ [of_Z 1] /\ (length earlier <= n)%nat
       else progress r = [].
Proof.
  intros F N fuel clock cb config slabs r. unfold simulate.
  destruct (initialize (fst (EulerSolver config)) slabs) as [s0|e] eqn:E0;
    [|discriminate].
  unfold run.
  destruct (run_loop fuel clock cb 1 (clock 0%nat) [] s0)
    as [[[[s' reported] k]|e]|] eqn:Eloop; try discriminate.
  intros E. injection E as <-. cbn [final progress elapsed].
  destruct (run_loop_result _ _ _ _ _ _ _ _ _ _ Eloop)
    as [Hend [n [Hn [Hsteps [Hk [Hbefore [more [Hrep [Hmore Hnone]]]]]]]]].
  cbn [app] in Hrep. subst reported k.
  exists s0, n. split; [reflexivity|]. split; [exact Hn|].
  split; [exact Hsteps|]. split; [exact Hend|]. split; [exact Hbefore|].
  split.
  { rewrite (steps_timeSteps _ _ _ Hsteps).
    assert (Hinit : timeSteps s0 = 0%nat).
    { revert E0. unfold initialize.
      match goal with
      | |- context [assign_slabs ?l ?c ?p ?q] =>
          destruct (assign_slabs l c p q) as [chosen|e]; [|discriminate]
      end.
      cbn [bind]. intros E. injection E as <-. unfold initialize_mixed.
      destruct (String.eqb _ _); reflexivity. }
    lia. }
  split; [reflexivity|].
  destruct cb.
  - exists more. split; [reflexivity | exact Hmore].
  - now apply Hnone.
Qed.

Lemma run_stops_at_final_time_witness :
  exists r,
    simulate 100 (fun k => Z.of_nat (k * 60)) true
             (Examples.config3 None "SSP") [Examples.air; Examples.helium]
    = Some (Ok r)
    /\ F64.number.(ltb) (t (final r)) (finalTime (final r)) = false.
Proof.
  assert (Hrun : exists r,
            simulate 100 (fun k => Z.of_nat (k * 60)) true
                     (Examples.config3 None "SSP") [Examples.air; Examples.helium]
            = Some (Ok r))
    by (vm_compute; eexists; reflexivity).
  destruct Hrun as [r Hrun]. exists r. split; [exact Hrun|].
  destruct (run_stops_at_final_time float F64.number 100
              (fun k => Z.of_nat (k * 60)) true (Examples.config3 None "SSP")
              [Examples.air; Examples.helium] r Hrun)
    as [s0 [n [_ [_ [_ [Hend _]]]]]].
  exact Hend.
Defined.

(** ** The mixed method *)

Section Mixed.
Context {F : Type} `{Number F}.

Lemma mapM_ext {A B : Type} (f g : A -> outcome B) (l : list A) :
  (forall a, In a l -> f a = g a) -> mapM f l = mapM g l.
Proof.
  induction l as [|a l IH]; intros Hfg; [reflexivity|].
  cbn [mapM]. rewrite (Hfg a) by (now left).
  rewrite IH by (intros b Hb; apply Hfg; now right). reflexivity.
Qed.

(** The mixture of a cell depends on the material tables only. *)
Lemma computeMixtureProperties_depends (a b : Solver F) (i : nat) :
  (numMaterials a, materialFractions a, materialProperties a)
  = (numMaterials b, materialFractions b, materialProperties b) ->
  computeMixtureProperties a i = computeMixtureProperties b i.
Proof.
  intros E. injection E as Hn Hf Hp.
  unfold computeMixtureProperties, mixture_step, fraction_at.
  rewrite Hn, Hf, Hp. reflexivity.
Qed.

Lemma assign_regions_fields (found : list (Region F)) (a : Solver F) :
  (gamma (assign_regions found a), mw (assign_regions found a),
   gasId (assign_regions found a))
  = (map (@region_gamma F) found, map (@region_mw F) found,
     map (@region_gasId F) found).
Proof. reflexivity. Qed.

(** Under the mixed method [postStep] assigns to the cells the mixtures of
    the material tables it was given, and leaves the tables as they are. *)
Lemma postStep_mixed (a s' : Solver F) :
  interfaceMethod a = "mixed"%string -> postStep a = Ok s' ->
  exists found,
    mapM (computeMixtureProperties a) (seq 0 (nx a)) = Ok found
    /\ (gamma s', mw s', gasId s')
       = (map (@region_gamma F) found, map (@region_mw F) found,
          map (@region_gasId F) found).
Proof.
  intros Hmixed. unfold postStep.
  set (a2 := updatePrimitives _).
  assert (Hsame : (numMaterials (updateTracers a2),
                   materialFractions (updateTracers a2),
                   materialProperties (updateTracers a2))
                  = (numMaterials a, materialFractions a, materialProperties a))
    by reflexivity.
  assert (Hnx : nx (updateTracers a2) = nx a) by reflexivity.
  assert (Hm3 : interfaceMethod (updateTracers a2) = "mixed"%string)
    by exact Hmixed.
  generalize dependent (updateTracers a2). intros a3 Hsame Hnx Hm3. clear a2.
  assert (Hgas : updateGasProperties a3
                 = (found <- mapM (computeMixtureProperties a) (seq 0 (nx a)) ;;
                    Ok (assign_regions found a3))).
  { unfold updateGasProperties. rewrite Hm3, Hnx. cbn [String.eqb Ascii.eqb Bool.eqb].
    rewrite (mapM_ext (computeMixtureProperties a3) (computeMixtureProperties a))
      by (intros i _; now apply computeMixtureProperties_depends).
    reflexivity. }
  rewrite Hgas.
  destruct (mapM (computeMixtureProperties a) (seq 0 (nx a))) as [found|e];
    [|discriminate].
  cbn [bind]. generalize (assign_regions_fields found a3).
  generalize (assign_regions found a3). intros s2 Hs2.
  destruct (_ || _); intros E; injection E as <-; exists found;
    (split; [reflexivity | exact Hs2]).
Qed.

Lemma steps_tables (n : nat) (s s' : Solver F) :
  steps n s = Ok s' -> tables s' = tables s /\ nx s' = nx s.
Proof.
  revert s. induction n as [|n IH]; intros s; cbn [steps].
  - intros E. injection E as <-. split; reflexivity.
  - assert (E : step s = (s1 <- postStep (stages s) ;; Ok (s1, dt s1)))
      by (unfold step, stages; destruct (integrator s); reflexivity).
    rewrite E. destruct (postStep (stages s)) as [s1|e] eqn:E1; [|discriminate].
    cbn [bind fst]. intros Hn. destruct (IH _ Hn) as [Ht Hnx].
    pose proof (postStep_buffers _ _ E1) as Hb. unfold buffers in Hb.
    pose proof (tables_stages s) as Hts.
    assert (Hxs : nx (stages s) = nx s)
      by (unfold stages; destruct (integrator s); reflexivity).
    unfold tables in *. split; congruence.
Qed.

Lemma initialize_method (s s' : Solver F) (slabs : list (Slab F)) :
  initialize s slabs = Ok s' -> interfaceMethod s' = interfaceMethod s.
Proof.
  unfold initialize.
  match goal with
  | |- context [assign_slabs ?l ?c ?p ?k] =>
      destruct (assign_slabs l c p k) as [chosen|e]; [|discriminate]
  end.
  cbn [bind]. intros E. injection E as <-. unfold initialize_mixed.
  destruct (String.eqb _ _); reflexivity.
Qed.

End Mixed.

(** Under the mixed method no step changes the material fraction table:
    [advectMaterialFractions] is never called.  For every number model, after
    any number of steps (at least one) of either integrator the table, the
    material properties and their number are those the run started with, and
    the gas properties of every cell are the mixture
    [computeMixtureProperties] gives on that initial table. *)
Theorem mixed_method_never_advects :
  forall (F : Type) (N : Number F) (s : Solver F) (n : nat),
  interfaceMethod s = "mixed"%string -> ready s ->
  exists s' found,
    steps (S n) s = Ok s'
    /\ (numMaterials s', materialFractions s', materialProperties s')
       = (numMaterials s, materialFractions s, materialProperties s)
    /\ mapM (computeMixtureProperties s) (seq 0 (nx s)) = Ok found
    /\ (gamma s', mw s', gasId s')
       = (map (@region_gamma F) found, map (@region_mw F) found,
          map (@region_gasId F) found).
Proof.
  intros F N s n Hmixed Hready.
  destruct (steps_ok (S n) s Hready) as [s' [Hs' _]].
  destruct (steps_tables _ _ _ Hs') as [Ht _].
  pose proof Hs' as Hsnoc. rewrite steps_snoc in Hsnoc.
  destruct (steps n s) as [a|e] eqn:Ea; [|discriminate]. cbn [bind] in Hsnoc.
  destruct (steps_tables _ _ _ Ea) as [Hta Hnxa].
  assert (E : step a = (s1 <- postStep (stages a) ;; Ok (s1, dt s1)))
    by (unfold step, stages; destruct (integrator a); reflexivity).
  rewrite E in Hsnoc.
  destruct (postStep (stages a)) as [s1|e] eqn:E1; [|discriminate].
  cbn [bind fst] in Hsnoc. injection Hsnoc as ->.
  pose proof (tables_stages a) as Hts.
  assert (Hxs : nx (stages a) = nx a)
    by (unfold stages; destruct (integrator a); reflexivity).
  unfold tables in Ht, Hta, Hts.
  assert (Hm : interfaceMethod (stages a) = "mixed"%string) by congruence.
  destruct (postStep_mixed _ _ Hm E1) as [found [Hfound Hgas]].
  exists s', found. split; [exact Hs'|]. split; [congruence|].
  split; [|exact Hgas].
  rewrite <- Hfound, Hxs, Hnxa. apply mapM_ext. intros i _.
  apply computeMixtureProperties_depends. congruence.
Qed.

Lemma mixed_method_never_advects_witness :
  exists s0 s',
    initialize (fst (EulerSolver MoreExamples.mixed3))
               [Examples.air; Examples.helium] = Ok s0
    /\ steps 2 s0 = Ok s'
    /\ materialFractions s' = materialFractions s0.
Proof.
  destruct (initialize_nonempty (fst (EulerSolver MoreExamples.mixed3))
              Examples.air [Examples.helium]) as [s0 H0].
  destruct (mixed_method_never_advects _ _ s0 1)
    as [s' [found [Hs' [Hsame _]]]].
  - rewrite (initialize_method _ _ _ H0). reflexivity.
  - exact (initialize_ready _ _ _ _ H0).
  - exists s0, s'. split; [exact H0|]. split; [exact Hs'|]. congruence.
Defined.

(** ** The material fractions [initialize] writes *)

(** Case analysis on the comparisons of [Rmin] and [Rmax], innermost
    first. *)
Ltac case_order :=
  unfold Rmax, Rmin;
  repeat match goal with
         | |- context [Rle_dec ?x ?y] =>
             lazymatch x with
             | context [Rle_dec _ _] => fail
             | _ => lazymatch y with
                    | context [Rle_dec _ _] => fail
                    | _ => destruct (Rle_dec x y)
                    end
             end
         end.

Section InitialFractions.
Local Open Scope R_scope.

Lemma sum_differences (n : nat) (g : nat -> R) :
  sum (tabulate n (fun k => g (S k) - g k)) = g n - g 0%nat.
Proof.
  induction n as [|n IH].
  - unfold tabulate. simpl. rewrite sum_nil. lra.
  - rewrite sum_tabulate_succ, IH. lra.
Qed.

(** The overlap of a cell [[cl, cr]] and a slab [[sl, sr]], as a difference
    of the ends of the slab clipped to the cell. *)
Lemma overlap_clipped (cl cr sl sr : R) :
  cl <= cr -> sl <= sr ->
  Rmax 0 (Rmin cr sr - Rmax cl sl)
  = Rmin (Rmax sr cl) cr - Rmin (Rmax sl cl) cr.
Proof.
  intros Hc Hs. case_order; lra.
Qed.

Lemma overlap_bounds (cl cr sl sr : R) :
  cl <= cr -> 0 <= Rmax 0 (Rmin cr sr - Rmax cl sl) <= cr - cl.
Proof.
  intros Hc. case_order; lra.
Qed.

Lemma position_after_succ (slabs : list (Slab R)) (k : nat) (slab : Slab R) :
  nth_error slabs k = Some slab ->
  position_after slabs (S k) = position_after slabs k + slab_length slab.
Proof.
  unfold position_after. exact_ops. generalize 0. revert k.
  induction slabs as [|b l IH]; intros k a Hk.
  - destruct k; discriminate.
  - destruct k as [|k].
    + injection Hk as ->. reflexivity.
    + cbn [nth_error] in Hk. cbn [firstn fold_left]. now apply IH.
Qed.

Lemma position_after_all (slabs : list (Slab R)) :
  position_after slabs (length slabs) = total_length slabs.
Proof. unfold position_after, total_length. now rewrite firstn_all. Qed.

Lemma position_after_step (slabs : list (Slab R)) (k : nat) (slab : Slab R) :
  (forall sl, In sl slabs -> 0 <= slab_length sl) ->
  nth_error slabs k = Some slab ->
  position_after slabs k <= position_after slabs (S k).
Proof.
  intros Hl Hk. rewrite (position_after_succ _ _ _ Hk).
  apply nth_error_In in Hk. specialize (Hl _ Hk). lra.
Qed.

(** The shares of a cell that the slabs overlap add up to the whole
    cell. *)
Lemma initial_fractions_row (s : Solver R) (slabs : list (Slab R)) (i : nat) :
  (forall sl, In sl slabs -> 0 <= slab_length sl) ->
  0 < dx s -> dx s * of_nat (nx s) = total_length slabs -> (i < nx s)%nat ->
  let row := tabulate (length slabs) (initial_fraction s slabs i) in
  (forall a, In a row -> 0 <= a <= 1) /\ sum row = 1.
Proof.
  intros Hl Hd Hgrid Hi row.
  set (cl := IZR (Z.of_nat i) * dx s).
  set (cr := IZR (Z.of_nat (i + 1)) * dx s).
  assert (Hwidth : cr - cl = dx s).
  { unfold cr, cl. rewrite Nat2Z.inj_add, plus_IZR. simpl (IZR (Z.of_nat 1)). ring. }
  assert (Hcl : 0 <= cl).
  { unfold cl. apply Rmult_le_pos; [apply IZR_le; lia | lra]. }
  assert (Hcr : cr <= total_length slabs).
  { rewrite <- Hgrid. unfold cr. exact_ops. rewrite Rmult_comm.
    apply Rmult_le_compat_l; [lra | apply IZR_le; lia]. }
  assert (Hentry : forall k slab, nth_error slabs k = Some slab ->
            initial_fraction s slabs i k
            = Rmax 0 (Rmin cr (position_after slabs (S k))
                      - Rmax cl (position_after slabs k)) / dx s).
  { intros k slab Hk. unfold initial_fraction. rewrite Hk.
    rewrite (position_after_succ _ _ _ Hk). exact_ops. reflexivity. }
  split.
  - intros a Ha. unfold row, tabulate in Ha.
    apply in_map_iff in Ha as [k [<- Hk]]. apply in_seq in Hk.
    destruct (nth_error slabs k) as [slab|] eqn:Ek;
      [|apply nth_error_None in Ek; lia].
    rewrite (Hentry k slab Ek).
    pose proof (overlap_bounds cl cr (position_after slabs k)
                  (position_after slabs (S k)) ltac:(lra)) as [H0 H1].
    split.
    + apply Rmult_le_pos; [exact H0 | apply Rlt_le, Rinv_0_lt_compat, Hd].
    + apply (Rmult_le_reg_r (dx s)); [exact Hd|].
      unfold Rdiv. rewrite Rmult_assoc, Rinv_l by lra. lra.
  - assert (Erow : row = map (fun a => a / dx s)
                     (tabulate (length slabs)
                        (fun k => Rmin (Rmax (position_after slabs (S k)) cl) cr
                                  - Rmin (Rmax (position_after slabs k) cl) cr))).
    { unfold row, tabulate. rewrite map_map. apply map_ext_in.
      intros k Hk. apply in_seq in Hk.
      destruct (nth_error slabs k) as [slab|] eqn:Ek;
        [|apply nth_error_None in Ek; lia].
      rewrite (Hentry k slab Ek). f_equal.
      apply overlap_clipped; [lra|].
      now apply (position_after_step slabs k slab). }
    rewrite Erow, sum_scaled.
    rewrite (sum_differences (length slabs)
               (fun k => Rmin (Rmax (position_after slabs k) cl) cr)).
    rewrite position_after_all.
    assert (H0 : position_after slabs 0 = 0) by reflexivity.
    rewrite H0, (Rmax_right 0 cl), (Rmin_left cl cr) by lra.
    rewrite (Rmax_left (total_length slabs) cl), (Rmin_right _ cr) by lra.
    rewrite Hwidth. field. lra.
Qed.

End InitialFractions.

(** In exact arithmetic, under the mixed method and on slabs of positive
    length, [initialize] leaves a normalized material fraction table: one
    row per cell and one entry per slab, every entry between 0 and 1 and
    every row with sum 1. *)
Theorem initial_fractions_normalized (config : Config R) (slab : Slab R)
    (slabs : list (Slab R)) :
  config_interfaceMethod config = Some "mixed"%string ->
  (forall sl, In sl (slab :: slabs) -> (0 < slab_length sl)%R) ->
  exists s0 fractions,
    initialize (fst (EulerSolver config)) (slab :: slabs) = Ok s0
    /\ materialFractions s0 = Some fractions
    /\ numMaterials s0 = length (slab :: slabs)
    /\ length fractions = (nx s0 * numMaterials s0)%nat
    /\ forall i, (i < nx s0)%nat ->
         (forall a, In a (row_of (numMaterials s0) fractions i) -> (0 <= a <= 1)%R)
         /\ sum (row_of (numMaterials s0) fractions i) = 1%R.
Proof.
  intros Hmixed Hpos.
  assert (Hnonneg : forall sl, In sl (slab :: slabs) -> (0 <= slab_length sl)%R)
    by (intros sl Hsl; apply Rlt_le, Hpos, Hsl).
  pose proof (constructor_nx_positive config) as Hnx.
  assert (Hmethod : interfaceMethod (fst (EulerSolver config)) = "mixed"%string).
  { unfold EulerSolver. cbn [fst interfaceMethod]. rewrite Hmixed. reflexivity. }
  set (c := fst (EulerSolver config)) in *.
  assert (Hlen : (0 < total_length (slab :: slabs))%R).
  { unfold total_length. cbn [fold_left]. rewrite lengths_from.
    assert (0 < slab_length slab)%R by (apply Hpos; now left).
    assert (0 <= total_length slabs)%R
      by (apply lengths_nonneg; intros sl Hsl; apply Hnonneg; now right).
    unfold total_length in *. lra. }
  assert (Hn : (0 < IZR (Z.of_nat (nx c)))%R) by (apply IZR_lt; lia).
  unfold initialize.
  match goal with
  | |- context [assign_slabs ?l ?x ?p ?k] =>
      destruct (assign_slabs_ok l x p k) as [chosen [Hchosen _]];
      [simpl; lia | rewrite Hchosen]
  end.
  cbn [bind]. unfold initialize_mixed.
  cbn [interfaceMethod set_tracers set_regions set_U set_gasId set_mw set_gamma
       set_x set_dx].
  rewrite Hmethod. change (String.eqb "mixed" "mixed") with true. cbv iota.
  eexists. eexists. split; [reflexivity|].
  cbn [materialFractions numMaterials nx storeXTData updatePrimitives
       set_xtData set_rho set_u set_p set_T set_numMaterials
       set_materialFractions set_materialFlux set_materialProperties
       set_tracers set_regions set_U set_gasId set_mw set_gamma set_x set_dx].
  split; [reflexivity|]. split; [reflexivity|].
  split; [apply tabulate2_length|].
  intros i Hi. unfold tabulate2.
  rewrite <- (app_nil_r (flat_map _ _)).
  rewrite row_of_rows; [|intros j _; apply tabulate_length | exact Hi].
  match goal with
  | |- context [initial_fraction ?a _ _] =>
      apply (initial_fractions_row a (slab :: slabs) i Hnonneg)
  end.
  - cbn [dx set_tracers set_regions set_U set_gasId set_mw set_gamma set_x set_dx].
    exact_ops. apply Rdiv_lt_0_compat; [exact Hlen | exact Hn].
  - cbn [dx nx set_tracers set_regions set_U set_gasId set_mw set_gamma set_x set_dx].
    exact_ops. fold (total_length (slab :: slabs)). field. lra.
  - exact Hi.
Qed.

Lemma initial_fractions_normalized_witness :
  exists s0 fractions,
    initialize
      (fst (EulerSolver (mkConfig (Some 2%nat) None None (Some "mixed"%string)
                                  None None)))
      [ExactExamples.air; ExactExamples.air] = Ok s0
    /\ materialFractions s0 = Some fractions
    /\ sum (row_of (numMaterials s0) fractions 0) = 1%R.
Proof.
  destruct (initial_fractions_normalized
              (mkConfig (Some 2%nat) None None (Some "mixed"%string) None None)
              ExactExamples.air [ExactExamples.air])
    as [s0 [fractions [H0 [Hfr [_ [_ Hrows]]]]]].
  - reflexivity.
  - intros sl [<- | [<- | []]]; cbn; lra.
  - exists s0, fractions. split; [exact H0|]. split; [exact Hfr|].
    apply Hrows.
    assert (Hnx : nx s0 = 2%nat)
      by (destruct (initialize_grid _ _ _ H0) as [Hnx _]; exact Hnx).
    lia.
Defined.

(** ** The cells [initialize] fills *)

Section Cells.
Local Open Scope R_scope.

(** The [while] loop of [initialize] stops at the slab that contains the
    cell center. *)
Lemma advance_slab_finds (slabs : list (Slab R)) (c : R) (fuel j : nat) :
  (j < length slabs)%nat -> (length slabs - 1 - j <= fuel)%nat ->
  position_after slabs j <= c -> c < total_length slabs ->
  exists j',
    advance_slab fuel slabs c (position_after slabs j) j
    = (position_after slabs j', j')
    /\ (j' < length slabs)%nat
    /\ position_after slabs j' <= c < position_after slabs (S j').
Proof.
  revert j. induction fuel as [|fuel IH]; intros j Hj Hfuel Hlow Hhigh.
  - exists j. split; [reflexivity|]. split; [exact Hj|]. split; [exact Hlow|].
    replace (S j) with (length slabs) by lia. now rewrite position_after_all.
  - cbn [advance_slab].
    destruct (nth_error slabs j) as [slab|] eqn:Ej;
      [|apply nth_error_None in Ej; lia].
    pose proof (position_after_succ _ _ _ Ej) as Hnext.
    exact_ops. rewrite <- Hnext.
    destruct (Z.of_nat j <? Z.of_nat (length slabs) - 1)%Z eqn:Elast.
    + apply Z.ltb_lt in Elast.
      destruct (Exact.leb (position_after slabs (S j)) c) eqn:Ec; cbn [andb].
      * apply exact_leb_true in Ec. apply IH; [lia | lia | exact Ec | exact Hhigh].
      * apply exact_leb_false in Ec. exists j. repeat split; assumption.
    + apply Z.ltb_ge in Elast. cbn [andb]. exists j.
      split; [reflexivity|]. split; [exact Hj|]. split; [exact Hlow|].
      replace (S j) with (length slabs) by lia. now rewrite position_after_all.
Qed.

(** On ascending cell centers inside the tube, the cell loop gives every
    cell the slab that contains its center. *)
Lemma assign_slabs_finds (slabs : list (Slab R)) (f : nat -> R) :
  (forall i, f i <= f (S i)) ->
  forall (m a j : nat) (chosen : list (Slab R)),
    (j < length slabs)%nat -> position_after slabs j <= f a ->
    (forall i, (i < a + m)%nat -> f i < total_length slabs) ->
    assign_slabs slabs (map f (seq a m)) (position_after slabs j) j = Ok chosen ->
    forall i, (i < m)%nat ->
      exists j' slab,
        nth_error chosen i = Some slab /\ nth_error slabs j' = Some slab
        /\ position_after slabs j' <= f (a + i)%nat < position_after slabs (S j').
Proof.
  intros Hmono. induction m as [|m IH]; intros a j chosen Hj Hlow Hhigh Hassign i Hi;
    [lia|].
  cbn [seq map assign_slabs] in Hassign.
  destruct (advance_slab_finds slabs (f a) (length slabs) j Hj ltac:(lia) Hlow
              (Hhigh a ltac:(lia))) as [j' [Hadv [Hj' Hin]]].
  rewrite Hadv in Hassign.
  destruct (item_in_range slabs j'
              "Cannot read properties of undefined (reading 'gamma')" Hj')
    as [slab [Hitem Hslab]].
  rewrite Hitem in Hassign. cbn [bind] in Hassign.
  destruct (assign_slabs slabs (map f (seq (S a) m)) (position_after slabs j') j')
    as [more|e] eqn:Emore; [|discriminate].
  cbn [bind] in Hassign. injection Hassign as <-.
  destruct i as [|i].
  - exists j', slab. rewrite Nat.add_0_r. cbn [nth_error]. repeat split; tauto.
  - cbn [nth_error]. replace (a + S i)%nat with (S a + i)%nat by lia.
    apply (IH (S a) j' more Hj'); [|intros k Hk; apply Hhigh; lia | exact Emore | lia].
    apply Rle_trans with (f a); [tauto | apply Hmono].
Qed.

Lemma flat_map_rows_nth {A B : Type} (g : A -> list B) (w : nat) (l : list A)
    (i k : nat) (a : A) (d : B) :
  (forall b, length (g b) = w) -> nth_error l i = Some a -> (k < w)%nat ->
  nth (i * w + k) (flat_map g l) d = nth k (g a) d.
Proof.
  intros Hw. revert i. induction l as [|b l IH]; intros i Hi Hk.
  - destruct i; discriminate.
  - cbn [flat_map]. destruct i as [|i].
    + injection Hi as ->. cbn [Nat.mul Nat.add]. apply app_nth1. now rewrite Hw.
    + cbn [nth_error] in Hi.
      rewrite app_nth2 by (rewrite Hw; lia).
      rewrite Hw. replace (S i * w + k - w)%nat with (i * w + k)%nat by lia.
      now apply IH.
Qed.

(** The primitive fields of a cell filled from a slab of admissible gas
    data are the data of the slab. *)
Lemma initial_primitives (Ru_ : R) (slab : Slab R) :
  0 < Ru_ -> valid_slab slab ->
  let density := nth 0 (initial_state Ru_ slab) 0 in
  let v := nth 1 (initial_state Ru_ slab) 0 / density in
  let pr := (slab_gamma slab - 1)
            * (nth 2 (initial_state Ru_ slab) 0 - 1 / 2 * density * v * v) in
  density = slab_pressure slab * slab_mw slab / (Ru_ * slab_temperature slab)
  /\ v = 0 /\ pr = slab_pressure slab
  /\ pr / (density * (Ru_ / slab_mw slab)) = slab_temperature slab.
Proof.
  intros HR [Hg [Hm [Hp [HT _]]]]. unfold initial_state. cbn [nth]. exact_ops.
  cbv zeta.
  set (density := slab_pressure slab / (Ru_ / slab_mw slab * slab_temperature slab)).
  assert (Hd : density
               = slab_pressure slab * slab_mw slab / (Ru_ * slab_temperature slab))
    by (unfold density; field; lra).
  assert (Hpos : 0 < density).
  { rewrite Hd. apply Rdiv_lt_0_compat; apply Rmult_lt_0_compat; lra. }
  assert (Hv : density * 0 / density = 0) by (field; lra).
  rewrite Hv.
  assert (Hpr : (slab_gamma slab - 1)
                * (slab_pressure slab / (slab_gamma slab - 1)
                   + 1 / 2 * density * 0 * 0 - 1 / 2 * density * 0 * 0)
                = slab_pressure slab) by (field; lra).
  rewrite Hpr. split; [exact Hd|]. split; [reflexivity|]. split; [reflexivity|].
  rewrite Hd. field. lra.
Qed.

Lemma get_map_nth {A : Type} (g : A -> R) (l : list A) (i : nat) (a : A) :
  nth_error l i = Some a -> get (map g l) i = g a.
Proof.
  intros Hi. unfold get.
  rewrite (nth_indep _ NaN (g a))
    by (rewrite length_map; apply nth_error_Some; congruence).
  rewrite map_nth. f_equal. now apply nth_error_nth.
Qed.

Lemma storeXTData_keeps (a : Solver R) :
  (U (storeXTData a), gamma (storeXTData a), mw (storeXTData a),
   Ru (storeXTData a), nx (storeXTData a))
  = (U a, gamma a, mw a, Ru a, nx a)
  /\ (rho (storeXTData a), u (storeXTData a), p (storeXTData a),
      T (storeXTData a))
     = (rho a, u a, p a, T a).
Proof. split; reflexivity. Qed.

Lemma updatePrimitives_keeps (a : Solver R) :
  (U (updatePrimitives a), gamma (updatePrimitives a), mw (updatePrimitives a),
   Ru (updatePrimitives a), nx (updatePrimitives a))
  = (U a, gamma a, mw a, Ru a, nx a).
Proof. reflexivity. Qed.

(** Once [updatePrimitives] has run and the snapshot is stored, the
    primitive fields are those of the conservative state. *)
Lemma primitives_current (b : Solver R) :
  (rho (storeXTData (updatePrimitives b)), u (storeXTData (updatePrimitives b)),
   p (storeXTData (updatePrimitives b)), T (storeXTData (updatePrimitives b)))
  = (rho (updatePrimitives (storeXTData (updatePrimitives b))),
     u (updatePrimitives (storeXTData (updatePrimitives b))),
     p (updatePrimitives (storeXTData (updatePrimitives b))),
     T (updatePrimitives (storeXTData (updatePrimitives b)))).
Proof.
  destruct (storeXTData_keeps (updatePrimitives b)) as [Hsame Hprim].
  pose proof (updatePrimitives_keeps b) as Hkeep.
  assert (Hdep : (U (storeXTData (updatePrimitives b)),
                  gamma (storeXTData (updatePrimitives b)),
                  mw (storeXTData (updatePrimitives b)),
                  Ru (storeXTData (updatePrimitives b)),
                  nx (storeXTData (updatePrimitives b)))
                 = (U b, gamma b, mw b, Ru b, nx b)) by congruence.
  apply updatePrimitives_depends in Hdep.
  generalize dependent (storeXTData (updatePrimitives b)). intros s0 _ Hprim Hdep.
  congruence.
Qed.

(** What [initialize] leaves in the cells, in terms of the slabs its cell
    loop chose. *)
Lemma initialize_cells (s s0 : Solver R) (slabs : list (Slab R)) :
  initialize s slabs = Ok s0 ->
  exists chosen,
    assign_slabs slabs
      (tabulate (nx s)
         (fun i => (of_nat i + lit 1 2) * (total_length slabs / of_nat (nx s))))
      (of_Z 0) 0 = Ok chosen
    /\ gamma s0 = map (@slab_gamma R) chosen
    /\ mw s0 = map (@slab_mw R) chosen
    /\ gasId s0 = map (@slab_gasId R) chosen
    /\ U s0 = flat_map (initial_state (Ru s)) chosen
    /\ Ru s0 = Ru s
    /\ (rho s0, u s0, p s0, T s0)
       = (rho (updatePrimitives s0), u (updatePrimitives s0),
          p (updatePrimitives s0), T (updatePrimitives s0)).
Proof.
  unfold initialize.
  match goal with
  | |- context [assign_slabs ?l ?c ?p ?k] =>
      destruct (assign_slabs l c p k) as [chosen|e] eqn:E; [|discriminate]
  end.
  cbn [bind]. intros E0. injection E0 as <-. exists chosen.
  split; [exact E|].
  unfold initialize_mixed.
  destruct (String.eqb _ _).
  - do 5 (split; [reflexivity|]).
    match goal with
    | |- context [storeXTData (updatePrimitives ?a)] => generalize a
    end.
    intros b. exact (primitives_current b).
  - do 5 (split; [reflexivity|]).
    match goal with
    | |- context [storeXTData (updatePrimitives ?a)] => generalize a
    end.
    intros b. exact (primitives_current b).
Qed.

(** [updatePrimitives] on a cell filled from a slab. *)
Lemma filled_cell_primitives (a : Solver R) (chosen : list (Slab R)) (i : nat)
    (slab : Slab R) :
  U a = flat_map (initial_state (Ru a)) chosen ->
  gamma a = map (@slab_gamma R) chosen -> mw a = map (@slab_mw R) chosen ->
  nth_error chosen i = Some slab -> 0 < Ru a -> valid_slab slab ->
  primitives_of_cell a i
  = (slab_pressure slab * slab_mw slab / (Ru a * slab_temperature slab), 0,
     slab_pressure slab, slab_temperature slab).
Proof.
  intros HU Hg Hm Hi HR Hv. unfold primitives_of_cell.
  assert (Hrow : forall k, (k < 3)%nat ->
            get (U a) (i * 3 + k) = nth k (initial_state (Ru a) slab) 0).
  { intros k Hk. rewrite HU. unfold get. exact_ops.
    apply (flat_map_rows_nth _ 3 chosen i k slab); [reflexivity | exact Hi | exact Hk]. }
  pose proof (Hrow 0%nat ltac:(lia)) as Hrow0. rewrite Nat.add_0_r in Hrow0.
  rewrite Hrow0, !Hrow by lia.
  rewrite Hg, Hm, (get_map_nth _ _ _ _ Hi), (get_map_nth _ _ _ _ Hi).
  destruct (initial_primitives (Ru a) slab HR Hv) as [Hd [Hvel [Hp HT]]].
  cbv zeta in Hd, Hvel, Hp, HT. exact_ops.
  cbv zeta. rewrite HT, Hp, Hvel, Hd. reflexivity.
Qed.

End Cells.

(** In exact arithmetic, on slabs of admissible gas data, [initialize] gives
    every cell the gas and the state of the slab that contains its center:
    its gas properties are those of the slab, its pressure and temperature
    the ones given for the slab, its velocity 0 and its density
    [p mw / (Ru T)]. *)
Theorem initialize_fills_cells (config : Config R) (slab : Slab R)
    (slabs : list (Slab R)) :
  (forall sl, In sl (slab :: slabs) -> valid_slab sl) ->
  exists s0,
    initialize (fst (EulerSolver config)) (slab :: slabs) = Ok s0
    /\ forall i, (i < nx s0)%nat ->
       exists j sl,
         nth_error (slab :: slabs) j = Some sl
         /\ (position_after (slab :: slabs) j <= get (x s0) i
             < position_after (slab :: slabs) (S j))%R
         /\ get (gamma s0) i = slab_gamma sl
         /\ get (mw s0) i = slab_mw sl
         /\ nth_error (gasId s0) i = Some (slab_gasId sl)
         /\ get (rho s0) i
            = (slab_pressure sl * slab_mw sl / (Ru s0 * slab_temperature sl))%R
         /\ get (u s0) i = 0%R
         /\ get (p s0) i = slab_pressure sl
         /\ get (T s0) i = slab_temperature sl.
Proof.
  intros Hvalid.
  assert (Hpos : forall sl, In sl (slab :: slabs) -> (0 < slab_length sl)%R)
    by (intros sl Hsl; apply (Hvalid sl Hsl)).
  assert (Hnonneg : forall sl, In sl (slab :: slabs) -> (0 <= slab_length sl)%R)
    by (intros sl Hsl; apply Rlt_le, Hpos, Hsl).
  pose proof (constructor_nx_positive config) as Hnx.
  assert (HRu : (0 < Ru (fst (EulerSolver config)))%R).
  { unfold EulerSolver. cbn [fst Ru]. exact_ops. lra. }
  destruct (initialize_nonempty (fst (EulerSolver config)) slab slabs) as [s0 H0].
  exists s0. split; [exact H0|].
  destruct (initialize_cells _ _ _ H0)
    as [chosen [Hassign [Hga [Hma [Hia [HUa [HRa Hprim]]]]]]].
  destruct (initialize_grid _ _ _ H0) as [Hnx0 [Hdx Hx]].
  rewrite <- HRa in HRu, HUa. rewrite <- Hdx in Hassign.
  rewrite <- Hnx0 in Hnx, Hassign, Hx.
  generalize dependent (fst (EulerSolver config)). intros c _ _ Hnx0 Hdx.
  rewrite <- Hnx0 in Hdx. clear c Hnx0.
  assert (Hlen : (0 < total_length (slab :: slabs))%R).
  { unfold total_length. cbn [fold_left]. rewrite lengths_from.
    assert (0 < slab_length slab)%R by (apply Hpos; now left).
    assert (0 <= total_length slabs)%R
      by (apply lengths_nonneg; intros sl Hsl; apply Hnonneg; now right).
    unfold total_length in *. lra. }
  assert (Hn : (0 < IZR (Z.of_nat (nx s0)))%R) by (apply IZR_lt; lia).
  assert (Hd : (0 < dx s0)%R).
  { rewrite Hdx. exact_ops. apply Rdiv_lt_0_compat; assumption. }
  assert (Hgrid : (IZR (Z.of_nat (nx s0)) * dx s0 = total_length (slab :: slabs))%R).
  { rewrite Hdx. exact_ops. field. lra. }
  set (f := fun i : nat => ((IZR (Z.of_nat i) + 1 / 2) * dx s0)%R).
  assert (Hxf : x s0 = map f (seq 0 (nx s0))) by (rewrite Hx at 1; reflexivity).
  rewrite <- Hx, Hxf in Hassign.
  intros i Hi.
  destruct (assign_slabs_finds (slab :: slabs) f) with
    (m := nx s0) (a := 0%nat) (j := 0%nat) (chosen := chosen) (i := i)
    as [j [sl [Hsl [Hj Hin]]]].
  - intros k. unfold f. rewrite Nat2Z.inj_succ, succ_IZR.
    apply Rmult_le_compat_r; lra.
  - simpl. lia.
  - unfold f. change (position_after (slab :: slabs) 0) with 0%R.
    apply Rmult_le_pos; [|lra].
    assert (0 <= IZR (Z.of_nat 0))%R by (apply IZR_le; lia). lra.
  - intros k Hk. unfold f. rewrite <- Hgrid.
    apply Rmult_lt_compat_r; [exact Hd|].
    assert (IZR (Z.of_nat k) + 1 <= IZR (Z.of_nat (nx s0)))%R.
    { rewrite <- plus_IZR. apply IZR_le. lia. }
    lra.
  - exact Hassign.
  - exact Hi.
  - exists j, sl. split; [exact Hj|].
    assert (Hvs : valid_slab sl) by (apply Hvalid; eapply nth_error_In; exact Hj).
    pose proof (filled_cell_primitives s0 chosen i sl HUa Hga Hma Hsl HRu Hvs)
      as Hcell.
    split.
    { rewrite Hxf. unfold get. rewrite (nth_indep _ _ (f 0%nat))
        by (rewrite length_map, length_seq; exact Hi).
      rewrite map_nth, seq_nth by exact Hi. exact Hin. }
    split; [rewrite Hga; now apply get_map_nth|].
    split; [rewrite Hma; now apply get_map_nth|].
    split; [rewrite Hia, nth_error_map, Hsl; reflexivity|].
    assert (Hrho : rho s0 = rho (updatePrimitives s0)) by congruence.
    assert (Hu : u s0 = u (updatePrimitives s0)) by congruence.
    assert (Hp : p s0 = p (updatePrimitives s0)) by congruence.
    assert (HT : T s0 = T (updatePrimitives s0)) by congruence.
    rewrite Hrho, Hu, Hp, HT. clear Hrho Hu Hp HT Hprim.
    unfold updatePrimitives. cbn [rho u p T set_rho set_u set_p set_T].
    unfold tabulate. rewrite !map_map.
    assert (Hget : forall g : R * R * R * R -> R,
              get (map (fun k => g (primitives_of_cell s0 k)) (seq 0 (nx s0))) i
              = g (primitives_of_cell s0 i)).
    { intros g. unfold get.
      rewrite (nth_indep _ _ (g (primitives_of_cell s0 0%nat)))
        by (rewrite length_map, length_seq; exact Hi).
      rewrite (map_nth (fun k => g (primitives_of_cell s0 k))).
      rewrite seq_nth by exact Hi. reflexivity. }
    rewrite (Hget (fun cell => fst (fst (fst cell)))).
    rewrite (Hget (fun cell => snd (fst (fst cell)))).
    rewrite (Hget (fun cell => snd (fst cell))).
    rewrite (Hget (fun cell => snd cell)).
    rewrite Hcell. cbn [fst snd]. repeat split; reflexivity.
Qed.

Lemma initialize_fills_cells_witness :
  exists s0,
    initialize (fst (EulerSolver (ExactExamples.config_of "RK2")))
               [ExactExamples.air; ExactExamples.air] = Ok s0
    /\ exists j sl,
         nth_error [ExactExamples.air; ExactExamples.air] j = Some sl
         /\ get (p s0) 0 = slab_pressure sl.
Proof.
  destruct (initialize_fills_cells (ExactExamples.config_of "RK2")
              ExactExamples.air [ExactExamples.air]) as [s0 [H0 Hcells]].
  - intros sl [<- | [<- | []]]; unfold valid_slab; cbn; repeat split; lra.
  - exists s0. split; [exact H0|].
    assert (Hnx : (0 < nx s0)%nat).
    { destruct (initialize_grid _ _ _ H0) as [Hnx _]. rewrite Hnx.
      apply constructor_nx_positive. }
    destruct (Hcells 0%nat Hnx) as [j [sl [Hj [_ [_ [_ [_ [_ [_ [Hp _]]]]]]]]]].
    exists j, sl. split; [exact Hj | exact Hp].
Defined.

(** ** The mixture of a cell *)

Section Mixture.
Local Open Scope R_scope.

Lemma foldM_app {A B : Type} (f : A -> B -> outcome A) (l1 l2 : list B) (a : A) :
  foldM f (l1 ++ l2) a = (a' <- foldM f l1 a ;; foldM f l2 a').
Proof.
  revert a. induction l1 as [|b l1 IH]; intros a; cbn [app foldM bind];
    [reflexivity|].
  destruct (f a b) as [a'|e]; cbn [bind]; [apply IH | reflexivity].
Qed.

(** A mean with non-negative weights lies where the values of positive
    weight lie. *)
Lemma weighted_sum_bounds (n : nat) (w v : nat -> R) (lo hi : R) :
  (forall m, (m < n)%nat -> 0 <= w m) ->
  (forall m, (m < n)%nat -> 0 < w m -> lo <= v m <= hi) ->
  lo * sum (tabulate n w) <= sum (tabulate n (fun m => w m * v m))
  <= hi * sum (tabulate n w).
Proof.
  induction n as [|n IH]; intros Hw Hv.
  - unfold tabulate. simpl. rewrite sum_nil. lra.
  - rewrite !sum_tabulate_succ.
    destruct IH as [IHlo IHhi];
      [intros m Hm; apply Hw; lia | intros m Hm; apply Hv; lia |].
    pose proof (Hw n ltac:(lia)) as Hwn.
    destruct (Rle_lt_or_eq_dec 0 (w n) Hwn) as [Hpos | Hzero].
    + destruct (Hv n ltac:(lia) Hpos) as [Hlo Hhi]. split; nra.
    + rewrite <- Hzero. lra.
Qed.

(** The accumulators of the loop of [computeMixtureProperties] after the
    first [k] materials. *)
Lemma mixture_loop (s : Solver R) (fractions : list R) (i k : nat)
    (alpha : nat -> R) :
  materialFractions s = Some fractions ->
  (k <= length (materialProperties s))%nat ->
  (forall m, get fractions (i * numMaterials s + m) = alpha m) ->
  let value (g : Region R -> R) m :=
    match nth_error (materialProperties s) m with
    | Some props => g props
    | None => 0
    end in
  exists acc,
    foldM (mixture_step s i) (seq 0 k) (mkMixAcc 0 0 0 0%nat 0) = Ok acc
    /\ gamma_mix_inv acc
       = sum (tabulate k (fun m => alpha m
                                   * value (fun props => / (region_gamma props - 1)) m))
    /\ mw_mix acc = sum (tabulate k (fun m => alpha m * value (@region_mw R) m))
    /\ totalFraction acc = sum (tabulate k alpha)
    /\ (forall m, (m < k)%nat -> alpha m <= maxFraction acc)
    /\ 0 <= maxFraction acc
    /\ ((maxFraction acc = 0 /\ dominantMaterial acc = 0%nat)
        \/ ((dominantMaterial acc < k)%nat
            /\ maxFraction acc = alpha (dominantMaterial acc))).
Proof.
  intros Hfr Hk Halpha value. induction k as [|k IH].
  - eexists. split; [reflexivity|]. cbn [gamma_mix_inv mw_mix totalFraction
                                         maxFraction dominantMaterial].
    unfold tabulate. simpl. rewrite !sum_nil.
    repeat split; try reflexivity; try lra; [intros m Hm; lia | left; split; reflexivity].
  - destruct IH as [acc [Hloop [Hg [Hm [Ht [Hmax [Hnonneg Hdom]]]]]]]; [lia|].
    rewrite seq_S, foldM_app, Hloop. cbn [bind foldM Nat.add].
    unfold mixture_step, fraction_at. rewrite Hfr. cbn [bind].
    destruct (item_in_range (materialProperties s) k
                "Cannot read properties of undefined (reading 'gamma')" ltac:(lia))
      as [props [Hitem Hprops]].
    rewrite Hitem. cbn [bind]. rewrite Halpha. exact_ops.
    eexists. split; [reflexivity|].
    cbn [gamma_mix_inv mw_mix totalFraction maxFraction dominantMaterial].
    rewrite !sum_tabulate_succ, <- Hg, <- Hm, <- Ht.
    assert (Hvg : value (fun props => / (region_gamma props - 1)) k
                  = / (region_gamma props - 1)) by (unfold value; now rewrite Hprops).
    assert (Hvm : value (@region_mw R) k = region_mw props)
      by (unfold value; now rewrite Hprops).
    rewrite Hvg, Hvm.
    split; [unfold Rdiv; reflexivity|]. split; [reflexivity|]. split; [reflexivity|].
    destruct (Exact.ltb (maxFraction acc) (alpha k)) eqn:E; cbn [fst snd].
    + apply exact_ltb_true in E.
      split; [|split; [lra | right; split; [lia | reflexivity]]].
      intros m Hm'. destruct (Nat.eq_dec m k) as [-> | Hne]; [lra|].
      specialize (Hmax m ltac:(lia)). lra.
    + apply exact_ltb_false in E.
      split; [|split; [exact Hnonneg|]].
      * intros m Hm'. destruct (Nat.eq_dec m k) as [-> | Hne]; [exact E|].
        apply Hmax. lia.
      * destruct Hdom as [Hzero | [Hlt Heq]]; [left; exact Hzero|].
        right. split; [lia | exact Heq].
Qed.

Lemma positive_sum_term (n : nat) (w : nat -> R) :
  0 < sum (tabulate n w) -> exists m, (m < n)%nat /\ 0 < w m.
Proof.
  induction n as [|n IH]; intros Hlt.
  - unfold tabulate in Hlt. simpl in Hlt. rewrite sum_nil in Hlt. lra.
  - rewrite sum_tabulate_succ in Hlt.
    destruct (Rlt_le_dec 0 (w n)) as [Hn | Hn]; [exists n; split; [lia | exact Hn]|].
    destruct IH as [m [Hm Ha]]; [lra|]. exists m. split; [lia | exact Ha].
Qed.

(** The reciprocal of a mean of reciprocals lies where the values lie. *)
Lemma harmonic_bounds (G S lo hi : R) :
  0 < S -> 1 < lo -> lo <= hi ->
  / (hi - 1) * S <= G <= / (lo - 1) * S ->
  lo <= 1 + 1 / (G / S) <= hi.
Proof.
  intros HS Hlo Hhi [HG1 HG2].
  assert (Hilo : 0 < / (lo - 1)) by (apply Rinv_0_lt_compat; lra).
  assert (Hihi : 0 < / (hi - 1)) by (apply Rinv_0_lt_compat; lra).
  assert (HG : 0 < G) by nra.
  assert (Hq : 1 / (G / S) = S / G) by (field; lra).
  rewrite Hq.
  assert (H1 : (lo - 1) * G <= S).
  { apply (Rmult_le_compat_l (lo - 1)) in HG2; [|lra].
    rewrite <- Rmult_assoc, Rinv_r in HG2 by lra. lra. }
  assert (H2 : S <= (hi - 1) * G).
  { apply (Rmult_le_compat_l (hi - 1)) in HG1; [|lra].
    rewrite <- Rmult_assoc, Rinv_r in HG1 by lra. lra. }
  assert (H3 : lo - 1 <= S / G).
  { apply (Rmult_le_reg_r G); [exact HG|].
    unfold Rdiv. rewrite Rmult_assoc, Rinv_l by lra. lra. }
  assert (H4 : S / G <= hi - 1).
  { apply (Rmult_le_reg_r G); [exact HG|].
    unfold Rdiv. rewrite Rmult_assoc, Rinv_l by lra. lra. }
  lra.
Qed.

End Mixture.

(** In exact arithmetic, the mixture [computeMixtureProperties] gives a cell
    whose material fractions are non-negative and add up to more than the
    threshold 1e-10 is a mean of the materials present in the cell (those of
    positive fraction): its gamma and its molecular weight lie wherever
    theirs lie, and its gas id is that of a material whose fraction is the
    largest.  In a cell that holds one material only, the mixture is that
    material. *)
Theorem mixture_is_a_mean (s : Solver R) (fractions : list R) (i : nat) :
  let alpha m := get fractions (i * numMaterials s + m) in
  materialFractions s = Some fractions ->
  numMaterials s = length (materialProperties s) ->
  (forall props, In props (materialProperties s) -> (1 < region_gamma props)%R) ->
  (forall m, (m < numMaterials s)%nat -> (0 <= alpha m)%R) ->
  (1 / 10000000000 < sum (tabulate (numMaterials s) alpha))%R ->
  exists mix,
    computeMixtureProperties s i = Ok mix
    /\ (forall lo hi : R,
          (1 < lo)%R ->
          (forall m props, nth_error (materialProperties s) m = Some props ->
             (0 < alpha m)%R -> (lo <= region_gamma props <= hi)%R) ->
          (lo <= region_gamma mix <= hi)%R)
    /\ (forall lo hi : R,
          (forall m props, nth_error (materialProperties s) m = Some props ->
             (0 < alpha m)%R -> (lo <= region_mw props <= hi)%R) ->
          (lo <= region_mw mix <= hi)%R)
    /\ exists k props,
         nth_error (materialProperties s) k = Some props
         /\ region_gasId mix = region_gasId props
         /\ forall m, (m < numMaterials s)%nat -> (alpha m <= alpha k)%R.
Proof.
  intros alpha Hfr Hnum Hgam Hnonneg Htotal.
  destruct (mixture_loop s fractions i (numMaterials s) alpha Hfr ltac:(lia)
              ltac:(reflexivity))
    as [acc [Hloop [Hg [Hm [Ht [Hmax [Hmax0 Hdom]]]]]]].
  cbv zeta in Hg, Hm. clearbody alpha.
  unfold computeMixtureProperties. exact_ops. rewrite Hloop. cbn [bind].
  rewrite (proj2 (exact_ltb_true (1 / 10000000000) (totalFraction acc)))
    by (rewrite Ht; exact Htotal).
  cbn [bind gamma_mix_inv mw_mix totalFraction dominantMaterial maxFraction].
  assert (HS : (0 < totalFraction acc)%R) by (rewrite Ht; lra).
  assert (Hpresent : exists m, (m < numMaterials s)%nat /\ (0 < alpha m)%R)
    by (apply positive_sum_term; lra).
  destruct Hpresent as [m0 [Hm0 Ha0]].
  assert (Hdominant : (dominantMaterial acc < numMaterials s)%nat
                      /\ maxFraction acc = alpha (dominantMaterial acc)).
  { destruct Hdom as [[Hzero _] | Hd]; [|exact Hd].
    specialize (Hmax m0 Hm0). lra. }
  destruct Hdominant as [Hdlt Hdeq].
  destruct (item_in_range (materialProperties s) (dominantMaterial acc)
              "Cannot read properties of undefined (reading 'gasId')" ltac:(lia))
    as [dominant [Hitem Hdominant]].
  rewrite Hitem. cbn [bind]. eexists. split; [reflexivity|].
  cbn [region_gamma region_mw region_gasId].
  assert (Hvalue : forall (g : Region R -> R) m props,
            nth_error (materialProperties s) m = Some props ->
            match nth_error (materialProperties s) m with
            | Some props => g props
            | None => 0%R
            end = g props) by (intros g m props ->; reflexivity).
  split; [|split].
  - intros lo hi Hlo Hin.
    assert (Hlohi : (lo <= hi)%R).
    { destruct (nth_error (materialProperties s) m0) as [props|] eqn:E;
        [|apply nth_error_None in E; lia].
      specialize (Hin m0 props E Ha0). lra. }
    apply harmonic_bounds; [exact HS | exact Hlo | exact Hlohi|].
    rewrite Hg, Ht. apply weighted_sum_bounds; [exact Hnonneg|].
    intros m Hm' Hpos.
    destruct (nth_error (materialProperties s) m) as [props|] eqn:E;
      [|apply nth_error_None in E; lia].
    destruct (Hin m props E Hpos) as [H1 H2].
    split; apply Rinv_le_contravar; lra.
  - intros lo hi Hin. rewrite Hm, Ht.
    pose proof (weighted_sum_bounds (numMaterials s) alpha
                  (fun m => match nth_error (materialProperties s) m with
                            | Some props => region_mw props
                            | None => 0%R
                            end) lo hi Hnonneg) as [H1 H2].
    { intros m Hm' Hpos.
      destruct (nth_error (materialProperties s) m) as [props|] eqn:E;
        [|apply nth_error_None in E; lia].
      exact (Hin m props E Hpos). }
    rewrite <- Ht in *. split.
    + apply (Rmult_le_reg_r (totalFraction acc)); [exact HS|].
      unfold Rdiv. rewrite Rmult_assoc, Rinv_l by lra. lra.
    + apply (Rmult_le_reg_r (totalFraction acc)); [exact HS|].
      unfold Rdiv. rewrite Rmult_assoc, Rinv_l by lra. lra.
  - exists (dominantMaterial acc), dominant.
    split; [exact Hdominant|]. split; [reflexivity|].
    intros m Hm'. rewrite <- Hdeq. now apply Hmax.
Qed.

Lemma mixture_is_a_mean_witness :
  exists mix,
    computeMixtureProperties
      (set_materialProperties
         [mkRegion (14 / 10)%R 29%R (Some "Air"%string);
          mkRegion (5 / 3)%R 4%R (Some "Helium"%string)]
         ExactExamples.two_materials) 1 = Ok mix
    /\ (5 / 3 <= region_gamma mix <= 5 / 3)%R.
Proof.
  destruct (mixture_is_a_mean
              (set_materialProperties
                 [mkRegion (14 / 10)%R 29%R (Some "Air"%string);
                  mkRegion (5 / 3)%R 4%R (Some "Helium"%string)]
                 ExactExamples.two_materials) [1; 0; 0; 1]%R 1)
    as [mix [Hmix [Hgamma _]]].
  - reflexivity.
  - reflexivity.
  - intros props [<- | [<- | []]]; cbn; lra.
  - intros [|[|m]] Hm; cbn in Hm |- *; try lra; lia.
  - cbn. unfold sum, tabulate. cbn. lra.
  - exists mix. split; [exact Hmix|].
    apply Hgamma; [lra|].
    intros [|[|m]] props Hprops Hpos; cbn in Hprops, Hpos.
    + lra.
    + injection Hprops as <-. cbn. lra.
    + destruct m; discriminate.
Defined.

(** ** The x-t diagram *)

Section Downsample.
Local Open Scope R_scope.

Lemma mapM_all {A B : Type} (f : A -> outcome B) (P : B -> Prop) (l : list A) :
  (forall a, In a l -> exists b, f a = Ok b /\ P b) ->
  exists bs, mapM f l = Ok bs /\ length bs = length l /\ forall b, In b bs -> P b.
Proof.
  induction l as [|a l IH]; intros Hf.
  - exists []. split; [reflexivity|]. split; [reflexivity|]. intros b [].
  - destruct (Hf a (or_introl eq_refl)) as [b [Eb Pb]].
    destruct IH as [bs [Ebs [Hlen Hall]]]; [intros; apply Hf; now right|].
    exists (b :: bs). cbn [mapM]. rewrite Eb. cbn [bind]. rewrite Ebs. cbn [bind].
    split; [reflexivity|]. split; [simpl; lia|].
    intros b' [<-|Hb']; auto.
Qed.

(** A whole number names a slot. *)
Lemma to_index_whole (z : Z) :
  (0 <= z)%Z -> Exact.to_index (IZR z) = Some (Z.to_nat z).
Proof.
  intros Hz. unfold Exact.to_index. rewrite ZfloorZ.
  destruct (Req_dec_T (IZR z) (IZR z)) as [_|Hne]; [|now elim Hne].
  destruct (0 <=? z)%Z eqn:E; [reflexivity|]. apply Z.leb_gt in E. lia.
Qed.

Lemma count_up_seq (start fuel b : nat) :
  (b <= start + fuel)%nat ->
  count_up start (IZR (Z.of_nat b)) fuel = seq start (b - start).
Proof.
  revert start. induction fuel as [|fuel IH]; intros start Hb.
  - replace (b - start)%nat with 0%nat by lia. reflexivity.
  - cbn [count_up]. exact_ops.
    destruct (Exact.ltb (IZR (Z.of_nat start)) (IZR (Z.of_nat b))) eqn:E.
    + apply exact_ltb_true in E. apply lt_IZR in E.
      rewrite IH by lia.
      replace (b - start)%nat with (S (b - S start)) by lia. reflexivity.
    + apply exact_ltb_false in E. apply le_IZR in E.
      replace (b - start)%nat with 0%nat by lia. reflexivity.
Qed.

(** The source indices of a target index: a block of at least one index,
    inside the array. *)
Lemma range_block (x y : R) (n : nat) :
  0 <= x -> x + 1 <= y -> x < IZR (Z.of_nat n) ->
  exists a len,
    range (IZR (Zfloor x)) (Rmin (IZR (Zfloor y)) (IZR (Z.of_nat n))) n = seq a len
    /\ (1 <= len)%nat /\ (a + len <= n)%nat
    /\ Rmin (IZR (Zfloor y)) (IZR (Z.of_nat n)) - IZR (Zfloor x) = IZR (Z.of_nat len).
Proof.
  intros Hx Hxy Hn.
  pose proof (Zfloor_bound x) as Bx.
  assert (H0 : (0 <= Zfloor x)%Z) by (apply Zfloor_lub; lra).
  assert (H1 : (Zfloor x + 1 <= Zfloor y)%Z).
  { apply Zfloor_lub. rewrite plus_IZR. lra. }
  assert (H2 : (Zfloor x < Z.of_nat n)%Z) by (apply lt_IZR; lra).
  assert (Hmin : Rmin (IZR (Zfloor y)) (IZR (Z.of_nat n))
                 = IZR (Z.min (Zfloor y) (Z.of_nat n))).
  { destruct (Z.le_ge_cases (Zfloor y) (Z.of_nat n)) as [L|L].
    - rewrite Z.min_l by exact L. apply Rmin_left. now apply IZR_le.
    - rewrite Z.min_r by exact L. apply Rmin_right. now apply IZR_le. }
  set (a := Z.to_nat (Zfloor x)).
  set (b := Z.to_nat (Z.min (Zfloor y) (Z.of_nat n))).
  assert (Hb : Z.min (Zfloor y) (Z.of_nat n) = Z.of_nat b) by (unfold b; lia).
  exists a, (b - a)%nat.
  rewrite Hmin, Hb.
  unfold range. exact_ops.
  rewrite (to_index_whole _ H0). fold a.
  rewrite count_up_seq by (unfold a, b; lia).
  split; [reflexivity|]. split; [unfold a, b; lia|]. split; [unfold a, b; lia|].
  rewrite <- minus_IZR. f_equal. unfold a, b. lia.
Qed.

(** The blocks of a target index [i] of [m] among [n >= m] source indices. *)
Lemma target_block (i m n : nat) :
  (i < m)%nat -> (m <= n)%nat ->
  let f := IZR (Z.of_nat n) / IZR (Z.of_nat m) in
  0 <= IZR (Z.of_nat i) * f
  /\ IZR (Z.of_nat i) * f + 1 <= IZR (Z.of_nat (i + 1)) * f
  /\ IZR (Z.of_nat i) * f < IZR (Z.of_nat n).
Proof.
  intros Hi Hm f.
  assert (Hi0 : 0 <= IZR (Z.of_nat i)) by (apply IZR_le; lia).
  assert (Hm0 : 0 < IZR (Z.of_nat m)) by (apply IZR_lt; lia).
  assert (Hi1 : IZR (Z.of_nat i) + 1 <= IZR (Z.of_nat m)).
  { rewrite <- plus_IZR. apply IZR_le. lia. }
  assert (Hmn : IZR (Z.of_nat m) <= IZR (Z.of_nat n)) by (apply IZR_le; lia).
  assert (Hf : f * IZR (Z.of_nat m) = IZR (Z.of_nat n)).
  { unfold f. field. lra. }
  assert (Hf1 : 1 <= f).
  { apply (Rmult_le_reg_r (IZR (Z.of_nat m))); [exact Hm0|]. lra. }
  rewrite Nat2Z.inj_add, plus_IZR. change (IZR (Z.of_nat 1)) with 1.
  clearbody f. split; [nra|]. split; nra.
Qed.

Lemma sum_times_bounds (data : list (Frame R)) (a len : nat) :
  (a + len <= length data)%nat ->
  exists total,
    sum_times data (seq a len) = Ok total
    /\ forall lo hi, (forall fr, In fr data -> lo <= frame_t fr <= hi) ->
       IZR (Z.of_nat len) * lo <= total <= IZR (Z.of_nat len) * hi.
Proof.
  unfold sum_times. induction len as [|len IH]; intros Hlen.
  - exists 0. split; [reflexivity|]. intros lo hi _. simpl. lra.
  - destruct IH as [total [Et Ht]]; [lia|].
    destruct (item_in_range data (a + len)
                "Cannot read properties of undefined (reading 't')") as [fr [Ef Hf]];
      [lia|].
    exists (total + frame_t fr).
    rewrite seq_S, foldM_app, Et. cbn [bind foldM]. rewrite Ef. cbn [bind].
    split; [reflexivity|]. intros lo hi Hb.
    specialize (Ht lo hi Hb). specialize (Hb fr (nth_error_In _ _ Hf)).
    rewrite Nat2Z.inj_succ, succ_IZR. lra.
Qed.

Lemma sum_row_bounds (p : list R) (c len : nat) (acc lo hi : R) :
  (c + len <= length p)%nat ->
  (forall v, In v p -> lo <= v <= hi) ->
  acc + IZR (Z.of_nat len) * lo
  <= fold_left (fun a i => (a + get p i)%js) (seq c len) acc
  <= acc + IZR (Z.of_nat len) * hi.
Proof.
  revert c acc. induction len as [|len IH]; intros c acc Hlen Hb.
  - simpl. lra.
  - cbn [seq fold_left].
    specialize (IH (S c) (acc + get p c)%js ltac:(lia) Hb).
    assert (Hc : lo <= get p c <= hi) by (apply Hb, nth_In; lia).
    rewrite Nat2Z.inj_succ, succ_IZR. exact_ops. lra.
Qed.

Lemma sum_block_bounds (data : list (Frame R)) (nx a len c lenc : nat) :
  (a + len <= length data)%nat ->
  (forall fr, In fr data -> length (frame_p fr) = nx) ->
  (c + lenc <= nx)%nat ->
  exists total,
    sum_block data (seq a len) (seq c lenc) = Ok total
    /\ forall lo hi,
       (forall fr v, In fr data -> In v (frame_p fr) -> lo <= v <= hi) ->
       IZR (Z.of_nat (len * lenc)) * lo <= total <= IZR (Z.of_nat (len * lenc)) * hi.
Proof.
  unfold sum_block. intros Hlen Hrect Hc. induction len as [|len IH].
  - exists 0. split; [reflexivity|]. intros lo hi _. simpl. lra.
  - destruct IH as [total [Et Ht]]; [lia|].
    destruct (item_in_range data (a + len)
                "Cannot read properties of undefined (reading 'p')") as [fr [Ef Hf]];
      [lia|].
    apply nth_error_In in Hf.
    exists (fold_left (fun a i => (a + get (frame_p fr) i)%js) (seq c lenc) total).
    rewrite seq_S, foldM_app, Et. cbn [bind foldM]. rewrite Ef. cbn [bind].
    split; [reflexivity|]. intros lo hi Hb.
    specialize (Ht lo hi Hb).
    pose proof (sum_row_bounds (frame_p fr) c lenc total lo hi
                  ltac:(rewrite (Hrect fr Hf); exact Hc)
                  (fun v Hv => Hb fr v Hf Hv)) as Hrow.
    replace (S len * lenc)%nat with (len * lenc + lenc)%nat by lia.
    rewrite Nat2Z.inj_add, plus_IZR. lra.
Qed.

(** A mean of values between two bounds lies between them. *)
Lemma mean_bounds (total lo hi : R) (count : nat) :
  (1 <= count)%nat ->
  IZR (Z.of_nat count) * lo <= total <= IZR (Z.of_nat count) * hi ->
  lo <= total / IZR (Z.of_nat count) <= hi.
Proof.
  intros Hc [Hlo Hhi].
  assert (H0 : 0 < IZR (Z.of_nat count)) by (apply IZR_lt; lia).
  split.
  - apply (Rmult_le_reg_r (IZR (Z.of_nat count))); [exact H0|].
    unfold Rdiv. rewrite Rmult_assoc, Rinv_l by lra. lra.
  - apply (Rmult_le_reg_r (IZR (Z.of_nat count))); [exact H0|].
    unfold Rdiv. rewrite Rmult_assoc, Rinv_l by lra. lra.
Qed.

Lemma Rmin_of_nat (a b : nat) :
  Rmin (IZR (Z.of_nat a)) (IZR (Z.of_nat b)) = IZR (Z.of_nat (Nat.min a b)).
Proof.
  destruct (Nat.le_ge_cases a b) as [L|L].
  - rewrite Nat.min_l by exact L. apply Rmin_left, IZR_le. lia.
  - rewrite Nat.min_r by exact L. apply Rmin_right, IZR_le. lia.
Qed.

Lemma Float64Array_length_whole (n : nat) :
  Float64Array_length (IZR (Z.of_nat n)) = Ok n.
Proof.
  unfold Float64Array_length. exact_ops.
  rewrite (proj2 (exact_leb_false _ _)) by (apply IZR_lt; lia).
  rewrite ZfloorZ, to_index_whole by lia. now rewrite Nat2Z.id.
Qed.

End Downsample.

(** In exact arithmetic, on a plot area of [w] by [h >= 1] pixels and data
    of at least one frame, all frames of [nx] pressures, [downsampleData]
    returns [min h nt] frames of [min w nx] pressures, the data itself when
    it fits the plot area; every time and every pressure it returns is a
    mean of a block of at least one of those of the data, so it lies between
    any two bounds of theirs. *)
Theorem downsampleData_averages (w h nx : nat) (data : list (Frame R)) :
  (1 <= h)%nat ->
  data <> [] ->
  (forall fr, In fr data -> length (frame_p fr) = nx) ->
  exists out,
    downsampleData (of_nat w) (of_nat h) data = Ok out
    /\ length out = Nat.min h (length data)
    /\ (forall fr, In fr out -> length (frame_p fr) = Nat.min w nx)
    /\ ((nx <= w)%nat -> (length data <= h)%nat -> out = data)
    /\ (forall lo hi : R,
          (forall fr, In fr data -> (lo <= frame_t fr <= hi)%R) ->
          forall fr, In fr out -> (lo <= frame_t fr <= hi)%R)
    /\ (forall lo hi : R,
          (forall fr v, In fr data -> In v (frame_p fr) -> (lo <= v <= hi)%R) ->
          forall fr v, In fr out -> In v (frame_p fr) -> (lo <= v <= hi)%R).
Proof.
  intros Hh Hdata Hrect.
  destruct data as [|first rest]; [now elim Hdata|].
  set (data := first :: rest) in *.
  assert (Hnt : (1 <= length data)%nat) by (unfold data; simpl; lia).
  unfold downsampleData. change (item data 0 _) with (Ok (A := Frame R) first).
  cbn [bind]. rewrite (Hrect first (or_introl eq_refl)).
  clearbody data. clear Hdata first rest.
  unfold of_nat. exact_ops. rewrite !Rmin_of_nat.
  set (wt := Nat.min w nx). set (ht := Nat.min h (length data)).
  destruct (Exact.leb (IZR (Z.of_nat nx)) (IZR (Z.of_nat wt))
            && Exact.leb (IZR (Z.of_nat (length data))) (IZR (Z.of_nat ht))) eqn:Efit.
  - apply andb_prop in Efit. destruct Efit as [E1 E2].
    apply exact_leb_true, le_IZR in E1. apply exact_leb_true, le_IZR in E2.
    exists data. split; [reflexivity|]. split; [unfold ht in *; lia|].
    split; [intros fr Hfr; rewrite (Hrect fr Hfr); unfold wt in *; lia|].
    split; [reflexivity|]. split; intros lo hi Hb; exact Hb.
  - assert (Hsmall : (wt < nx \/ ht < length data)%nat).
    { apply andb_false_iff in Efit. destruct Efit as [E|E];
        apply exact_leb_false, lt_IZR in E; lia. }
    assert (Hwt : (wt <= nx)%nat) by (unfold wt; lia).
    assert (Hht : (1 <= ht <= length data)%nat) by (unfold ht; lia).
    rewrite count_up_seq by lia. rewrite Nat.sub_0_r.
    match goal with |- context [mapM ?f (seq 0 ht)] =>
      destruct (mapM_all f
        (fun fr => length (frame_p fr) = wt
           /\ (forall lo hi : R,
                 (forall fr', In fr' data -> (lo <= frame_t fr' <= hi)%R) ->
                 (lo <= frame_t fr <= hi)%R)
           /\ (forall lo hi : R,
                 (forall fr' v, In fr' data -> In v (frame_p fr') -> (lo <= v <= hi)%R) ->
                 forall v, In v (frame_p fr) -> (lo <= v <= hi)%R))
        (seq 0 ht)) as [out [Eout [Hlen Hall]]]
    end.
    { intros j Hj. apply in_seq in Hj.
      destruct (target_block j ht (length data) ltac:(lia) ltac:(lia))
        as [Hx [Hxy Hn]]. cbv zeta in Hx, Hxy, Hn.
      destruct (range_block _ _ (length data) Hx Hxy Hn)
        as [a [len [Hrows [Hlen1 [Hlen2 Hnum]]]]].
      rewrite Float64Array_length_whole. cbn [bind].
      rewrite Hrows, Hnum.
      destruct (sum_times_bounds data a len Hlen2) as [total [Et Ht]].
      rewrite Et. cbn [bind].
      match goal with |- context [mapM ?g (seq 0 wt)] =>
        destruct (mapM_all g
          (fun v => forall lo hi : R,
             (forall fr' v', In fr' data -> In v' (frame_p fr') -> (lo <= v' <= hi)%R) ->
             (lo <= v <= hi)%R)
          (seq 0 wt)) as [p [Ep [Hplen Hpall]]]
      end.
      { intros i Hi. apply in_seq in Hi.
        destruct (target_block i wt nx ltac:(lia) ltac:(lia))
          as [Hx' [Hxy' Hn']]. cbv zeta in Hx', Hxy', Hn'.
        destruct (range_block _ _ nx Hx' Hxy' Hn')
          as [c [lenc [Hcols [Hlenc1 [Hlenc2 _]]]]].
        rewrite Hcols.
        destruct (sum_block_bounds data nx a len c lenc Hlen2 Hrect Hlenc2)
          as [pSum [Ep Hp]].
        rewrite Ep. cbn [bind]. rewrite !length_seq.
        eexists. split; [reflexivity|].
        intros lo hi Hb. apply mean_bounds; [nia | apply Hp, Hb]. }
      rewrite Ep. cbn [bind]. eexists. split; [reflexivity|].
      cbn [frame_t frame_p].
      split; [rewrite Hplen; apply length_seq|].
      split.
      - intros lo hi Hb. apply mean_bounds; [exact Hlen1 | apply Ht, Hb].
      - intros lo hi Hb v Hv. exact (Hpall v Hv lo hi Hb). }
    rewrite Eout. cbn [bind]. rewrite length_seq in Hlen.
    destruct out as [|fr0 out']; [simpl in Hlen; lia|].
    cbn [item nth_error bind].
    exists (fr0 :: out'). split; [reflexivity|]. split; [exact Hlen|].
    split; [intros fr Hfr; apply (Hall fr Hfr)|].
    split; [intros H1 H2; unfold wt, ht in Hsmall; lia|].
    split.
    + intros lo hi Hb fr Hfr.
      exact (proj1 (proj2 (Hall fr Hfr)) lo hi Hb).
    + intros lo hi Hb fr v Hfr Hv.
      exact (proj2 (proj2 (Hall fr Hfr)) lo hi Hb v Hv).
Qed.

Lemma downsampleData_averages_witness :
  exists out,
    downsampleData (F := R) (of_nat 1) (of_nat 1)
      [mkFrame 0%R [1%R; 3%R]; mkFrame 1%R [5%R; 7%R]] = Ok out
    /\ length out = 1%nat.
Proof.
  destruct (downsampleData_averages 1 1 2
              [mkFrame 0%R [1%R; 3%R]; mkFrame 1%R [5%R; 7%R]])
    as [out [E [Hlen _]]].
  - lia.
  - discriminate.
  - intros fr [<-|[<-|[]]]; reflexivity.
  - exists out. split; [exact E | exact Hlen].
Defined.

(** In exact arithmetic, [downsampleData] throws a [TypeError] on no data
    and on a plot area with no height: it reads the pressures of a first
    frame that is not there, of the data or of what it has downsampled. *)
Theorem downsampleData_needs_rows (plotWidth plotHeight : R) (data : list (Frame R)) :
  (plotHeight <= 0)%R \/ data = [] ->
  exists msg, downsampleData plotWidth plotHeight data = Throw (TypeError msg).
Proof.
  intros Hedge. unfold downsampleData.
  destruct data as [|first rest].
  - eexists. reflexivity.
  - destruct Hedge as [Hph | Hnil]; [|discriminate].
    change (item (first :: rest) 0 _) with (Ok (A := Frame R) first). cbn [bind].
    set (data := first :: rest).
    assert (Hnt : (1 <= IZR (Z.of_nat (length data)))%R).
    { apply (IZR_le 1). unfold data. simpl length. lia. }
    unfold of_nat. exact_ops.
    pose proof (Rmin_l plotHeight (IZR (Z.of_nat (length data)))) as Hmin.
    rewrite (proj2 (exact_leb_false (IZR (Z.of_nat (length data))) (Rmin plotHeight _)))
      by lra.
    rewrite andb_false_r.
    assert (Hn : length data = S (length rest)) by reflexivity.
    clearbody data. rewrite Hn in *. cbn [count_up]. exact_ops.
    rewrite (proj2 (exact_ltb_false _ _)) by (change (Z.of_nat 0) with 0%Z; lra).
    cbn [mapM bind item nth_error]. eexists. reflexivity.
Qed.

Lemma downsampleData_needs_rows_witness :
  exists msg,
    downsampleData 400%R 0%R [mkFrame 0%R [1%R; 3%R]] = Throw (TypeError msg).
Proof.
  apply downsampleData_needs_rows. left. apply Rle_refl.
Defined.

(** ** The colours of the diagram *)

Lemma inferno_length : length inferno = 286%nat.
Proof. reflexivity. Qed.

Section HeatmapExact.
Local Open Scope R_scope.

Lemma clamp_unit (x : R) : 0 <= Rmax 0 (Rmin 1 x) <= 1.
Proof.
  split; [apply Rmax_l|].
  apply Rmax_lub; [lra | apply Rmin_l].
Qed.

Lemma clamp_again (x : R) : 0 <= x <= 1 -> Rmax 0 (Rmin 1 x) = x.
Proof.
  intros [H0 H1]. rewrite Rmin_right by exact H1. now apply Rmax_right.
Qed.

(** The entry [infernoColormap] reads. *)
Lemma infernoColormap_entry (t : R) :
  0 <= t <= 1 ->
  exists k color,
    infernoColormap t = Ok color
    /\ nth_error inferno k = Some color
    /\ IZR (Z.of_nat k) <= t * 285 < IZR (Z.of_nat k) + 1.
Proof.
  intros Ht. unfold infernoColormap. rewrite inferno_length.
  unfold of_nat. exact_ops. rewrite (clamp_again t Ht).
  change (Z.of_nat (286 - 1)) with 285%Z.
  pose proof (Zfloor_bound (t * 285)) as Hfl.
  assert (H0 : (0 <= Zfloor (t * 285))%Z) by (apply Zfloor_lub; lra).
  assert (H1 : (Zfloor (t * 285) <= 285)%Z).
  { apply le_IZR. lra. }
  rewrite (to_index_whole _ H0).
  destruct (item_in_range inferno (Z.to_nat (Zfloor (t * 285)))
              "Cannot read properties of undefined (reading '0')")
    as [color [Ec Hc]]; [rewrite inferno_length; lia|].
  exists (Z.to_nat (Zfloor (t * 285))), color.
  split; [exact Ec|]. split; [exact Hc|].
  rewrite Z2Nat.id by exact H0. exact Hfl.
Qed.

End HeatmapExact.

(** In exact arithmetic and on the linear scale, [drawHeatmap] finds every
    pressure a colour of the table when the pressure range is not empty:
    the first entry up to [pMin], the last entry from [pMax] on, and in
    between the entry [floor(285 (p - pMin) / (pMax - pMin))]. *)
Theorem heatmap_color_linear (log10 : R -> R) (pMin pMax p : R) :
  (pMin < pMax)%R ->
  exists k color,
    heatmap_color log10 false pMin pMax p = Ok color
    /\ nth_error inferno k = Some color
    /\ ((p <= pMin)%R -> k = 0%nat)
    /\ ((pMax <= p)%R -> k = (length inferno - 1)%nat)
    /\ ((pMin <= p <= pMax)%R ->
        (IZR (Z.of_nat k) <= 285 * ((p - pMin) / (pMax - pMin))
         < IZR (Z.of_nat k) + 1)%R).
Proof.
  intros Hrange. unfold heatmap_color. exact_ops.
  set (x := ((p - pMin) / (pMax - pMin))%R).
  destruct (infernoColormap_entry (Rmax 0 (Rmin 1 x)) (clamp_unit x))
    as [k [color [E [Hk Hfl]]]].
  exists k, color. split; [exact E|]. split; [exact Hk|].
  assert (Hd : (0 < pMax - pMin)%R) by lra.
  assert (Hx0 : (p <= pMin -> x <= 0)%R).
  { intros Hp. unfold x, Rdiv.
    replace 0%R with (0 * / (pMax - pMin))%R by ring.
    apply Rmult_le_compat_r; [left; now apply Rinv_0_lt_compat | lra]. }
  assert (Hx1 : (pMin <= p -> 0 <= x)%R).
  { intros Hp. unfold x, Rdiv.
    replace 0%R with (0 * / (pMax - pMin))%R by ring.
    apply Rmult_le_compat_r; [left; now apply Rinv_0_lt_compat | lra]. }
  assert (Hx2 : (pMax <= p -> 1 <= x)%R).
  { intros Hp. unfold x. apply (Rmult_le_reg_r (pMax - pMin)); [exact Hd|].
    unfold Rdiv. rewrite Rmult_assoc, Rinv_l by lra. lra. }
  assert (Hx3 : (p <= pMax -> x <= 1)%R).
  { intros Hp. unfold x. apply (Rmult_le_reg_r (pMax - pMin)); [exact Hd|].
    unfold Rdiv. rewrite Rmult_assoc, Rinv_l by lra. lra. }
  clearbody x. split; [|split].
  - intros Hp. specialize (Hx0 Hp).
    rewrite (Rmin_right 1 x) in Hfl by lra. rewrite Rmax_left in Hfl by lra.
    assert (IZR (Z.of_nat k) < 1)%R by lra.
    apply (lt_IZR _ 1) in H. lia.
  - intros Hp. specialize (Hx2 Hp).
    rewrite (Rmin_left 1 x) in Hfl by lra. rewrite Rmax_right in Hfl by lra.
    rewrite inferno_length.
    assert (H1 : (IZR (Z.of_nat k) <= 285)%R) by lra.
    assert (H2 : (284 < IZR (Z.of_nat k))%R) by lra.
    apply le_IZR in H1. apply lt_IZR in H2. lia.
  - intros [Hp1 Hp2]. specialize (Hx1 Hp1). specialize (Hx3 Hp2).
    rewrite (clamp_again x (conj Hx1 Hx3)) in Hfl. lra.
Qed.

Lemma heatmap_color_linear_witness :
  exists k color,
    heatmap_color (fun x : R => x) false 1%R 3%R 2%R = Ok color
    /\ nth_error inferno k = Some color.
Proof.
  destruct (heatmap_color_linear (fun x : R => x) 1 3 2 ltac:(lra))
    as [k [color [E [Hk _]]]].
  exists k, color. split; [exact E | exact Hk].
Defined.

(** ** A pressure range of one value *)

Section HeatmapBinary64.

Lemma sub_self_class (p : float) :
  Prim2SF (p - p)%float = S754_zero false \/ Prim2SF (p - p)%float = S754_nan.
Proof.
  rewrite FloatAxioms.sub_spec. unfold SF64sub, SFsub.
  destruct (Prim2SF p) as [s | s | | s m e].
  - left. now destruct s.
  - right. now destruct s.
  - now right.
  - left. cbv zeta. rewrite Z.sub_diag. reflexivity.
Qed.

Lemma zero_by_zero (x : float) :
  Prim2SF x = S754_zero false \/ Prim2SF x = S754_nan -> (x / x)%float = nan.
Proof.
  intros Hx. apply Prim2SF_inj. rewrite FloatAxioms.div_spec.
  destruct Hx as [-> | ->]; reflexivity.
Qed.

End HeatmapBinary64.

(** In binary64 and on the linear scale, [drawHeatmap] throws a [TypeError]
    at a pressure equal to both ends of the pressure range, as every
    pressure of a uniform field is: the pressure is normalised to [0 / 0],
    which names no entry of the table. *)
Theorem heatmap_color_of_uniform_field (log10 : float -> float) (p : float) :
  heatmap_color log10 false p p p
  = Throw (TypeError "Cannot read properties of undefined (reading '0')").
Proof.
  unfold heatmap_color.
  cbn [sub div F64.number].
  rewrite (zero_by_zero _ (sub_self_class p)).
  vm_compute. reflexivity.
Qed.

(** ** The mixtures of the calculator *)

Section Collect.
Context {F : Type} `{Number F}.
Local Open Scope js_scope.

Lemma collect_step_cases (allGases : list (string * Gas F))
    (acc : list (ValidComponent F) * F) (comp : Component F) :
  collect_step allGases acc comp = acc
  \/ exists v, collect_step allGases acc comp
               = (fst acc ++ [v], snd acc + valid_fraction v)
               /\ (valid_fraction v >? of_Z 0) = true
               /\ table_get allGases (comp_gasId comp) = Some (valid_gas v).
Proof.
  unfold collect_step.
  destruct (negb (String.eqb (comp_gasId comp) "")
            && ((if falsy (comp_fraction comp) then of_Z 0 else comp_fraction comp)
                >? of_Z 0)) eqn:E; [|now left].
  destruct (table_get allGases (comp_gasId comp)) as [gas|]; [|now left].
  right.
  exists (mkValidComponent gas
            (if falsy (comp_fraction comp) then of_Z 0 else comp_fraction comp)).
  cbn [valid_fraction valid_gas]. split; [reflexivity|].
  apply andb_prop in E. split; [exact (proj2 E) | reflexivity].
Qed.

(** While nothing is collected, the total stays where it started. *)
Lemma nothing_collected (allGases : list (string * Gas F))
    (components : list (Component F)) (acc : list (ValidComponent F) * F) :
  fst (fold_left (collect_step allGases) components acc) = [] ->
  snd (fold_left (collect_step allGases) components acc) = snd acc.
Proof.
  revert acc. induction components as [|comp rest IH]; intros acc Hnil;
    [reflexivity|].
  cbn [fold_left] in *.
  assert (Hgrow : forall l acc',
             fst (fold_left (collect_step allGases) l acc') = [] -> fst acc' = []).
  { clear. induction l as [|c l IHl]; intros acc' Hl; [exact Hl|].
    cbn [fold_left] in Hl. apply IHl in Hl.
    destruct (collect_step_cases allGases acc' c) as [E | [v [E _]]];
      rewrite E in Hl; [exact Hl|].
    cbn [fst] in Hl. now apply app_eq_nil in Hl. }
  rewrite (IH _ Hnil). apply Hgrow in Hnil.
  destruct (collect_step_cases allGases acc comp) as [E | [v [E _]]];
    rewrite E in *; [reflexivity|].
  cbn [fst] in Hnil. apply app_eq_nil in Hnil. destruct Hnil; discriminate.
Qed.

(** With no valid component the total is 0, which is not 1. *)
Lemma no_valid_component (stored : option (list (StoredGas F)))
    (components : option (list (Component F))) :
  (abs (of_Z 0 - of_Z 1) >? lit 1 1000) = true ->
  calculateXTMixtureProperties stored components <> Raised NoValidComponents.
Proof.
  intros Hone. unfold calculateXTMixtureProperties.
  destruct components as [[|comp rest]|]; try discriminate.
  unfold collect_valid.
  pose proof (nothing_collected (getAllGases stored) (comp :: rest) ([], of_Z 0))
    as Hnone.
  destruct (fold_left _ (comp :: rest) _) as [valid total].
  cbn [fst snd] in Hnone. cbv beta iota.
  destruct (abs (total - of_Z 1) >? lit 1 1000) eqn:Etotal; [discriminate|].
  destruct valid as [|v valid]; [|discriminate].
  rewrite (Hnone eq_refl), Hone in Etotal. discriminate.
Qed.

End Collect.

(** Whatever the components and the custom gases, in binary64 as in exact
    arithmetic, [calculateXTMixtureProperties] never throws its error [No
    valid gas components specified in mixture]: without a valid component
    the total of the fractions is 0, and the error on a total far from 1
    comes first. *)
Theorem no_valid_components_is_never_thrown :
  (forall (stored : option (list (StoredGas float)))
          (components : option (list (Component float))),
     calculateXTMixtureProperties stored components <> Raised NoValidComponents)
  /\ (forall (stored : option (list (StoredGas R)))
             (components : option (list (Component R))),
        calculateXTMixtureProperties stored components <> Raised NoValidComponents).
Proof.
  split; intros stored components; apply no_valid_component.
  - vm_compute. reflexivity.
  - unfold lit. exact_ops. apply exact_ltb_true.
    unfold Rabs. destruct (Rcase_abs (0 - 1)); lra.
Qed.

Section Agree.
Context {F : Type} `{Number F}.
Local Open Scope js_scope.

(** The components [calculateXTMixtureProperties] collects when it keeps
    every one of them. *)
Lemma collect_all (allGases : list (string * Gas F))
    (components : list (Component F)) (acc : list (ValidComponent F) * F) :
  (forall c, In c components ->
     comp_gasId c <> ""%string
     /\ (comp_fraction c >? of_Z 0) = true
     /\ table_get allGases (comp_gasId c) <> None) ->
  exists valid,
    fold_left (collect_step allGases) components acc
    = (fst acc ++ valid,
       fold_left (fun sum c => sum + comp_fraction c) components (snd acc))
    /\ Forall2 (fun c v => table_get allGases (comp_gasId c) = Some (valid_gas v)
                           /\ valid_fraction v = comp_fraction c)
               components valid.
Proof.
  revert acc. induction components as [|comp rest IH]; intros acc Hwf.
  - exists []. cbn [fold_left]. rewrite app_nil_r. split; [now destruct acc | constructor].
  - destruct (Hwf comp (or_introl eq_refl)) as [Hid [Hpos Hgas]].
    destruct (table_get allGases (comp_gasId comp)) as [gas|] eqn:Egas;
      [clear Hgas | now elim Hgas].
    assert (Estep : collect_step allGases acc comp
                    = (fst acc ++ [mkValidComponent gas (comp_fraction comp)],
                       snd acc + comp_fraction comp)).
    { unfold collect_step, falsy. rewrite Hpos. rewrite andb_false_r.
      rewrite Hpos, Egas. apply String.eqb_neq in Hid. rewrite Hid. reflexivity. }
    destruct (IH (collect_step allGases acc comp)) as [valid [Efold Hall]];
      [intros c Hc; apply Hwf; now right|].
    exists (mkValidComponent gas (comp_fraction comp) :: valid).
    cbn [fold_left]. rewrite Efold, Estep. cbn [fst snd].
    rewrite <- app_assoc. split; [reflexivity|].
    constructor; [|exact Hall]. cbn [valid_gas valid_fraction]. now split.
Qed.

Lemma weight_of_valid (allGases : list (string * Gas F))
    (components : list (Component F)) (valid : list (ValidComponent F)) :
  Forall2 (fun c v => table_get allGases (comp_gasId c) = Some (valid_gas v)
                      /\ valid_fraction v = comp_fraction c)
          components valid ->
  forall mw_mix,
    mixture_weight allGases components mw_mix
    = Some (fold_left (fun mw_mix c => mw_mix + valid_fraction c * gas_mw (valid_gas c))
                      valid mw_mix).
Proof.
  induction 1 as [|c v components valid [Hgas Hfr] _ IH]; intros mw_mix;
    [reflexivity|].
  cbn [mixture_weight fold_left]. rewrite Hgas, Hfr. apply IH.
Qed.

Lemma heats_of_valid (allGases : list (string * Gas F))
    (components : list (Component F)) (valid : list (ValidComponent F)) :
  Forall2 (fun c v => table_get allGases (comp_gasId c) = Some (valid_gas v)
                      /\ valid_fraction v = comp_fraction c)
          components valid ->
  forall heats,
    foldM (fun heats component =>
             match table_get allGases (comp_gasId component) with
             | Some gas => Ok (add_heats heats (comp_fraction component) gas)
             | None => Throw (TypeError
                 "Cannot read properties of undefined (reading 'gamma')")
             end)
          components heats
    = Ok (fold_left (fun heats c => add_heats heats (valid_fraction c) (valid_gas c))
                    valid heats).
Proof.
  induction 1 as [|c v components valid [Hgas Hfr] _ IH]; intros heats;
    [reflexivity|].
  cbn [foldM fold_left]. rewrite Hgas, Hfr. cbn [bind]. apply IH.
Qed.

End Agree.

(** The two mixture calculators agree, in every number model and so bit for
    bit in binary64: on components that all have a gas selected, a gas that
    is known and a fraction above 0, [calculateMixtureProperties] returns a
    mixture exactly when [calculateXTMixtureProperties] does, of the same
    gamma and the same molecular weight, and it never fails. *)
Theorem mixture_calculators_agree {F : Type} {number : Number F}
    (stored : option (list (StoredGas F))) (components : list (Component F)) :
  (forall c, In c components ->
     comp_gasId c <> ""%string
     /\ (comp_fraction c >? of_Z 0)%js = true
     /\ table_get (getAllGases stored) (comp_gasId c) <> None) ->
  (forall e, calculateMixtureProperties stored (Some components) <> Throw e)
  /\ forall m,
       calculateMixtureProperties stored (Some components) = Ok (Some m)
       <-> exists valid,
             calculateXTMixtureProperties stored (Some components)
             = Returned (Some (mkXTMixture (mix_gamma m) (mix_mw m) valid)).
Proof.
  intros Hwf.
  unfold calculateMixtureProperties, calculateXTMixtureProperties, collect_valid.
  destruct components as [|comp rest].
  - split; [discriminate|]. intros m. split; [discriminate|].
    intros [valid E]. discriminate.
  - set (components := comp :: rest) in *.
    destruct (collect_all (getAllGases stored) components ([], of_Z 0) Hwf)
      as [valid [Efold Hall]].
    cbn [fst snd app] in Efold. rewrite Efold.
    assert (Hlen : length valid <> 0%nat).
    { apply Forall2_length in Hall. rewrite <- Hall. discriminate. }
    rewrite (weight_of_valid _ _ _ Hall), (heats_of_valid _ _ _ Hall).
    clearbody components. clear Efold Hall Hwf.
    destruct (abs (fold_left _ components (of_Z 0) - of_Z 1)%js >? lit 1 1000)%js.
    + split; [discriminate|]. intros m. split; [discriminate|].
      intros [valid' E]. discriminate.
    + cbn [bind]. apply Nat.eqb_neq in Hlen. rewrite Hlen.
      split; [discriminate|]. intros [gamma_mix mw_mix]. cbn [mix_gamma mix_mw].
      split.
      * intros E. exists valid. congruence.
      * intros [valid' E]. congruence.
Qed.

Lemma mixture_calculators_agree_witness :
  exists m valid,
    calculateMixtureProperties (F := float) None
      (Some [mkComponent "1"%string (lit 1 2); mkComponent "4"%string (lit 1 2)])
    = Ok (Some m)
    /\ calculateXTMixtureProperties (F := float) None
         (Some [mkComponent "1"%string (lit 1 2); mkComponent "4"%string (lit 1 2)])
       = Returned (Some (mkXTMixture (mix_gamma m) (mix_mw m) valid)).
Proof.
  destruct (mixture_calculators_agree (F := float) None
              [mkComponent "1"%string (lit 1 2); mkComponent "4"%string (lit 1 2)])
    as [_ Hiff].
  - intros c [<-|[<-|[]]];
      (split; [discriminate
              | split; [vm_compute; reflexivity | vm_compute; discriminate]]).
  - destruct (calculateMixtureProperties (F := float) None
                (Some [mkComponent "1"%string (lit 1 2);
                       mkComponent "4"%string (lit 1 2)]))
      as [[m|]|e] eqn:E; [|vm_compute in E; discriminate..].
    destruct (proj1 (Hiff m) eq_refl) as [valid Hvalid].
    exists m, valid. split; [reflexivity | exact Hvalid].
Defined.

Section MixtureMean.
Local Open Scope R_scope.

(** What [collect_valid] collects has fractions above 0, and their total. *)
Lemma collect_invariant (allGases : list (string * Gas R))
    (components : list (Component R)) (acc : list (ValidComponent R) * R) :
  (forall v, In v (fst acc) -> 0 < valid_fraction v) ->
  snd acc = sum (map (@valid_fraction R) (fst acc)) ->
  let found := fold_left (collect_step allGases) components acc in
  (forall v, In v (fst found) -> 0 < valid_fraction v)
  /\ snd found = sum (map (@valid_fraction R) (fst found)).
Proof.
  revert acc. induction components as [|comp rest IH]; intros acc Hpos Hsum;
    [now split|].
  cbn [fold_left]. apply IH.
  - destruct (collect_step_cases allGases acc comp) as [E | [v [E [Hv _]]]];
      rewrite E; [exact Hpos|].
    cbn [fst]. intros v' Hv'. apply in_app_or in Hv'.
    destruct Hv' as [Hv' | [<- | []]]; [now apply Hpos|].
    exact_ops. now apply exact_ltb_true in Hv.
  - destruct (collect_step_cases allGases acc comp) as [E | [v [E _]]];
      rewrite E; [exact Hsum|].
    cbn [fst snd]. rewrite map_app. cbn [map]. rewrite sum_app_one, Hsum.
    reflexivity.
Qed.

(** The specific heats of the mixture: [cp - cv] is the total of the
    fractions, and [cv] a mean of the [1 / (gamma - 1)]. *)
Lemma heats_bounds (valid : list (ValidComponent R)) (lo hi : R) :
  1 < lo ->
  (forall v, In v valid ->
     0 < valid_fraction v /\ lo <= gas_gamma (valid_gas v) <= hi) ->
  forall heats,
    let total := sum (map (@valid_fraction R) valid) in
    let mixed :=
      fold_left (fun heats c => add_heats heats (valid_fraction c) (valid_gas c))
                valid heats in
    snd mixed - fst mixed = snd heats - fst heats + total
    /\ fst heats + / (hi - 1) * total <= fst mixed <= fst heats + / (lo - 1) * total.
Proof.
  intros Hlo. induction valid as [|v valid IH]; intros Hall heats.
  - cbn [map fold_left]. rewrite sum_nil. split; lra.
  - destruct (Hall v (or_introl eq_refl)) as [Hx [Hg1 Hg2]].
    specialize (IH (fun v' Hv' => Hall v' (or_intror Hv'))
                   (add_heats heats (valid_fraction v) (valid_gas v))).
    cbv zeta in IH |- *. cbn [map fold_left]. rewrite sum_cons.
    destruct IH as [IHd [IH1 IH2]].
    unfold add_heats in IHd, IH1, IH2. cbn [fst snd] in IHd, IH1, IH2.
    exact_ops.
    set (mixed := fold_left _ valid _) in *. clearbody mixed.
    set (total := sum (map (@valid_fraction R) valid)) in *. clearbody total.
    set (x := valid_fraction v) in *. set (g := gas_gamma (valid_gas v)) in *.
    clearbody x g.
    assert (Hinv : 1 / (g - 1) = / (g - 1)) by (unfold Rdiv; ring).
    rewrite Hinv in *.
    assert (Hg : 0 < / (g - 1)) by (apply Rinv_0_lt_compat; lra).
    assert (Hone : g * / (g - 1) - / (g - 1) = 1) by (field; lra).
    assert (Hhi : / (hi - 1) <= / (g - 1)) by (apply Rinv_le_contravar; lra).
    assert (Hlo' : / (g - 1) <= / (lo - 1)) by (apply Rinv_le_contravar; lra).
    split; [nra|]. split; nra.
Qed.

Lemma weight_bounds (valid : list (ValidComponent R)) (lo hi : R) :
  (forall v, In v valid ->
     0 < valid_fraction v /\ lo <= gas_mw (valid_gas v) <= hi) ->
  forall mw_mix,
    let total := sum (map (@valid_fraction R) valid) in
    mw_mix + lo * total
    <= fold_left (fun mw_mix c => (mw_mix + valid_fraction c * gas_mw (valid_gas c))%js)
                 valid mw_mix
    <= mw_mix + hi * total.
Proof.
  induction valid as [|v valid IH]; intros Hall mw_mix.
  - cbn [map fold_left]. rewrite sum_nil. lra.
  - destruct (Hall v (or_introl eq_refl)) as [Hx [Hw1 Hw2]].
    specialize (IH (fun v' Hv' => Hall v' (or_intror Hv'))
                   (mw_mix + valid_fraction v * gas_mw (valid_gas v))%js).
    cbv zeta in IH |- *. cbn [map fold_left]. rewrite sum_cons.
    exact_ops. nra.
Qed.

Lemma positive_total (valid : list (ValidComponent R)) :
  valid <> [] ->
  (forall v, In v valid -> 0 < valid_fraction v) ->
  0 < sum (map (@valid_fraction R) valid).
Proof.
  destruct valid as [|v valid]; intros Hne Hpos; [now elim Hne|].
  cbn [map]. rewrite sum_cons.
  assert (0 <= sum (map (@valid_fraction R) valid)).
  { apply sum_nonneg. intros a Ha. apply in_map_iff in Ha.
    destruct Ha as [v' [<- Hv']]. left. apply Hpos. now right. }
  assert (0 < valid_fraction v) by (apply Hpos; now left). lra.
Qed.

End MixtureMean.

(** In exact arithmetic, a mixture [calculateXTMixtureProperties] returns is
    a mean of the gases it has kept, all of a gamma above 1: it has kept at
    least one, with fractions above 0 that add up to 1 within 0.001; its
    gamma lies between any two bounds of theirs, and its molecular weight
    between the bounds of theirs times the total of the fractions. *)
Theorem XT_mixture_is_a_mean (stored : option (list (StoredGas R)))
    (components : option (list (Component R))) (mix : XTMixture R) :
  calculateXTMixtureProperties stored components = Returned (Some mix) ->
  (forall v, In v (xt_components mix) -> (1 < gas_gamma (valid_gas v))%R) ->
  let total := sum (map (@valid_fraction R) (xt_components mix)) in
  xt_components mix <> []
  /\ (forall v, In v (xt_components mix) -> (0 < valid_fraction v)%R)
  /\ (Rabs (total - 1) <= 1 / 1000)%R
  /\ (forall lo hi : R,
        (1 < lo)%R ->
        (forall v, In v (xt_components mix) ->
           (lo <= gas_gamma (valid_gas v) <= hi)%R) ->
        (lo <= xt_gamma mix <= hi)%R)
  /\ (forall lo hi : R,
        (forall v, In v (xt_components mix) ->
           (lo <= gas_mw (valid_gas v) <= hi)%R) ->
        (lo * total <= xt_mw mix <= hi * total)%R).
Proof.
  intros Hmix Hgamma total.
  unfold calculateXTMixtureProperties, collect_valid in Hmix.
  destruct components as [[|comp rest]|]; try discriminate.
  destruct (collect_invariant (getAllGases stored) (comp :: rest) ([], of_Z 0))
    as [Hpos Hsum]; [intros v [] | reflexivity |].
  destruct (fold_left _ (comp :: rest) _) as [valid T]. cbn [fst snd] in Hpos, Hsum.
  cbv beta iota in Hmix.
  destruct (abs (T - of_Z 1) >? lit 1 1000)%js eqn:Etest; [discriminate|].
  destruct (Nat.eqb (length valid) 0) eqn:Elen; [discriminate|].
  injection Hmix as <-. cbn [xt_components xt_gamma xt_mw] in *. subst total.
  unfold lit in Etest. exact_ops. apply exact_ltb_false in Etest.
  assert (Hne : valid <> []).
  { intros ->. discriminate. }
  pose proof (positive_total valid Hne Hpos) as Htotal.
  rewrite <- Hsum in *.
  split; [exact Hne|]. split; [exact Hpos|]. split; [exact Etest|]. split.
  - intros lo hi Hlo Hb.
    destruct (heats_bounds valid lo hi Hlo
                (fun v Hv => conj (Hpos v Hv) (Hb v Hv)) (0, 0)%R) as [Hd [H1 H2]].
    cbn [fst snd] in Hd, H1, H2. rewrite <- Hsum in Hd, H1, H2.
    set (mixed := fold_left _ valid _) in *. clearbody mixed.
    assert (Hhi : (lo <= hi)%R).
    { destruct valid as [|v valid']; [now elim Hne|].
      destruct (Hb v (or_introl eq_refl)). lra. }
    pose proof (harmonic_bounds (fst mixed) T lo hi Htotal Hlo Hhi
                  ltac:(split; lra)) as Hh.
    assert (Hcv : (0 < fst mixed)%R).
    { assert (0 < / (hi - 1))%R by (apply Rinv_0_lt_compat; lra). nra. }
    replace (snd mixed / fst mixed)%R with (1 + 1 / (fst mixed / T))%R;
      [exact Hh|].
    replace (snd mixed) with (fst mixed + T)%R by lra. field. lra.
  - intros lo hi Hb.
    pose proof (weight_bounds valid lo hi
                  (fun v Hv => conj (Hpos v Hv) (Hb v Hv)) 0%R) as Hw.
    cbv zeta in Hw. rewrite <- Hsum in Hw. exact_ops. lra.
Qed.

(** Components that are all kept and add up to 1 within 0.001 give a
    mixture. *)
Lemma XT_mixture_returned (stored : option (list (StoredGas R)))
    (components : list (Component R)) :
  components <> [] ->
  (forall c, In c components ->
     comp_gasId c <> ""%string
     /\ (comp_fraction c >? of_Z 0)%js = true
     /\ table_get (getAllGases stored) (comp_gasId c) <> None) ->
  (Rabs (fold_left Rplus (map (@comp_fraction R) components) 0 - 1) <= 1 / 1000)%R ->
  exists mix,
    calculateXTMixtureProperties stored (Some components) = Returned (Some mix)
    /\ Forall2 (fun c v =>
                  table_get (getAllGases stored) (comp_gasId c) = Some (valid_gas v)
                  /\ valid_fraction v = comp_fraction c)
               components (xt_components mix).
Proof.
  intros Hne Hwf Hsum.
  unfold calculateXTMixtureProperties, collect_valid.
  destruct components as [|comp rest]; [now elim Hne|].
  set (components := comp :: rest) in *.
  destruct (collect_all (getAllGases stored) components ([], of_Z 0) Hwf)
    as [valid [Efold Hall]].
  cbn [fst snd app] in Efold. rewrite Efold.
  assert (Hlen : length valid <> 0%nat).
  { apply Forall2_length in Hall. rewrite <- Hall. discriminate. }
  assert (Etotal : fold_left (fun sum c => (sum + comp_fraction c)%js) components
                             (of_Z 0)
                   = fold_left Rplus (map (@comp_fraction R) components) 0%R).
  { exact_ops. generalize 0%R. clear. induction components as [|c l IH]; intros a;
      [reflexivity|]. cbn [fold_left map]. apply IH. }
  rewrite Etotal. unfold lit. exact_ops.
  rewrite (proj2 (exact_ltb_false _ _)) by exact Hsum.
  apply Nat.eqb_neq in Hlen. rewrite Hlen.
  eexists. split; [reflexivity|]. exact Hall.
Qed.

Lemma XT_mixture_is_a_mean_witness :
  exists mix,
    calculateXTMixtureProperties (F := R) None
      (Some [mkComponent "1"%string 1%R]) = Returned (Some mix)
    /\ (1 < xt_gamma mix <= 3 / 2)%R.
Proof.
  destruct (XT_mixture_returned None [mkComponent "1"%string 1%R])
    as [mix [E Hall]].
  - discriminate.
  - intros c [<-|[]]. split; [discriminate|]. split.
    + exact_ops. cbn [comp_fraction]. apply exact_ltb_true. lra.
    + discriminate.
  - cbn [map fold_left comp_fraction].
    replace (0 + 1 - 1)%R with 0%R by ring. rewrite Rabs_R0. lra.
  - assert (Hair : forall v, In v (xt_components mix) ->
                     gas_gamma (valid_gas v) = (14020 / 10000)%R).
    { intros v. generalize Hall. generalize (xt_components mix).
      intros valid Hall' Hv.
      inversion Hall' as [|c v' l l' [Hgas _] Hrest]; subst.
      inversion Hrest; subst. destruct Hv as [<-|[]].
      change (Some (mkGas "Air" (14020 / 10000)%R (289660 / 10000)%R)
              = Some (valid_gas v')) in Hgas.
      injection Hgas as <-. reflexivity. }
    destruct (XT_mixture_is_a_mean None (Some [mkComponent "1"%string 1%R]) mix E)
      as [_ [_ [_ [Hgamma _]]]].
    + intros v Hv. rewrite (Hair v Hv). lra.
    + exists mix. split; [exact E|].
      destruct (Hgamma (14020 / 10000)%R (14020 / 10000)%R ltac:(lra)) as [H1 H2].
      * intros v Hv. rewrite (Hair v Hv). lra.
      * lra.
Defined.

Section CalculatorAndSolver.
Local Open Scope R_scope.

(** What a mixture [calculateXTMixtureProperties] has returned is made
    of. *)
Lemma XT_mixture_made_of (stored : option (list (StoredGas R)))
    (components : option (list (Component R))) (mix : XTMixture R) :
  calculateXTMixtureProperties stored components = Returned (Some mix) ->
  let valid := xt_components mix in
  let mixed :=
    fold_left (fun heats c => add_heats heats (valid_fraction c) (valid_gas c))
              valid (0, 0) in
  valid <> []
  /\ (forall v, In v valid -> 0 < valid_fraction v)
  /\ Rabs (sum (map (@valid_fraction R) valid) - 1) <= 1 / 1000
  /\ xt_gamma mix = snd mixed / fst mixed
  /\ xt_mw mix
     = fold_left (fun mw_mix c => mw_mix + valid_fraction c * gas_mw (valid_gas c))
                 valid 0.
Proof.
  intros Hmix.
  unfold calculateXTMixtureProperties, collect_valid in Hmix.
  destruct components as [[|comp rest]|]; try discriminate.
  destruct (collect_invariant (getAllGases stored) (comp :: rest) ([], of_Z 0))
    as [Hpos Hsum]; [intros v [] | reflexivity |].
  destruct (fold_left _ (comp :: rest) _) as [valid T]. cbn [fst snd] in Hpos, Hsum.
  cbv beta iota in Hmix.
  destruct (abs (T - of_Z 1) >? lit 1 1000)%js eqn:Etest; [discriminate|].
  destruct (Nat.eqb (length valid) 0) eqn:Elen; [discriminate|].
  injection Hmix as <-. cbn [xt_components xt_gamma xt_mw].
  unfold lit in Etest. exact_ops. apply exact_ltb_false in Etest.
  rewrite <- Hsum.
  split; [intros ->; discriminate|]. split; [exact Hpos|].
  split; [exact Etest|]. split; reflexivity.
Qed.

(** A loop that adds up one term per entry of a list, as a sum over the
    indices. *)
Lemma fold_as_tabulate {A : Type} (l : list A) (h : A -> R) (f : nat -> R) :
  (forall m a, nth_error l m = Some a -> f m = h a) ->
  fold_left (fun acc a => acc + h a) l 0 = sum (tabulate (length l) f).
Proof.
  induction l as [|a l IH] using rev_ind; intros Hf; [reflexivity|].
  rewrite fold_left_app, length_app, Nat.add_comm. cbn [length Nat.add fold_left].
  rewrite sum_tabulate_succ, IH.
  - f_equal. apply eq_sym, Hf. rewrite nth_error_app2 by lia.
    now rewrite Nat.sub_diag.
  - intros m a' Hm. apply Hf. rewrite nth_error_app1; [exact Hm|].
    apply nth_error_Some. congruence.
Qed.

(** The two specific heats are added up side by side. *)
Lemma heats_split (valid : list (ValidComponent R)) (heats : R * R) :
  fold_left (fun heats c => add_heats heats (valid_fraction c) (valid_gas c))
            valid heats
  = (fold_left (fun acc c =>
                  acc + valid_fraction c * (1 / (gas_gamma (valid_gas c) - 1)))
               valid (fst heats),
     fold_left (fun acc c =>
                  acc + valid_fraction c
                        * (gas_gamma (valid_gas c)
                           * (1 / (gas_gamma (valid_gas c) - 1))))
               valid (snd heats)).
Proof.
  revert heats. induction valid as [|v valid IH]; intros heats;
    [now destruct heats|].
  cbn [fold_left]. rewrite IH. reflexivity.
Qed.

Lemma heats_positive (valid : list (ValidComponent R)) :
  valid <> [] ->
  (forall v, In v valid -> 0 < valid_fraction v /\ 1 < gas_gamma (valid_gas v)) ->
  forall cv,
    cv < fold_left (fun acc c =>
                      acc + valid_fraction c * (1 / (gas_gamma (valid_gas c) - 1)))
                   valid cv.
Proof.
  intros Hne Hall.
  assert (Hstep : forall v, In v valid ->
            0 < valid_fraction v * (1 / (gas_gamma (valid_gas v) - 1))).
  { intros v Hv. destruct (Hall v Hv) as [Hx Hg].
    apply Rmult_lt_0_compat; [exact Hx|]. apply Rdiv_lt_0_compat; lra. }
  clear Hall. induction valid as [|v valid IH]; [now elim Hne|]. intros cv.
  cbn [fold_left].
  pose proof (Hstep v (or_introl eq_refl)) as Hv.
  destruct valid as [|v' valid'].
  - cbn [fold_left]. lra.
  - specialize (IH ltac:(discriminate) (fun u Hu => Hstep u (or_intror Hu))
                   (cv + valid_fraction v * (1 / (gas_gamma (valid_gas v) - 1)))).
    lra.
Qed.


(** In exact arithmetic, the solver mixes as the calculator does: in a cell
    whose materials are the gases of a mixture [calculateXTMixtureProperties]
    has returned (all of a gamma above 1) and whose material fractions are
    their mole fractions, [computeMixtureProperties] finds the gamma of that
    mixture, and its molecular weight divided by the total of the
    fractions. *)
Theorem solver_mixes_as_the_calculator (stored : option (list (StoredGas R)))
    (components : option (list (Component R))) (mix : XTMixture R)
    (s : Solver R) (fractions : list R) (i : nat) :
  calculateXTMixtureProperties stored components = Returned (Some mix) ->
  (forall v, In v (xt_components mix) -> (1 < gas_gamma (valid_gas v))%R) ->
  materialFractions s = Some fractions ->
  numMaterials s = length (xt_components mix) ->
  Forall2 (fun v props => region_gamma props = gas_gamma (valid_gas v)
                          /\ region_mw props = gas_mw (valid_gas v))
          (xt_components mix) (materialProperties s) ->
  (forall m v, nth_error (xt_components mix) m = Some v ->
     get fractions (i * numMaterials s + m) = valid_fraction v) ->
  exists cell,
    computeMixtureProperties s i = Ok cell
    /\ region_gamma cell = xt_gamma mix
    /\ (region_mw cell * sum (map (@valid_fraction R) (xt_components mix))
        = xt_mw mix)%R.
Proof.
  intros Hmix Hgamma Hfr Hnum Hprops Hrow.
  destruct (XT_mixture_made_of stored components mix Hmix)
    as [Hne [Hpos [Hone [Eg Ew]]]].
  rewrite Eg, Ew. clear Eg Ew Hmix.
  set (valid := xt_components mix) in *. clearbody valid.
  pose proof (Forall2_length Hprops) as Hlen.
  set (alpha := fun m => get fractions (i * numMaterials s + m)).
  destruct (mixture_loop s fractions i (numMaterials s) alpha Hfr ltac:(lia)
              ltac:(reflexivity))
    as [acc [Hloop [Hg [Hm [Ht [Hmax [Hmax0 Hdom]]]]]]].
  cbv zeta in Hg, Hm.
  (* the sums of the solver are the sums of the calculator *)
  assert (Hentry : forall m v, nth_error valid m = Some v ->
            exists props, nth_error (materialProperties s) m = Some props
                          /\ region_gamma props = gas_gamma (valid_gas v)
                          /\ region_mw props = gas_mw (valid_gas v)).
  { clear -Hprops. induction Hprops as [|v0 p0 l l' [H1 H2] _ IH]; intros m v Hm.
    - destruct m; discriminate.
    - destruct m as [|m]; cbn [nth_error] in *.
      + injection Hm as <-. now exists p0.
      + now apply IH. }
  assert (HT : sum (map (@valid_fraction R) valid) = totalFraction acc).
  { rewrite Ht, Hnum. unfold sum at 1. exact_ops.
    assert (Hmap : forall (l : list (ValidComponent R)) a,
              fold_left Rplus (map (@valid_fraction R) l) a
              = fold_left (fun a v => a + @valid_fraction R v) l a).
    { induction l as [|v l IH]; intros a; [reflexivity|].
      cbn [map fold_left]. apply IH. }
    rewrite Hmap. apply fold_as_tabulate. intros m v Hv. now apply Hrow. }
  assert (HG : fold_left (fun a c =>
                 a + valid_fraction c * (1 / (gas_gamma (valid_gas c) - 1)))
                 valid 0 = gamma_mix_inv acc).
  { rewrite Hg, Hnum. apply fold_as_tabulate. intros m v Hv.
    destruct (Hentry m v Hv) as [props [-> [E1 _]]].
    unfold alpha. rewrite (Hrow m v Hv), E1. unfold Rdiv. ring. }
  assert (HW : fold_left (fun a c => a + valid_fraction c * gas_mw (valid_gas c))
                 valid 0 = mw_mix acc).
  { rewrite Hm, Hnum. apply fold_as_tabulate. intros m v Hv.
    destruct (Hentry m v Hv) as [props [-> [_ E2]]].
    unfold alpha. now rewrite (Hrow m v Hv), E2. }
  pose proof (heats_bounds valid) as Hdiff.
  pose proof (positive_total valid Hne Hpos) as Htotal.
  pose proof (heats_positive valid Hne
                (fun v Hv => conj (Hpos v Hv) (Hgamma v Hv)) 0) as Hcv.
  rewrite HG in Hcv. exact_ops. rewrite HW.
  rewrite heats_split. cbn [fst snd]. rewrite HG.
  (* cp - cv is the total *)
  assert (Hcp : fold_left (fun a c =>
                  a + valid_fraction c
                      * (gas_gamma (valid_gas c) * (1 / (gas_gamma (valid_gas c) - 1))))
                  valid 0 = gamma_mix_inv acc + totalFraction acc).
  { rewrite <- HG, <- HT. clear -Hgamma. 
    assert (Hgen : forall a b,
              fold_left (fun a c =>
                a + valid_fraction c
                    * (gas_gamma (valid_gas c) * (1 / (gas_gamma (valid_gas c) - 1))))
                valid (a + b)
              = fold_left (fun a c =>
                  a + valid_fraction c * (1 / (gas_gamma (valid_gas c) - 1)))
                  valid a
                + (b + sum (map (@valid_fraction R) valid))).
    { induction valid as [|v l IH]; intros a b.
      - cbn [fold_left map]. rewrite sum_nil. ring.
      - cbn [fold_left map]. rewrite sum_cons.
        pose proof (Hgamma v (or_introl eq_refl)) as Hv.
        replace (a + b + valid_fraction v
                         * (gas_gamma (valid_gas v)
                            * (1 / (gas_gamma (valid_gas v) - 1))))
          with (a + valid_fraction v * (1 / (gas_gamma (valid_gas v) - 1))
                + (b + valid_fraction v)) by (field; lra).
        rewrite IH by (intros u Hu; apply Hgamma; now right). ring. }
    specialize (Hgen 0 0). rewrite Rplus_0_l in Hgen. rewrite Hgen. ring. }
  rewrite Hcp, HT in *. clear Hdiff.
  assert (Hbig : 1 / 10000000000 < totalFraction acc).
  { unfold Rabs in Hone. destruct (Rcase_abs _) in Hone; lra. }
  unfold computeMixtureProperties. exact_ops. rewrite Hloop. cbn [bind].
  rewrite (proj2 (exact_ltb_true (1 / 10000000000) (totalFraction acc))) by exact Hbig.
  cbn [bind gamma_mix_inv mw_mix totalFraction dominantMaterial maxFraction].
  assert (Hdlt : (dominantMaterial acc < length (materialProperties s))%nat).
  { assert (0 < length valid)%nat
      by (destruct valid; [now elim Hne | simpl; lia]).
    destruct Hdom as [[_ ->] | [Hd _]]; lia. }
  destruct (item_in_range (materialProperties s) (dominantMaterial acc)
              "Cannot read properties of undefined (reading 'gasId')" Hdlt)
    as [dominant [Hitem _]].
  rewrite Hitem. cbn [bind]. eexists. split; [reflexivity|].
  cbn [region_gamma region_mw]. split; field; lra.
Qed.

End CalculatorAndSolver.

Lemma solver_mixes_as_the_calculator_witness :
  exists mix cell,
    calculateXTMixtureProperties (F := R) None
      (Some [mkComponent "1"%string (1 / 2)%R; mkComponent "4"%string (1 / 2)%R])
    = Returned (Some mix)
    /\ computeMixtureProperties
         (set_materialProperties
            [mkRegion (14020 / 10000)%R (289660 / 10000)%R (Some "1"%string);
             mkRegion (166700 / 100000)%R (4002602000 / 1000000000)%R
                      (Some "4"%string)]
            (set_materialFractions (Some [1 / 2; 1 / 2; 1 / 2; 1 / 2]%R)
               ExactExamples.two_materials)) 1 = Ok cell
    /\ region_gamma cell = xt_gamma mix.
Proof.
  destruct (XT_mixture_returned None
              [mkComponent "1"%string (1 / 2)%R; mkComponent "4"%string (1 / 2)%R])
    as [mix [E Hall]].
  - discriminate.
  - intros c [<-|[<-|[]]];
      (split; [discriminate|]; split;
       [exact_ops; cbn [comp_fraction]; apply exact_ltb_true; lra | discriminate]).
  - cbn [map fold_left comp_fraction].
    replace (0 + 1 / 2 + 1 / 2 - 1)%R with 0%R by field. rewrite Rabs_R0. lra.
  - remember (xt_components mix) as valid eqn:Ev.
    inversion Hall as [|c1 v1 l1 l1' [Hg1 Hf1] Hrest]; subst c1 l1.
    inversion Hrest as [|c2 v2 l2 l2' [Hg2 Hf2] Hnil]; subst c2 l2.
    inversion Hnil. subst l1' l2' valid.
    change (Some (mkGas "Air" (14020 / 10000)%R (289660 / 10000)%R)
            = Some (valid_gas v1)) in Hg1.
    change (Some (mkGas "Helium" (166700 / 100000)%R (4002602000 / 1000000000)%R)
            = Some (valid_gas v2)) in Hg2.
    assert (G1 : valid_gas v1 = mkGas "Air" (14020 / 10000)%R (289660 / 10000)%R)
      by congruence.
    assert (G2 : valid_gas v2
                 = mkGas "Helium" (166700 / 100000)%R (4002602000 / 1000000000)%R)
      by congruence.
    cbn [comp_fraction] in Hf1, Hf2.
    destruct (solver_mixes_as_the_calculator None
                (Some [mkComponent "1"%string (1 / 2)%R;
                       mkComponent "4"%string (1 / 2)%R]) mix
                (set_materialProperties
                   [mkRegion (14020 / 10000)%R (289660 / 10000)%R (Some "1"%string);
                    mkRegion (166700 / 100000)%R (4002602000 / 1000000000)%R
                             (Some "4"%string)]
                   (set_materialFractions (Some [1 / 2; 1 / 2; 1 / 2; 1 / 2]%R)
                      ExactExamples.two_materials))
                [1 / 2; 1 / 2; 1 / 2; 1 / 2]%R 1 E)
      as [cell [Hcell [Hgamma _]]].
    + rewrite <- H1. intros v [<-|[<-|[]]]; [rewrite G1 | rewrite G2]; cbn; lra.
    + reflexivity.
    + rewrite <- H1. reflexivity.
    + rewrite <- H1. constructor; [rewrite G1; now split|].
      constructor; [rewrite G2; now split | constructor].
    + rewrite <- H1. intros [|[|m]] v Hm; cbn in Hm.
      * injection Hm as <-. rewrite Hf1. reflexivity.
      * injection Hm as <-. rewrite Hf2. reflexivity.
      * destruct m; discriminate.
    + exists mix, cell. split; [exact E|]. split; [exact Hcell | exact Hgamma].
Defined.

(** ** The tube of two cells, step by step

    The first step of the shock tube of two cells, evaluated in exact
    arithmetic: the states the theorems on the mixed method, the ghost
    method and the conservation of mass and energy are applied to. *)

Section TubeStart.
Local Open Scope R_scope.

Lemma tube_chosen :
  assign_slabs [ShockTube.driver; ShockTube.driven]
    (tabulate 2
       (fun i => (of_nat i + lit 1 2)
                 * (total_length [ShockTube.driver; ShockTube.driven] / of_nat 2)))
    (of_Z 0) 0
  = Ok [ShockTube.driver; ShockTube.driven].
Proof.
  unfold total_length, tabulate. cbn [seq map fold_left]. run_exact.
  reflexivity.
Qed.

(** The tube as [initialize] leaves it. *)
Lemma tube_initial (method name : string) (s0 : Solver R) :
  initialize (fst (EulerSolver (ShockTube.config method name)))
             [ShockTube.driver; ShockTube.driven] = Ok s0 ->
  nx s0 = 2%nat /\ dx s0 = 1
  /\ U s0 = [2; 0; 2 / 3; 1; 0; 1 / 3] /\ gamma s0 = [4; 4]
  /\ (cfl s0, finalTime s0, t s0, nextXTStore s0) = (4 / 10, 1, 0, 0).
Proof.
  intros H0.
  destruct (initialize_grid _ _ _ H0) as [Hn [Hd _]].
  destruct (initialize_cells _ _ _ H0) as [chosen [Hc [Hg [_ [_ [HU _]]]]]].
  destruct (initialize_keeps _ _ _ H0) as [Hk _].
  change (nx (fst (EulerSolver (ShockTube.config method name)))) with 2%nat
    in Hn, Hd, Hc.
  rewrite tube_chosen in Hc. injection Hc as <-.
  split; [exact Hn|]. split.
  { rewrite Hd. unfold total_length. cbn [fold_left slab_length
      ShockTube.driver ShockTube.driven]. exact_ops. decide_Z. lra. }
  split.
  { rewrite HU. cbn [flat_map app initial_state ShockTube.driver
      ShockTube.driven slab_mw slab_pressure slab_temperature slab_gamma
      Ru EulerSolver fst]. exact_ops.
    repeat (apply (f_equal2 cons); [field|]). reflexivity. }
  split; [exact Hg|].
  injection Hk as -> -> _ -> ->. 
  cbn [cfl finalTime t nextXTStore EulerSolver fst ShockTube.config or_default
       config_cfl config_finalTime]. exact_ops.
  unfold falsy. exact_ops. decide_exact. reflexivity.
Qed.

End TubeStart.

Section TubeFluxes.
Local Open Scope R_scope.

(** [hllcFlux] between two states with the left wave running to the left
    and the contact wave not: the branch of the left star state, in terms of
    the intermediate values of the code. *)
Lemma hllcFlux_star_left
    (UL0 UL1 UL2 UR0 UR1 UR2 gL gR uL pL aL uR pR aR SL SR SStar : R) :
  UL1 / UL0 = uL -> (gL - 1) * (UL2 - 1 / 2 * UL0 * uL * uL) = pL ->
  R_sqrt.sqrt (gL * pL / UL0) = aL ->
  UR1 / UR0 = uR -> (gR - 1) * (UR2 - 1 / 2 * UR0 * uR * uR) = pR ->
  R_sqrt.sqrt (gR * pR / UR0) = aR ->
  Rmin (uL - aL) (uR - aR) = SL -> Rmax (uL + aL) (uR + aR) = SR ->
  (pR - pL + UL0 * uL * (SL - uL) - UR0 * uR * (SR - uR))
  / (UL0 * (SL - uL) - UR0 * (SR - uR)) = SStar ->
  SL < 0 -> 0 <= SStar ->
  hllcFlux (UL0, UL1, UL2) (UR0, UR1, UR2) gL gR
  = (let pStar := pL + UL0 * (SL - uL) * (SStar - uL) in
     let rhoStarL := UL0 * (SL - uL) / (SL - SStar) in
     let EStarL := rhoStarL * (UL2 / UL0 + (SStar - uL) *
                               (SStar + pL / (UL0 * (SL - uL)))) in
     (rhoStarL * SStar, rhoStarL * SStar * SStar + pStar,
      SStar * (EStarL + pStar)),
     Rmax (Rabs SL) (Rabs SR)).
Proof.
  intros HuL HpL HaL HuR HpR HaR HSL HSR HSS Hleft Hstar.
  unfold hllcFlux. exact_ops. cbv zeta.
  rewrite HuL, HpL, HaL, HuR, HpR, HaR, HSL, HSR, HSS.
  rewrite (proj2 (exact_leb_false 0 SL)) by exact Hleft.
  rewrite (proj2 (exact_leb_true 0 SStar)) by exact Hstar.
  reflexivity.
Qed.

Lemma sqrt_of_square (a b : R) : 0 <= b -> a = b * b -> R_sqrt.sqrt a = b.
Proof. intros Hb ->. now apply sqrt_square. Qed.

Lemma Rmin_of (a b c : R) : a = c -> b = c -> Rmin a b = c.
Proof. intros -> ->. unfold Rmin. now destruct (Rle_dec c c). Qed.

Lemma Rmax_of (a b c : R) : a = c -> b = c -> Rmax a b = c.
Proof. intros -> ->. unfold Rmax. now destruct (Rle_dec c c). Qed.

Lemma face_eq (a b c d a' b' c' d' : R) :
  a = a' -> b = b' -> c = c' -> d = d' -> (a, b, c, d) = (a', b', c', d').
Proof. now intros -> -> -> ->. Qed.

(** The three faces of the tube at the start: the walls let nothing
    through, and the pressure difference drives mass and energy to the
    right. *)
Lemma tube_left_wall :
  hllcFlux (2, Ropp 0, 2 / 3) (2, 0, 2 / 3) 4 4 = ((0, 2, 0), 2).
Proof.
  rewrite (hllcFlux_star_left 2 (Ropp 0) (2 / 3) 2 0 (2 / 3) 4 4
             0 2 2 0 2 2 (- 2) 2 0);
    try lra; try (apply sqrt_of_square; lra);
    try (apply Rmin_of; lra); try (apply Rmax_of; lra); try (field; lra).
  cbv zeta.
  rewrite (Rabs_left1 (- 2)), (Rabs_pos_eq 2), Rmax_of with (c := 2) by lra.
  apply face_eq; try field; lra.
Qed.

Lemma tube_right_wall :
  hllcFlux (1, 0, 1 / 3) (1, Ropp 0, 1 / 3) 4 4 = ((0, 1, 0), 2).
Proof.
  rewrite (hllcFlux_star_left 1 0 (1 / 3) 1 (Ropp 0) (1 / 3) 4 4
             0 1 2 0 1 2 (- 2) 2 0);
    try lra; try (apply sqrt_of_square; lra);
    try (apply Rmin_of; lra); try (apply Rmax_of; lra); try (field; lra).
  cbv zeta.
  rewrite (Rabs_left1 (- 2)), (Rabs_pos_eq 2), Rmax_of with (c := 2) by lra.
  apply face_eq; try field; lra.
Qed.

Lemma tube_middle :
  hllcFlux (2, 0, 2 / 3) (1, 0, 1 / 3) 4 4
  = ((4 / 13, 18 / 13, 4 / 13), 2).
Proof.
  rewrite (hllcFlux_star_left 2 0 (2 / 3) 1 0 (1 / 3) 4 4
             0 2 2 0 1 2 (- 2) 2 (1 / 6));
    try lra; try (apply sqrt_of_square; lra);
    try (apply Rmin_of; lra); try (apply Rmax_of; lra); try (field; lra).
  cbv zeta.
  rewrite (Rabs_left1 (- 2)), (Rabs_pos_eq 2), Rmax_of with (c := 2) by lra.
  apply face_eq; try field; lra.
Qed.

(** [computeFluxes] on the tube at the start. *)
Lemma tube_fluxes (s : Solver R) :
  nx s = 2%nat -> U s = [2; 0; 2 / 3; 1; 0; 1 / 3] -> gamma s = [4; 4] ->
  computeFluxes s
  = (set_flux [0; 2; 0; 4 / 13; 18 / 13; 4 / 13; 0; 1; 0] s, 2).
Proof.
  intros Hn HU Hg. unfold computeFluxes. rewrite Hn.
  unfold tabulate. cbn [Nat.add seq map].
  unfold interface_flux, interface_states. rewrite Hn, HU, Hg.
  cbn [Nat.eqb Nat.sub Nat.mul Nat.add get nth]. exact_ops.
  rewrite tube_left_wall, tube_middle, tube_right_wall.
  cbn [flat_map app fst snd fold_left]. exact_ops.
  rewrite (Rmax_right 0 2) by lra. rewrite !(Rmax_right 2 2) by lra.
  reflexivity.
Qed.

End TubeFluxes.

Section TubeStep.
Local Open Scope R_scope.

(** A solver of two cells is positive when the two cells are. *)
Lemma positive_two_cells (a : Solver R) (r0 m0 e0 r1 m1 e1 g0 g1 : R) :
  nx a = 2%nat -> U a = [r0; m0; e0; r1; m1; e1] -> gamma a = [g0; g1] ->
  0 < r0 -> 0 < (g0 - 1) * (e0 - 1 / 2 * r0 * (m0 / r0) * (m0 / r0)) -> 1 < g0 ->
  0 < r1 -> 0 < (g1 - 1) * (e1 - 1 / 2 * r1 * (m1 / r1) * (m1 / r1)) -> 1 < g1 ->
  positive a.
Proof.
  intros Hn HU Hg Hr0 Hp0 Hg0 Hr1 Hp1 Hg1 i Hi.
  unfold pressure_of, primitives_of_cell. rewrite HU, Hg. cbn [fst snd].
  rewrite Hn in Hi.
  destruct i as [|[|i]]; [| |lia];
    cbn [Nat.mul Nat.add get nth]; exact_ops; repeat split; assumption.
Qed.

(** The predictor of the first RK2 step of the tube: mass, momentum and
    energy have moved from the left cell to the right one. *)
Lemma tube_predictor (s : Solver R) :
  nx s = 2%nat -> dx s = 1 ->
  U s = [2; 0; 2 / 3; 1; 0; 1 / 3] -> gamma s = [4; 4] ->
  (cfl s, finalTime s, t s, nextXTStore s) = (4 / 10, 1, 0, 0) ->
  dt (begin_step s) = 1 / 5
  /\ U (take_predictor (save_state (forward_euler (begin_step s))))
     = [126 / 65; 8 / 65; 118 / 195; 69 / 65; 1 / 13; 77 / 195].
Proof.
  intros Hn Hd HU Hg Hk. injection Hk as Hc Hf Ht Hx.
  assert (Hdt : dt (begin_step s) = 1 / 5).
  { unfold begin_step. rewrite (tube_fluxes s Hn HU Hg). cbn [fst snd dt set_dt].
    unfold calculateTimeStep.
    cbn [cfl dx t finalTime nextXTStore set_flux].
    rewrite Hc, Hd, Hf, Ht, Hx. exact_ops. decide_exact. field. }
  split; [exact Hdt|].
  unfold take_predictor, save_state, forward_euler.
  cbn [U Uk nx set_U set_Uk set_Un].
  rewrite updateConservative_flat, Hdt.
  unfold begin_step. rewrite (tube_fluxes s Hn HU Hg).
  cbn [fst snd nx dx U flux set_dt set_flux]. rewrite Hn, Hd, HU.
  unfold tabulate. cbn [Nat.mul Nat.add seq map get nth]. exact_ops.
  repeat (apply (f_equal2 cons); [field|]). reflexivity.
Qed.

End TubeStep.

Section TubeWitnesses.
Local Open Scope R_scope.

(** [initialize] leaves the centers at the midpoints of the cells. *)
Lemma initialize_centered (s s' : Solver R) (slabs : list (Slab R)) :
  initialize s slabs = Ok s' -> centered s'.
Proof.
  intros E. destruct (initialize_grid s s' slabs E) as [Hn [_ Hx]].
  intros i Hi. rewrite Hx, get_tabulate by (rewrite <- Hn; exact Hi).
  exact_ops. now rewrite <- INR_IZR_INZ.
Qed.

Lemma ghost_refines_sharp_witness :
  exists s0 b,
    initialize (fst (EulerSolver (ShockTube.fine "ghost" "RK2")))
               [ShockTube.driver; ShockTube.driven] = Ok s0
    /\ updateGasProperties (with_method "ghost" s0) = Ok b
    /\ In 2%nat (interfaceCells b) /\ In 5%nat (interfaceCells b)
    /\ ~ In 1%nat (interfaceCells b) /\ ~ In 6%nat (interfaceCells b).
Proof.
  destruct (initialize_nonempty
              (fst (EulerSolver (ShockTube.fine "ghost" "RK2")))
              ShockTube.driver [ShockTube.driven]) as [s0 H0].
  pose proof (initialize_centered _ _ _ H0) as Hc.
  destruct (initialize_grid _ _ _ H0) as [Hn [Hd _]].
  pose proof (initialize_tracers _ _ _ H0) as Ht.
  destruct ghost_refines_sharp as [_ [_ Hg]].
  specialize (Hg s0 Hc).
  destruct (updateGasProperties (with_method "ghost" s0)) as [b|e] eqn:Eg.
  - exists s0, b. split; [exact H0|]. split; [exact Eg|].
    assert (Hd' : dx s0 = 1 / 4).
    { rewrite Hd. unfold total_length. cbn. exact_ops. lra. }
    assert (Ht' : tracers s0 = [mkTracer (0 + 1) [mkSample 0 (0 + 1)]]).
    { rewrite Ht. reflexivity. }
    assert (Hnx : nx s0 = 8%nat) by (rewrite Hn; reflexivity).
    assert (Hin : forall i, (2 <= i <= 5)%nat -> In i (interfaceCells b)).
    { intros i Hi. apply Hg. split; [lia|].
      exists (mkTracer (0 + 1) [mkSample 0 (0 + 1)]).
      split; [rewrite Ht'; now left|].
      unfold distance_to_cell. rewrite Hd'. cbn [tracer_x].
      pose proof (le_INR 2 i ltac:(lia)) as Hlo.
      pose proof (le_INR i 5 ltac:(lia)) as Hhi.
      cbn [INR] in Hlo, Hhi. rewrite !Rmax_lt_iff. lra. }
    assert (Hout : forall i, (i <= 1 \/ 6 <= i)%nat -> ~ In i (interfaceCells b)).
    { intros i Hi Hin'. apply Hg in Hin'.
      destruct Hin' as [_ [tracer [Hin' Hdist]]].
      rewrite Ht' in Hin'. destruct Hin' as [<-|[]].
      unfold distance_to_cell in Hdist. rewrite Hd' in Hdist.
      cbn [tracer_x] in Hdist. rewrite !Rmax_lt_iff in Hdist.
      destruct Hi as [Hi|Hi].
      - apply (le_INR i 1) in Hi. cbn [INR] in Hi. lra.
      - apply (le_INR 6 i) in Hi. cbn [INR] in Hi. lra. }
    repeat split; [apply Hin; lia | apply Hin; lia | apply Hout; lia
                  | apply Hout; lia].
  - exfalso. destruct Hg as [Hg _].
    exact (proj1 (initialize_ready _ _ _ _ H0) Hg).
Defined.

(** No step writes the table of the material fluxes. *)
Lemma steps_material_flux (n : nat) (s s' : Solver R) :
  steps n s = Ok s' -> materialFlux s' = materialFlux s.
Proof.
  revert s. induction n as [|n IH]; intros s; cbn [steps].
  - intros E. now injection E as <-.
  - assert (E : step s = (s1 <- postStep (stages s) ;; Ok (s1, dt s1)))
      by (unfold step, stages; destruct (integrator s); reflexivity).
    rewrite E. destruct (postStep (stages s)) as [s1|e] eqn:E1; [|discriminate].
    cbn [bind fst]. intros Hn. rewrite (IH _ Hn).
    pose proof (postStep_buffers _ _ E1) as Hb. unfold buffers in Hb.
    pose proof (stages_beside_buffers s) as Hs. unfold beside_buffers in Hs.
    clear E E1. generalize dependent (stages s). intros a Hb Hs. congruence.
Qed.

(** The tables [initialize] allocates under the mixed method. *)
Lemma initialize_mixed_tables (s s' : Solver R) (slabs : list (Slab R)) :
  interfaceMethod s = "mixed"%string -> initialize s slabs = Ok s' ->
  numMaterials s' = length slabs
  /\ materialFlux s' <> None
  /\ exists fractions,
       materialFractions s' = Some fractions
       /\ length fractions = (nx s' * length slabs)%nat.
Proof.
  intros Hm. unfold initialize.
  match goal with
  | |- context [assign_slabs ?l ?c ?p ?k] =>
      destruct (assign_slabs l c p k) as [chosen|e]; [|discriminate]
  end.
  cbn [bind]. intros E. injection E as <-. unfold initialize_mixed.
  cbn [interfaceMethod set_tracers set_regions set_U set_gasId set_mw set_gamma
       set_x set_dx]. rewrite Hm. cbn [String.eqb].
  change (String.eqb "mixed" "mixed") with true. cbv iota.
  split; [reflexivity|]. split; [discriminate|].
  eexists. split; [reflexivity|]. now rewrite tabulate2_length.
Qed.

Lemma advected_rows_normalized_witness :
  exists s0 s1 s' fractions',
    initialize (fst (EulerSolver (ShockTube.config "mixed" "RK2")))
               [ShockTube.driver; ShockTube.driven] = Ok s0
    /\ steps 1 s0 = Ok s1
    /\ advectMaterialFractions s1 (dt s1) = Ok s'
    /\ materialFractions s' = Some fractions'
    /\ sum (row_of 2 fractions' 0) = 1
    /\ sum (row_of 2 fractions' 1) = 1.
Proof.
  destruct (initialize_nonempty
              (fst (EulerSolver (ShockTube.config "mixed" "RK2")))
              ShockTube.driver [ShockTube.driven]) as [s0 H0].
  destruct (steps_ok 1 s0 (initialize_ready _ _ _ _ H0)) as [s1 [H1 _]].
  destruct (initialize_mixed_tables
              (fst (EulerSolver (ShockTube.config "mixed" "RK2"))) s0
              [ShockTube.driver; ShockTube.driven] eq_refl H0)
    as [Hnum [Hflux [fractions [Hfr Hlen]]]].
  pose proof (initialize_method _ _ _ H0) as Hmethod.
  destruct (steps_tables _ _ _ H1) as [Htab Hnx].
  unfold tables in Htab. injection Htab as Hm1 _ Hn1 Hf1 _.
  pose proof (proj1 (tube_initial _ _ _ H0)) as Hnx0.
  cbn [length] in Hnum, Hlen.
  destruct (advected_rows_normalized s1 fractions (dt s1))
    as [s' [fractions' [Hs' [Hfr' Hrows]]]].
  - now rewrite Hm1, Hmethod.
  - now rewrite Hf1.
  - now rewrite (steps_material_flux _ _ _ H1).
  - rewrite Hn1, Hnum. lia.
  - rewrite Hnx, Hn1, Hnum. exact Hlen.
  - exists s0, s1, s', fractions'.
    split; [exact H0|]. split; [exact H1|]. split; [exact Hs'|].
    split; [exact Hfr'|].
    rewrite Hn1, Hnum, Hnx, Hnx0 in Hrows. split.
    + apply (Hrows 0%nat). lia.
    + apply (Hrows 1%nat). lia.
Defined.

Lemma SSP_step_is_SSPRK43_witness :
  exists s0 s',
    initialize (fst (EulerSolver (ShockTube.config "sharp" "SSP")))
               [ShockTube.driver; ShockTube.driven] = Ok s0
    /\ L s0 (U s0) = [- 4 / 13; 8 / 13; - 4 / 13; 4 / 13; 5 / 13; 4 / 13]
    /\ SSPIntegrator_step s0 = Ok (s', dt s')
    /\ U s' = SSPRK43 s0 (dt s') (U s0)
    /\ Un s' = U s0
    /\ beside_buffers (SSP_stages s0) = beside_buffers s0.
Proof.
  destruct (initialize_nonempty
              (fst (EulerSolver (ShockTube.config "sharp" "SSP")))
              ShockTube.driver [ShockTube.driven]) as [s0 H0].
  destruct (tube_initial _ _ _ H0) as [Hn [Hd [HU [Hg _]]]].
  destruct (SSP_step_is_SSPRK43 s0)
    as [s' [Hs' [_ [HU' [HUn [_ [Hframe _]]]]]]].
  - exact (proj1 (initialize_buffer _ _ _ H0)).
  - exact (initialize_ready _ _ _ _ H0).
  - exists s0, s'. split; [exact H0|]. split.
    { unfold L, refresh_fluxes.
      rewrite (tube_fluxes (set_U (U s0) s0) Hn HU Hg).
      cbn [fst flux set_flux]. rewrite Hn, Hd.
      unfold tabulate. cbn [Nat.mul Nat.add seq map get nth]. exact_ops.
      repeat (apply (f_equal2 cons); [field|]). reflexivity. }
    split; [exact Hs'|]. split; [exact HU'|].
    split; [exact HUn | exact Hframe].
Defined.

Lemma mass_and_energy_conserved_witness :
  exists s0 s',
    initialize (fst (EulerSolver (ShockTube.config "sharp" "RK2")))
               [ShockTube.driver; ShockTube.driven] = Ok s0
    /\ U s0 = [2; 0; 2 / 3; 1; 0; 1 / 3]
    /\ U (take_predictor (save_state (forward_euler (begin_step s0))))
       = [126 / 65; 8 / 65; 118 / 195; 69 / 65; 1 / 13; 77 / 195]
    /\ positive_steps 1 s0
    /\ steps 1 s0 = Ok s'
    /\ mass s' = 3 /\ energy s' = 1
    /\ forall snap, In snap (xtData s') -> sum (snap_rho snap) = 3.
Proof.
  destruct (proj2 (proj2 mass_and_energy_conserved)
              (ShockTube.config "sharp" "RK2") ShockTube.driver
              [ShockTube.driven]) as [s0 [H0 [_ Hrun]]].
  destruct (tube_initial _ _ _ H0) as [Hn [Hd [HU [Hg Hk]]]].
  destruct (tube_predictor s0 Hn Hd HU Hg Hk) as [_ Hpred].
  destruct (initialize_keeps _ _ _ H0) as [Hkeep _].
  assert (Hint : integrator s0 = RK2Integrator)
    by (injection Hkeep as _ _ -> _ _ _; reflexivity).
  assert (Hpos : positive_steps 1 s0).
  { cbn [positive_steps]. split.
    - intros a Hin. unfold flux_states in Hin. rewrite Hint in Hin.
      destruct Hin as [<- | [<- | []]].
      + apply (positive_two_cells s0 2 0 (2 / 3) 1 0 (1 / 3) 4 4 Hn HU Hg); lra.
      + apply (positive_two_cells _ (126 / 65) (8 / 65) (118 / 195) (69 / 65)
                 (1 / 13) (77 / 195) 4 4);
          [exact Hn | exact Hpred | exact Hg | lra | | lra | lra | | lra].
        * replace ((4 - 1) * (118 / 195 - 1 / 2 * (126 / 65) * (8 / 65 / (126 / 65))
                              * (8 / 65 / (126 / 65))))
            with (2462 / 1365) by field. lra.
        * replace ((4 - 1) * (77 / 195 - 1 / 2 * (69 / 65) * (1 / 13 / (69 / 65))
                              * (1 / 13 / (69 / 65))))
            with (3517 / 2990) by field. lra.
    - destruct (step s0) as [[s1 h]|e]; exact I. }
  destruct (Hrun 1%nat Hpos) as [s' [Hs' [Hm [He Hx]]]].
  assert (Hm0 : mass s0 = 3).
  { unfold mass, total, sum, tabulate. rewrite Hn, HU.
    cbn [seq map Nat.mul Nat.add get nth fold_left]. exact_ops. lra. }
  assert (He0 : energy s0 = 1).
  { unfold energy, total, sum, tabulate. rewrite Hn, HU.
    cbn [seq map Nat.mul Nat.add get nth fold_left]. exact_ops. lra. }
  exists s0, s'. split; [exact H0|]. split; [exact HU|]. split; [exact Hpred|].
  split; [exact Hpos|]. split; [exact Hs'|].
  split; [congruence|]. split; [congruence|].
  intros snap Hin. rewrite <- Hm0. now apply Hx.
Defined.

End TubeWitnesses.

(** The same first step in binary64: the gas of both cells moves to the
    right, the step leaves the table of the fractions as it was, and a call
    of [advectMaterialFractions] on the state it reaches carries material 0
    into the right cell; both rows of the new table have their entries
    between 0 and 1 and their sum within [1e-9] of 1. *)
Lemma tube_advects_in_binary64 :
  outcome_map
    (fun r : Solver float * Solver float * Solver float =>
       let '(s0, s1, s') := r in
       let table s := match materialFractions s with
                      | Some fractions => fractions
                      | None => []
                      end in
       (map (fun v => F64.number.(ltb) (F64.number.(of_Z) 0) v) (u s1),
        map (fun j => PrimFloat.eqb (get (table s1) j) (get (table s0) j))
            (seq 0 4),
        map (fun j => PrimFloat.eqb (get (table s') j) (get (table s1) j))
            (seq 0 4),
        map (fun v => F64.number.(leb) (F64.number.(of_Z) 0) v
                      && F64.number.(leb) v (F64.number.(of_Z) 1))
            (table s'),
        map (fun i => F64.number.(leb)
                        (F64.number.(abs)
                           (F64.number.(sub) (sum (row_of 2 (table s') i))
                                             (F64.number.(of_Z) 1)))
                        (lit 1 1000000000))
            (seq 0 2)))
    (s0 <- initialize (fst (EulerSolver (ShockTube64.config "mixed" "RK2")))
             [ShockTube64.driver; ShockTube64.driven] ;;
     s1 <- steps 1 s0 ;;
     s' <- advectMaterialFractions s1 (dt s1) ;;
     Ok (s0, s1, s'))
  = Ok ([true; true], repeat true 4, [true; true; false; false],
        repeat true 4, [true; true]).
Proof. vm_compute. reflexivity. Qed.
